(** * temporal_tables: system-versioned tables for PostgreSQL

    A shallow embedding of [temporal_tables.c] (the stack of temporal
    contexts and its transaction callbacks) and of [versioning.c] (the
    versioning trigger, its metadata cache and the period arithmetic),
    followed by the properties proved about them.

    Conventions.
    - C pointers into palloc'd memory are addresses ([positive]) into a
      finite map; a dereference of an address that is not allocated, or
      [linitial] of an empty list, has no result ([None]).
    - [ereport(ERROR, ...)] aborts the call with an [Error] value; the
      process-local state (static variables, the hash table living in
      [TopMemoryContext]) keeps whatever was written before the error.
    - Functions of PostgreSQL itself that the extension calls are written
      out in the sections named "Host"; they follow PostgreSQL's sources
      and documentation, not this repository. *)

From Stdlib Require Import ZArith Floats.
From stdpp Require Import base option list gmap strings.

Local Open Scope Z_scope.

(* ===================================================================== *)
(** * Host: identifiers and machine integers *)

Definition Oid := Z.
Definition TransactionId := Z.
Definition SubTransactionId := Z.

(** access/xact.h *)
Definition InvalidSubTransactionId : SubTransactionId := 0.
Definition TopSubTransactionId : SubTransactionId := 1.

Definition INT64_MIN : Z := - 2 ^ 63.
Definition INT64_MAX : Z := 2 ^ 63 - 1.

Definition is_int64 (z : Z) : Prop := INT64_MIN <= z <= INT64_MAX.

(** Two's-complement wrap-around of a 64-bit signed result.  PostgreSQL and
    the extensions built with its PGXS flags are compiled with [-fwrapv], so
    signed overflow wraps instead of being undefined. *)
Definition wrap_int64 (z : Z) : Z := (z + 2 ^ 63) mod 2 ^ 64 - 2 ^ 63.

(* ===================================================================== *)
(** * Host: the two representations of [TimestampTz]

    [TimestampTz] is a typedef chosen when the server is built: [int64]
    microseconds (the only choice since PostgreSQL 10, the default before),
    or [double] seconds.  The read-only configuration option
    ["integer_datetimes"] reports the choice.  The extension's code is the
    same text for both; the casts it writes, [(int64) timestamp] and
    [(float8) timestamp], are conversions in one build and no-ops in the
    other. *)

Definition float8 := float.

(** [1E-06] and [DBL_MAX] as binary64 values. *)
Definition float8_1E_06 : float8 := 0x1.0c6f7a0b5ed8dp-20%float.
Definition DBL_MAX : float8 := 0x1.fffffffffffffp+1023%float.

(** C conversion [int64 -> double]: round to nearest, ties to even. *)
Definition float8_of_int64 (z : Z) : float8 :=
  SF2Prim (binary_normalize prec emax z 0 false).

(** C conversion [double -> int64]: truncate toward zero; undefined ([None])
    for NaN, infinities and values outside the range of [int64]. *)
Definition int64_of_float8 (f : float8) : option Z :=
  match Prim2SF f with
  | S754_zero _ => Some 0
  | S754_finite s m e =>
      let a := if 0 <=? e then Z.pos m * 2 ^ e else Z.pos m / 2 ^ (- e) in
      let z := if s then - a else a in
      if (INT64_MIN <=? z) && (z <=? INT64_MAX) then Some z else None
  | S754_infinity _ | S754_nan => None
  end.

(** [nextafter(x, y)] of the C library. *)
Definition nextafter (x y : float8) : float8 :=
  if PrimFloat.is_nan x || PrimFloat.is_nan y then PrimFloat.nan
  else if PrimFloat.eqb x y then y
  else if PrimFloat.ltb x y then PrimFloat.next_up x
  else PrimFloat.next_down x.

Class TimestampRep (T : Type) := {
  (** [(TimestampTz) z] for an [int64] [z] *)
  ts_of_int64 : Z -> T;
  (** [(int64) t] *)
  ts_to_int64 : T -> option Z;
  (** [(TimestampTz) f] for a [double] [f] *)
  ts_of_float8 : float8 -> option T;
  (** [(float8) t] *)
  ts_to_float8 : T -> float8;
  (** [timestamp_cmp_internal], as a three-way comparison *)
  timestamp_cmp_internal : T -> T -> comparison;
  (** what [GetConfigOption("integer_datetimes", ...)] returns *)
  integer_datetimes_option : string
}.

(** The build with [int64] timestamps.  A timestamp is a [Z] in the range of
    [int64]; [timestamp_cmp_internal] is integer comparison. *)
#[export] Instance int64_timestamps : TimestampRep Z := {|
  ts_of_int64 := fun z => z;
  ts_to_int64 := fun t => Some t;
  ts_of_float8 := int64_of_float8;
  ts_to_float8 := float8_of_int64;
  timestamp_cmp_internal := Z.compare;
  integer_datetimes_option := "on"
|}.

(** The build with [double] timestamps.  [timestamp_cmp_internal] orders NaN
    above every other value, and NaNs equal to each other. *)
Definition float8_timestamp_cmp (dt1 dt2 : float8) : comparison :=
  if PrimFloat.is_nan dt1 then (if PrimFloat.is_nan dt2 then Eq else Gt)
  else if PrimFloat.is_nan dt2 then Lt
  else if PrimFloat.ltb dt2 dt1 then Gt
  else if PrimFloat.ltb dt1 dt2 then Lt
  else Eq.

#[export] Instance float8_timestamps : TimestampRep float8 := {|
  ts_of_int64 := float8_of_int64;
  ts_to_int64 := int64_of_float8;
  ts_of_float8 := fun f => Some f;
  ts_to_float8 := fun t => t;
  timestamp_cmp_internal := float8_timestamp_cmp;
  integer_datetimes_option := "off"
|}.

(* ===================================================================== *)
(** * temporal_tables.h, temporal_tables.c: the stack of temporal contexts *)

Inductive SystemTimeMode :=
  | CurrentTransactionStartTimestamp   (* use CURRENT_TIMESTAMP *)
  | UserDefined.                       (* use the system_time field *)

(** access/xact.h *)
Inductive XactEvent :=
  | XACT_EVENT_COMMIT | XACT_EVENT_PARALLEL_COMMIT
  | XACT_EVENT_ABORT | XACT_EVENT_PARALLEL_ABORT
  | XACT_EVENT_PREPARE | XACT_EVENT_PRE_COMMIT
  | XACT_EVENT_PARALLEL_PRE_COMMIT | XACT_EVENT_PRE_PREPARE.

Inductive SubXactEvent :=
  | SUBXACT_EVENT_START_SUB | SUBXACT_EVENT_COMMIT_SUB
  | SUBXACT_EVENT_ABORT_SUB | SUBXACT_EVENT_PRE_COMMIT_SUB.

#[export] Instance SystemTimeMode_eq_dec : EqDecision SystemTimeMode.
Proof. solve_decision. Defined.
#[export] Instance XactEvent_eq_dec : EqDecision XactEvent.
Proof. solve_decision. Defined.
#[export] Instance SubXactEvent_eq_dec : EqDecision SubXactEvent.
Proof. solve_decision. Defined.

(** Address of a palloc'd [TemporalContext]. *)
Definition ctx_ptr := positive.

Section TemporalContexts.
Context {T : Type} `{!TimestampRep T}.

Record TemporalContext := mkTemporalContext {
  subid : SubTransactionId;            (* the subtransaction it was created in *)
  system_time_mode : SystemTimeMode;
  system_time : T
}.

Definition set_subid (s : SubTransactionId) (c : TemporalContext) :=
  mkTemporalContext s (system_time_mode c) (system_time c).
Definition set_system_time_mode (m : SystemTimeMode) (c : TemporalContext) :=
  mkTemporalContext (subid c) m (system_time c).
Definition set_system_time_field (t : T) (c : TemporalContext) :=
  mkTemporalContext (subid c) (system_time_mode c) t.

(** The static [temporal_contexts] (a [List *] of pointers, top first) and
    the memory its cells point into. *)
Record ContextStore := mkContextStore {
  temporal_contexts : list ctx_ptr;
  ctx_mem : gmap ctx_ptr TemporalContext
}.

(** nodes/pg_list.h *)
Definition linitial (l : list ctx_ptr) : option ctx_ptr := l !! 0%nat.
Definition lsecond (l : list ctx_ptr) : option ctx_ptr := l !! 1%nat.
Definition list_delete_first (l : list ctx_ptr) : list ctx_ptr := tail l.
Definition lcons (p : ctx_ptr) (l : list ctx_ptr) : list ctx_ptr := p :: l.

(** [palloc]: some address that is not allocated. *)
Definition palloc_ctx (mem : gmap ctx_ptr TemporalContext) : ctx_ptr :=
  fresh (dom mem).

(** [_PG_init]: the stack holds one context, zero-filled by [palloc0] and
    tagged [InvalidSubTransactionId]. *)
Definition PG_init : ContextStore :=
  let ctx := palloc_ctx ∅ in
  let c := mkTemporalContext InvalidSubTransactionId
             CurrentTransactionStartTimestamp (ts_of_int64 0) in
  mkContextStore [ctx] {[ ctx := c ]}.

(** [memcpy(dest, src, sizeof(TemporalContext)); dest->subid = subid;] *)
Definition copy_temporal_context (dest src : ctx_ptr) (sub : SubTransactionId)
    (mem : gmap ctx_ptr TemporalContext) : option (gmap ctx_ptr TemporalContext) :=
  c ← mem !! src;
  _ ← mem !! dest;
  Some (<[dest := set_subid sub c]> mem).

Definition push_temporal_context (sub : SubTransactionId) (st : ContextStore)
    : option (ctx_ptr * ContextStore) :=
  let ctx := palloc_ctx (ctx_mem st) in
  top ← linitial (temporal_contexts st);
  c ← ctx_mem st !! top;
  (* the new cell is written in full by the copy *)
  let mem := <[ctx := set_subid sub c]> (ctx_mem st) in
  Some (ctx, mkContextStore (lcons ctx (temporal_contexts st)) mem).

(** Callback on a transaction commit or abort. The [Assert] of the source
    is compiled out of production builds and is not a check here. *)
Definition temporal_tables_xact_callback (event : XactEvent) (st : ContextStore)
    : option ContextStore :=
  if bool_decide (event = XACT_EVENT_COMMIT) || bool_decide (event = XACT_EVENT_ABORT)
  then
    ctx ← linitial (temporal_contexts st);
    c ← ctx_mem st !! ctx;
    if negb (subid c =? InvalidSubTransactionId) then
      let stack := list_delete_first (temporal_contexts st) in
      if bool_decide (event = XACT_EVENT_COMMIT) then
        top_ctx ← linitial stack;
        mem ← copy_temporal_context top_ctx ctx InvalidSubTransactionId (ctx_mem st);
        Some (mkContextStore stack mem)
      else Some (mkContextStore stack (ctx_mem st))
    else Some st
  else Some st.

(** Callback on a subtransaction commit or abort.  [cur] is what
    [GetCurrentSubTransactionId()] returns during the call. *)
Definition temporal_tables_subxact_callback (event : SubXactEvent)
    (mySubid parentSubid : SubTransactionId) (cur : SubTransactionId)
    (st : ContextStore) : option ContextStore :=
  if bool_decide (event = SUBXACT_EVENT_COMMIT_SUB)
     || bool_decide (event = SUBXACT_EVENT_ABORT_SUB)
  then
    ctx ← linitial (temporal_contexts st);
    c ← ctx_mem st !! ctx;
    if subid c =? cur then
      if bool_decide (event = SUBXACT_EVENT_ABORT_SUB) then
        Some (mkContextStore (list_delete_first (temporal_contexts st))
                             (delete ctx (ctx_mem st)))       (* pfree(ctx) *)
      else
        parent_ctx ← lsecond (temporal_contexts st);
        pc ← ctx_mem st !! parent_ctx;
        if negb (subid pc =? parentSubid) then
          Some (mkContextStore (temporal_contexts st)
                               (<[ctx := set_subid parentSubid c]> (ctx_mem st)))
        else
          mem ← copy_temporal_context parent_ctx ctx parentSubid (ctx_mem st);
          Some (mkContextStore (list_delete_first (temporal_contexts st))
                               (delete ctx mem))              (* pfree(ctx) *)
    else Some st
  else Some st.

Definition get_current_temporal_context (will_modify : bool)
    (cur : SubTransactionId) (st : ContextStore)
    : option (ctx_ptr * ContextStore) :=
  ctx ← linitial (temporal_contexts st);
  if negb will_modify then Some (ctx, st)
  else
    c ← ctx_mem st !! ctx;
    if subid c =? cur then Some (ctx, st)
    else push_temporal_context cur st.

(** versioning.c, [set_system_time]: [arg] is [None] for an SQL NULL. *)
Definition set_system_time (arg : option T) (cur : SubTransactionId)
    (st : ContextStore) : option ContextStore :=
  '(ctx, st1) ← get_current_temporal_context true cur st;
  c ← ctx_mem st1 !! ctx;
  match arg with
  | None =>
      Some (mkContextStore (temporal_contexts st1)
              (<[ctx := set_system_time_mode CurrentTransactionStartTimestamp c]>
                 (ctx_mem st1)))
  | Some ts =>
      Some (mkContextStore (temporal_contexts st1)
              (<[ctx := set_system_time_field ts (set_system_time_mode UserDefined c)]>
                 (ctx_mem st1)))
  end.

(** versioning.c, [get_system_time]: [xact_start] is what
    [GetCurrentTransactionStartTimestamp()] returns. *)
Definition get_system_time (xact_start : T) (cur : SubTransactionId)
    (st : ContextStore) : option T :=
  '(ctx, _) ← get_current_temporal_context false cur st;
  c ← ctx_mem st !! ctx;
  match system_time_mode c with
  | CurrentTransactionStartTimestamp => Some xact_start
  | UserDefined => Some (system_time c)
  end.

End TemporalContexts.

Arguments TemporalContext T : clear implicits.
Arguments ContextStore T : clear implicits.

(* ===================================================================== *)
(** * Host: the transaction manager, as seen by the callbacks

    PostgreSQL keeps a chain of nested (sub)transactions, innermost first;
    the chain is empty between transactions.  A top-level transaction runs
    at [TopSubTransactionId]; every subtransaction gets an identifier that
    no open level carries.  The callbacks run while the ending level is still
    the current one.  A top-level COMMIT or ROLLBACK ends the open
    subtransactions one by one before the transaction itself. *)

Section TransactionManager.
Context {T : Type} `{!TimestampRep T}.

Inductive TxEvent :=
  | EvBegin                                  (* BEGIN *)
  | EvSubBegin (s : SubTransactionId)        (* SAVEPOINT, PL/pgSQL block *)
  | EvSetSystemTime (arg : option T)         (* SELECT set_system_time(arg) *)
  | EvSubCommit                              (* RELEASE SAVEPOINT *)
  | EvSubAbort                               (* ROLLBACK TO SAVEPOINT *)
  | EvCommit
  | EvAbort.

(** What the transaction manager allows, and the chain afterwards. *)
Definition tm_step (chain : list SubTransactionId) (ev : TxEvent)
    : option (list SubTransactionId) :=
  match ev, chain with
  | EvBegin, [] => Some [TopSubTransactionId]
  | EvSubBegin s, _ :: _ =>
      if bool_decide (s ∉ chain) && negb (s =? InvalidSubTransactionId)
      then Some (s :: chain) else None
  | EvSetSystemTime _, _ :: _ => Some chain
  | EvSubCommit, _ :: p :: rest => Some (p :: rest)
  | EvSubAbort, _ :: p :: rest => Some (p :: rest)
  | EvCommit, [_] => Some []
  | EvAbort, [_] => Some []
  | _, _ => None
  end.

Fixpoint tm_run (chain : list SubTransactionId) (tr : list TxEvent)
    : option (list SubTransactionId) :=
  match tr with
  | [] => Some chain
  | ev :: tr' => chain' ← tm_step chain ev; tm_run chain' tr'
  end.

(** What the extension's code does at an event the manager allows. *)
Definition code_step (chain : list SubTransactionId) (ev : TxEvent)
    (st : ContextStore T) : option (ContextStore T) :=
  match ev, chain with
  | EvBegin, _ => Some st
  | EvSubBegin s, p :: _ =>
      temporal_tables_subxact_callback SUBXACT_EVENT_START_SUB s p s st
  | EvSetSystemTime arg, cur :: _ => set_system_time arg cur st
  | EvSubCommit, s :: p :: _ =>
      temporal_tables_subxact_callback SUBXACT_EVENT_COMMIT_SUB s p s st
  | EvSubAbort, s :: p :: _ =>
      temporal_tables_subxact_callback SUBXACT_EVENT_ABORT_SUB s p s st
  | EvCommit, _ => temporal_tables_xact_callback XACT_EVENT_COMMIT st
  | EvAbort, _ => temporal_tables_xact_callback XACT_EVENT_ABORT st
  | _, _ => None
  end.

Fixpoint code_run (chain : list SubTransactionId) (tr : list TxEvent)
    (st : ContextStore T) : option (list SubTransactionId * ContextStore T) :=
  match tr with
  | [] => Some (chain, st)
  | ev :: tr' =>
      st' ← code_step chain ev st;
      chain' ← tm_step chain ev;
      code_run chain' tr' st'
  end.

(** What a read-only caller sees: [Some t] for an explicit time [t], [None]
    for the transaction start time. *)
Definition context_view (c : TemporalContext T) : option T :=
  match system_time_mode c with
  | CurrentTransactionStartTimestamp => None
  | UserDefined => Some (system_time c)
  end.

Definition visible_context (cur : SubTransactionId) (st : ContextStore T)
    : option (TemporalContext T) :=
  '(ctx, _) ← get_current_temporal_context false cur st;
  ctx_mem st !! ctx.

(** ** The nesting semantics of the specification

    One setting per open level, innermost first, and the session's root
    setting.  A level starts with its parent's setting; a set changes the
    innermost level; a commit hands the setting to the parent (the root for
    the outermost level); an abort drops it. *)
Record SpecContexts := mkSpecContexts {
  spec_root : option T;
  spec_levels : list (option T)
}.

Definition spec_visible (sp : SpecContexts) : option T :=
  match spec_levels sp with
  | v :: _ => v
  | [] => spec_root sp
  end.

Definition spec_step (sp : SpecContexts) (ev : TxEvent) : SpecContexts :=
  match ev, spec_levels sp with
  | EvBegin, _ => mkSpecContexts (spec_root sp) [spec_root sp]
  | EvSubBegin _, lv => mkSpecContexts (spec_root sp) (spec_visible sp :: lv)
  | EvSetSystemTime arg, _ :: lv => mkSpecContexts (spec_root sp) (arg :: lv)
  | EvSubCommit, v :: _ :: lv => mkSpecContexts (spec_root sp) (v :: lv)
  | EvSubAbort, _ :: lv => mkSpecContexts (spec_root sp) lv
  | EvCommit, v :: _ => mkSpecContexts v []
  | EvAbort, _ => mkSpecContexts (spec_root sp) []
  | _, _ => sp
  end.

Definition spec_run (sp : SpecContexts) (tr : list TxEvent) : SpecContexts :=
  foldl spec_step sp tr.

Definition spec_init : SpecContexts := mkSpecContexts None [].

End TransactionManager.

Arguments TxEvent T : clear implicits.
Arguments SpecContexts T : clear implicits.

(* ===================================================================== *)
(** * Host: strings, ranges, tuples and the catalog *)

(** [pg_strcasecmp] (src/port/pgstrcasecmp.c), for ASCII: letters A-Z are
    folded to lower case where the two bytes differ; the result is the
    difference of the first bytes that still differ, or 0.  A C string ends
    at its first NUL byte. *)
Definition pg_ascii_tolower (ch : Z) : Z :=
  if (65 <=? ch) && (ch <=? 90) then ch + 32 else ch.

Fixpoint pg_strcasecmp (s1 s2 : string) : Z :=
  let byte (s : string) : Z :=
    match s with EmptyString => 0 | String c _ => Z.of_nat (Ascii.nat_of_ascii c) end in
  match s1, s2 with
  | String _ r1, String _ r2 =>
      let ch1 := pg_ascii_tolower (byte s1) in
      let ch2 := pg_ascii_tolower (byte s2) in
      if ch1 =? ch2 then (if ch1 =? 0 then 0 else pg_strcasecmp r1 r2)
      else ch1 - ch2
  | _, _ => pg_ascii_tolower (byte s1) - pg_ascii_tolower (byte s2)
  end.

(** catalog/pg_type.h *)
Definition TIMESTAMPTZOID : Oid := 1184.
Definition TYPTYPE_RANGE : string := "r".

(** executor/spi.h *)
Definition SPI_ERROR_NOATTRIBUTE : Z := -9.
Definition SPI_OK_CONNECT : Z := 1.
Definition SPI_OK_FINISH : Z := 2.
Definition SPI_OK_INSERT : Z := 7.

(** commands/trigger.h *)
Definition TRIGGER_EVENT_INSERT : Z := 0.
Definition TRIGGER_EVENT_DELETE : Z := 1.
Definition TRIGGER_EVENT_UPDATE : Z := 2.
Definition TRIGGER_EVENT_TRUNCATE : Z := 3.
Definition TRIGGER_EVENT_OPMASK : Z := 3.
Definition TRIGGER_EVENT_ROW : Z := 4.
Definition TRIGGER_EVENT_BEFORE : Z := 8.
Definition TRIGGER_EVENT_AFTER : Z := 0.
Definition TRIGGER_EVENT_INSTEAD : Z := 16.
Definition TRIGGER_EVENT_TIMINGMASK : Z := 24.

Definition TRIGGER_FIRED_BY_INSERT (event : Z) : bool :=
  Z.land event TRIGGER_EVENT_OPMASK =? TRIGGER_EVENT_INSERT.
Definition TRIGGER_FIRED_BY_DELETE (event : Z) : bool :=
  Z.land event TRIGGER_EVENT_OPMASK =? TRIGGER_EVENT_DELETE.
Definition TRIGGER_FIRED_BY_UPDATE (event : Z) : bool :=
  Z.land event TRIGGER_EVENT_OPMASK =? TRIGGER_EVENT_UPDATE.
Definition TRIGGER_FIRED_FOR_ROW (event : Z) : bool :=
  negb (Z.land event TRIGGER_EVENT_ROW =? 0).
Definition TRIGGER_FIRED_BEFORE (event : Z) : bool :=
  Z.land event TRIGGER_EVENT_TIMINGMASK =? TRIGGER_EVENT_BEFORE.

(** A column of a tuple descriptor ([Form_pg_attribute]). *)
Record FormData_pg_attribute := mkAttr {
  attname : string;
  atttypid : Oid;
  attndims : Z;
  atttypmod : Z;
  attisdropped : bool;
  attnum : Z
}.

#[export] Instance FormData_pg_attribute_eq_dec : EqDecision FormData_pg_attribute.
Proof. solve_decision. Defined.

(** A tuple descriptor is the array of its columns; [natts] is its length.
    [equalTupleDescs] compares the descriptors field by field. *)
Definition TupleDesc := list FormData_pg_attribute.

Definition tupdesc_natts (td : TupleDesc) : Z := Z.of_nat (length td).

Definition equalTupleDescs (td1 td2 : TupleDesc) : bool := bool_decide (td1 = td2).

(** [TupleDescAttr(tupdesc, i)]: no result outside the array. *)
Definition TupleDescAttr (td : TupleDesc) (i : Z) : option FormData_pg_attribute :=
  if i <? 0 then None else td !! Z.to_nat i.

(** System columns by name, with their (negative) attribute numbers
    (access/sysattr.h, PostgreSQL 12 and later). *)
Definition SystemAttributeByName (fname : string) : option Z :=
  if bool_decide (fname = "ctid") then Some (-1)
  else if bool_decide (fname = "xmin") then Some (-2)
  else if bool_decide (fname = "cmin") then Some (-3)
  else if bool_decide (fname = "xmax") then Some (-4)
  else if bool_decide (fname = "cmax") then Some (-5)
  else if bool_decide (fname = "tableoid") then Some (-6)
  else None.

Definition FirstLowInvalidHeapAttributeNumber : Z := -7.

(** [SPI_fnumber]: the 1-based number of the first live column of that name,
    else the number of the system column of that name, else
    [SPI_ERROR_NOATTRIBUTE]. *)
Fixpoint SPI_fnumber_from (res : Z) (td : TupleDesc) (fname : string) : option Z :=
  match td with
  | [] => None
  | attr :: td' =>
      if bool_decide (attname attr = fname) && negb (attisdropped attr)
      then Some (res + 1)
      else SPI_fnumber_from (res + 1) td' fname
  end.

Definition SPI_fnumber (td : TupleDesc) (fname : string) : Z :=
  match SPI_fnumber_from 0 td fname with
  | Some n => n
  | None =>
      match SystemAttributeByName fname with
      | Some n => n
      | None => SPI_ERROR_NOATTRIBUTE
      end
  end.

(** [SPI_gettypeid] *)
Definition SPI_gettypeid (td : TupleDesc) (fnumber : Z) : Oid :=
  match TupleDescAttr td (fnumber - 1) with
  | Some attr => if 0 <? fnumber then atttypid attr else 0
  | None => 0
  end.

(** A relation as the trigger sees it: OID, name, schema name, descriptor. *)
Record RelationData := mkRelation {
  rd_id : Oid;
  rd_relname : string;
  rd_nspname : string;
  rd_att : TupleDesc
}.

Definition RelationGetRelid (r : RelationData) : Oid := rd_id r.
Definition RelationGetDescr (r : RelationData) : TupleDesc := rd_att r.
Definition RelationGetRelationName (r : RelationData) : string := rd_relname r.

(** A row of [pg_type], as far as the trigger reads it: [typtype], and for a
    range type the type of its elements. *)
Record FormData_pg_type := mkType {
  typtype : string;
  rngelemtype : Oid
}.

(** The trigger as declared by CREATE TRIGGER. *)
Record Trigger := mkTrigger {
  tgnargs : Z;
  tgargs : list string
}.

(* ===================================================================== *)
(** * Host: range values over timestamps (utils/adt/rangetypes.c) *)

Section Versioning.
Context {T : Type} `{!TimestampRep T}.

(** The comparison function of the range's element type, as an [int]. *)
Definition timestamp_cmp (a b : T) : Z :=
  match timestamp_cmp_internal a b with Lt => -1 | Eq => 0 | Gt => 1 end.

Record RangeBound := mkRangeBound {
  val : T;               (* the bound value, if any *)
  infinite : bool;       (* bound is +/- infinity *)
  inclusive : bool;      (* bound is inclusive (vs exclusive) *)
  lower : bool           (* this is the lower (vs upper) bound *)
}.

(** A stored range: empty, or a pair of bounds, each infinite ([None]) or a
    value with its inclusive flag. *)
Inductive RangeType :=
  | RangeEmpty
  | RangeValue (lb ub : option (T * bool)).

(** [range_cmp_bound_values] *)
Definition range_cmp_bound_values (b1 b2 : RangeBound) : Z :=
  if infinite b1 && infinite b2 then
    if bool_decide (lower b1 = lower b2) then 0
    else if lower b1 then -1 else 1
  else if infinite b1 then (if lower b1 then -1 else 1)
  else if infinite b2 then (if lower b2 then 1 else -1)
  else timestamp_cmp (val b1) (val b2).

(** [range_cmp_bounds] *)
Definition range_cmp_bounds (b1 b2 : RangeBound) : Z :=
  if infinite b1 && infinite b2 then
    if bool_decide (lower b1 = lower b2) then 0
    else if lower b1 then -1 else 1
  else if infinite b1 then (if lower b1 then -1 else 1)
  else if infinite b2 then (if lower b2 then 1 else -1)
  else
    let result := timestamp_cmp (val b1) (val b2) in
    if result =? 0 then
      if negb (inclusive b1) && negb (inclusive b2) then
        if bool_decide (lower b1 = lower b2) then 0
        else if lower b1 then 1 else -1
      else if negb (inclusive b1) then (if lower b1 then 1 else -1)
      else if negb (inclusive b2) then (if lower b2 then -1 else 1)
      else 0
    else result.

(** [range_serialize]: [None] stands for its error "range lower bound must
    be less than or equal to range upper bound". *)
Definition range_serialize (lo up : RangeBound) (empty : bool) : option RangeType :=
  if empty then Some RangeEmpty
  else
    let cmp := range_cmp_bound_values lo up in
    if 0 <? cmp then None
    else if (cmp =? 0) && negb (inclusive lo && inclusive up) then Some RangeEmpty
    else Some (RangeValue
                 (if infinite lo then None else Some (val lo, inclusive lo))
                 (if infinite up then None else Some (val up, inclusive up))).

(** [make_range]: the built-in [tstzrange] has no canonical function, so the
    serialized range is the result. *)
Definition make_range (lo up : RangeBound) (empty : bool) : option RangeType :=
  range_serialize lo up empty.

(** [range_deserialize]: the two bounds and the empty flag.  A bound without
    a value has [val = (Datum) 0]. *)
Definition range_deserialize (r : RangeType) : RangeBound * RangeBound * bool :=
  let bound (b : option (T * bool)) (is_lower : bool) : RangeBound :=
    match b with
    | None => mkRangeBound (ts_of_int64 0) true false is_lower
    | Some (v, incl) => mkRangeBound v false incl is_lower
    end in
  match r with
  | RangeEmpty =>
      (mkRangeBound (ts_of_int64 0) false false true,
       mkRangeBound (ts_of_int64 0) false false false, true)
  | RangeValue lb ub => (bound lb true, bound ub false, false)
  end.

(* ===================================================================== *)
(** * Host: datums and heap tuples *)

Inductive Datum :=
  | DatumRange (r : RangeType)
  | DatumInt (z : Z)
  | DatumText (s : string).

(** A heap tuple: the inserting transaction ([xmin]) and one value per
    column, [None] for an SQL NULL. *)
Record HeapTupleData := mkHeapTuple {
  t_xmin : TransactionId;
  t_values : list (option Datum)
}.

Definition InvalidTransactionId : TransactionId := 0.

(** [SPI_getbinval]: the value of column [fnumber] and the [isnull] flag.
    Columns past the end of the stored tuple read as NULL.  Of the system
    columns only [xmin] is kept in [HeapTupleData]; the others read as 0. *)
Definition SPI_getbinval (tuple : HeapTupleData) (td : TupleDesc) (fnumber : Z)
    : option Datum :=
  if (tupdesc_natts td <? fnumber) || (fnumber =? 0)
     || (fnumber <=? FirstLowInvalidHeapAttributeNumber)
  then None
  else if fnumber <? 0 then
    Some (DatumInt (if fnumber =? -2 then t_xmin tuple else 0))
  else
    match t_values tuple !! Z.to_nat (fnumber - 1) with
    | Some d => d
    | None => None
    end.

(** [heap_modify_tuple_by_cols] for one column: a new tuple with one value
    per column of the descriptor, column [colnum] replaced.  [None] stands
    for its error "invalid column number".  The new tuple's header carries
    no transaction id. *)
Definition heap_modify_tuple_by_cols (tuple : HeapTupleData) (td : TupleDesc)
    (colnum : Z) (value : option Datum) : option HeapTupleData :=
  if (colnum <=? 0) || (tupdesc_natts td <? colnum) then None
  else
    let values := resize (length td) None (t_values tuple) in
    Some (mkHeapTuple InvalidTransactionId (<[Z.to_nat (colnum - 1) := value]> values)).

End Versioning.

Arguments RangeBound T : clear implicits.
Arguments RangeType T : clear implicits.
Arguments Datum T : clear implicits.
Arguments HeapTupleData T : clear implicits.

(* ===================================================================== *)
(** * versioning.c: state, errors and the host's services *)

(** Address of a saved SPI plan. *)
Definition SPIPlanPtr := positive.

(** The INSERT statement that [fill_versioning_hash_entry] builds,
    ["INSERT INTO nsp.rel (c1, c2, ...) VALUES ($1, $2, ...)"], by its parts,
    together with the relation and descriptor it was analyzed against. *)
Record SPIPlan := mkSPIPlan {
  plan_nspname : string;
  plan_relname : string;
  plan_columns : list string;
  plan_argtypes : list Oid;
  plan_relid : Oid;
  plan_tupdesc : TupleDesc
}.

(** Cached data for the versioning trigger; pointers are [None] when NULL. *)
Record VersioningHashEntry := mkVersioningHashEntry {
  relid : Oid;                               (* hash key *)
  history_relid : Oid;
  tupdesc : option TupleDesc;
  history_tupdesc : option TupleDesc;
  natts : Z;                                 (* -1 if the entry is invalid *)
  attnums : option (list Z);
  insert_history_plan : option SPIPlanPtr
}.

Definition set_history_relid (x : Oid) (e : VersioningHashEntry) :=
  mkVersioningHashEntry (relid e) x (tupdesc e) (history_tupdesc e) (natts e)
    (attnums e) (insert_history_plan e).
Definition set_tupdesc (x : option TupleDesc) (e : VersioningHashEntry) :=
  mkVersioningHashEntry (relid e) (history_relid e) x (history_tupdesc e) (natts e)
    (attnums e) (insert_history_plan e).
Definition set_history_tupdesc (x : option TupleDesc) (e : VersioningHashEntry) :=
  mkVersioningHashEntry (relid e) (history_relid e) (tupdesc e) x (natts e)
    (attnums e) (insert_history_plan e).
Definition set_natts (x : Z) (e : VersioningHashEntry) :=
  mkVersioningHashEntry (relid e) (history_relid e) (tupdesc e) (history_tupdesc e) x
    (attnums e) (insert_history_plan e).
Definition set_attnums (x : option (list Z)) (e : VersioningHashEntry) :=
  mkVersioningHashEntry (relid e) (history_relid e) (tupdesc e) (history_tupdesc e)
    (natts e) x (insert_history_plan e).
Definition set_insert_history_plan (x : option SPIPlanPtr) (e : VersioningHashEntry) :=
  mkVersioningHashEntry (relid e) (history_relid e) (tupdesc e) (history_tupdesc e)
    (natts e) (attnums e) x.

(** The typcache entry of a range type, as far as it is read. *)
Record TypeCacheEntry := mkTypeCacheEntry {
  type_id : Oid;
  rngelemtype_type_id : Oid
}.

Section VersioningState.
Context {T : Type} `{!TimestampRep T}.

(** One value per [ereport(ERROR, ...)] and [elog(ERROR, ...)] of
    versioning.c, with the arguments of its message. *)
Inductive Error :=
  | ERR_not_called_by_trigger_manager
  | ERR_must_be_fired_before_row
  | ERR_must_be_fired_for_insert_update_delete
  | ERR_wrong_number_of_parameters (got : Z)
  | ERR_column_does_not_exist (column relname : string)
  | ERR_period_is_an_array (column relname : string)
  | ERR_invalid_adjust_value (arg : string)
  | ERR_cache_lookup_failed_for_type (typoid : Oid)
  | ERR_period_is_not_a_range (column relname : string) (typoid : Oid)
  | ERR_period_is_not_a_timestamptz_range (column relname : string) (elemtype : Oid)
  | ERR_column_type_mismatch (attr history_attr : FormData_pg_attribute)
                             (relname history_relname : string)
  | ERR_history_lacks_period_column (history_relname column : string)
  | ERR_SPI_prepare_returned (code : Z)
  | ERR_SPI_keepplan_returned (code : Z)
  | ERR_SPI_freeplan_returned (code : Z)
  | ERR_SPI_connect_returned (code : Z)
  | ERR_SPI_execp_returned (code : Z)
  | ERR_SPI_finish_returned (code : Z)
  | ERR_period_must_not_be_null (column relname : string)
  | ERR_period_contains_invalid_value (column relname : string)
    (** "system period value of relation ... cannot be set to a valid period
        because a row that is attempted to modify was also modified by
        another transaction", with the detail "the start time of system
        period is %s but the start time of the current transaction is %s"
        and the hint "retry the statement or set "adjust" parameter of
        "versioning" function to true".  The value carries the arguments as
        the source writes them: [period_start] is the timestamp handed to
        the first call of [timestamptz_to_str] ([None] where the source
        passes the literal "-infinity" instead), [xact_time] the one handed
        to the second call.  These are not the two texts of the detail line:
        what the line shows is [period_conflict_detail] below. *)
  | ERR_period_conflict (relname : string) (period_start : option T) (xact_time : T)
    (** errors of the host's own functions *)
  | ERR_host_relation_does_not_exist (name : string)
  | ERR_host_range_bounds
  | ERR_host_invalid_column_number
    (** undefined behaviour in C: NULL or dangling pointer, array bounds,
        conversion out of range *)
  | ERR_undefined_behaviour.

Inductive Notice :=
  | WARNING_system_period_adjusted (relname : string).

(** The order in which the compiled code evaluates the arguments of a call;
    C leaves it unspecified. *)
Inductive ArgumentOrder := LeftToRight | RightToLeft.

(** What takes the place of a [%s] of the detail line of
    [ERR_period_conflict]: the literal, or the text of a timestamp. *)
Inductive DetailText :=
  | Text_minus_infinity
  | Text_of_timestamp (t : T).

(** The two texts of the detail line of [ERR_period_conflict].
    [timestamptz_to_str] (host, utils/timestamp.c) formats its argument into
    one static buffer and returns the address of that buffer.  With a finite
    start of the period the source calls it for both places of one
    [errdetail]: the two calls run in the order the compiler has chosen,
    [errdetail] receives the address of the buffer twice, and formats what
    the later call has left there into both places. *)
Definition period_conflict_detail (order : ArgumentOrder)
    (period_start : option T) (xact_time : T) : DetailText * DetailText :=
  match period_start with
  | None => (Text_minus_infinity, Text_of_timestamp xact_time)
  | Some lo =>
      let buf := match order with
                 | LeftToRight => xact_time   (* the call for the second place ran last *)
                 | RightToLeft => lo          (* the call for the first place ran last *)
                 end in
      (Text_of_timestamp buf, Text_of_timestamp buf)
  end.

(** What the server answers during one call of the trigger. *)
Record Host := mkHost {
  host_subid : SubTransactionId;          (* GetCurrentSubTransactionId() *)
  host_xid : TransactionId;               (* stamped on the rows this command writes *)
  host_xids : list TransactionId;         (* ids of the current transaction and its
                                             subtransactions in progress or committed *)
  host_xact_start : T;                    (* GetCurrentTransactionStartTimestamp() *)
  host_relations : gmap string RelationData;     (* relations by qualified name *)
  host_types : gmap Oid FormData_pg_type;        (* syscache lookup by TYPEOID *)
  host_SPI_connect : Z;                   (* return codes of the SPI calls *)
  host_SPI_prepare : Z;                   (* 0, or SPI_result of a failed prepare *)
  host_SPI_keepplan : Z;
  host_SPI_freeplan : Z;
  host_SPI_execp : Z;
  host_SPI_finish : Z
}.

(** The process-local state: the statics of temporal_tables.c and
    versioning.c, the saved SPI plans, the notices sent to the client, and
    the rows of the relations written through SPI or by the executor. *)
Record State := mkState {
  st_contexts : ContextStore T;
  integer_datetimes : bool;
  integer_datetimes_set : bool;
  versioning_cache : option (gmap Oid VersioningHashEntry);
  spi_plans : gmap SPIPlanPtr SPIPlan;
  notices : list Notice;
  heap_rows : gmap Oid (list (HeapTupleData T))
}.

Definition set_contexts (x : ContextStore T) (s : State) :=
  mkState x (integer_datetimes s) (integer_datetimes_set s) (versioning_cache s)
    (spi_plans s) (notices s) (heap_rows s).
Definition set_integer_datetimes (b bset : bool) (s : State) :=
  mkState (st_contexts s) b bset (versioning_cache s) (spi_plans s) (notices s)
    (heap_rows s).
Definition set_versioning_cache (x : option (gmap Oid VersioningHashEntry)) (s : State) :=
  mkState (st_contexts s) (integer_datetimes s) (integer_datetimes_set s) x
    (spi_plans s) (notices s) (heap_rows s).
Definition set_spi_plans (x : gmap SPIPlanPtr SPIPlan) (s : State) :=
  mkState (st_contexts s) (integer_datetimes s) (integer_datetimes_set s)
    (versioning_cache s) x (notices s) (heap_rows s).
Definition set_notices (x : list Notice) (s : State) :=
  mkState (st_contexts s) (integer_datetimes s) (integer_datetimes_set s)
    (versioning_cache s) (spi_plans s) x (heap_rows s).
Definition set_heap_rows (x : gmap Oid (list (HeapTupleData T))) (s : State) :=
  mkState (st_contexts s) (integer_datetimes s) (integer_datetimes_set s)
    (versioning_cache s) (spi_plans s) (notices s) x.

(** The state when the library has just been loaded. *)
Definition initial_state : State :=
  mkState PG_init false false None ∅ [] ∅.

(** ** The monad of the trigger code: state, and errors that keep it *)

Inductive Res (A : Type) :=
  | Ok (a : A)
  | Err (e : Error).
Arguments Ok {A} a.
Arguments Err {A} e.

Definition M (A : Type) : Type := State → Res A * State.

Definition ret {A} (a : A) : M A := λ s, (Ok a, s).
Definition ereport_ERROR {A} (e : Error) : M A := λ s, (Err e, s).
Definition bind {A B} (m : M A) (k : A → M B) : M B :=
  λ s, match m s with
       | (Ok a, s') => k a s'
       | (Err e, s') => (Err e, s')
       end.
Definition get_state : M State := λ s, (Ok s, s).
Definition put_state (s : State) : M unit := λ _, (Ok tt, s).
Definition modify_state (f : State → State) : M unit := λ s, (Ok tt, f s).

(** A C operation without a defined result. *)
Definition defined {A} (o : option A) : M A :=
  match o with Some a => ret a | None => ereport_ERROR ERR_undefined_behaviour end.

Definition ereport_WARNING (n : Notice) : M unit :=
  modify_state (λ s, set_notices (notices s ++ [n]) s).

End VersioningState.

Arguments Error T : clear implicits.
Arguments DetailText T : clear implicits.
Arguments Host T : clear implicits.
Arguments State T : clear implicits.
Arguments Res T A : clear implicits.
Arguments Ok {T A} a.
Arguments Err {T A} e.
Arguments M T A : clear implicits.

(** Code that only raises errors runs in [Res]; [lift_res] places it in
    [M]. *)
Definition lift_res {T : Type} `{!TimestampRep T} {A} (r : Res T A) : M T A :=
  λ s, (r, s).

#[export] Instance Res_ret {T : Type} : MRet (Res T) := λ A, Ok.
#[export] Instance Res_bind {T : Type} : MBind (Res T) :=
  λ A B k r, match r with Ok a => k a | Err e => Err e end.
#[export] Instance M_ret {T : Type} `{!TimestampRep T} : MRet (M T) := λ A, ret.
#[export] Instance M_bind {T : Type} `{!TimestampRep T} : MBind (M T) :=
  λ A B k m, bind m k.

Section VersioningCode.
Context {T : Type} `{!TimestampRep T}.

(** What the trigger manager passes ([TriggerData]); tuple pointers are
    [None] when NULL. *)
Record TriggerData := mkTriggerData {
  tg_event : Z;
  tg_relation : RelationData;
  tg_trigtuple : option (HeapTupleData T);
  tg_newtuple : option (HeapTupleData T);
  tg_trigger : Trigger
}.

(** [fcinfo->context]: NULL, a [TriggerData] node, or a node of another
    kind. *)
Inductive CallContext :=
  | NoContext
  | TriggerDataNode (trigdata : TriggerData)
  | OtherNode.

(** ** Services of the host, with their effect on the state *)

Definition heap_openrv (h : Host T) (name : string) : M T RelationData :=
  match host_relations h !! name with
  | Some r => mret r
  | None => ereport_ERROR (ERR_host_relation_does_not_exist name)
  end.

Definition SPI_connect (h : Host T) : M T Z := mret (host_SPI_connect h).
Definition SPI_finish (h : Host T) : M T Z := mret (host_SPI_finish h).

(** [SPI_prepare]: a new plan, or NULL with [SPI_result] set. *)
Definition SPI_prepare (h : Host T) (plan : SPIPlan) : M T (option SPIPlanPtr) :=
  if host_SPI_prepare h =? 0 then
    s ← get_state;
    let p := fresh (dom (spi_plans s)) in
    put_state (set_spi_plans (<[p := plan]> (spi_plans s)) s);;
    mret (Some p)
  else mret None.

Definition SPI_keepplan (h : Host T) (plan : SPIPlanPtr) : M T Z :=
  mret (host_SPI_keepplan h).

Definition SPI_freeplan (h : Host T) (plan : SPIPlanPtr) : M T Z :=
  if host_SPI_freeplan h =? 0 then
    modify_state (λ s, set_spi_plans (delete plan (spi_plans s)) s);;
    mret 0
  else mret (host_SPI_freeplan h).

(** The row an INSERT with the given column list and parameter values
    stores: one value per column of the target, NULL where the list does not
    name the column. *)
Definition inserted_values (columns : list string) (values : list (option (Datum T)))
    (td : TupleDesc) : list (option (Datum T)) :=
  map (λ attr,
         if attisdropped attr then None
         else match list_find (λ c, c = attname attr) columns with
              | Some (i, _) => mjoin (values !! i)
              | None => None
              end) td.

(** [SPI_execp] of a saved INSERT plan: on [SPI_OK_INSERT] one row is added
    to the target relation. *)
Definition SPI_execp (h : Host T) (plan : option SPIPlanPtr)
    (values : list (option (Datum T))) : M T Z :=
  match plan with
  | None => mret (-6)                                   (* SPI_ERROR_ARGUMENT *)
  | Some p =>
      s ← get_state;
      pl ← defined (spi_plans s !! p);
      if host_SPI_execp h =? SPI_OK_INSERT then
        let row := mkHeapTuple (host_xid h)
                     (inserted_values (plan_columns pl) values (plan_tupdesc pl)) in
        let rows := default [] (heap_rows s !! plan_relid pl) in
        put_state (set_heap_rows (<[plan_relid pl := rows ++ [row]]> (heap_rows s)) s);;
        mret SPI_OK_INSERT
      else mret (host_SPI_execp h)
  end.

(** [TransactionIdIsCurrentTransactionId] *)
Definition TransactionIdIsCurrentTransactionId (h : Host T) (xid : TransactionId) : bool :=
  bool_decide (xid ∈ host_xids h).

(** ** versioning.c *)

(** [get_system_time], on the contexts of the state. *)
Definition get_system_time_M (h : Host T) : M T T :=
  s ← get_state;
  defined (get_system_time (host_xact_start h) (host_subid h) (st_contexts s)).

(** [set_system_time], on the contexts of the state. *)
Definition set_system_time_M (h : Host T) (arg : option T) : M T unit :=
  s ← get_state;
  cs ← defined (set_system_time arg (host_subid h) (st_contexts s));
  put_state (set_contexts cs s).

Definition parse_adjust_argument (arg : string) : M T bool :=
  if pg_strcasecmp arg "true" =? 0 then mret true
  else if pg_strcasecmp arg "false" =? 0 then mret false
  else ereport_ERROR (ERR_invalid_adjust_value arg).

Definition get_period_typcache (h : Host T) (attr : FormData_pg_attribute)
    (relation : RelationData) : M T TypeCacheEntry :=
  let typoid := atttypid attr in
  match host_types h !! typoid with
  | None => ereport_ERROR (ERR_cache_lookup_failed_for_type typoid)
  | Some type =>
      if negb (bool_decide (typtype type = TYPTYPE_RANGE)) then
        ereport_ERROR (ERR_period_is_not_a_range (attname attr)
                         (RelationGetRelationName relation) typoid)
      else
        let typcache := mkTypeCacheEntry typoid (rngelemtype type) in
        if negb (rngelemtype_type_id typcache =? TIMESTAMPTZOID) then
          ereport_ERROR (ERR_period_is_not_a_timestamptz_range (attname attr)
                           (RelationGetRelationName relation)
                           (rngelemtype_type_id typcache))
        else mret typcache
  end.

Definition check_attr_type (attr history_attr : FormData_pg_attribute)
    (relation history_relation : RelationData) : Res T unit :=
  if negb (atttypid attr =? atttypid history_attr)
     || negb (attndims attr =? attndims history_attr)
     || negb (atttypmod attr =? atttypmod history_attr)
  then Err (ERR_column_type_mismatch attr history_attr
              (RelationGetRelationName relation)
              (RelationGetRelationName history_relation))
  else Ok tt.

(** A [VersioningHashEntry *] is the key of the entry it points to. *)
Definition read_entry (hash_entry : Oid) : M T VersioningHashEntry :=
  s ← get_state;
  cache ← defined (versioning_cache s);
  defined (cache !! hash_entry).

Definition write_entry (hash_entry : Oid) (f : VersioningHashEntry → VersioningHashEntry)
    : M T unit :=
  s ← get_state;
  cache ← defined (versioning_cache s);
  e ← defined (cache !! hash_entry);
  put_state (set_versioning_cache (Some (<[hash_entry := f e]> cache)) s).

(** The loop of [fill_versioning_hash_entry] over the columns of the
    versioned relation, from the column at hand onwards.  [acc] holds
    [attnums], [history_attnums] and the column list of the query so far;
    [natts] is their length.  The loop reads no state. *)
Fixpoint fill_common_attributes (attrs : list FormData_pg_attribute)
    (history_tupdesc : TupleDesc) (relation history_relation : RelationData)
    (attnums_size : Z) (acc : list Z * list Z * list string)
    : Res T (list Z * list Z * list string) :=
  match attrs with
  | [] => Ok acc
  | attr :: rest =>
      let continue := fill_common_attributes rest history_tupdesc relation
                        history_relation attnums_size in
      if attisdropped attr then continue acc
      else
        let history_attnum := SPI_fnumber history_tupdesc (attname attr) in
        if history_attnum <? 0 then continue acc
        else
          match TupleDescAttr history_tupdesc (history_attnum - 1) with
          | None => Err ERR_undefined_behaviour
          | Some history_attr =>
              match check_attr_type attr history_attr relation history_relation with
              | Err e => Err e
              | Ok _ =>
                  let '(attnums, history_attnums, columns) := acc in
                  (* attnums[natts] and history_attnums[natts] must lie in
                     the arrays *)
                  if attnums_size <=? Z.of_nat (length attnums)
                  then Err ERR_undefined_behaviour
                  else continue (attnums ++ [attnum attr],
                                 history_attnums ++ [history_attnum],
                                 columns ++ [attname attr])
              end
          end
  end.

Definition fill_versioning_hash_entry (h : Host T) (hash_entry : Oid)
    (relation history_relation : RelationData) (td : TupleDesc)
    (period_attname : string) : M T unit :=
  let history_td := RelationGetDescr history_relation in
  (* Check that the history relation contains the system period attribute. *)
  if SPI_fnumber history_td period_attname <? 0 then
    ereport_ERROR (ERR_history_lacks_period_column
                     (RelationGetRelationName history_relation) period_attname)
  else
    let attnums_size := Z.min (tupdesc_natts td) (tupdesc_natts history_td) in
    (* Fill in common attributes array. *)
    '(attnums, history_attnums, columns) ←
       lift_res (fill_common_attributes td history_td relation history_relation
                                        attnums_size ([], [], []));
    let natts := Z.of_nat (length attnums) in
    (if negb (natts =? 0) then
       let argtypes := map (SPI_gettypeid history_td) history_attnums in
       (* Prepare and save the plan. *)
       plan ← SPI_prepare h (mkSPIPlan (rd_nspname history_relation)
                               (rd_relname history_relation) columns argtypes
                               (RelationGetRelid history_relation) history_td);
       match plan with
       | None => ereport_ERROR (ERR_SPI_prepare_returned (host_SPI_prepare h))
       | Some plan =>
           r ← SPI_keepplan h plan;
           if negb (r =? 0) then ereport_ERROR (ERR_SPI_keepplan_returned r)
           else
             write_entry hash_entry (set_insert_history_plan (Some plan));;
             write_entry hash_entry (set_history_relid (RelationGetRelid history_relation));;
             write_entry hash_entry (set_tupdesc (Some td));;
             write_entry hash_entry (set_history_tupdesc (Some history_td));;
             write_entry hash_entry (set_attnums (Some attnums))
       end
     else mret tt);;
    (* Now when the cached data structure is filled we can set natts to mark
       the entry valid. *)
    write_entry hash_entry (set_natts natts).

(** [init_versioning_hash_table] *)
Definition init_versioning_hash_table : M T unit :=
  modify_state (set_versioning_cache (Some ∅)).

(** [lookup_versioning_hash_entry]: the entry for [key] and [found]; a new
    entry is zero-filled, with [natts = -1]. *)
Definition lookup_versioning_hash_entry (key : Oid) : M T (Oid * bool) :=
  s ← get_state;
  (if versioning_cache s is None then init_versioning_hash_table else mret tt);;
  s ← get_state;
  cache ← defined (versioning_cache s);
  match cache !! key with
  | Some _ => mret (key, true)
  | None =>
      let entry := mkVersioningHashEntry key 0 None None 0 None None in
      put_state (set_versioning_cache (Some (<[key := entry]> cache)) s);;
      (* Mark a newly created entry invalid. *)
      write_entry key (set_natts (-1));;
      mret (key, false)
  end.

(** [insert_history_row] is written as its blocks, in the order of the
    source.

    The condition of the validity check (lines 651-654), on an entry that
    was found; evaluated left to right as C's [||].  Comparing with a NULL
    descriptor dereferences it. *)
Definition cached_data_is_stale (e : VersioningHashEntry)
    (history_relation : RelationData) (td history_td : TupleDesc) : M T bool :=
  if natts e =? -1 then mret true
  else if negb (RelationGetRelid history_relation =? history_relid e) then mret true
  else
    cached_td ← defined (tupdesc e);
    if negb (equalTupleDescs td cached_td) then mret true
    else
      cached_history_td ← defined (history_tupdesc e);
      mret (negb (equalTupleDescs history_td cached_history_td)).

(** The body of that check (lines 656-684): mark the entry invalid and free
    its fields. *)
Definition invalidate_cached_data (h : Host T) (hash_entry : Oid)
    (e : VersioningHashEntry) : M T unit :=
  (* Mark the entry invalid. *)
  write_entry hash_entry (set_natts (-1));;
  (* If the cached data structure is invalid, free it's fields. *)
  write_entry hash_entry (set_tupdesc None);;
  write_entry hash_entry (set_history_tupdesc None);;
  write_entry hash_entry (set_attnums None);;
  match insert_history_plan e with
  | Some plan =>
      r ← SPI_freeplan h plan;
      if negb (r =? 0) then ereport_ERROR (ERR_SPI_freeplan_returned r)
      else write_entry hash_entry (set_insert_history_plan None)
  | None => mret tt
  end.

(** The block [if (found) { ... }] (lines 632-689); the result is [found]
    afterwards. *)
Definition check_cached_data (h : Host T) (hash_entry : Oid)
    (relation history_relation : RelationData) : M T bool :=
  let td := RelationGetDescr relation in
  let history_td := RelationGetDescr history_relation in
  e ← read_entry hash_entry;
  stale ← cached_data_is_stale e history_relation td history_td;
  if stale : bool then
    invalidate_cached_data h hash_entry e;;
    (* Make to refill the cached data entry. *)
    mret false
  else mret true.

(** The block that executes the plan (lines 704-734). *)
Definition execute_history_plan (h : Host T) (hash_entry : Oid)
    (tuple : HeapTupleData T) (td : TupleDesc) : M T unit :=
  e ← read_entry hash_entry;
  let n := natts e in
  if negb (n =? 0) then
    cached_attnums ← defined (attnums e);
    (* attnums[i] for i < natts must lie in the array *)
    (if Z.of_nat (length cached_attnums) <? n
     then ereport_ERROR ERR_undefined_behaviour else mret tt);;
    let values := map (SPI_getbinval tuple td) (take (Z.to_nat n) cached_attnums) in
    r ← SPI_execp h (insert_history_plan e) values;
    if negb (r =? SPI_OK_INSERT) then ereport_ERROR (ERR_SPI_execp_returned r)
    else mret tt
  else mret tt.

Definition insert_history_row (h : Host T) (tuple : HeapTupleData T)
    (relation : RelationData) (history_relation_name period_attname : string)
    : M T unit :=
  (* Open the history relation and obtain AccessShareLock on it. *)
  history_relation ← heap_openrv h history_relation_name;
  (* Look up the cached data for the versioned relation OID. *)
  '(hash_entry, found) ← lookup_versioning_hash_entry (RelationGetRelid relation);
  let td := RelationGetDescr relation in
  found ← (if found : bool
           then check_cached_data h hash_entry relation history_relation
           else mret false);
  r ← SPI_connect h;
  (if negb (r =? SPI_OK_CONNECT) then ereport_ERROR (ERR_SPI_connect_returned r)
   else mret tt);;
  (* If there is no cached data or it is invalid, fill the cached data
     structure. *)
  (if negb found then
     fill_versioning_hash_entry h hash_entry relation history_relation td period_attname
   else mret tt);;
  (* Execute the plan. *)
  execute_history_plan h hash_entry tuple td;;
  (* Close the history relation. *)
  r ← SPI_finish h;
  if negb (r =? SPI_OK_FINISH) then ereport_ERROR (ERR_SPI_finish_returned r)
  else mret tt.

(** [DatumGetRangeTypeP]: the datum of a range column points to a range. *)
Definition DatumGetRangeTypeP (d : Datum T) : M T (RangeType T) :=
  match d with
  | DatumRange r => mret r
  | _ => ereport_ERROR ERR_undefined_behaviour
  end.

(** Deconstruct a range value of the system period attribute: the lower and
    the upper bound. *)
Definition deserialize_system_period (tuple : HeapTupleData T)
    (relation : RelationData) (period_attnum : Z) (period_attname : string)
    (typcache : TypeCacheEntry) : M T (RangeBound T * RangeBound T) :=
  match SPI_getbinval tuple (RelationGetDescr relation) period_attnum with
  | None =>
      ereport_ERROR (ERR_period_must_not_be_null period_attname
                       (RelationGetRelationName relation))
  | Some datum =>
      system_period ← DatumGetRangeTypeP datum;
      let '(lo, up, empty) := range_deserialize system_period in
      if empty || negb (infinite up) then
        ereport_ERROR (ERR_period_contains_invalid_value period_attname
                         (RelationGetRelationName relation))
      else mret (lo, up)
  end.

Definition lookup_integer_datetimes : M T unit :=
  let value := integer_datetimes_option in
  modify_state (set_integer_datetimes (bool_decide (value = "on")) true).

(** Add a minimal time interval to the specified timestamp. *)
Definition next_timestamp (timestamp : T) : M T T :=
  s ← get_state;
  (if negb (integer_datetimes_set s) then lookup_integer_datetimes else mret tt);;
  s ← get_state;
  (* If Timestamp is int64, add 1 microsecond. *)
  if integer_datetimes s then
    i ← defined (ts_to_int64 timestamp);
    mret (ts_of_int64 (wrap_int64 (i + 1)))
  else
    let ts := ts_to_float8 timestamp in
    let next := PrimFloat.add ts float8_1E_06 in
    if negb (PrimFloat.eqb next ts) then defined (ts_of_float8 next)
    else defined (ts_of_float8 (nextafter ts DBL_MAX)).

(** Check that the upper bound is greater than the lower bound; the result
    is the upper bound afterwards. *)
Definition adjust_system_period (typcache : TypeCacheEntry)
    (lo up : RangeBound T) (adjust_argument : string) (relation : RelationData)
    : M T (RangeBound T) :=
  if 0 <=? range_cmp_bounds lo up then
    adjust ← parse_adjust_argument adjust_argument;
    (if negb adjust then
       ereport_ERROR (ERR_period_conflict (RelationGetRelationName relation)
                        (if infinite lo then None else Some (val lo)) (val up))
     else mret tt);;
    ereport_WARNING (WARNING_system_period_adjusted (RelationGetRelationName relation));;
    next_ts ← next_timestamp (val lo);
    mret (mkRangeBound next_ts (infinite up) (inclusive up) (lower up))
  else mret up.

(** Check if the tuple was inserted or updated in the current transaction. *)
Definition modified_in_current_transaction (h : Host T) (tuple : HeapTupleData T) : bool :=
  let oldxmin := t_xmin tuple in
  TransactionIdIsCurrentTransactionId h oldxmin.

(** [modify_tuple], as compiled for PostgreSQL 10 and later. *)
Definition modify_tuple (rel : RelationData) (tuple : HeapTupleData T)
    (period_attnum : Z) (range : RangeType T) : M T (HeapTupleData T) :=
  match heap_modify_tuple_by_cols tuple (RelationGetDescr rel) period_attnum
          (Some (DatumRange range)) with
  | Some t => mret t
  | None => ereport_ERROR ERR_host_invalid_column_number
  end.

Definition make_range_M (lo up : RangeBound T) (empty : bool) : M T (RangeType T) :=
  match make_range lo up empty with
  | Some r => mret r
  | None => ereport_ERROR ERR_host_range_bounds
  end.

(** Set system period attribute value of the current row to
    "[system_time, )".  The [val] of the infinite upper bound is not
    initialized in the source; [make_range] does not read it. *)
Definition versioning_insert (h : Host T) (trigdata : TriggerData)
    (typcache : TypeCacheEntry) (period_attnum : Z)
    : M T (option (HeapTupleData T)) :=
  (* Construct a period for the current row. *)
  now ← get_system_time_M h;
  let lo := mkRangeBound now false true true in
  let up := mkRangeBound (ts_of_int64 0) true false false in
  range ← make_range_M lo up false;
  trigtuple ← defined (tg_trigtuple trigdata);
  t ← modify_tuple (tg_relation trigdata) trigtuple period_attnum range;
  mret (Some t).

Definition versioning_update (h : Host T) (trigdata : TriggerData)
    (typcache : TypeCacheEntry) (period_attnum : Z)
    (period_attname history_relation_argument adjust_argument : string)
    : M T (option (HeapTupleData T)) :=
  tuple ← defined (tg_trigtuple trigdata);
  (* Ignore tuples modified in this transaction. *)
  if modified_in_current_transaction h tuple then mret (tg_newtuple trigdata)
  else
    let relation := tg_relation trigdata in
    '(lo, up) ← deserialize_system_period tuple relation period_attnum
                  period_attname typcache;
    (* Construct a period for the history row. *)
    now ← get_system_time_M h;
    let up := mkRangeBound now false false (lower up) in
    (* Adjust if needed. *)
    up ← adjust_system_period typcache lo up adjust_argument relation;
    range ← make_range_M lo up false;
    history_tuple ← modify_tuple relation tuple period_attnum range;
    insert_history_row h history_tuple relation history_relation_argument
                       period_attname;;
    (* Construct a period for the current row. *)
    let lo := mkRangeBound (val up) false true (lower lo) in
    let up := mkRangeBound (val up) true false (lower up) in
    range ← make_range_M lo up false;
    newtuple ← defined (tg_newtuple trigdata);
    t ← modify_tuple relation newtuple period_attnum range;
    mret (Some t).

Definition versioning_delete (h : Host T) (trigdata : TriggerData)
    (typcache : TypeCacheEntry) (period_attnum : Z)
    (period_attname history_relation_argument adjust_argument : string)
    : M T (option (HeapTupleData T)) :=
  tuple ← defined (tg_trigtuple trigdata);
  (* Ignore tuples modified in this transaction. *)
  if modified_in_current_transaction h tuple then mret (Some tuple)
  else
    let relation := tg_relation trigdata in
    '(lo, up) ← deserialize_system_period tuple relation period_attnum
                  period_attname typcache;
    (* Construct a period for the history row. *)
    now ← get_system_time_M h;
    let up := mkRangeBound now false false (lower up) in
    (* Adjust if needed. *)
    up ← adjust_system_period typcache lo up adjust_argument relation;
    range ← make_range_M lo up false;
    history_tuple ← modify_tuple relation tuple period_attnum range;
    insert_history_row h history_tuple relation history_relation_argument
                       period_attname;;
    mret (Some tuple).

(** The trigger function.  The result is the tuple pointer it returns. *)
Definition versioning (h : Host T) (context : CallContext)
    : M T (option (HeapTupleData T)) :=
  match context with
  | TriggerDataNode trigdata =>
      (* Check proper event. *)
      if negb (TRIGGER_FIRED_BEFORE (tg_event trigdata))
         || negb (TRIGGER_FIRED_FOR_ROW (tg_event trigdata))
      then ereport_ERROR ERR_must_be_fired_before_row
      else if negb (TRIGGER_FIRED_BY_INSERT (tg_event trigdata))
              && negb (TRIGGER_FIRED_BY_UPDATE (tg_event trigdata))
              && negb (TRIGGER_FIRED_BY_DELETE (tg_event trigdata))
      then ereport_ERROR ERR_must_be_fired_for_insert_update_delete
      else
        let trigger := tg_trigger trigdata in
        (* Check number of arguments. *)
        if negb (tgnargs trigger =? 3)
        then ereport_ERROR (ERR_wrong_number_of_parameters (tgnargs trigger))
        else
          let args := tgargs trigger in
          let relation := tg_relation trigdata in
          let td := RelationGetDescr relation in
          period_attname ← defined (args !! 0%nat);
          (* Check that system period attribute exists in the versioned
             relation. *)
          let period_attnum := SPI_fnumber td period_attname in
          if period_attnum =? SPI_ERROR_NOATTRIBUTE then
            ereport_ERROR (ERR_column_does_not_exist period_attname
                             (RelationGetRelationName relation))
          else
            period_attr ← defined (TupleDescAttr td (period_attnum - 1));
            (* Check that system period attribute is not dropped. *)
            if attisdropped period_attr then
              ereport_ERROR (ERR_column_does_not_exist period_attname
                               (RelationGetRelationName relation))
            (* Check that system period attribute is not an array. *)
            else if negb (attndims period_attr =? 0) then
              ereport_ERROR (ERR_period_is_an_array period_attname
                               (RelationGetRelationName relation))
            else
              (* Locate the typcache entry for the type of system period
                 attribute. *)
              typcache ← get_period_typcache h period_attr relation;
              if TRIGGER_FIRED_BY_INSERT (tg_event trigdata) then
                versioning_insert h trigdata typcache period_attnum
              else
                history_relation_argument ← defined (args !! 1%nat);
                adjust_argument ← defined (args !! 2%nat);
                if TRIGGER_FIRED_BY_UPDATE (tg_event trigdata) then
                  versioning_update h trigdata typcache period_attnum period_attname
                                    history_relation_argument adjust_argument
                else
                  (* otherwise this is ON DELETE trigger *)
                  versioning_delete h trigdata typcache period_attnum period_attname
                                    history_relation_argument adjust_argument
  | NoContext | OtherNode =>
      (* Check that the trigger function was called in expected context. *)
      ereport_ERROR ERR_not_called_by_trigger_manager
  end.

End VersioningCode.

Arguments TriggerData T : clear implicits.
Arguments CallContext T : clear implicits.

(* ===================================================================== *)
(** * Host: the executor around a BEFORE ROW trigger

    For each row of an INSERT, UPDATE or DELETE the executor calls the
    trigger with the old and the proposed row and stores, replaces or
    removes the row according to the tuple the trigger returns (a NULL
    result skips the row).  Rows written by the command carry the id of the
    current transaction. *)

Section Executor.
Context {T : Type} `{!TimestampRep T}.

Definition table_rows (rel : RelationData) (s : State T) : list (HeapTupleData T) :=
  default [] (heap_rows s !! RelationGetRelid rel).

Definition set_table_rows (rel : RelationData) (rows : list (HeapTupleData T))
    (s : State T) : State T :=
  set_heap_rows (<[RelationGetRelid rel := rows]> (heap_rows s)) s.

Definition before_row (event : Z) : Z :=
  Z.lor event (Z.lor TRIGGER_EVENT_ROW TRIGGER_EVENT_BEFORE).

(** INSERT INTO rel VALUES (values) *)
Definition exec_insert (h : Host T) (rel : RelationData) (trigger : Trigger)
    (values : list (option (Datum T))) : M T unit :=
  let slot := mkHeapTuple InvalidTransactionId values in
  r ← versioning h (TriggerDataNode
         (mkTriggerData (before_row TRIGGER_EVENT_INSERT) rel (Some slot) None trigger));
  match r with
  | None => mret tt
  | Some t =>
      modify_state (λ s, set_table_rows rel
                           (table_rows rel s ++ [mkHeapTuple (host_xid h) (t_values t)]) s)
  end.

(** UPDATE rel SET column := value, ... on the row at position [i]: the
    proposed row is the old row with the assigned columns replaced. *)
Definition exec_update (h : Host T) (rel : RelationData) (trigger : Trigger)
    (i : nat) (assignments : list (nat * option (Datum T))) : M T unit :=
  s ← get_state;
  old ← defined (table_rows rel s !! i);
  let proposed :=
    mkHeapTuple InvalidTransactionId
      (foldl (λ vs a, <[a.1 := a.2]> vs) (t_values old) assignments) in
  r ← versioning h (TriggerDataNode
         (mkTriggerData (before_row TRIGGER_EVENT_UPDATE) rel (Some old)
                        (Some proposed) trigger));
  match r with
  | None => mret tt
  | Some t =>
      modify_state (λ s, set_table_rows rel
                           (<[i := mkHeapTuple (host_xid h) (t_values t)]>
                              (table_rows rel s)) s)
  end.

(** DELETE FROM rel on the row at position [i]. *)
Definition exec_delete (h : Host T) (rel : RelationData) (trigger : Trigger)
    (i : nat) : M T unit :=
  s ← get_state;
  old ← defined (table_rows rel s !! i);
  r ← versioning h (TriggerDataNode
         (mkTriggerData (before_row TRIGGER_EVENT_DELETE) rel (Some old) None trigger));
  match r with
  | None => mret tt
  | Some _ => modify_state (λ s, set_table_rows rel (delete i (table_rows rel s)) s)
  end.

End Executor.

(* ===================================================================== *)
(** * Invariants of the stack of temporal contexts *)

Section TemporalContextInvariants.
Context {T : Type} `{!TimestampRep T}.
Implicit Types (st : ContextStore T) (c : TemporalContext T).
Implicit Types (es : list (TemporalContext T)).

(** The stack holds distinct, allocated addresses whose cells read [es],
    top first. *)
Definition stack_holds st es : Prop :=
  NoDup (temporal_contexts st) ∧
  Forall2 (λ p c, ctx_mem st !! p = Some c) (temporal_contexts st) es.

(** How the stack represents the settings of the open levels.  A level
    either owns the top context or sees the one of an enclosing level; the
    last context is the root, tagged [InvalidSubTransactionId]. *)
Inductive Rep : list SubTransactionId → list (TemporalContext T) →
                list (option T) → option T → Prop :=
  | Rep_root c :
      subid c = InvalidSubTransactionId → Rep [] [c] [] (context_view c)
  | Rep_own s chain c es lv r :
      Rep chain es lv r → subid c = s → s ∉ chain → s ≠ InvalidSubTransactionId →
      Rep (s :: chain) (c :: es) (context_view c :: lv) r
  | Rep_inherit s chain c es lv r :
      Rep chain (c :: es) lv r → s ∉ chain → s ≠ InvalidSubTransactionId →
      Rep (s :: chain) (c :: es) (context_view c :: lv) r.

(** The code's stack under the chain [chain] represents the specification's
    settings [sp]. *)
Definition store_inv (chain : list SubTransactionId) st (sp : SpecContexts T) : Prop :=
  ∃ es, stack_holds st es ∧ Rep chain es (spec_levels sp) (spec_root sp).

(** The writes of [set_system_time] on a context. *)
Definition apply_set (arg : option T) c : TemporalContext T :=
  match arg with
  | None => set_system_time_mode CurrentTransactionStartTimestamp c
  | Some ts => set_system_time_field ts (set_system_time_mode UserDefined c)
  end.

End TemporalContextInvariants.

(* ===================================================================== *)
(** * Vocabulary for the properties of versioning.c *)

(** The bytes of a C string (up to its first NUL), and the same with ASCII
    letters folded to lower case: two strings are equal without regard to
    case when their folded bytes are equal. *)
Fixpoint c_bytes (s : string) : list Z :=
  match s with
  | EmptyString => []
  | String c r =>
      let b := Z.of_nat (Ascii.nat_of_ascii c) in
      if b =? 0 then [] else b :: c_bytes r
  end.

Definition folded (s : string) : list Z := map pg_ascii_tolower (c_bytes s).

Section VersioningInvariants.
Context {T : Type} `{!TimestampRep T}.

(** The cached [integer_datetimes], once looked up, is what the server
    reports. *)
Definition datetimes_cache_ok (s : State T) : Prop :=
  integer_datetimes_set s = true →
  integer_datetimes s = bool_decide (integer_datetimes_option = "on").

(** ** The metadata cache *)

(** The entry that a [VersioningHashEntry *] for [key] points to. *)
Definition entry_at (key : Oid) (s : State T) : option VersioningHashEntry :=
  cache ← versioning_cache s; cache !! key.

(** The state with the entry for [key] set to [e]. *)
Definition with_entry (key : Oid) (e : VersioningHashEntry) (s : State T) : State T :=
  set_versioning_cache (Some (<[key := e]> (default ∅ (versioning_cache s)))) s.

(** A newly created entry: zero-filled, marked invalid. *)
Definition blank_entry (key : Oid) : VersioningHashEntry :=
  mkVersioningHashEntry key 0 None None (-1) None None.

(** An entry after it was marked invalid and its descriptors and column
    mapping were freed. *)
Definition invalidated (e : VersioningHashEntry) : VersioningHashEntry :=
  set_attnums None (set_history_tupdesc None (set_tupdesc None (set_natts (-1) e))).

(** The condition of the specification for a rebuild: the entry is marked
    invalid, or the cached history relation is not the live one, or a cached
    descriptor differs from the live one. *)
Definition needs_rebuild (e : VersioningHashEntry) (history_relation : RelationData)
    (td history_td : TupleDesc) : bool :=
  bool_decide (natts e = -1)
  || negb (bool_decide (history_relid e = RelationGetRelid history_relation))
  || negb (bool_decide (tupdesc e = Some td))
  || negb (bool_decide (history_tupdesc e = Some history_td)).

Definition attnums_size (td history_td : TupleDesc) : Z :=
  Z.min (tupdesc_natts td) (tupdesc_natts history_td).

(** The INSERT plan for the history relation and the given common columns. *)
Definition insert_plan_for (history_relation : RelationData) (columns : list string)
    (history_attnums : list Z) : SPIPlan :=
  mkSPIPlan (rd_nspname history_relation) (rd_relname history_relation) columns
    (map (SPI_gettypeid (RelationGetDescr history_relation)) history_attnums)
    (RelationGetRelid history_relation) (RelationGetDescr history_relation).

(** The entry after a complete rebuild. *)
Definition rebuilt_entry (key : Oid) (history_relation : RelationData)
    (td : TupleDesc) (attnums : list Z) (plan : SPIPlanPtr) : VersioningHashEntry :=
  mkVersioningHashEntry key (RelationGetRelid history_relation) (Some td)
    (Some (RelationGetDescr history_relation)) (Z.of_nat (length attnums))
    (Some attnums) (Some plan).

(** A valid entry is complete: both descriptors, the column mapping computed
    from them, which is not empty, and a saved plan that inserts these
    columns into the cached history relation. *)
Definition entry_valid (s : State T) (e : VersioningHashEntry) : Prop :=
  ∃ td htd a ha cols p pl r1 r2,
    tupdesc e = Some td ∧ history_tupdesc e = Some htd ∧
    attnums e = Some a ∧ natts e = Z.of_nat (length a) ∧ a ≠ [] ∧
    insert_history_plan e = Some p ∧ spi_plans s !! p = Some pl ∧
    plan_columns pl = cols ∧ plan_relid pl = history_relid e ∧ plan_tupdesc pl = htd ∧
    fill_common_attributes (T:=T) td htd r1 r2 (attnums_size td htd) ([], [], [])
      = Ok (a, ha, cols).

(** The invariant of the cache: entries not marked invalid are valid, the
    plans that entries point to are saved plans, and no two entries share a
    plan. *)
Definition cache_inv (s : State T) : Prop :=
  (∀ k e, entry_at k s = Some e → natts e ≠ -1 → entry_valid s e) ∧
  (∀ k e p, entry_at k s = Some e → insert_history_plan e = Some p →
            is_Some (spi_plans s !! p)) ∧
  (∀ k1 k2 e1 e2 p, entry_at k1 s = Some e1 → entry_at k2 s = Some e2 →
                    insert_history_plan e1 = Some p →
                    insert_history_plan e2 = Some p → k1 = k2).

(** The server lets the archival go through: the history relation exists,
    the SPI calls succeed. *)
Definition host_ready (h : Host T) (history_relation_name : string)
    (history_relation : RelationData) : Prop :=
  host_relations h !! history_relation_name = Some history_relation ∧
  host_SPI_connect h = SPI_OK_CONNECT ∧ host_SPI_prepare h = 0 ∧
  host_SPI_keepplan h = 0 ∧ host_SPI_freeplan h = 0 ∧
  host_SPI_execp h = SPI_OK_INSERT ∧ host_SPI_finish h = SPI_OK_FINISH.

(** The two relations fit: the period column is a live column of both, and
    the columns they have in common, [attnums] in the versioned relation
    and [columns] by name, have equal types. *)
Definition schemas_fit (relation history_relation : RelationData)
    (period_attname : string) (attnums history_attnums : list Z)
    (columns : list string) : Prop :=
  0 < SPI_fnumber (RelationGetDescr relation) period_attname ∧
  0 <= SPI_fnumber (RelationGetDescr history_relation) period_attname ∧
  fill_common_attributes (T:=T) (RelationGetDescr relation)
      (RelationGetDescr history_relation) relation history_relation
      (attnums_size (RelationGetDescr relation) (RelationGetDescr history_relation))
      ([], [], [])
    = Ok (attnums, history_attnums, columns).

(** The row that archiving [tuple] adds to the history relation. *)
Definition archived_row (h : Host T) (tuple : HeapTupleData T)
    (relation history_relation : RelationData) (attnums : list Z)
    (columns : list string) : HeapTupleData T :=
  mkHeapTuple (host_xid h)
    (inserted_values columns
       (map (SPI_getbinval tuple (RelationGetDescr relation)) attnums)
       (RelationGetDescr history_relation)).

(** The fields of the state that the cache code does not touch. *)
Definition same_session (s s' : State T) : Prop :=
  st_contexts s' = st_contexts s ∧ notices s' = notices s ∧
  integer_datetimes s' = integer_datetimes s ∧
  integer_datetimes_set s' = integer_datetimes_set s.

(** Whether the specification asks for a rebuild of the entry for [key]: it
    is missing (a new entry is created marked invalid) or due by
    [needs_rebuild]. *)
Definition rebuild_due (key : Oid) (history_relation : RelationData)
    (td history_td : TupleDesc) (s : State T) : bool :=
  match entry_at key s with
  | None => true
  | Some e => needs_rebuild e history_relation td history_td
  end.

(** The part of [insert_history_row] after the validity check, from the
    state [sA], with the value of [found] at that point. *)
Definition history_row_tail (h : Host T) (tuple : HeapTupleData T)
    (relation history_relation : RelationData) (period_attname : string)
    (found : bool) (sA : State T) : Res T unit * State T :=
  let k := RelationGetRelid relation in
  let td := RelationGetDescr relation in
  if negb (host_SPI_connect h =? SPI_OK_CONNECT) then
    (Err (ERR_SPI_connect_returned (host_SPI_connect h)), sA)
  else
    match (if negb found
           then fill_versioning_hash_entry h k relation history_relation td
                  period_attname sA
           else (Ok tt, sA)) with
    | (Err err, sB) => (Err err, sB)
    | (Ok _, sB) =>
        match execute_history_plan h k tuple td sB with
        | (Err err, sC) => (Err err, sC)
        | (Ok _, sC) =>
            if negb (host_SPI_finish h =? SPI_OK_FINISH) then
              (Err (ERR_SPI_finish_returned (host_SPI_finish h)), sC)
            else (Ok tt, sC)
        end
    end.

(** What the specification says of an entry after a call that found it due
    for a rebuild: it was discarded and is either left invalid, the call
    having failed, or rebuilt for the live schemas with a plan of its own. *)
Definition discarded_or_rebuilt (h : Host T) (rel hrel : RelationData)
    (r : Res T unit) (s s' : State T) : Prop :=
  let k := RelationGetRelid rel in
  let td := RelationGetDescr rel in
  let htd := RelationGetDescr hrel in
  ∃ e', entry_at k s' = Some e' ∧
    ((natts e' = -1 ∧ tupdesc e' = None ∧ history_tupdesc e' = None ∧
      attnums e' = None ∧ (host_SPI_freeplan h = 0 → insert_history_plan e' = None) ∧
      ∃ err, r = Err err) ∨
     (needs_rebuild e' hrel td htd = false ∧
      ∃ a ha cols p,
        attnums e' = Some a ∧ natts e' = Z.of_nat (length a) ∧
        insert_history_plan e' = Some p ∧
        fill_common_attributes (T:=T) td htd rel hrel (attnums_size td htd) ([], [], [])
          = Ok (a, ha, cols) ∧
        spi_plans s' !! p = Some (insert_plan_for hrel cols ha) ∧
        ∀ e p0, entry_at k s = Some e → insert_history_plan e = Some p0 → p0 ≠ p →
                spi_plans s' !! p0 = None)).

(** ** The trigger *)

(** The period column passes the checks of the trigger function: it is a
    live column of the relation, not an array, of a range type over
    timestamp with time zone. [n] is its number and [typcache] what
    [get_period_typcache] returns for it. *)
Definition period_column_ok (h : Host T) (relation : RelationData)
    (period_attname : string) (n : Z) (typcache : TypeCacheEntry) : Prop :=
  SPI_fnumber (RelationGetDescr relation) period_attname = n ∧ 0 < n ∧
  ∃ attr type,
    TupleDescAttr (RelationGetDescr relation) (n - 1) = Some attr ∧
    attndims attr = 0 ∧
    host_types h !! atttypid attr = Some type ∧
    typtype type = TYPTYPE_RANGE ∧ rngelemtype type = TIMESTAMPTZOID ∧
    typcache = mkTypeCacheEntry (atttypid attr) TIMESTAMPTZOID.

(** The system time that the trigger computes in state [s]. *)
Definition system_time_is (h : Host T) (s : State T) (now : T) : Prop :=
  get_system_time (host_xact_start h) (host_subid h) (st_contexts s) = Some now.

(** The lower bound of a stored period, as [range_deserialize] returns it. *)
Definition stored_lower_bound (lb : option (T * bool)) : RangeBound T :=
  match lb with
  | None => mkRangeBound (ts_of_int64 0) true false true
  | Some (v, incl) => mkRangeBound v false incl true
  end.

(** The closing bound of an archived period: finite, exclusive. *)
Definition closing_bound (u : T) : RangeBound T := mkRangeBound u false false false.

(** [lb] lies strictly below the timestamp [u]. *)
Definition lower_bound_below (lb : option (T * bool)) (u : T) : Prop :=
  match lb with
  | None => True
  | Some (v, _) => timestamp_cmp_internal v u = Lt
  end.

(** The tuple with the column [n] of the descriptor set to the range. *)
Definition with_period (td : TupleDesc) (n : Z) (range : RangeType T)
    (tuple : HeapTupleData T) : HeapTupleData T :=
  mkHeapTuple InvalidTransactionId
    (<[Z.to_nat (n - 1) := Some (DatumRange range)]>
       (resize (length td) None (t_values tuple))).

(** The trigger manager calls the trigger
    [versioning(period_attname, history_relation_name, adjust)] BEFORE each
    ROW for the operation [op]. *)
Definition fired_before_row (op : Z) (trigdata : TriggerData T)
    (period_attname history_relation_name adjust : string) : Prop :=
  TRIGGER_FIRED_BEFORE (tg_event trigdata) = true ∧
  TRIGGER_FIRED_FOR_ROW (tg_event trigdata) = true ∧
  Z.land (tg_event trigdata) TRIGGER_EVENT_OPMASK = op ∧
  tg_trigger trigdata = mkTrigger 3 [period_attname; history_relation_name; adjust].

(** The row stores the period that starts at [lb] and has no upper bound. *)
Definition stores_period (td : TupleDesc) (n : Z) (tuple : HeapTupleData T)
    (lb : option (T * bool)) : Prop :=
  SPI_getbinval tuple td n = Some (DatumRange (RangeValue lb None)).

(** The state after the warning of an adjustment and the lookup of the
    timestamp representation that [next_timestamp] starts with. *)
Definition after_adjustment (relation : RelationData) (s : State T) : State T :=
  let s1 := set_notices (notices s ++
              [WARNING_system_period_adjusted (RelationGetRelationName relation)]) s in
  if integer_datetimes_set s1 then s1
  else set_integer_datetimes (bool_decide (integer_datetimes_option = "on")) true s1.

(** The rows of the history relation after [tuple] was archived in [s]. *)
Definition history_with (h : Host T) (tuple : HeapTupleData T)
    (relation history_relation : RelationData) (attnums : list Z)
    (columns : list string) (s : State T) : gmap Oid (list (HeapTupleData T)) :=
  <[RelationGetRelid history_relation :=
      default [] (heap_rows s !! RelationGetRelid history_relation) ++
      [archived_row h tuple relation history_relation attnums columns]]> (heap_rows s).

End VersioningInvariants.

Arguments schemas_fit : clear implicits.

(* ===================================================================== *)
(** * A sample installation

    The relation [r (id int4, data text, valid_time tstzrange)] with the
    history relation [r_hist] of the same columns, the trigger
    [versioning('valid_time', 'r_hist', adjust)], and a server on which the
    SPI calls succeed, in a transaction with id [xid] started at [now]. *)

Definition sample_desc : TupleDesc :=
  [mkAttr "id" 23 0 (-1) false 1;
   mkAttr "data" 25 0 (-1) false 2;
   mkAttr "valid_time" 3910 0 (-1) false 3].

Definition sample_relation : RelationData := mkRelation 1000 "r" "public" sample_desc.
Definition sample_history : RelationData := mkRelation 1001 "r_hist" "public" sample_desc.

Definition sample_trigger (adjust : string) : Trigger :=
  mkTrigger 3 ["valid_time"; "r_hist"; adjust].

Definition sample_host (xid : TransactionId) (now : Z) : Host Z :=
  mkHost TopSubTransactionId xid [xid] now
    {[ "r_hist" := sample_history ]}
    {[ 3910 := mkType TYPTYPE_RANGE TIMESTAMPTZOID ]}
    SPI_OK_CONNECT 0 0 0 SPI_OK_INSERT SPI_OK_FINISH.

Definition sample_row (id : Z) (data : string) (period : option (RangeType Z))
    : list (option (Datum Z)) :=
  [Some (DatumInt id); Some (DatumText data); DatumRange <$> period].

(** The same installation on a server built with [double] timestamps. *)
Definition sample_host_float8 (xid : TransactionId) (now : float8) : Host float8 :=
  mkHost TopSubTransactionId xid [xid] now
    {[ "r_hist" := sample_history ]}
    {[ 3910 := mkType TYPTYPE_RANGE TIMESTAMPTZOID ]}
    SPI_OK_CONNECT 0 0 0 SPI_OK_INSERT SPI_OK_FINISH.

Definition sample_row_float8 (id : Z) (data : string) (period : option (RangeType float8))
    : list (option (Datum float8)) :=
  [Some (DatumInt id); Some (DatumText data); DatumRange <$> period].

(** A run with a set in a subtransaction that commits, a set in a nested one
    that is rolled back, and the commit of the transaction. *)
Definition sample_trace : list (TxEvent Z) :=
  [EvBegin; EvSubBegin 2; EvSetSystemTime (Some 5); EvSubBegin 3;
   EvSetSystemTime (Some 7); EvSubAbort; EvSubCommit; EvCommit; EvBegin].

(* ===================================================================== *)
(* ===================================================================== *)
(** * Host: the order of the doubles

    Vocabulary for the arithmetic of [double] timestamps.  Rocq specifies
    its primitive floats by [spec_float]: a finite double is a sign, a
    mantissa [m] and an exponent [e], of value [m * 2^e], in canonical form
    (53 bits of mantissa, or the exponent -1074 of the subnormal
    numbers). *)

(** The value of [m * 2^e] in units of [2^-1126]: an integer for every
    exponent that the rounding of a sum or of a power of two meets. *)
Definition float8_units (m : positive) (e : Z) : Z := Z.pos m * 2 ^ (e + 1126).

(** The value of a double that is a number, in those units. *)
Definition float8_value (x : spec_float) : Z :=
  match x with
  | S754_finite s m e => if s then - float8_units m e else float8_units m e
  | _ => 0
  end.

(** Zero or finite: neither an infinity nor NaN. *)
Definition float8_number (x : spec_float) : bool :=
  match x with
  | S754_zero _ | S754_finite _ _ _ => true
  | _ => false
  end.

(** The magnitude of [m * 2^e]: the exponent [d] with
    [2^(d-1) <= m * 2^e < 2^d]. *)
Definition float8_mag (m : positive) (e : Z) : Z := Z.pos (digits2_pos m) + e.

(** The record of a right shift has lost no bit that was set. *)
Definition shr_exact (a : shr_record) : Prop := shr_r a = false ∧ shr_s a = false.

(** [b] is [a] shifted right by [n] bits. *)
Definition shifted (n : Z) (a b : shr_record) : Prop :=
  0 <= shr_m b ∧ shr_m b = shr_m a / 2 ^ n ∧
  (shr_exact a → shr_m a mod 2 ^ n = 0 → shr_exact b).

(** [r] is positive infinity or a number not below the value [v]. *)
Definition float8_not_below (v : Z) (r : spec_float) : Prop :=
  r = S754_infinity false ∨
  (float8_number r = true ∧ valid_binary r = true ∧ v <= float8_value r).

(** [r] is negative infinity or a number not above the value [v]. *)
Definition float8_not_above (v : Z) (r : spec_float) : Prop :=
  r = S754_infinity true ∨
  (float8_number r = true ∧ valid_binary r = true ∧ float8_value r <= v).

(** [r] is the exact value [v] rounded, as far as the order goes: no double
    lies between [v] and [r]. *)
Definition float8_rounded (v : Z) (r : spec_float) : Prop :=
  ∀ t, float8_number t = true → valid_binary t = true →
    (float8_value t <= v → float8_not_below (float8_value t) r) ∧
    (v <= float8_value t → float8_not_above (float8_value t) r).

(* ===================================================================== *)
(** * Host: PREPARE TRANSACTION, as seen by the callbacks *)

Section PreparedTransactions.
Context {T : Type} `{!TimestampRep T}.

(** PREPARE TRANSACTION ends the transaction for the session without a
    commit or an abort: open subtransactions are committed first, one by
    one; then the transaction manager calls the transaction callbacks with
    [XACT_EVENT_PRE_PREPARE] and with [XACT_EVENT_PREPARE] and detaches the
    transaction from the session.  Neither [XACT_EVENT_COMMIT] nor
    [XACT_EVENT_ABORT] follows for it in this session. *)
Definition prepare_transaction (st : ContextStore T) : option (ContextStore T) :=
  st1 ← temporal_tables_xact_callback XACT_EVENT_PRE_PREPARE st;
  temporal_tables_xact_callback XACT_EVENT_PREPARE st1.

End PreparedTransactions.

(* ===================================================================== *)
(** * Vocabulary for the properties of whole invocations *)

Section Footprints.
Context {T : Type} `{!TimestampRep T}.

(** Every run of [m] that does not end in undefined behaviour of the C code
    relates the state before to the state after by [R], whatever the run
    returns. *)
Definition keeps {A} (R : State T → State T → Prop) (m : M T A) : Prop :=
  ∀ s, (m s).1 = Err ERR_undefined_behaviour ∨ R s (m s).2.

(** What the trigger code leaves alone: the temporal contexts are as
    before, notices and rows are only added at the end, and the cached
    [integer_datetimes] stays right. *)
Definition session_frame (s s' : State T) : Prop :=
  st_contexts s' = st_contexts s ∧
  notices s `prefix_of` notices s' ∧
  (∀ k, default [] (heap_rows s !! k) `prefix_of` default [] (heap_rows s' !! k)) ∧
  (datetimes_cache_ok s → datetimes_cache_ok s').

(** The code outside the metadata cache: neither the cache nor the saved
    plans change. *)
Definition cache_untouched (s s' : State T) : Prop :=
  versioning_cache s' = versioning_cache s ∧ spi_plans s' = spi_plans s.

Definition cache_kept (s s' : State T) : Prop := cache_inv s → cache_inv s'.

Definition trigger_footprint (s s' : State T) : Prop :=
  session_frame s s' ∧ cache_kept s s'.

(** The code outside the archival: besides the frame, the cache, the saved
    plans and the rows are as before. *)
Definition outside_archival (s s' : State T) : Prop :=
  session_frame s s' ∧ cache_untouched s s' ∧ heap_rows s' = heap_rows s.

(** From a cache that satisfies its invariant: it is satisfied afterwards,
    and no relation but [target] has got a row. *)
Definition writes_only_to (target : Oid) (s s' : State T) : Prop :=
  cache_inv s →
  cache_inv s' ∧ ∀ k, k ≠ target → heap_rows s' !! k = heap_rows s !! k.

Definition rows_unchanged (s s' : State T) : Prop := heap_rows s' = heap_rows s.

(** From a state in [P], the run of [m] does not end in undefined behaviour
    of the C code, and it ends in [P]. *)
Definition runs_defined {A} (P : State T → Prop) (m : M T A) : Prop :=
  ∀ s, P s → (m s).1 ≠ Err ERR_undefined_behaviour ∧ P (m s).2.

(** A call as the trigger manager makes it: [tgnargs] counts the arguments,
    the row at hand is there, and so is the proposed row of an UPDATE. *)
Definition well_formed_call (trigdata : TriggerData T) : Prop :=
  tgnargs (tg_trigger trigdata) = Z.of_nat (length (tgargs (tg_trigger trigdata))) ∧
  is_Some (tg_trigtuple trigdata) ∧
  (TRIGGER_FIRED_BY_UPDATE (tg_event trigdata) = true → is_Some (tg_newtuple trigdata)).

(** The column [period_attname] of the row at hand holds NULL or a range,
    as a column of a range type does. *)
Definition period_value_typed (trigdata : TriggerData T) (period_attname : string) : Prop :=
  ∀ tuple d,
    tg_trigtuple trigdata = Some tuple →
    SPI_getbinval tuple (RelationGetDescr (tg_relation trigdata))
      (SPI_fnumber (RelationGetDescr (tg_relation trigdata)) period_attname) = Some d →
    ∃ r, d = DatumRange r.

(** The state of a session in which the library runs: the cache satisfies
    its invariant, the cached [integer_datetimes] is right, and the stack of
    temporal contexts is one that the callbacks have built. *)
Definition session_ok (s : State T) : Prop :=
  cache_inv s ∧ datetimes_cache_ok s ∧
  ∃ tr chain, code_run [] tr PG_init = Some (chain, st_contexts s).

End Footprints.

(* ===================================================================== *)
(** * Vocabulary for the column mapping of the history relation *)

(** The live columns of a descriptor. *)
Definition live_columns (td : list FormData_pg_attribute)
    : list FormData_pg_attribute :=
  filter (λ attr, attisdropped attr = false) td.

(** The columns that the versioned relation has in common with the history
    relation: its live columns whose name [SPI_fnumber] finds there. *)
Definition common_columns (td : list FormData_pg_attribute) (history_td : TupleDesc)
    : list FormData_pg_attribute :=
  filter (λ attr, attisdropped attr = false ∧ 0 <= SPI_fnumber history_td (attname attr)) td.

(** The column of the history relation with the name of [attr]. *)
Definition history_column (history_td : TupleDesc) (attr : FormData_pg_attribute)
    : option FormData_pg_attribute :=
  TupleDescAttr history_td (SPI_fnumber history_td (attname attr) - 1).

(** The comparison of [check_attr_type]. *)
Definition same_attr_type (attr history_attr : FormData_pg_attribute) : Prop :=
  atttypid attr = atttypid history_attr ∧ attndims attr = attndims history_attr ∧
  atttypmod attr = atttypmod history_attr.

(** A descriptor numbers its columns from 1. *)
Definition attnums_in_order (td : TupleDesc) : Prop :=
  ∀ (i : nat) attr, td !! i = Some attr → attnum attr = Z.of_nat i + 1.

(* ===================================================================== *)
(** * Statements on the sample installation *)

(** A version of the sample row: the transaction that wrote it, the system
    time of that transaction, and the data. *)
Definition Version : Type := TransactionId * Z * string.

(** [UPDATE r SET data = ...] by the transaction and at the system time of
    the version that it writes. *)
Definition sample_update (adjust : string) (u : Version) : M Z unit :=
  exec_update (sample_host u.1.1 u.1.2) sample_relation (sample_trigger adjust) 0
    [(1%nat, Some (DatumText u.2))].

Fixpoint sample_updates (adjust : string) (us : list Version) : M Z unit :=
  match us with
  | [] => mret tt
  | u :: us' => sample_update adjust u;; sample_updates adjust us'
  end.

(** The live row of a version. *)
Definition version_row (id : Z) (v : Version) : HeapTupleData Z :=
  mkHeapTuple v.1.1 (sample_row id v.2 (Some (RangeValue (Some (v.1.2, true)) None))).

(** The history rows of the versions that were replaced: each one closed at
    the system time of the next. *)
Fixpoint version_history (id : Z) (v : Version) (us : list Version)
    : list (HeapTupleData Z) :=
  match us with
  | [] => []
  | u :: us' =>
      mkHeapTuple u.1.1
        (sample_row id v.2 (Some (RangeValue (Some (v.1.2, true)) (Some (u.1.2, false)))))
      :: version_history id u us'
  end.

(** Each version is written by another transaction than the one before, at
    a later system time. *)
Fixpoint versions_in_order (v : Version) (us : list Version) : Prop :=
  match us with
  | [] => True
  | u :: us' => v.1.1 ≠ u.1.1 ∧ v.1.2 < u.1.2 ∧ versions_in_order u us'
  end.

(* ===================================================================== *)
(** * The order of the doubles, and the successor of a [double] timestamp *)

Section Float8Digits.

Lemma digits2_pos_size m : digits2_pos m = Pos.size m.
Proof. induction m; simpl; by f_equal. Qed.

Lemma digits2_pos_bounds m :
  2 ^ (Z.pos (digits2_pos m) - 1) <= Z.pos m < 2 ^ Z.pos (digits2_pos m).
Proof.
  rewrite digits2_pos_size. split.
  - pose proof (Pos.size_le m) as H.
    apply Pos2Z.pos_le_pos in H. rewrite Pos2Z.inj_pow in H.
    replace (Z.pos (Pos.size m)) with (Z.succ (Z.pos (Pos.size m) - 1)) in H by lia.
    rewrite Z.pow_succ_r in H by lia. lia.
  - pose proof (Pos.size_gt m) as H.
    apply Pos2Z.pos_lt_pos in H. by rewrite Pos2Z.inj_pow in H.
Qed.

Lemma pow2_pos k : 0 <= k → 0 < 2 ^ k.
Proof. intros. by apply Z.pow_pos_nonneg. Qed.

Lemma pow2_split a c : 0 <= c <= a → 2 ^ a = 2 ^ (a - c) * 2 ^ c.
Proof. intros. rewrite <- Z.pow_add_r by lia. f_equal. lia. Qed.

Lemma pow2_le a c : 0 <= a <= c → 2 ^ a <= 2 ^ c.
Proof. intros. apply Z.pow_le_mono_r; lia. Qed.

Lemma pow2_lt a c : 0 <= a < c → 2 ^ a < 2 ^ c.
Proof. intros. apply Z.pow_lt_mono_r; lia. Qed.

Lemma pow2_lt_inv a c : 0 <= a → 0 <= c → 2 ^ a < 2 ^ c → a < c.
Proof. intros ? ? H. apply Z.pow_lt_mono_r_iff in H; lia. Qed.

Lemma fexp_eq e : fexp prec emax e = Z.max (e - 53) (-1074).
Proof. reflexivity. Qed.

Lemma float8_units_mag m e :
  -1126 <= e →
  2 ^ (float8_mag m e - 1 + 1126) <= float8_units m e < 2 ^ (float8_mag m e + 1126).
Proof.
  intros He. unfold float8_units, float8_mag.
  pose proof (digits2_pos_bounds m) as [Hl Hu].
  pose proof (pow2_pos (e + 1126) ltac:(lia)) as Hp.
  assert (0 < Z.pos (digits2_pos m)) by lia.
  replace (Z.pos (digits2_pos m) + e - 1 + 1126)
    with ((Z.pos (digits2_pos m) - 1) + (e + 1126)) by lia.
  replace (Z.pos (digits2_pos m) + e + 1126)
    with (Z.pos (digits2_pos m) + (e + 1126)) by lia.
  rewrite (Z.pow_add_r 2 (Z.pos (digits2_pos m) - 1)) by lia.
  rewrite (Z.pow_add_r 2 (Z.pos (digits2_pos m))) by lia. split.
  - apply Z.mul_le_mono_nonneg_r; lia.
  - apply Z.mul_lt_mono_pos_r; lia.
Qed.

Lemma bounded_spec m e :
  bounded prec emax m e = true ↔
  e = Z.max (float8_mag m e - 53) (-1074) ∧ e <= 971.
Proof.
  unfold bounded, canonical_mantissa, float8_mag. rewrite fexp_eq.
  rewrite andb_true_iff, Z.eqb_eq, Z.leb_le.
  change (emax - prec) with 971. intuition lia.
Qed.

(** Of two numbers in canonical form the one of the larger magnitude is the
    larger. *)
Lemma float8_units_mag_le m1 e1 m2 e2 :
  -1126 <= e1 → -1126 <= e2 →
  float8_units m1 e1 <= float8_units m2 e2 → float8_mag m1 e1 <= float8_mag m2 e2.
Proof.
  intros H1 H2 Hle.
  pose proof (float8_units_mag m1 e1 H1) as [Hl1 _].
  pose proof (float8_units_mag m2 e2 H2) as [_ Hu2].
  assert (0 < Z.pos (digits2_pos m1)) by lia.
  assert (0 < Z.pos (digits2_pos m2)) by lia.
  unfold float8_mag in *.
  assert (2 ^ (Z.pos (digits2_pos m1) + e1 - 1 + 1126)
          < 2 ^ (Z.pos (digits2_pos m2) + e2 + 1126)) as Hlt by lia.
  apply pow2_lt_inv in Hlt; lia.
Qed.

End Float8Digits.

Section Float8Compare.
#[local] Arguments Z.compare : simpl never.

Lemma float8_units_pos m e : -1126 <= e → 0 < float8_units m e.
Proof.
  intros. unfold float8_units.
  pose proof (pow2_pos (e + 1126) ltac:(lia)). lia.
Qed.

Lemma bounded_exponent m e : bounded prec emax m e = true → -1074 <= e <= 971.
Proof. rewrite bounded_spec. lia. Qed.

(** Of two numbers in canonical form the one with the larger exponent is
    the larger. *)
Lemma float8_units_exponent_lt m1 e1 m2 e2 :
  bounded prec emax m1 e1 = true → bounded prec emax m2 e2 = true →
  e1 < e2 → float8_units m1 e1 < float8_units m2 e2.
Proof.
  rewrite !bounded_spec. intros [H1 _] [H2 _] Hlt.
  assert (-1074 <= e1) by lia. assert (-1074 <= e2) by lia.
  pose proof (float8_units_mag m1 e1 ltac:(lia)) as [_ Hu].
  pose proof (float8_units_mag m2 e2 ltac:(lia)) as [Hl _].
  assert (0 < Z.pos (digits2_pos m1)) by lia.
  assert (float8_mag m1 e1 - 1 + 1126 >= 0) by (unfold float8_mag; lia).
  pose proof (pow2_le (float8_mag m1 e1 + 1126) (float8_mag m2 e2 - 1 + 1126)
                ltac:(unfold float8_mag in *; lia)).
  lia.
Qed.

Lemma float8_units_exponent_le m1 e1 m2 e2 :
  bounded prec emax m1 e1 = true → bounded prec emax m2 e2 = true →
  float8_units m1 e1 <= float8_units m2 e2 → e1 <= e2.
Proof.
  intros H1 H2 Hle. destruct (Z.le_gt_cases e1 e2) as [|Hgt]; [done|].
  pose proof (float8_units_exponent_lt m2 e2 m1 e1 H2 H1 Hgt). lia.
Qed.

Lemma float8_units_same_exponent m1 m2 e :
  -1126 <= e →
  (float8_units m1 e ?= float8_units m2 e) = (m1 ?= m2)%positive.
Proof.
  intros. unfold float8_units.
  pose proof (pow2_pos (e + 1126) ltac:(lia)).
  rewrite <- Zmult_compare_compat_r by lia. done.
Qed.

(** [SFcompare] on numbers in canonical form is the order of their
    values. *)
Lemma SFcompare_value x y :
  valid_binary x = true → valid_binary y = true →
  float8_number x = true → float8_number y = true →
  SFcompare x y = Some (float8_value x ?= float8_value y).
Proof.
  intros Hx Hy Nx Ny.
  destruct x as [sx|sx| |sx mx ex], y as [sy|sy| |sy my ey]; try done; simpl in *.
  - pose proof (bounded_exponent _ _ Hy).
    pose proof (float8_units_pos my ey ltac:(lia)).
    f_equal. destruct sy; symmetry.
    + apply Z.compare_gt_iff. lia.
    + apply Z.compare_lt_iff. lia.
  - pose proof (bounded_exponent _ _ Hx).
    pose proof (float8_units_pos mx ex ltac:(lia)).
    f_equal. destruct sx; symmetry.
    + apply Z.compare_lt_iff. lia.
    + apply Z.compare_gt_iff. lia.
  - pose proof (bounded_exponent _ _ Hx). pose proof (bounded_exponent _ _ Hy).
    pose proof (float8_units_pos mx ex ltac:(lia)).
    pose proof (float8_units_pos my ey ltac:(lia)).
    f_equal. destruct sx, sy.
    + rewrite Z.compare_opp.
      destruct (Z.compare_spec ex ey) as [->|Hlt|Hgt].
      * rewrite float8_units_same_exponent by lia.
        rewrite Pos.compare_cont_spec, (Pos.compare_antisym mx my).
        by destruct (mx ?= my)%positive.
      * symmetry. apply Z.compare_gt_iff.
        by apply float8_units_exponent_lt.
      * symmetry. apply Z.compare_lt_iff.
        by apply float8_units_exponent_lt.
    + symmetry. apply Z.compare_lt_iff. lia.
    + symmetry. apply Z.compare_gt_iff. lia.
    + destruct (Z.compare_spec ex ey) as [->|Hlt|Hgt].
      * rewrite float8_units_same_exponent by lia.
        rewrite Pos.compare_cont_spec. by destruct (mx ?= my)%positive.
      * symmetry. apply Z.compare_lt_iff.
        by apply float8_units_exponent_lt.
      * symmetry. apply Z.compare_gt_iff.
        by apply float8_units_exponent_lt.
Qed.

End Float8Compare.

Section Float8Rounding.

Lemma shifted_0 a : 0 <= shr_m a → shifted 0 a a.
Proof. intros. split; [done|]. split; [by rewrite Z.div_1_r|done]. Qed.

Lemma shr_1_shifted a : 0 <= shr_m a → shifted 1 a (shr_1 a).
Proof.
  destruct a as [m r s]. intros Hm. simpl in Hm.
  assert (shr_1 (Build_shr_record m r s) =
          Build_shr_record (Z.div2 m) (Z.odd m) (r || s)) as ->.
  { destruct m as [|[p|p|]|p]; try done; lia. }
  unfold shifted, shr_exact. simpl. rewrite Z.div2_div, Z.pow_1_r.
  split; [apply Z.div_pos; lia|]. split; [done|].
  intros [-> ->] Hmod. rewrite Zmod_odd in Hmod.
  by destruct (Z.odd m).
Qed.

Lemma shifted_compose n1 n2 a b c :
  0 <= n1 → 0 <= n2 → shifted n1 a b → shifted n2 b c → shifted (n1 + n2) a c.
Proof.
  intros H1 H2 (Hb & Hab & Eab) (Hc & Hbc & Ebc).
  pose proof (pow2_pos n1 H1). pose proof (pow2_pos n2 H2).
  split; [done|]. split.
  - rewrite Hbc, Hab, Z.pow_add_r by done. apply Z.div_div; lia.
  - intros Ha Hmod. rewrite Z.pow_add_r in Hmod by done.
    apply Z.mod_divide in Hmod; [|lia]. destruct Hmod as [k Hk].
    apply Ebc.
    + apply Eab; [done|]. rewrite Hk.
      replace (k * (2 ^ n1 * 2 ^ n2)) with (k * 2 ^ n2 * 2 ^ n1) by lia.
      apply Z.mod_mul. lia.
    + rewrite Hab, Hk.
      replace (k * (2 ^ n1 * 2 ^ n2)) with (k * 2 ^ n2 * 2 ^ n1) by lia.
      rewrite Z.div_mul by lia. apply Z.mod_mul. lia.
Qed.

Lemma iter_pos_shifted p : ∀ a, 0 <= shr_m a → shifted (Z.pos p) a (SpecFloat.iter_pos shr_1 p a).
Proof.
  induction p as [p IH|p IH|]; intros a Ha; simpl.
  - pose proof (shr_1_shifted a Ha) as H1.
    pose proof (IH _ (proj1 H1)) as H2.
    pose proof (IH _ (proj1 H2)) as H3.
    replace (Z.pos p~1) with (1 + Z.pos p + Z.pos p) by lia.
    eapply shifted_compose; [lia|lia| |exact H3].
    eapply shifted_compose; [lia|lia|exact H1|exact H2].
  - pose proof (IH _ Ha) as H2.
    pose proof (IH _ (proj1 H2)) as H3.
    replace (Z.pos p~0) with (Z.pos p + Z.pos p) by lia.
    eapply shifted_compose; [lia|lia|exact H2|exact H3].
  - by apply shr_1_shifted.
Qed.

Lemma shr_shifted a e n :
  0 <= shr_m a → ∃ b, shr a e n = (b, e + Z.max 0 n) ∧ shifted (Z.max 0 n) a b.
Proof.
  intros Ha. destruct n as [|p|p]; simpl.
  - exists a. rewrite Z.add_0_r. split; [done|]. by apply shifted_0.
  - exists (SpecFloat.iter_pos shr_1 p a). split; [done|]. by apply iter_pos_shifted.
  - exists a. rewrite Z.add_0_r. split; [done|]. by apply shifted_0.
Qed.

Lemma iter_xO_spec m d :
  Z.pos (Pos.iter xO m d) = Z.pos m * 2 ^ Z.pos d ∧
  Z.pos (digits2_pos (Pos.iter xO m d)) = Z.pos (digits2_pos m) + Z.pos d.
Proof.
  induction d as [|d [IH1 IH2]] using Pos.peano_ind.
  - simpl. rewrite Z.pow_1_r. lia.
  - rewrite Pos.iter_succ. simpl digits2_pos.
    rewrite Pos2Z.inj_xO, IH1, !Pos2Z.inj_succ, IH2, Z.pow_succ_r by lia. lia.
Qed.

Lemma shl_align_spec mx ex ex' :
  ∃ mz ez, shl_align mx ex ex' = (mz, ez) ∧ ez = Z.min ex ex' ∧
    Z.pos mz = Z.pos mx * 2 ^ (ex - ez) ∧
    Z.pos (digits2_pos mz) = Z.pos (digits2_pos mx) + (ex - ez).
Proof.
  unfold shl_align. destruct (ex' - ex) as [|d|d] eqn:E.
  - exists mx, ex. replace (ex - ex) with 0 by lia. split; [done|]. simpl. lia.
  - exists mx, ex. replace (ex - ex) with 0 by lia. split; [done|]. simpl. lia.
  - exists (Pos.iter xO mx d), ex'. replace (ex - ex') with (Z.pos d) by lia.
    split; [done|]. pose proof (iter_xO_spec mx d). lia.
Qed.

Lemma digits2_pos_unique p j :
  2 ^ (j - 1) <= Z.pos p < 2 ^ j → Z.pos (digits2_pos p) = j.
Proof.
  intros [Hl Hu]. pose proof (digits2_pos_bounds p) as [Hl' Hu'].
  assert (0 < Z.pos (digits2_pos p)) by lia.
  assert (0 < j).
  { destruct (Z.lt_ge_cases 0 j) as [|Hj]; [done|].
    destruct (Z.eq_dec j 0) as [->|]; [simpl in Hu; lia|].
    rewrite Z.pow_neg_r in Hu by lia. lia. }
  destruct (Z.lt_trichotomy (Z.pos (digits2_pos p)) j) as [Hlt|[Heq|Hgt]]; [|done|].
  - pose proof (pow2_le (Z.pos (digits2_pos p)) (j - 1) ltac:(lia)). lia.
  - pose proof (pow2_le j (Z.pos (digits2_pos p) - 1) ltac:(lia)). lia.
Qed.

End Float8Rounding.

Section Float8Round.

Lemma round_nearest_even_bounds m a :
  m <= round_nearest_even m (loc_of_shr_record a) <= m + 1 ∧
  (shr_exact a → round_nearest_even m (loc_of_shr_record a) = m).
Proof.
  destruct a as [x [] []]; unfold shr_exact; simpl.
  - split; [lia|]. by intros [? ?].
  - split; [|by intros [? ?]]. destruct (Z.even m); lia.
  - split; [lia|]. by intros [? ?].
  - split; [lia|done].
Qed.

(** What [binary_round] computes for a value [X] of magnitude [d]: with
    [G] the spacing of the doubles of that magnitude, [X / G] or its
    successor, times [G], in canonical form. *)
Lemma binary_round_computes sx mx ex :
  -1126 <= ex → -1073 <= float8_mag mx ex →
  let X := float8_units mx ex in
  let e' := Z.max (float8_mag mx ex - 53) (-1074) in
  let G := 2 ^ (e' + 1126) in
  ∃ m'' q e'',
    X / G <= m'' <= X / G + 1 ∧ (X mod G = 0 → m'' = X / G) ∧
    float8_units q e'' = m'' * G ∧
    e'' = Z.max (float8_mag q e'' - 53) (-1074) ∧
    binary_round prec emax sx mx ex =
      if e'' <=? 971 then S754_finite sx q e'' else S754_infinity sx.
Proof.
  intros Hex Hmag X e' G.
  pose proof (float8_units_mag mx ex Hex) as [HXl HXu]. fold X in HXl, HXu.
  set (d := float8_mag mx ex) in *.
  assert (-1074 <= e' ∧ e' < d ∧ d - e' <= 53) as (He'1 & He'2 & He'3) by (unfold e'; lia).
  unfold binary_round. rewrite fexp_eq. fold (float8_mag mx ex). fold d. fold e'.
  destruct (shl_align_spec mx ex e') as (mz & ez & -> & Hez & Hmz & Hdz).
  assert (ez <= e') as Hle by lia.
  assert (-1126 <= ez) as Hez' by lia.
  assert (Z.pos (digits2_pos mz) + ez = d) as Hmagz by (unfold d, float8_mag; lia).
  assert (Z.pos mz * 2 ^ (ez + 1126) = X) as HX.
  { unfold X, float8_units. rewrite Hmz, <- Z.mul_assoc, <- Z.pow_add_r by lia.
    do 2 f_equal. lia. }
  pose proof (pow2_pos (ez + 1126) ltac:(lia)) as Hpz.
  pose proof (pow2_pos (e' - ez) ltac:(lia)) as Hpn.
  assert (G = 2 ^ (e' - ez) * 2 ^ (ez + 1126)) as HG.
  { unfold G. rewrite <- Z.pow_add_r by lia. f_equal. lia. }
  assert (0 < G) as HGpos by (unfold G; apply pow2_pos; lia).
  assert (X / G = Z.pos mz / 2 ^ (e' - ez)) as Hdiv.
  { rewrite <- HX, HG. apply Z.div_mul_cancel_r; lia. }
  assert (X mod G = 0 → Z.pos mz mod 2 ^ (e' - ez) = 0) as Hmod.
  { rewrite <- HX, HG, Z.mul_mod_distr_r by lia. nia. }
  (* the first shift *)
  assert (∃ b, shr_fexp prec emax (Z.pos mz) ez loc_Exact = (b, e') ∧
               shifted (e' - ez) (Build_shr_record (Z.pos mz) false false) b)
    as (b & Hb & Hb0 & Hbm & Hbe).
  { unfold shr_fexp. simpl Zdigits2. rewrite fexp_eq, Hmagz. fold e'.
    destruct (shr_shifted (shr_record_of_loc (Z.pos mz) loc_Exact) ez (e' - ez))
      as (b & Hb & Hs); [simpl; lia|].
    exists b. rewrite Hb. rewrite Z.max_r in * by lia.
    split; [f_equal; lia|done]. }
  simpl in Hbm.
  unfold binary_round_aux. rewrite Hb.
  pose proof (round_nearest_even_bounds (shr_m b) b) as [Hr1 Hr2].
  remember (round_nearest_even (shr_m b) (loc_of_shr_record b)) as m'' eqn:Em''.
  rewrite <- Hdiv in Hbm. rewrite Hbm in Hr1, Hr2.
  assert (X mod G = 0 → m'' = X / G) as Hexact.
  { intros HXG. apply Hr2, Hbe; [done|]. simpl. by apply Hmod. }
  (* the place of [X / G] *)
  set (k := d - e') in *.
  assert (2 ^ (k - 1) <= X / G < 2 ^ k) as [Hkl Hku].
  { split.
    - apply Z.div_le_lower_bound; [done|].
      unfold G. rewrite <- Z.pow_add_r by lia.
      replace (e' + 1126 + (k - 1)) with (d - 1 + 1126) by lia. done.
    - apply Z.div_lt_upper_bound; [done|].
      unfold G. rewrite <- Z.pow_add_r by lia.
      replace (e' + 1126 + k) with (d + 1126) by lia. done. }
  pose proof (pow2_pos (k - 1) ltac:(lia)) as Hpk.
  assert (2 ^ k = 2 * 2 ^ (k - 1)) as Hk2.
  { replace k with (Z.succ (k - 1)) at 1 by lia. apply Z.pow_succ_r. lia. }
  destruct m'' as [|p2|p2]; [lia| |lia].
  exists (Z.pos p2).
  (* the second shift *)
  destruct (Z.lt_ge_cases (Z.pos p2) (2 ^ k)) as [Hlt|Hge].
  - (* no carry into a further digit *)
    assert (Z.pos (digits2_pos p2) = k) as Hdig
      by (apply digits2_pos_unique; lia).
    exists p2, e'. split; [done|]. split; [done|].
    split; [done|]. split; [unfold float8_mag; rewrite Hdig; unfold k, e'; lia|].
    unfold shr_fexp. simpl Zdigits2. rewrite fexp_eq, Hdig.
    replace (Z.max (k + e' - 53) (-1074) - e') with 0 by (unfold k, e'; lia).
    simpl. by change (emax - prec) with 971.
  - assert (Z.pos p2 = 2 ^ k) as Hp2 by lia.
    assert (Z.pos (digits2_pos p2) = k + 1) as Hdig.
    { apply digits2_pos_unique. replace (k + 1 - 1) with k by lia.
      split; [lia|]. rewrite Hp2. apply pow2_lt. lia. }
    destruct (Z.eq_dec e' (d - 53)) as [He'|He'].
    + (* a normal number: the mantissa is shifted once more *)
      assert (k = 53) as Hk53 by (unfold k; lia).
      assert (∃ b2, shr_fexp prec emax (Z.pos p2) e' loc_Exact = (b2, e' + 1) ∧
                    shr_m b2 = 2 ^ 52) as (b2 & Hb2 & Hb2m).
      { unfold shr_fexp. simpl Zdigits2. rewrite fexp_eq, Hdig.
        replace (Z.max (k + 1 + e' - 53) (-1074) - e') with 1 by lia.
        eexists. split; [reflexivity|].
        pose proof (shr_1_shifted (shr_record_of_loc (Z.pos p2) loc_Exact)
                      ltac:(simpl; lia)) as (_ & Hm & _).
        simpl. simpl in Hm. rewrite Hm, Hp2, Hk53. reflexivity. }
      exists (Z.to_pos (2 ^ 52)), (e' + 1). split; [done|]. split; [done|].
      split; [|split].
      * unfold float8_units. rewrite Hp2, Hk53. unfold G.
        replace (e' + 1 + 1126) with (Z.succ (e' + 1126)) by lia.
        rewrite Z.pow_succ_r by lia.
        change (Z.pos (Z.to_pos (2 ^ 52))) with (2 ^ 52).
        change (2 ^ 53) with (2 * 2 ^ 52). lia.
      * unfold float8_mag. change (Z.pos (digits2_pos (Z.to_pos (2 ^ 52)))) with 53. lia.
      * rewrite Hb2, Hb2m. by change (emax - prec) with 971.
    + (* a subnormal number *)
      assert (e' = -1074 ∧ k < 53) as [He'' Hk53] by (unfold k, e' in *; lia).
      exists p2, e'. split; [done|]. split; [done|].
      split; [done|]. split; [unfold float8_mag; rewrite Hdig; unfold k in *; lia|].
      unfold shr_fexp. simpl Zdigits2. rewrite fexp_eq, Hdig.
      replace (Z.max (k + 1 + e' - 53) (-1074) - e') with 0 by lia.
      simpl. by change (emax - prec) with 971.
Qed.

End Float8Round.

Section Float8Monotone.

(** Rounding down to the spacing [G] of the magnitude of [X] does not pass
    below a double that is not above [X]. *)
Lemma float8_grid_lower mt et X d :
  bounded prec emax mt et = true →
  2 ^ (d - 1 + 1126) <= X < 2 ^ (d + 1126) → -1073 <= d →
  let G := 2 ^ (Z.max (d - 53) (-1074) + 1126) in
  float8_units mt et <= X → float8_units mt et <= X / G * G.
Proof.
  intros Hb [HXl HXu] Hd G Hle.
  pose proof Hb as [Hcan Hmax]%bounded_spec.
  pose proof (float8_units_mag mt et ltac:(lia)) as [Htl Htu].
  set (dt := float8_mag mt et) in *.
  set (e' := Z.max (d - 53) (-1074)) in *.
  assert (0 < G) as HG by (apply pow2_pos; unfold e'; lia).
  assert (dt <= d) as Hdt.
  { assert (2 ^ (dt - 1 + 1126) < 2 ^ (d + 1126)) as H by lia.
    apply pow2_lt_inv in H; unfold dt, float8_mag in *; lia. }
  destruct (Z.eq_dec et e') as [Heq|Hne].
  - assert (float8_units mt et = Z.pos mt * G) as Hu by (unfold float8_units, G; by rewrite Heq).
    rewrite Hu in *.
    assert (Z.pos mt <= X / G) by (apply Z.div_le_lower_bound; lia).
    nia.
  - assert (e' = d - 53 ∧ dt < d) as [He' Hlt] by (unfold e' in *; lia).
    assert (2 ^ (d - 1 + 1126) = 2 ^ 52 * G) as Hsplit.
    { unfold G. rewrite <- Z.pow_add_r by lia. f_equal. lia. }
    assert (2 ^ 52 <= X / G) by (apply Z.div_le_lower_bound; lia).
    pose proof (pow2_le (dt + 1126) (d - 1 + 1126) ltac:(unfold dt, float8_mag in *; lia)).
    nia.
Qed.

(** Rounding up to that spacing does not pass above a double that is not
    below [X]. *)
Lemma float8_grid_upper mt et X d m'' :
  bounded prec emax mt et = true →
  2 ^ (d - 1 + 1126) <= X < 2 ^ (d + 1126) → -1073 <= d →
  let G := 2 ^ (Z.max (d - 53) (-1074) + 1126) in
  m'' <= X / G + 1 → (X mod G = 0 → m'' = X / G) →
  X <= float8_units mt et → m'' * G <= float8_units mt et.
Proof.
  intros Hb [HXl HXu] Hd G Hm Hex Hle.
  pose proof Hb as [Hcan Hmax]%bounded_spec.
  pose proof (float8_units_mag mt et ltac:(lia)) as [Htl Htu].
  set (dt := float8_mag mt et) in *.
  set (e' := Z.max (d - 53) (-1074)) in *.
  assert (0 < G) as HG by (apply pow2_pos; unfold e'; lia).
  assert (d <= dt) as Hdt.
  { assert (2 ^ (d - 1 + 1126) < 2 ^ (dt + 1126)) as H by lia.
    apply pow2_lt_inv in H; unfold dt, float8_mag in *; lia. }
  pose proof (Z.div_mod X G ltac:(lia)) as Hdm.
  pose proof (Z.mod_pos_bound X G HG) as Hmb.
  destruct (Z.eq_dec et e') as [Heq|Hne].
  - assert (float8_units mt et = Z.pos mt * G) as Hu by (unfold float8_units, G; by rewrite Heq).
    rewrite Hu in *.
    destruct (Z.eq_dec (X mod G) 0) as [H0|H0].
    + rewrite (Hex H0). nia.
    + assert (X / G < Z.pos mt) by nia. nia.
  - assert (et = dt - 53 ∧ d < dt) as [He' Hlt] by (unfold e' in *; lia).
    assert (2 ^ (d + 1126) = 2 ^ (d - e') * G) as Hsplit.
    { unfold G. rewrite <- Z.pow_add_r by (unfold e'; lia). f_equal. lia. }
    assert (X / G < 2 ^ (d - e')) by (apply Z.div_lt_upper_bound; lia).
    pose proof (pow2_le (d + 1126) (dt - 1 + 1126) ltac:(lia)).
    nia.
Qed.

(** [binary_round] is monotone at the doubles: it does not pass a double on
    the way from the exact value to the rounded one. *)
Lemma binary_round_monotone sx mx ex :
  -1126 <= ex → -1073 <= float8_mag mx ex →
  let X := float8_units mx ex in
  let r := binary_round prec emax sx mx ex in
  (r = S754_infinity sx ∨
   ∃ q e, r = S754_finite sx q e ∧ bounded prec emax q e = true ∧
     ∀ mt et, bounded prec emax mt et = true →
              float8_units mt et <= X → float8_units mt et <= float8_units q e) ∧
  (∀ mt et, bounded prec emax mt et = true → X <= float8_units mt et →
     ∃ q e, r = S754_finite sx q e ∧ bounded prec emax q e = true ∧
            float8_units q e <= float8_units mt et).
Proof.
  intros Hex Hmag X r.
  destruct (binary_round_computes sx mx ex Hex Hmag)
    as (m'' & q & e'' & [Hm1 Hm2] & Hexact & Hq & Hcan & Hr).
  fold X in Hm1, Hm2, Hexact. fold r in Hr.
  pose proof (float8_units_mag mx ex Hex) as HX. fold X in HX.
  set (G := 2 ^ (Z.max (float8_mag mx ex - 53) (-1074) + 1126)) in *.
  assert (0 < G) as HG by (apply pow2_pos; lia).
  split.
  - destruct (Z.leb_spec e'' 971) as [Hle|Hgt]; [right|by left].
    exists q, e''. split; [done|]. split; [by apply bounded_spec|].
    intros mt et Hb Ht.
    pose proof (float8_grid_lower mt et X _ Hb HX Hmag Ht) as Hlow.
    fold G in Hlow. nia.
  - intros mt et Hb Ht.
    pose proof (float8_grid_upper mt et X _ m'' Hb HX Hmag Hm2 Hexact Ht) as Hup.
    fold G in Hup. rewrite <- Hq in Hup.
    pose proof Hb as [Hcant Hmax]%bounded_spec.
    pose proof (float8_units_mag_le q e'' mt et ltac:(lia) ltac:(lia) Hup).
    assert (e'' <= 971) as Hle by lia.
    exists q, e''. split; [|split; [by apply bounded_spec|done]].
    rewrite Hr. by destruct (Z.leb_spec e'' 971); [|lia].
Qed.

(** The doubles in canonical form, by mantissa and exponent. *)
Lemma bounded_iff m e :
  bounded prec emax m e = true ↔
  -1074 <= e <= 971 ∧ Z.pos m < 2 ^ 53 ∧ (e = -1074 ∨ 2 ^ 52 <= Z.pos m).
Proof.
  rewrite bounded_spec. unfold float8_mag.
  pose proof (digits2_pos_bounds m) as [Hl Hu].
  assert (0 < Z.pos (digits2_pos m)) as Hd by lia.
  split.
  - intros [Hcan Hmax]. split; [lia|].
    assert (Z.pos (digits2_pos m) <= 53) as H53 by lia.
    split.
    + pose proof (pow2_le (Z.pos (digits2_pos m)) 53 ltac:(lia)). lia.
    + destruct (Z.eq_dec e (-1074)) as [|Hne]; [by left|right].
      assert (Z.pos (digits2_pos m) = 53) as Heq by lia. rewrite Heq in Hl. exact Hl.
  - intros (He & Hm & Hsub). split; [|lia].
    assert (Z.pos (digits2_pos m) <= 53) as H53.
    { destruct (Z.le_gt_cases (Z.pos (digits2_pos m)) 53) as [|Hgt]; [done|].
      pose proof (pow2_le 53 (Z.pos (digits2_pos m) - 1) ltac:(lia)). lia. }
    destruct Hsub as [->|H52]; [lia|].
    assert (53 <= Z.pos (digits2_pos m)).
    { destruct (Z.le_gt_cases 53 (Z.pos (digits2_pos m))) as [|Hlt]; [done|].
      pose proof (pow2_le (Z.pos (digits2_pos m)) 52 ltac:(lia)). lia. }
    lia.
Qed.

End Float8Monotone.

Section Float8Sum.

Lemma float8_value_sign t :
  float8_number t = true → valid_binary t = true →
  match t with
  | S754_finite false m e => float8_value t = float8_units m e ∧ 0 < float8_units m e
                             ∧ bounded prec emax m e = true
  | S754_finite true m e => float8_value t = - float8_units m e ∧ 0 < float8_units m e
                            ∧ bounded prec emax m e = true
  | _ => float8_value t = 0
  end.
Proof.
  destruct t as [s|s| |[] m e]; try done; simpl; intros _ Hb;
    pose proof (bounded_exponent _ _ Hb);
    pose proof (float8_units_pos m e ltac:(lia)); done.
Qed.

Lemma binary_normalize_rounded M ez :
  -1074 <= ez →
  float8_rounded (M * 2 ^ (ez + 1126)) (binary_normalize prec emax M ez false).
Proof.
  intros Hez t Nt Vt.
  pose proof (float8_value_sign t Nt Vt) as Ht.
  destruct M as [|p|p]; simpl binary_normalize.
  - rewrite Z.mul_0_l. unfold float8_not_below, float8_not_above. simpl.
    split; intros; right; done.
  - assert (-1073 <= float8_mag p ez) as Hmag by (unfold float8_mag; lia).
    destruct (binary_round_monotone false p ez ltac:(lia) Hmag) as [Hlow Hup].
    change (Z.pos p * 2 ^ (ez + 1126)) with (float8_units p ez).
    pose proof (float8_units_pos p ez ltac:(lia)) as HX.
    split; intros Hle.
    + destruct Hlow as [->|(q & e & -> & Hb & Hlow)]; [by left|right].
      split; [done|]. split; [done|]. simpl.
      pose proof (bounded_exponent _ _ Hb).
      pose proof (float8_units_pos q e ltac:(lia)).
      destruct t as [s|s| |[] m e0]; try done; simpl in *; try lia.
      apply Hlow; [|lia]. apply Ht.
    + destruct t as [s|s| |[] m e0]; try done; simpl in *; try lia.
      destruct (Hup m e0) as (q & e & -> & Hb & Hq); [apply Ht|lia|].
      right. done.
  - assert (-1073 <= float8_mag p ez) as Hmag by (unfold float8_mag; lia).
    destruct (binary_round_monotone true p ez ltac:(lia) Hmag) as [Hlow Hup].
    replace (Z.neg p * 2 ^ (ez + 1126)) with (- float8_units p ez)
      by (unfold float8_units; lia).
    pose proof (float8_units_pos p ez ltac:(lia)) as HX.
    split; intros Hle.
    + destruct t as [s|s| |[] m e0]; try done; simpl in *; try lia.
      destruct (Hup m e0) as (q & e & -> & Hb & Hq); [apply Ht|lia|].
      right. split; [done|]. split; [done|]. simpl. lia.
    + destruct Hlow as [->|(q & e & -> & Hb & Hlow)]; [by left|right].
      split; [done|]. split; [done|]. simpl.
      pose proof (bounded_exponent _ _ Hb).
      pose proof (float8_units_pos q e ltac:(lia)).
      destruct t as [s|s| |[] m e0]; try done; simpl in *; try lia.
      assert (float8_units m e0 <= float8_units q e); [|lia].
      apply Hlow; [|lia]. apply Ht.
Qed.

(** The mantissa of [m * 2^e] at the exponent [ez <= e]. *)
Lemma shl_align_units m e ez :
  -1126 <= ez <= e →
  Z.pos (shl_align m e ez).1 * 2 ^ (ez + 1126) = float8_units m e.
Proof.
  intros He. destruct (shl_align_spec m e ez) as (mz & ez' & Heq & Hez & Hmz & _).
  rewrite Heq. simpl. rewrite Hmz. unfold float8_units.
  rewrite <- Z.mul_assoc, <- Z.pow_add_r by lia. do 2 f_equal. lia.
Qed.

Lemma cond_Zopp_units s m e ez :
  -1126 <= ez <= e →
  cond_Zopp s (Z.pos (shl_align m e ez).1) * 2 ^ (ez + 1126) =
    float8_value (S754_finite s m e).
Proof.
  intros He. pose proof (shl_align_units m e ez He). destruct s; simpl; lia.
Qed.

(** The sum and the difference of two numbers are the exact ones,
    rounded. *)
Lemma SFadd_rounded sx mx ex sy my ey :
  bounded prec emax mx ex = true → bounded prec emax my ey = true →
  float8_rounded (float8_value (S754_finite sx mx ex) + float8_value (S754_finite sy my ey))
    (SF64add (S754_finite sx mx ex) (S754_finite sy my ey)).
Proof.
  intros Hx Hy. pose proof (bounded_exponent _ _ Hx). pose proof (bounded_exponent _ _ Hy).
  unfold SF64add, SFadd.
  rewrite <- (cond_Zopp_units sx mx ex (Z.min ex ey)) by lia.
  rewrite <- (cond_Zopp_units sy my ey (Z.min ex ey)) by lia.
  rewrite <- Z.mul_add_distr_r. apply binary_normalize_rounded. lia.
Qed.

Lemma SFsub_rounded sx mx ex sy my ey :
  bounded prec emax mx ex = true → bounded prec emax my ey = true →
  float8_rounded (float8_value (S754_finite sx mx ex) - float8_value (S754_finite sy my ey))
    (SF64sub (S754_finite sx mx ex) (S754_finite sy my ey)).
Proof.
  intros Hx Hy. pose proof (bounded_exponent _ _ Hx). pose proof (bounded_exponent _ _ Hy).
  unfold SF64sub, SFsub.
  rewrite <- (cond_Zopp_units sx mx ex (Z.min ex ey)) by lia.
  rewrite <- (cond_Zopp_units sy my ey (Z.min ex ey)) by lia.
  rewrite <- Z.mul_sub_distr_r. apply binary_normalize_rounded. lia.
Qed.

End Float8Sum.

Section Float8Add.

Lemma SFltb_value x y :
  valid_binary x = true → valid_binary y = true →
  float8_number x = true → float8_number y = true →
  SFltb x y = bool_decide (float8_value x < float8_value y).
Proof.
  intros. unfold SFltb. rewrite SFcompare_value by done.
  destruct (Z.compare_spec (float8_value x) (float8_value y));
    by (rewrite bool_decide_eq_true_2 by lia) || (rewrite bool_decide_eq_false_2 by lia).
Qed.

Lemma SFeqb_value x y :
  valid_binary x = true → valid_binary y = true →
  float8_number x = true → float8_number y = true →
  SFeqb x y = bool_decide (float8_value x = float8_value y).
Proof.
  intros. unfold SFeqb. rewrite SFcompare_value by done.
  destruct (Z.compare_spec (float8_value x) (float8_value y));
    by (rewrite bool_decide_eq_true_2 by lia) || (rewrite bool_decide_eq_false_2 by lia).
Qed.

(** A number lies below positive infinity and below every number of a
    larger value. *)
Lemma SFltb_not_below x v r :
  valid_binary x = true → float8_number x = true →
  float8_not_below v r → float8_value x < v → SFltb x r = true.
Proof.
  intros Vx Nx [->|(Nr & Vr & Hle)] Hlt.
  - by destruct x as [| | |[]].
  - rewrite SFltb_value by done. apply bool_decide_eq_true_2. lia.
Qed.

(** Adding a positive number to a number gives a result that is greater,
    unless it is equal. *)
Lemma SF64add_increases x my ey :
  valid_binary x = true → bounded prec emax my ey = true →
  x ≠ S754_nan → x ≠ S754_infinity false →
  SFeqb (SF64add x (S754_finite false my ey)) x = false →
  SFltb x (SF64add x (S754_finite false my ey)) = true.
Proof.
  intros Vx Hy Hnan Hinf Hne. unfold SF64add in Hne |- *.
  destruct x as [[]|[]| |s m e]; try done.
  pose proof (SFadd_rounded s m e false my ey Vx Hy (S754_finite s m e) eq_refl Vx)
    as [Hlow _].
  pose proof (bounded_exponent _ _ Hy).
  pose proof (float8_units_pos my ey ltac:(lia)) as Hpos.
  fold SF64add in Hne |- *.
  set (r := SF64add (S754_finite s m e) (S754_finite false my ey)) in *.
  destruct Hlow as [Hr|(Nr & Vr & Hle)].
  - change (float8_value (S754_finite false my ey)) with (float8_units my ey). lia.
  - rewrite Hr. by destruct s.
  - rewrite SFeqb_value in Hne by done.
    apply bool_decide_eq_false_1 in Hne.
    rewrite SFltb_value by done. apply bool_decide_eq_true_2. lia.
Qed.

End Float8Add.

Section Float8Succ.

Lemma SFone_value : SFone prec emax = S754_finite false 4503599627370496 (-52).
Proof. reflexivity. Qed.

(** [2^E] as a double. *)
Lemma SFldexp_one E :
  -1074 <= E <= 971 →
  ∃ q e, SFldexp prec emax (SFone prec emax) E = S754_finite false q e ∧
         bounded prec emax q e = true ∧ float8_units q e = 2 ^ (E + 1126).
Proof.
  intros HE. rewrite SFone_value. simpl SFldexp.
  assert (float8_mag 4503599627370496 (-52 + E) = E + 1) as Hmag
    by (unfold float8_mag; change (Z.pos (digits2_pos 4503599627370496)) with 53; lia).
  assert (float8_units 4503599627370496 (-52 + E) = 2 ^ (E + 1126)) as HX.
  { unfold float8_units. change (Z.pos 4503599627370496) with (2 ^ 52).
    rewrite <- Z.pow_add_r by lia. f_equal. lia. }
  destruct (binary_round_monotone false 4503599627370496 (-52 + E) ltac:(lia)
              ltac:(rewrite Hmag; lia)) as [Hlow Hup].
  rewrite HX in Hlow, Hup.
  assert (∃ mt et, bounded prec emax mt et = true ∧ float8_units mt et = 2 ^ (E + 1126))
    as (mt & et & Hb & Ht).
  { destruct (Z.le_gt_cases (-1074) (E - 52)) as [Hn|Hs].
    - exists 4503599627370496%positive, (E - 52). split.
      + apply bounded_iff. split; [lia|]. split; [done|]. right. done.
      + rewrite <- HX. f_equal. lia.
    - pose proof (pow2_pos (E + 1074) ltac:(lia)) as Hp.
      exists (Z.to_pos (2 ^ (E + 1074))), (-1074). split.
      + apply bounded_iff. split; [lia|]. split; [|by left].
        rewrite Z2Pos.id by done. apply pow2_lt. lia.
      + unfold float8_units. rewrite Z2Pos.id by done.
        rewrite <- Z.pow_add_r by lia. f_equal. lia. }
  destruct (Hup mt et Hb ltac:(lia)) as (q & e & Hr & Hq & Hle).
  exists q, e. split; [done|]. split; [done|].
  destruct Hlow as [Hinf|(q' & e' & Hr' & _ & Hlow)]; [congruence|].
  rewrite Hr in Hr'. injection Hr' as <- <-.
  pose proof (Hlow mt et Hb ltac:(lia)). lia.
Qed.

(** The unit in the last place of a double [m * 2^e] is [2^e]. *)
Lemma SFulp_value s m e :
  bounded prec emax m e = true →
  ∃ q eu, SFulp prec emax (S754_finite s m e) = S754_finite false q eu ∧
          bounded prec emax q eu = true ∧ float8_units q eu = 2 ^ (e + 1126).
Proof.
  intros Hb. pose proof Hb as [Hcan Hmax]%bounded_spec. unfold float8_mag in Hcan.
  pose proof (bounded_exponent _ _ Hb). unfold SFulp.
  assert (fexp prec emax (SFfrexp prec emax (S754_finite s m e)).2 = e) as ->.
  { unfold SFfrexp. change prec with 53.
    destruct (Z.leb_spec 53 (Z.pos (digits2_pos m))); simpl; rewrite fexp_eq; lia. }
  by apply SFldexp_one.
Qed.

Lemma SFopp_number p :
  float8_number (SFopp p) = float8_number p ∧
  valid_binary (SFopp p) = valid_binary p ∧
  float8_value (SFopp p) = - float8_value p.
Proof. destruct p as [| | |[] m e]; simpl; repeat split; lia. Qed.

(** The double above a positive double. *)
Lemma float8_above_exists m e :
  bounded prec emax m e = true →
  float8_units m e < float8_units 9007199254740991 971 →
  ∃ m' e', bounded prec emax m' e' = true ∧
           float8_units m' e' = float8_units m e + 2 ^ (e + 1126).
Proof.
  intros Hb Hlt. pose proof Hb as (He & Hm & Hn)%bounded_iff.
  pose proof (pow2_pos (e + 1126) ltac:(lia)) as Hp.
  destruct (Z.lt_ge_cases (Z.pos m + 1) (2 ^ 53)) as [Hs|Hc].
  - exists (m + 1)%positive, e. split.
    + apply bounded_iff. rewrite Pos2Z.inj_add. lia.
    + unfold float8_units. rewrite Pos2Z.inj_add. lia.
  - assert (Z.pos m = 2 ^ 53 - 1) as Hm' by lia.
    assert (e < 971) as He'.
    { destruct (Z.eq_dec e 971) as [->|]; [|lia].
      unfold float8_units in Hlt. rewrite Hm' in Hlt.
      change (Z.pos 9007199254740991) with (2 ^ 53 - 1) in Hlt. lia. }
    exists 4503599627370496%positive, (e + 1). split.
    + apply bounded_iff. split; [lia|]. split; [done|]. by right.
    + unfold float8_units. rewrite Hm'.
      replace (e + 1 + 1126) with (Z.succ (e + 1126)) by lia.
      rewrite Z.pow_succ_r by lia.
      change (Z.pos 4503599627370496) with (2 ^ 52).
      change (2 ^ 53) with (2 * 2 ^ 52). lia.
Qed.

(** The number below a positive double, when the spacing below it is
    [2^E]. *)
Lemma float8_below_exists m e :
  bounded prec emax m e = true →
  let E := if bool_decide (Z.pos m = 2 ^ 52) then Z.max (e - 1) (-1074) else e in
  ∃ t, float8_number t = true ∧ valid_binary t = true ∧
       float8_value t = float8_units m e - 2 ^ (E + 1126).
Proof.
  intros Hb E. pose proof Hb as (He & Hm & Hn)%bounded_iff.
  pose proof (pow2_pos (e + 1126) ltac:(lia)) as Hp.
  unfold E. case_bool_decide as H52.
  - destruct (Z.eq_dec e (-1074)) as [->|Hne].
    + exists (S754_finite false 4503599627370495 (-1074)).
      split; [done|]. split; [done|].
      simpl. unfold float8_units. rewrite H52.
      replace (Z.max (-1074 - 1) (-1074)) with (-1074) by lia.
      change (Z.pos 4503599627370495) with (2 ^ 52 - 1). lia.
    + exists (S754_finite false 9007199254740991 (e - 1)).
      split; [done|]. split.
      { apply bounded_iff. split; [lia|]. split; [done|]. by right. }
      simpl. unfold float8_units. rewrite H52, Z.max_l by lia.
      replace (e + 1126) with (Z.succ (e - 1 + 1126)) by lia.
      rewrite Z.pow_succ_r by lia.
      change (Z.pos 9007199254740991) with (2 * 2 ^ 52 - 1). lia.
  - destruct (Pos.eq_dec m 1%positive) as [->|H1].
    + exists (S754_zero false). split; [done|]. split; [done|].
      simpl. unfold float8_units. lia.
    + assert (1 < Z.pos m) by lia.
      exists (S754_finite false (Z.to_pos (Z.pos m - 1)) e).
      split; [done|]. split.
      { apply bounded_iff. rewrite Z2Pos.id by lia. lia. }
      simpl. unfold float8_units. rewrite Z2Pos.id by lia. lia.
Qed.

End Float8Succ.

Section Float8NextUp.

(** Where the exact value is a double, the rounding gives it. *)
Lemma float8_rounded_exact v r t :
  float8_rounded v r → float8_number t = true → valid_binary t = true →
  float8_value t = v →
  float8_number r = true ∧ valid_binary r = true ∧ float8_value r = v.
Proof.
  intros Hr Nt Vt Ht. destruct (Hr t Nt Vt) as [Hlow Hup]. rewrite Ht in Hlow, Hup.
  destruct (Hlow (Z.le_refl v)) as [->|(N1 & V1 & H1)];
    destruct (Hup (Z.le_refl v)) as [Hinf|(N2 & V2 & H2)]; try done;
    [by subst r|].
  split; [done|]. split; [done|]. lia.
Qed.

Lemma SFfrexp_exponent s m e :
  bounded prec emax m e = true →
  (SFfrexp prec emax (S754_finite s m e)).2 = float8_mag m e.
Proof.
  intros [Hcan Hmax]%bounded_spec. unfold float8_mag in *.
  unfold SFfrexp. change prec with 53.
  destruct (Z.leb_spec 53 (Z.pos (digits2_pos m))); simpl; lia.
Qed.

(** The predecessor of a positive double [m * 2^e]: the double, or zero,
    one spacing below it. *)
Lemma SFpred_pos_value m e :
  bounded prec emax m e = true →
  let p := SFpred_pos prec emax (S754_finite false m e) in
  let E := if bool_decide (Z.pos m = 2 ^ 52) then Z.max (e - 1) (-1074) else e in
  float8_number p = true ∧ valid_binary p = true ∧
  float8_value p = float8_units m e - 2 ^ (E + 1126) ∧ 0 <= float8_value p.
Proof.
  intros Hb p E. pose proof Hb as (He & Hm & Hn)%bounded_iff.
  destruct (float8_below_exists m e Hb) as (t & Nt & Vt & Ht). fold E in Ht.
  pose proof (pow2_pos (E + 1126) ltac:(unfold E; case_bool_decide; lia)) as Hp.
  assert (∃ q eu,
            (if Pos.eqb m~0 (Pos.iter xO 1%positive (Z.to_pos prec))
             then SFldexp prec emax (SFone prec emax)
                    (fexp prec emax ((SFfrexp prec emax (S754_finite false m e)).2 - 1))
             else SFulp prec emax (S754_finite false m e)) = S754_finite false q eu ∧
            bounded prec emax q eu = true ∧ float8_units q eu = 2 ^ (E + 1126))
    as (q & eu & Hd & Hq & Hu).
  { destruct (Pos.eqb_spec m~0 (Pos.iter xO 1%positive (Z.to_pos prec))) as [Heq|Hneq].
    - assert (Z.pos m = 2 ^ 52) as H52.
      { apply (f_equal Z.pos) in Heq. rewrite Pos2Z.inj_xO in Heq.
        change (Z.pos (Pos.iter xO 1%positive (Z.to_pos prec))) with (2 * 2 ^ 52) in Heq.
        lia. }
      unfold E. rewrite bool_decide_eq_true_2 by done.
      rewrite SFfrexp_exponent by done.
      assert (float8_mag m e = 53 + e) as ->.
      { unfold float8_mag. f_equal. apply digits2_pos_unique. rewrite H52.
        split; [done|]. by apply pow2_lt. }
      rewrite fexp_eq. replace (53 + e - 1 - 53) with (e - 1) by lia.
      apply SFldexp_one. lia.
    - assert (Z.pos m ≠ 2 ^ 52) as H52.
      { intros H. apply Hneq. change (2 ^ 52) with (Z.pos 4503599627370496) in H.
        by injection H as ->. }
      unfold E. rewrite bool_decide_eq_false_2 by done.
      by apply SFulp_value. }
  unfold p, SFpred_pos. rewrite Hd.
  change (SFsub prec emax) with SF64sub.
  destruct (float8_rounded_exact _ _ t
              (SFsub_rounded false m e false q eu Hb Hq) Nt Vt) as (Np & Vp & Hv).
  { simpl. lia. }
  split; [done|]. split; [done|].
  rewrite Hv. change (float8_value (S754_finite false m e)) with (float8_units m e).
  change (float8_value (S754_finite false q eu)) with (float8_units q eu).
  rewrite Hu. split; [done|].
  pose proof (pow2_le (E + 1126) (e + 1126) ltac:(unfold E; case_bool_decide; lia)).
  pose proof (pow2_pos (e + 1126) ltac:(lia)).
  unfold float8_units. nia.
Qed.

(** [next_up]: the successor of a double below the largest one lies above
    it. *)
Lemma SF64succ_increases x :
  valid_binary x = true →
  SFltb x (S754_finite false 9007199254740991 971) = true →
  SFltb x (SF64succ x) = true.
Proof.
  intros Vx Hlt. destruct x as [[]|[]| |[] m e]; try done.
  - (* a negative double *)
    change (SF64succ (S754_finite true m e))
      with (SFopp (SFpred_pos prec emax (S754_finite false m e))).
    destruct (SFpred_pos_value m e Vx) as (Np & Vp & Hp & _).
    set (p := SFpred_pos prec emax (S754_finite false m e)) in *.
    set (E := if bool_decide (Z.pos m = 2 ^ 52) then Z.max (e - 1) (-1074) else e) in *.
    pose proof (bounded_exponent _ _ Vx).
    pose proof (pow2_pos (E + 1126) ltac:(unfold E; case_bool_decide; lia)).
    pose proof (SFopp_number p) as (N' & V' & Hv).
    rewrite SFltb_value; [|done|congruence|done|congruence].
    apply bool_decide_eq_true_2. rewrite Hv. simpl. lia.
  - (* a positive double *)
    change (SF64succ (S754_finite false m e))
      with (SF64add (S754_finite false m e) (SFulp prec emax (S754_finite false m e))).
    destruct (SFulp_value false m e Vx) as (q & eu & -> & Hq & Hu).
    rewrite SFltb_value in Hlt by done. apply bool_decide_eq_true_1 in Hlt.
    destruct (float8_above_exists m e Vx Hlt) as (m' & e' & Hb' & Hv').
    pose proof (SFadd_rounded false m e false q eu Vx Hq (S754_finite false m' e')
                  eq_refl Hb') as [Hlow _].
    pose proof (bounded_exponent _ _ Vx).
    pose proof (pow2_pos (e + 1126) ltac:(lia)).
    eapply SFltb_not_below; [done|done|apply Hlow|]; simpl; lia.
Qed.

End Float8NextUp.

Section Float8Least.

(** No double lies between a positive double [m * 2^e] and
    [(m + 1) * 2^e]. *)
Lemma float8_gap_above m e mu eu :
  bounded prec emax m e = true → bounded prec emax mu eu = true →
  float8_units m e < float8_units mu eu →
  float8_units m e + 2 ^ (e + 1126) <= float8_units mu eu.
Proof.
  intros Hb Hu Hlt.
  pose proof (bounded_exponent _ _ Hb). pose proof (bounded_exponent _ _ Hu).
  destruct (Z.le_gt_cases e eu) as [Hle|Hgt].
  - unfold float8_units in *.
    pose proof (pow2_pos (e + 1126) ltac:(lia)).
    rewrite (pow2_split (eu + 1126) (e + 1126)), Z.mul_assoc in * by lia.
    set (k := Z.pos mu * 2 ^ (eu + 1126 - (e + 1126))) in *.
    assert (Z.pos m < k) by (apply (Z.mul_lt_mono_pos_r (2 ^ (e + 1126))); lia).
    nia.
  - pose proof (float8_units_exponent_lt mu eu m e Hu Hb Hgt). lia.
Qed.

(** No double lies between a positive double and its predecessor. *)
Lemma float8_gap_below m e mu eu :
  bounded prec emax m e = true → bounded prec emax mu eu = true →
  float8_units mu eu < float8_units m e →
  let E := if bool_decide (Z.pos m = 2 ^ 52) then Z.max (e - 1) (-1074) else e in
  float8_units mu eu <= float8_units m e - 2 ^ (E + 1126).
Proof.
  intros Hb Hu Hlt E.
  pose proof Hb as (He & Hm & Hn)%bounded_iff.
  pose proof Hu as (Heu & Hmu & Hnu)%bounded_iff.
  pose proof (pow2_le (E + 1126) (e + 1126) ltac:(unfold E; case_bool_decide; lia)).
  destruct (Z.le_gt_cases e eu) as [Hle|Hgt].
  - unfold float8_units in *.
    pose proof (pow2_pos (e + 1126) ltac:(lia)).
    rewrite (pow2_split (eu + 1126) (e + 1126)), Z.mul_assoc in * by lia.
    set (k := Z.pos mu * 2 ^ (eu + 1126 - (e + 1126))) in *.
    assert (k < Z.pos m) by (apply (Z.mul_lt_mono_pos_r (2 ^ (e + 1126))); lia).
    nia.
  - assert (2 ^ 52 <= Z.pos m) as H52 by lia.
    pose proof (pow2_pos (eu + 1126) ltac:(lia)).
    pose proof (pow2_le (eu + 1126) (e - 1 + 1126) ltac:(lia)).
    assert (2 ^ (e + 1126) = 2 * 2 ^ (e - 1 + 1126)) as Hsplit.
    { replace (e + 1126) with (Z.succ (e - 1 + 1126)) by lia.
      apply Z.pow_succ_r. lia. }
    assert (float8_units mu eu <= (2 ^ 53 - 1) * 2 ^ (e - 1 + 1126)) as Hbound
      by (unfold float8_units; nia).
    unfold E, float8_units in *. case_bool_decide as Hc.
    + rewrite Z.max_l by lia. rewrite Hc, Hsplit.
      change (2 ^ 53) with (2 * 2 ^ 52) in Hbound. lia.
    + rewrite Hsplit. change (2 ^ 53) with (2 * 2 ^ 52) in Hbound. nia.
Qed.

Lemma SF64succ_zero s : SF64succ (S754_zero s) = S754_finite false 1 (-1074).
Proof. reflexivity. Qed.

Lemma SF64succ_neg_infinity :
  SF64succ (S754_infinity true) = S754_finite true 9007199254740991 971.
Proof. reflexivity. Qed.

(** [next_up]: no double lies between a double and its successor. *)
Lemma SF64succ_least x u :
  valid_binary x = true → valid_binary u = true →
  SFltb x (S754_finite false 9007199254740991 971) = true →
  SFltb x u = true → SFltb u (SF64succ x) = false.
Proof.
  intros Vx Vu Hmax Hlt.
  destruct x as [s|[]| |[] m e]; try done.
  - (* zero: the successor is the smallest positive double *)
    rewrite SF64succ_zero.
    destruct u as [|[]| |[] mu eu]; try done.
    rewrite SFltb_value by done. apply bool_decide_eq_false_2. simpl.
    pose proof (bounded_exponent _ _ Vu).
    pose proof (pow2_pos (eu + 1126) ltac:(lia)).
    pose proof (pow2_le (-1074 + 1126) (eu + 1126) ltac:(lia)).
    unfold float8_units. nia.
  - (* minus infinity: the successor is the smallest double *)
    rewrite SF64succ_neg_infinity.
    destruct u as [|[]| |[] mu eu]; try done.
    rewrite SFltb_value by done. apply bool_decide_eq_false_2. simpl.
    pose proof Vu as (Heu & Hmu & _)%bounded_iff.
    pose proof (pow2_pos (eu + 1126) ltac:(lia)).
    pose proof (pow2_le (eu + 1126) (971 + 1126) ltac:(lia)).
    unfold float8_units. change (Z.pos 9007199254740991) with (2 ^ 53 - 1). nia.
  - (* a negative double *)
    change (SF64succ (S754_finite true m e))
      with (SFopp (SFpred_pos prec emax (S754_finite false m e))).
    destruct (SFpred_pos_value m e Vx) as (Np & Vp & Hp & Hp0).
    set (p := SFpred_pos prec emax (S754_finite false m e)) in *.
    pose proof (SFopp_number p) as (N' & V' & Hv).
    destruct u as [su|[]| |su mu eu]; try done.
    + rewrite SFltb_value; [|done|congruence|done|congruence].
      apply bool_decide_eq_false_2. rewrite Hv. simpl. lia.
    + by destruct (SFopp p) as [|[]| |].
    + rewrite SFltb_value; [|done|congruence|done|congruence].
      apply bool_decide_eq_false_2. rewrite Hv.
      rewrite SFltb_value in Hlt by done. apply bool_decide_eq_true_1 in Hlt.
      pose proof (bounded_exponent _ _ Vu).
      pose proof (float8_units_pos mu eu ltac:(lia)).
      destruct su; simpl in *; [|lia].
      pose proof (float8_gap_below m e mu eu Vx Vu ltac:(lia)) as Hgap.
      simpl in Hgap. lia.
  - (* a positive double *)
    change (SF64succ (S754_finite false m e))
      with (SF64add (S754_finite false m e) (SFulp prec emax (S754_finite false m e))).
    destruct (SFulp_value false m e Vx) as (q & eu' & -> & Hq & Hu).
    rewrite SFltb_value in Hmax by done. apply bool_decide_eq_true_1 in Hmax.
    destruct (float8_above_exists m e Vx Hmax) as (m' & e' & Hb' & Hv').
    destruct (float8_rounded_exact _ _ (S754_finite false m' e')
                (SFadd_rounded false m e false q eu' Vx Hq) eq_refl Hb')
      as (Nr & Vr & Hr).
    { simpl. lia. }
    set (r := SF64add (S754_finite false m e) (S754_finite false q eu')) in *.
    destruct u as [su|[]| |su mu eu]; try done.
    + by destruct r as [|[]| |].
    + rewrite SFltb_value by done. apply bool_decide_eq_false_2.
      rewrite SFltb_value in Hlt by done. apply bool_decide_eq_true_1 in Hlt.
      rewrite Hr. simpl in *.
      pose proof (bounded_exponent _ _ Vx).
      pose proof (float8_units_pos m e ltac:(lia)).
      pose proof (bounded_exponent _ _ Vu).
      pose proof (float8_units_pos mu eu ltac:(lia)).
      destruct su; [lia|].
      pose proof (float8_gap_above m e mu eu Vx Vu Hlt). lia.
Qed.

End Float8Least.

Section Float8Successor.

Lemma SFcompare_antisym x y :
  SFcompare y x = CompOpp <$> SFcompare x y.
Proof.
  destruct x as [[]|[]| |[] m1 e1], y as [[]|[]| |[] m2 e2]; try done; simpl;
    rewrite (Z.compare_antisym e1 e2); destruct (e1 ?= e2); simpl; try done;
    rewrite !Pos.compare_cont_spec, (Pos.compare_antisym m1 m2);
    by destruct (m1 ?= m2)%positive.
Qed.

Lemma SFltb_antisym x y : SFltb x y = true → SFltb y x = false.
Proof.
  unfold SFltb. rewrite (SFcompare_antisym x y).
  by destruct (SFcompare x y) as [[]|].
Qed.

Lemma SFltb_not_nan x y : SFltb x y = true → x ≠ S754_nan ∧ y ≠ S754_nan.
Proof. by destruct x as [| | |], y as [| | |]. Qed.

Lemma SFltb_not_eqb x y : SFltb x y = true → SFeqb x y = false.
Proof. unfold SFltb, SFeqb. by destruct (SFcompare x y) as [[]|]. Qed.

Lemma Prim2SF_is_nan t : Prim2SF t ≠ S754_nan → PrimFloat.is_nan t = false.
Proof. unfold Prim2SF. by destruct (PrimFloat.is_nan t). Qed.

Lemma Prim2SF_1E_06 : Prim2SF float8_1E_06 = S754_finite false 4722366482869645 (-72).
Proof. by vm_compute. Qed.

Lemma Prim2SF_DBL_MAX : Prim2SF DBL_MAX = S754_finite false 9007199254740991 971.
Proof. by vm_compute. Qed.

(** Below [DBL_MAX], [nextafter(t, DBL_MAX)] is the double above [t]. *)
Lemma nextafter_DBL_MAX (t : float8) :
  PrimFloat.ltb t DBL_MAX = true → nextafter t DBL_MAX = PrimFloat.next_up t.
Proof.
  intros Hlt. unfold nextafter. rewrite Hlt.
  rewrite FloatAxioms.ltb_spec, Prim2SF_DBL_MAX in Hlt.
  pose proof (SFltb_not_nan _ _ Hlt) as [Hnan _].
  pose proof (Prim2SF_is_nan t Hnan) as Hn. rewrite Hn.
  change (PrimFloat.is_nan DBL_MAX) with false. simpl.
  assert (PrimFloat.eqb t DBL_MAX = false) as ->; [|done].
  rewrite FloatAxioms.eqb_spec, Prim2SF_DBL_MAX. by apply SFltb_not_eqb.
Qed.

(** Below [DBL_MAX] the successor that [next_timestamp] computes for a
    [double] is greater than its argument. *)
Lemma float8_successor_greater (t : float8) :
  PrimFloat.ltb t DBL_MAX = true →
  let next := PrimFloat.add t float8_1E_06 in
  let r := if negb (PrimFloat.eqb next t) then next else nextafter t DBL_MAX in
  PrimFloat.ltb t r = true ∧ timestamp_cmp_internal t r = Lt.
Proof.
  intros Hlt next r.
  assert (PrimFloat.ltb t r = true) as Hr.
  { unfold r. destruct (PrimFloat.eqb next t) eqn:Heq; simpl.
    - rewrite nextafter_DBL_MAX by done.
      rewrite FloatAxioms.ltb_spec, Prim2SF_DBL_MAX in Hlt.
      rewrite FloatAxioms.ltb_spec, FloatAxioms.next_up_spec.
      apply SF64succ_increases; [apply FloatAxioms.Prim2SF_valid|done].
    - rewrite FloatAxioms.ltb_spec, Prim2SF_DBL_MAX in Hlt.
      pose proof (SFltb_not_nan _ _ Hlt) as [Hnan _].
      unfold next in *.
      rewrite FloatAxioms.eqb_spec, FloatAxioms.add_spec, Prim2SF_1E_06 in Heq.
      rewrite FloatAxioms.ltb_spec, FloatAxioms.add_spec, Prim2SF_1E_06.
      apply SF64add_increases; try done; [apply FloatAxioms.Prim2SF_valid|].
      intros Hinf. by rewrite Hinf in Hlt. }
  split; [done|].
  change (timestamp_cmp_internal (T:=float8)) with float8_timestamp_cmp.
  unfold float8_timestamp_cmp.
  rewrite FloatAxioms.ltb_spec in Hr.
  pose proof (SFltb_not_nan _ _ Hr) as [Hn1 Hn2].
  pose proof (Prim2SF_is_nan t Hn1) as Hi1. pose proof (Prim2SF_is_nan r Hn2) as Hi2.
  rewrite Hi1, Hi2.
  rewrite !FloatAxioms.ltb_spec, (SFltb_antisym _ _ Hr), Hr. done.
Qed.

(** No double lies between [t] and [nextafter(t, DBL_MAX)]. *)
Lemma float8_nextafter_least (t u : float8) :
  PrimFloat.ltb t DBL_MAX = true → PrimFloat.ltb t u = true →
  PrimFloat.ltb u (nextafter t DBL_MAX) = false.
Proof.
  intros Hlt Hu. rewrite nextafter_DBL_MAX by done.
  rewrite FloatAxioms.ltb_spec, Prim2SF_DBL_MAX in Hlt.
  rewrite FloatAxioms.ltb_spec in Hu.
  rewrite FloatAxioms.ltb_spec, FloatAxioms.next_up_spec.
  apply SF64succ_least; try done; apply FloatAxioms.Prim2SF_valid.
Qed.

Lemma float8_nextafter_greater (t : float8) :
  PrimFloat.ltb t DBL_MAX = true → PrimFloat.ltb t (nextafter t DBL_MAX) = true.
Proof.
  intros Hlt. rewrite nextafter_DBL_MAX by done.
  rewrite FloatAxioms.ltb_spec, Prim2SF_DBL_MAX in Hlt.
  rewrite FloatAxioms.ltb_spec, FloatAxioms.next_up_spec.
  apply SF64succ_increases; [apply FloatAxioms.Prim2SF_valid|done].
Qed.

(** In the order of the timestamps, where NaN sorts above every number:
    no timestamp lies between [t] and [nextafter(t, DBL_MAX)]. *)
Lemma float8_nextafter_cmp_least (t u : float8) :
  PrimFloat.ltb t DBL_MAX = true →
  timestamp_cmp_internal t u = Lt →
  timestamp_cmp_internal u (nextafter t DBL_MAX) ≠ Lt.
Proof.
  intros Hlt.
  change (timestamp_cmp_internal (T:=float8)) with float8_timestamp_cmp.
  unfold float8_timestamp_cmp.
  pose proof (float8_nextafter_greater t Hlt) as Hr.
  pose proof (float8_nextafter_least t u Hlt) as Hleast.
  set (r := nextafter t DBL_MAX) in *.
  rewrite FloatAxioms.ltb_spec in Hr.
  pose proof (SFltb_not_nan _ _ Hr) as [_ Hn].
  pose proof (Prim2SF_is_nan r Hn) as Hi. rewrite Hi.
  destruct (PrimFloat.is_nan t); [by destruct (PrimFloat.is_nan u)|].
  destruct (PrimFloat.is_nan u); [done|].
  destruct (PrimFloat.ltb u t); [done|].
  destruct (PrimFloat.ltb t u); [|done].
  intros _. rewrite (Hleast eq_refl). by destruct (PrimFloat.ltb r u).
Qed.

End Float8Successor.

(** * Properties of the stack of temporal contexts *)

Section TemporalContextProofs.
Context {T : Type} `{!TimestampRep T}.
Implicit Types (st : ContextStore T) (c : TemporalContext T).
Implicit Types (es : list (TemporalContext T)) (mem : gmap ctx_ptr (TemporalContext T)).

Lemma context_view_apply_set arg c : context_view (apply_set arg c) = arg.
Proof. by destruct arg. Qed.

Lemma subid_apply_set arg c : subid (apply_set arg c) = subid c.
Proof. by destruct arg. Qed.

Lemma context_view_set_subid s c : context_view (set_subid s c) = context_view c.
Proof. done. Qed.

Lemma Forall2_lookup_insert_ne mem p x (ps : list ctx_ptr) es :
  p ∉ ps →
  Forall2 (λ q c, mem !! q = Some c) ps es →
  Forall2 (λ q c, <[p := x]> mem !! q = Some c) ps es.
Proof.
  intros Hp HF. induction HF as [|q c ps es Hq HF IH]; constructor.
  - rewrite lookup_insert_ne; [done|]. set_solver.
  - apply IH. set_solver.
Qed.

Lemma Forall2_lookup_delete_ne mem p (ps : list ctx_ptr) es :
  p ∉ ps →
  Forall2 (λ q c, mem !! q = Some c) ps es →
  Forall2 (λ q c, delete p mem !! q = Some c) ps es.
Proof.
  intros Hp HF. induction HF as [|q c ps es Hq HF IH]; constructor.
  - rewrite lookup_delete_ne; [done|]. set_solver.
  - apply IH. set_solver.
Qed.

Lemma Forall2_lookup_allocated mem (ps : list ctx_ptr) es :
  Forall2 (λ q c, mem !! q = Some c) ps es → palloc_ctx mem ∉ ps.
Proof.
  intros HF Hin.
  assert (palloc_ctx mem ∈ dom mem) as Hd.
  { clear -HF Hin. induction HF as [|q c ps es Hq HF IH].
    - by apply elem_of_nil in Hin.
    - apply elem_of_cons in Hin as [->|Hin]; [|by apply IH].
      apply elem_of_dom. by eexists. }
  exact (is_fresh (dom mem) Hd).
Qed.

Lemma stack_holds_cons st c es :
  stack_holds st (c :: es) →
  ∃ p ps, (temporal_contexts st = p :: ps) ∧ ctx_mem st !! p = Some c ∧
          (p ∉ ps) ∧ NoDup ps ∧ Forall2 (λ q c, ctx_mem st !! q = Some c) ps es.
Proof.
  intros [Hnd HF]. destruct (temporal_contexts st) as [|p ps] eqn:E.
  - inversion HF.
  - apply Forall2_cons in HF as [Hp HF]. apply NoDup_cons in Hnd as [Hn Hnd].
    by exists p, ps.
Qed.

(** Shape of the stack under the representation invariant. *)
Lemma Rep_nonempty chain es lv r : Rep chain es lv r → ∃ c es', es = c :: es'.
Proof. destruct 1; eauto. Qed.

Lemma Rep_head_subid chain c es lv r :
  Rep chain (c :: es) lv r → subid c = InvalidSubTransactionId ∨ subid c ∈ chain.
Proof.
  intros H0. remember (c :: es) as l eqn:El. revert c es El.
  induction H0 as [c0 ?|s chain c0 es0 lv r _ _ ? ? ?|s chain c0 es0 lv r ? IH ? ?];
    intros c es El; simplify_eq.
  - by left.
  - right. set_solver.
  - destruct (IH _ _ eq_refl); [by left|right; set_solver].
Qed.

Lemma Rep_head_not_level chain c es lv r s :
  Rep chain (c :: es) lv r → s ∉ chain → s ≠ InvalidSubTransactionId → subid c ≠ s.
Proof.
  intros HR Hs Hs0 Heq. destruct (Rep_head_subid _ _ _ _ _ HR) as [E|E]; congruence.
Qed.

Lemma Rep_levels_head s chain c es lv r :
  Rep (s :: chain) (c :: es) lv r → ∃ lv', lv = context_view c :: lv'.
Proof. inversion 1; subst; eauto. Qed.

Lemma Rep_visible chain c es sp :
  Rep chain (c :: es) (spec_levels sp) (spec_root sp) →
  context_view c = spec_visible sp.
Proof.
  unfold spec_visible. inversion 1; subst; try done.
Qed.

(** ** The code's operations on a well-formed stack *)

Lemma holds_top_insert mem p (ps : list ctx_ptr) x es :
  p ∉ ps → NoDup ps →
  Forall2 (λ q c, mem !! q = Some c) ps es →
  stack_holds (mkContextStore (p :: ps) (<[p := x]> mem)) (x :: es).
Proof.
  intros Hn Hnd HF. split; simpl.
  - by apply NoDup_cons.
  - constructor; [by rewrite lookup_insert_eq | by apply Forall2_lookup_insert_ne].
Qed.

Lemma holds_tail_delete mem p (ps : list ctx_ptr) es :
  p ∉ ps → NoDup ps →
  Forall2 (λ q c, mem !! q = Some c) ps es →
  stack_holds (mkContextStore ps (delete p mem)) es.
Proof. intros Hn Hnd HF. split; simpl; [done | by apply Forall2_lookup_delete_ne]. Qed.

Lemma set_system_time_own st c es arg cur :
  stack_holds st (c :: es) → subid c = cur →
  ∃ st', set_system_time arg cur st = Some st' ∧
         stack_holds st' (apply_set arg c :: es).
Proof.
  intros Hst Hc.
  destruct (stack_holds_cons _ _ _ Hst) as (p & ps & Hs & Hp & Hn & Hnd' & HF).
  unfold set_system_time, get_current_temporal_context, linitial.
  rewrite Hs. simpl. rewrite Hp. simpl. rewrite Hc, Z.eqb_refl. simpl. rewrite Hp. simpl.
  destruct arg; simpl; eexists; (split; [reflexivity|]); rewrite Hs;
    by apply holds_top_insert.
Qed.

Lemma set_system_time_push st c es arg cur :
  stack_holds st (c :: es) → subid c ≠ cur →
  ∃ st', set_system_time arg cur st = Some st' ∧
         stack_holds st' (apply_set arg (set_subid cur c) :: c :: es).
Proof.
  intros Hst Hc. pose proof Hst as [Hnd HFall].
  pose proof (Forall2_lookup_allocated _ _ _ HFall) as Hfresh.
  destruct (stack_holds_cons _ _ _ Hst) as (p & ps & Hs & Hp & Hn & Hnd' & HF).
  unfold set_system_time, get_current_temporal_context, push_temporal_context, linitial.
  rewrite Hs. simpl. rewrite Hp. simpl.
  destruct (Z.eqb_spec (subid c) cur) as [|_]; [done|]. simpl.
  rewrite lookup_insert_eq. simpl. unfold lcons.
  destruct arg; simpl; eexists; (split; [reflexivity|]); rewrite insert_insert_eq;
    rewrite <- Hs; by apply holds_top_insert.
Qed.

Lemma subxact_other_event st ev s p cur :
  ev ≠ SUBXACT_EVENT_COMMIT_SUB → ev ≠ SUBXACT_EVENT_ABORT_SUB →
  temporal_tables_subxact_callback ev s p cur st = Some st.
Proof.
  intros H1 H2. unfold temporal_tables_subxact_callback.
  rewrite !bool_decide_eq_false_2 by done. done.
Qed.

Lemma subxact_not_top st c es ev s p cur :
  stack_holds st (c :: es) → subid c ≠ cur →
  temporal_tables_subxact_callback ev s p cur st = Some st.
Proof.
  intros Hst Hc.
  destruct (stack_holds_cons _ _ _ Hst) as (q & ps & Hs & Hp & Hn & Hnd' & HF).
  unfold temporal_tables_subxact_callback, linitial. rewrite Hs. simpl. rewrite Hp. simpl.
  destruct (Z.eqb_spec (subid c) cur) as [|_]; [done|].
  by destruct (_ || _).
Qed.

Lemma subxact_abort_top st c es s p cur :
  stack_holds st (c :: es) → subid c = cur →
  ∃ st', temporal_tables_subxact_callback SUBXACT_EVENT_ABORT_SUB s p cur st = Some st' ∧
         stack_holds st' es.
Proof.
  intros Hst Hc.
  destruct (stack_holds_cons _ _ _ Hst) as (q & ps & Hs & Hp & Hn & Hnd' & HF).
  unfold temporal_tables_subxact_callback, linitial. rewrite Hs. simpl. rewrite Hp. simpl.
  rewrite Hc, Z.eqb_refl. eexists; split; [reflexivity|].
  by apply holds_tail_delete.
Qed.

Lemma subxact_commit_relabel st c pc es s p cur :
  stack_holds st (c :: pc :: es) → subid c = cur → subid pc ≠ p →
  ∃ st', temporal_tables_subxact_callback SUBXACT_EVENT_COMMIT_SUB s p cur st = Some st' ∧
         stack_holds st' (set_subid p c :: pc :: es).
Proof.
  intros Hst Hc Hpc.
  destruct (stack_holds_cons _ _ _ Hst) as (q & ps & Hs & Hp & Hn & Hnd' & HF).
  destruct ps as [|q2 ps]; [inversion HF|]. pose proof HF as HF'.
  apply Forall2_cons in HF' as [Hq2 _].
  unfold temporal_tables_subxact_callback, linitial, lsecond.
  rewrite Hs. simpl. rewrite Hp. simpl. rewrite Hc, Z.eqb_refl. rewrite Hq2. simpl.
  destruct (Z.eqb_spec (subid pc) p) as [|_]; [done|]. simpl.
  eexists; split; [reflexivity|]. by apply holds_top_insert.
Qed.

Lemma subxact_commit_merge st c pc es s p cur :
  stack_holds st (c :: pc :: es) → subid c = cur → subid pc = p →
  ∃ st', temporal_tables_subxact_callback SUBXACT_EVENT_COMMIT_SUB s p cur st = Some st' ∧
         stack_holds st' (set_subid p c :: es).
Proof.
  intros Hst Hc Hpc.
  destruct (stack_holds_cons _ _ _ Hst) as (q & ps & Hs & Hp & Hn & Hnd' & HF).
  destruct ps as [|q2 ps]; [inversion HF|].
  apply Forall2_cons in HF as [Hq2 HF]. apply NoDup_cons in Hnd' as [Hn2 Hnd2].
  unfold temporal_tables_subxact_callback, linitial, lsecond, copy_temporal_context.
  rewrite Hs. simpl. rewrite Hp. simpl. rewrite Hc, Z.eqb_refl. rewrite Hq2. simpl.
  rewrite Hpc, Z.eqb_refl. simpl. rewrite ?Hp, ?Hq2. simpl.
  eexists; split; [reflexivity|].
  assert (q ≠ q2) by set_solver.
  rewrite delete_insert_ne by done.
  apply holds_top_insert; [done|done|].
  apply Forall2_lookup_delete_ne; [set_solver|done].
Qed.

Lemma xact_other_event st ev :
  ev ≠ XACT_EVENT_COMMIT → ev ≠ XACT_EVENT_ABORT →
  temporal_tables_xact_callback ev st = Some st.
Proof.
  intros H1 H2. unfold temporal_tables_xact_callback.
  rewrite !bool_decide_eq_false_2 by done. done.
Qed.

Lemma xact_root_on_top st c es ev :
  stack_holds st (c :: es) → subid c = InvalidSubTransactionId →
  temporal_tables_xact_callback ev st = Some st.
Proof.
  intros Hst Hc.
  destruct (stack_holds_cons _ _ _ Hst) as (q & ps & Hs & Hp & Hn & Hnd' & HF).
  unfold temporal_tables_xact_callback, linitial. rewrite Hs. simpl. rewrite Hp. simpl.
  rewrite Hc. simpl. by destruct (_ || _).
Qed.

Lemma xact_commit_top st c rc es :
  stack_holds st (c :: rc :: es) → subid c ≠ InvalidSubTransactionId →
  ∃ st', temporal_tables_xact_callback XACT_EVENT_COMMIT st = Some st' ∧
         stack_holds st' (set_subid InvalidSubTransactionId c :: es).
Proof.
  intros Hst Hc.
  destruct (stack_holds_cons _ _ _ Hst) as (q & ps & Hs & Hp & Hn & Hnd' & HF).
  destruct ps as [|q2 ps]; [inversion HF|].
  apply Forall2_cons in HF as [Hq2 HF]. apply NoDup_cons in Hnd' as [Hn2 Hnd2].
  unfold temporal_tables_xact_callback, linitial, copy_temporal_context.
  rewrite Hs. simpl. rewrite Hp. simpl.
  destruct (Z.eqb_spec (subid c) InvalidSubTransactionId) as [|_]; [done|]. simpl.
  rewrite ?Hp, ?Hq2. simpl.
  eexists; split; [reflexivity|]. by apply holds_top_insert.
Qed.

Lemma xact_abort_top st c es :
  stack_holds st (c :: es) → subid c ≠ InvalidSubTransactionId →
  ∃ st', temporal_tables_xact_callback XACT_EVENT_ABORT st = Some st' ∧
         stack_holds st' es.
Proof.
  intros Hst Hc.
  destruct (stack_holds_cons _ _ _ Hst) as (q & ps & Hs & Hp & Hn & Hnd' & HF).
  unfold temporal_tables_xact_callback, linitial.
  rewrite Hs. simpl. rewrite Hp. simpl.
  destruct (Z.eqb_spec (subid c) InvalidSubTransactionId) as [|_]; [done|]. simpl.
  eexists; split; [reflexivity|]. by split.
Qed.

(** ** One event preserves the invariant *)

Lemma store_inv_init : store_inv [] (PG_init (T:=T)) spec_init.
Proof.
  eexists; split.
  - split; simpl; [apply NoDup_singleton|].
    constructor; [apply lookup_singleton_eq|constructor].
  - simpl. by apply (Rep_root (mkTemporalContext InvalidSubTransactionId
                                 CurrentTransactionStartTimestamp (ts_of_int64 0))).
Qed.

Lemma store_inv_step chain ev chain' st sp :
  store_inv chain st sp → tm_step chain ev = Some chain' →
  ∃ st', code_step chain ev st = Some st' ∧ store_inv chain' st' (spec_step sp ev).
Proof.
  intros (es & Hst & HR) Htm. destruct sp as [root lv]. simpl in HR.
  destruct ev as [|s|arg| | | |]; simpl in Htm.
  - (* BEGIN *)
    destruct chain; [|done]. simplify_eq. inversion HR; subst.
    exists st. split; [done|]. exists [c]. split; [done|]. simpl.
    apply Rep_inherit; [done|set_solver|done].
  - (* subtransaction start *)
    destruct chain as [|p chain]; [done|].
    destruct (bool_decide (s ∉ p :: chain)) eqn:Hin; [|done].
    destruct (Z.eqb_spec s InvalidSubTransactionId) as [|Hs0]; [done|].
    simpl in Htm. simplify_eq.
    apply bool_decide_eq_true_1 in Hin.
    exists st. split; [by apply subxact_other_event|].
    destruct (Rep_nonempty _ _ _ _ HR) as (c & es' & ->).
    exists (c :: es'). split; [done|]. simpl.
    rewrite <- (Rep_visible _ _ _ (mkSpecContexts root lv) HR).
    by apply Rep_inherit.
  - (* set_system_time *)
    destruct chain as [|cur chain]; [done|]. simplify_eq. simpl.
    inversion HR as [|s0 ch0 c es0 lv0 r0 HR0 Hc Hn Hs0|s0 ch0 c es0 lv0 r0 HR0 Hn Hs0]; subst.
    + destruct (set_system_time_own st c es0 arg (subid c) Hst eq_refl) as (st' & -> & Hst').
      exists st'. split; [done|]. eexists; split; [exact Hst'|]. simpl.
      rewrite <- (context_view_apply_set arg c) at 2.
      apply Rep_own; [done|by rewrite subid_apply_set|done|done].
    + assert (subid c ≠ cur) as Hne by (by eapply Rep_head_not_level).
      destruct (set_system_time_push st c es0 arg cur Hst Hne) as (st' & -> & Hst').
      exists st'. split; [done|]. eexists; split; [exact Hst'|]. simpl.
      rewrite <- (context_view_apply_set arg (set_subid cur c)) at 2.
      apply Rep_own; [done|by rewrite subid_apply_set|done|done].
  - (* subtransaction commit *)
    destruct chain as [|s [|p chain]]; try done. simplify_eq. simpl.
    inversion HR as [|s0 ch0 c es0 lv0 r0 HR0 Hc Hn Hs0|s0 ch0 c es0 lv0 r0 HR0 Hn Hs0]; subst.
    + inversion HR0 as [|s1 ch1 pc es1 lv1 r1 HR1 Hpc Hn1 Hs1|s1 ch1 pc es1 lv1 r1 HR1 Hn1 Hs1];
        subst.
      * destruct (subxact_commit_merge st c pc es1 (subid c) (subid pc) (subid c) Hst eq_refl eq_refl)
          as (st' & -> & Hst').
        exists st'. split; [done|]. eexists; split; [exact Hst'|]. simpl.
        rewrite <- (context_view_set_subid (subid pc) c). by apply Rep_own.
      * assert (subid pc ≠ p) as Hne by (by eapply Rep_head_not_level).
        destruct (subxact_commit_relabel st c pc es1 (subid c) p (subid c) Hst eq_refl Hne)
          as (st' & -> & Hst').
        exists st'. split; [done|]. eexists; split; [exact Hst'|]. simpl.
        rewrite <- (context_view_set_subid p c). by apply Rep_own.
    + assert (subid c ≠ s) as Hne by (by eapply Rep_head_not_level).
      exists st. split; [by eapply subxact_not_top|].
      eexists; split; [exact Hst|]. simpl.
      destruct (Rep_levels_head _ _ _ _ _ _ HR0) as (lv' & ->).
      inversion HR0; subst; [by apply Rep_own | by apply Rep_inherit].
  - (* subtransaction abort *)
    destruct chain as [|s [|p chain]]; try done. simplify_eq. simpl.
    inversion HR as [|s0 ch0 c es0 lv0 r0 HR0 Hc Hn Hs0|s0 ch0 c es0 lv0 r0 HR0 Hn Hs0]; subst.
    + destruct (subxact_abort_top st c es0 (subid c) p (subid c) Hst eq_refl) as (st' & -> & Hst').
      exists st'. split; [done|]. by eexists.
    + assert (subid c ≠ s) as Hne by (by eapply Rep_head_not_level).
      exists st. split; [by eapply subxact_not_top|]. by eexists.
  - (* COMMIT *)
    destruct chain as [|s [|? ?]]; try done. simplify_eq. simpl.
    inversion HR as [|s0 ch0 c es0 lv0 r0 HR0 Hc Hn Hs0|s0 ch0 c es0 lv0 r0 HR0 Hn Hs0]; subst.
    + inversion HR0 as [rc Hrc| |]; subst.
      destruct (xact_commit_top st c rc [] Hst Hs0) as (st' & -> & Hst').
      exists st'. split; [done|]. eexists; split; [exact Hst'|]. simpl.
      rewrite <- (context_view_set_subid InvalidSubTransactionId c). by apply Rep_root.
    + inversion HR0 as [rc Hrc| |]; subst.
      exists st. split; [by eapply xact_root_on_top|].
      eexists; split; [exact Hst|]. simpl. by apply Rep_root.
  - (* ROLLBACK *)
    destruct chain as [|s [|? ?]]; try done. simplify_eq. simpl.
    inversion HR as [|s0 ch0 c es0 lv0 r0 HR0 Hc Hn Hs0|s0 ch0 c es0 lv0 r0 HR0 Hn Hs0]; subst.
    + destruct (xact_abort_top st c es0 Hst Hs0) as (st' & -> & Hst').
      exists st'. split; [done|]. inversion HR0 as [rc Hrc| |]; subst.
      eexists; split; [exact Hst'|]. simpl. by apply Rep_root.
    + inversion HR0 as [rc Hrc| |]; subst.
      exists st. split; [by eapply xact_root_on_top|].
      eexists; split; [exact Hst|]. simpl. by apply Rep_root.
Qed.

Lemma store_inv_run tr : ∀ chain chain' st sp,
  store_inv chain st sp → tm_run chain tr = Some chain' →
  ∃ st', code_run chain tr st = Some (chain', st') ∧
         store_inv chain' st' (spec_run sp tr).
Proof.
  induction tr as [|ev tr IH]; intros chain chain' st sp Hinv Htm; simpl in *.
  - simplify_eq. by exists st.
  - destruct (tm_step chain ev) as [chain1|] eqn:E1; [|done]. simpl in Htm.
    destruct (store_inv_step _ _ _ _ _ Hinv E1) as (st1 & -> & Hinv1). simpl.
    by apply IH.
Qed.

Lemma store_inv_visible chain st sp cur :
  store_inv chain st sp →
  ∃ ctx c, get_current_temporal_context false cur st = Some (ctx, st) ∧
           ctx_mem st !! ctx = Some c ∧ context_view c = spec_visible sp.
Proof.
  intros (es & Hst & HR).
  destruct (Rep_nonempty _ _ _ _ HR) as (c & es' & ->).
  destruct (stack_holds_cons _ _ _ Hst) as (p & ps & Hs & Hp & _).
  exists p, c. unfold get_current_temporal_context, linitial. rewrite Hs. simpl.
  split; [done|]. split; [done|]. by eapply Rep_visible.
Qed.

(** ** The write handle *)

Lemma get_context_read_only st p (ps : list ctx_ptr) cur :
  temporal_contexts st = p :: ps →
  get_current_temporal_context false cur st = Some (p, st).
Proof. intros Hs. unfold get_current_temporal_context, linitial. by rewrite Hs. Qed.

Lemma get_context_write_own st c es cur :
  stack_holds st (c :: es) → subid c = cur →
  ∃ p, linitial (temporal_contexts st) = Some p ∧
       get_current_temporal_context true cur st = Some (p, st).
Proof.
  intros Hst Hc.
  destruct (stack_holds_cons _ _ _ Hst) as (p & ps & Hs & Hp & _).
  exists p. unfold get_current_temporal_context, linitial. rewrite Hs. simpl.
  rewrite Hp. simpl. by rewrite Hc, Z.eqb_refl.
Qed.

Lemma get_context_write_push st c es cur :
  stack_holds st (c :: es) → subid c ≠ cur →
  ∃ p st', get_current_temporal_context true cur st = Some (p, st') ∧
           ctx_mem st !! p = None ∧
           temporal_contexts st' = p :: temporal_contexts st ∧
           ctx_mem st' = <[p := set_subid cur c]> (ctx_mem st) ∧
           stack_holds st' (set_subid cur c :: c :: es).
Proof.
  intros Hst Hc. pose proof Hst as [Hnd HFall].
  pose proof (Forall2_lookup_allocated _ _ _ HFall) as Hfresh.
  destruct (stack_holds_cons _ _ _ Hst) as (p & ps & Hs & Hp & Hn & Hnd' & HF).
  unfold get_current_temporal_context, push_temporal_context, linitial.
  rewrite Hs. simpl. rewrite Hp. simpl.
  destruct (Z.eqb_spec (subid c) cur) as [|_]; [done|].
  eexists _, _. split; [reflexivity|]. simpl. unfold lcons.
  split; [|split; [done|split; [done|]]].
  - apply not_elem_of_dom. apply is_fresh.
  - rewrite <- Hs. by apply holds_top_insert.
Qed.

End TemporalContextProofs.

(** ** The claims about the stack of temporal contexts *)

Section TemporalContextClaims.
Context {T : Type} `{!TimestampRep T}.
Implicit Types (st : ContextStore T) (c : TemporalContext T).
Implicit Types (es : list (TemporalContext T)).

(** C3.  After every sequence of events that the transaction manager allows
    (transactions and subtransactions begun, committed and aborted, with
    calls of set_system_time in between), started from the freshly loaded
    library, the code runs without fault and the context that a read-only
    caller gets shows the setting that the nesting semantics of the
    specification prescribes: the last set of the current level or of an
    enclosing level that was not rolled back, else the transaction start
    time.  In particular, on a well-formed stack: a commit of the outer
    transaction writes the contents of the top context into the root and
    pops it; an abort of the outer transaction pops it and leaves the root as
    it was; a commit of the subtransaction that owns the top context hands
    it to the parent, by relabelling it when the context below belongs to
    another level and by copying it over the parent's context otherwise; an
    abort of that subtransaction pops and frees it; and a subtransaction
    that owns no context changes nothing. *)
Theorem temporal_context_nesting :
  (∀ (tr : list (TxEvent T)) chain,
     tm_run [] tr = Some chain →
     ∃ st c, code_run [] tr PG_init = Some (chain, st) ∧
             (∀ cur, visible_context cur st = Some c) ∧
             context_view c = spec_visible (spec_run spec_init tr)) ∧
  (∀ st c rc es,
     stack_holds st (c :: rc :: es) → subid c ≠ InvalidSubTransactionId →
     ∃ st', temporal_tables_xact_callback XACT_EVENT_COMMIT st = Some st' ∧
            stack_holds st' (set_subid InvalidSubTransactionId c :: es)) ∧
  (∀ st c es,
     stack_holds st (c :: es) → subid c ≠ InvalidSubTransactionId →
     ∃ st', temporal_tables_xact_callback XACT_EVENT_ABORT st = Some st' ∧
            stack_holds st' es) ∧
  (∀ st c pc es s p,
     stack_holds st (c :: pc :: es) → subid c = s → subid pc ≠ p →
     ∃ st', temporal_tables_subxact_callback SUBXACT_EVENT_COMMIT_SUB s p s st = Some st' ∧
            stack_holds st' (set_subid p c :: pc :: es)) ∧
  (∀ st c pc es s p,
     stack_holds st (c :: pc :: es) → subid c = s → subid pc = p →
     ∃ st', temporal_tables_subxact_callback SUBXACT_EVENT_COMMIT_SUB s p s st = Some st' ∧
            stack_holds st' (set_subid p c :: es)) ∧
  (∀ st c es s p,
     stack_holds st (c :: es) → subid c = s →
     ∃ st', temporal_tables_subxact_callback SUBXACT_EVENT_ABORT_SUB s p s st = Some st' ∧
            stack_holds st' es) ∧
  (∀ st c es ev s p,
     stack_holds st (c :: es) → subid c ≠ s →
     temporal_tables_subxact_callback ev s p s st = Some st).
Proof.
  repeat split.
  - intros tr chain Htm.
    destruct (store_inv_run tr [] chain PG_init spec_init store_inv_init Htm)
      as (st & Hrun & Hinv).
    destruct (store_inv_visible chain st _ InvalidSubTransactionId Hinv)
      as (ctx & c & Hget & Hc & Hview).
    exists st, c. split; [done|]. split; [|done].
    intros cur. unfold visible_context.
    unfold get_current_temporal_context in *.
    destruct (linitial (temporal_contexts st)); simplify_eq/=. done.
  - intros. by eapply xact_commit_top.
  - intros. by eapply xact_abort_top.
  - intros. by eapply subxact_commit_relabel.
  - intros. by eapply subxact_commit_merge.
  - intros. by eapply subxact_abort_top.
  - intros. by eapply subxact_not_top.
Qed.

(** C7.  On a well-formed stack whose top context is [c]: a read-only
    request returns the address on top of the stack and leaves the state as
    it is; a request for writing returns the same address, state unchanged,
    when [c] belongs to the current subtransaction, and otherwise allocates a
    new cell, writes a copy of [c] tagged with the current subtransaction
    into it, pushes it and returns it; set_system_time writes through such a
    handle: with a timestamp the top context afterwards belongs to the
    current subtransaction and has mode UserDefined and that timestamp; with
    NULL it has mode CurrentTransactionStartTimestamp, the stored time being
    kept. *)
Theorem current_context_and_set_system_time :
  ∀ st c es cur,
    stack_holds st (c :: es) →
    (∃ p, linitial (temporal_contexts st) = Some p ∧
          ctx_mem st !! p = Some c ∧
          get_current_temporal_context false cur st = Some (p, st) ∧
          (subid c = cur →
           get_current_temporal_context true cur st = Some (p, st))) ∧
    (subid c ≠ cur →
     ∃ p st', get_current_temporal_context true cur st = Some (p, st') ∧
              ctx_mem st !! p = None ∧
              temporal_contexts st' = p :: temporal_contexts st ∧
              ctx_mem st' = <[p := set_subid cur c]> (ctx_mem st)) ∧
    (∀ arg, ∃ st' c', set_system_time arg cur st = Some st' ∧
       stack_holds st' (c' :: if decide (subid c = cur) then es else c :: es) ∧
       subid c' = cur ∧
       match arg with
       | Some ts => system_time_mode c' = UserDefined ∧ system_time c' = ts
       | None => system_time_mode c' = CurrentTransactionStartTimestamp ∧
                 system_time c' = system_time c
       end).
Proof.
  intros st c es cur Hst. split; [|split].
  - destruct (stack_holds_cons _ _ _ Hst) as (p & ps & Hs & Hp & _).
    exists p. split; [by unfold linitial; rewrite Hs|]. split; [done|].
    split; [by eapply get_context_read_only|].
    intros Hc. destruct (get_context_write_own st c es cur Hst Hc) as (p' & Hp' & Hget).
    unfold linitial in Hp'. rewrite Hs in Hp'. by simplify_eq/=.
  - intros Hc.
    destruct (get_context_write_push st c es cur Hst Hc) as (p & st' & ? & ? & ? & ? & _).
    by exists p, st'.
  - intros arg. destruct (decide (subid c = cur)) as [Hc|Hc].
    + destruct (set_system_time_own st c es arg cur Hst Hc) as (st' & Hset & Hst').
      exists st', (apply_set arg c). split; [done|]. split; [done|].
      split; [by rewrite subid_apply_set|]. by destruct arg.
    + destruct (set_system_time_push st c es arg cur Hst Hc) as (st' & Hset & Hst').
      exists st', (apply_set arg (set_subid cur c)). split; [done|]. split; [done|].
      split; [by rewrite subid_apply_set|]. by destruct arg.
Qed.

End TemporalContextClaims.

Lemma temporal_context_nesting_witness :
  tm_run [] sample_trace = Some [TopSubTransactionId] ∧
  ∃ st c, code_run [] sample_trace PG_init = Some ([TopSubTransactionId], st) ∧
          (∀ cur, visible_context cur st = Some c) ∧
          context_view c = spec_visible (spec_run spec_init sample_trace).
Proof.
  split; [reflexivity|].
  apply (proj1 (temporal_context_nesting (T:=Z))). reflexivity.
Defined.

Lemma current_context_and_set_system_time_witness :
  stack_holds (PG_init (T:=Z))
    [mkTemporalContext InvalidSubTransactionId CurrentTransactionStartTimestamp 0] ∧
  ∃ st' c', set_system_time (Some 42) TopSubTransactionId (PG_init (T:=Z)) = Some st' ∧
            subid c' = TopSubTransactionId ∧ system_time_mode c' = UserDefined ∧
            system_time c' = 42.
Proof.
  assert (stack_holds (PG_init (T:=Z))
            [mkTemporalContext InvalidSubTransactionId CurrentTransactionStartTimestamp 0])
    as Hst.
  { split; simpl; [apply NoDup_singleton|].
    constructor; [apply lookup_singleton_eq|constructor]. }
  split; [exact Hst|].
  destruct (proj2 (proj2 (current_context_and_set_system_time
                            _ _ _ TopSubTransactionId Hst)) (Some 42))
    as (st' & c' & Hset & _ & Hsub & Hmode & Htime).
  by exists st', c'.
Defined.

(* ===================================================================== *)
(** * Properties of versioning.c *)

Lemma pg_ascii_tolower_zero b : pg_ascii_tolower b = 0 ↔ b = 0.
Proof.
  unfold pg_ascii_tolower.
  destruct (Z.leb_spec 65 b), (Z.leb_spec b 90); simpl; lia.
Qed.

Lemma pg_strcasecmp_folded s1 : ∀ s2,
  pg_strcasecmp s1 s2 = 0 ↔ folded s1 = folded s2.
Proof.
  unfold folded.
  induction s1 as [|c1 r1 IH]; intros [|c2 r2]; simpl.
  - done.
  - set (b := Z.of_nat (Ascii.nat_of_ascii c2)).
    change (pg_ascii_tolower 0) with 0.
    destruct (Z.eqb_spec b 0) as [E|E]; simpl.
    + rewrite E. done.
    + split; [|done]. intros Hz. exfalso. apply E.
      apply pg_ascii_tolower_zero. lia.
  - set (b := Z.of_nat (Ascii.nat_of_ascii c1)).
    change (pg_ascii_tolower 0) with 0.
    destruct (Z.eqb_spec b 0) as [E|E]; simpl.
    + rewrite E. done.
    + split; [|done]. intros Hz. exfalso. apply E.
      apply pg_ascii_tolower_zero. lia.
  - set (b1 := Z.of_nat (Ascii.nat_of_ascii c1)).
    set (b2 := Z.of_nat (Ascii.nat_of_ascii c2)).
    pose proof (pg_ascii_tolower_zero b1) as Hz1.
    pose proof (pg_ascii_tolower_zero b2) as Hz2.
    destruct (Z.eqb_spec (pg_ascii_tolower b1) (pg_ascii_tolower b2)) as [E|E].
    + destruct (Z.eqb_spec (pg_ascii_tolower b1) 0) as [E0|E0].
      * assert (b1 = 0) as -> by tauto. assert (b2 = 0) as -> by (apply Hz2; lia).
        done.
      * destruct (Z.eqb_spec b1 0) as [?|_]; [tauto|].
        destruct (Z.eqb_spec b2 0) as [?|_]; [exfalso; apply E0; rewrite E; tauto|].
        simpl. rewrite IH. split; [by intros ->; rewrite E|].
        intros Heq. by simplify_eq.
    + split; [lia|]. intros Heq. exfalso.
      destruct (Z.eqb_spec b1 0) as [E1|E1], (Z.eqb_spec b2 0) as [E2|E2];
        simpl in Heq; simplify_eq.
      * apply E. by rewrite E1, E2.
Qed.

Section VersioningBasics.
Context {T : Type} `{!TimestampRep T}.
Implicit Types (s : State T) (h : Host T).

Lemma parse_adjust_argument_spec arg s :
  parse_adjust_argument arg s =
    (if bool_decide (folded arg = folded "true") then Ok true
     else if bool_decide (folded arg = folded "false") then Ok false
     else Err (ERR_invalid_adjust_value arg), s).
Proof.
  unfold parse_adjust_argument.
  destruct (Z.eqb_spec (pg_strcasecmp arg "true") 0) as [E|E].
  - apply pg_strcasecmp_folded in E. by rewrite bool_decide_eq_true_2.
  - rewrite bool_decide_eq_false_2 by (by rewrite <- pg_strcasecmp_folded).
    destruct (Z.eqb_spec (pg_strcasecmp arg "false") 0) as [E'|E'].
    + apply pg_strcasecmp_folded in E'. by rewrite bool_decide_eq_true_2.
    + by rewrite bool_decide_eq_false_2 by (by rewrite <- pg_strcasecmp_folded).
Qed.

End VersioningBasics.

(** ** The successor of a timestamp *)

Section NextTimestamp.
Context {T : Type} `{!TimestampRep T}.
Implicit Types (s : State T).

Lemma set_integer_datetimes_id s :
  set_integer_datetimes (integer_datetimes s) (integer_datetimes_set s) s = s.
Proof. by destruct s. Qed.

(** The state after the lookup that [next_timestamp] starts with. *)
Lemma next_timestamp_unfold (timestamp : T) s :
  let s' := if integer_datetimes_set s then s
            else set_integer_datetimes
                   (bool_decide (integer_datetimes_option = "on")) true s in
  next_timestamp timestamp s =
    (if integer_datetimes s' then
       match ts_to_int64 timestamp with
       | Some i => Ok (ts_of_int64 (wrap_int64 (i + 1)))
       | None => Err ERR_undefined_behaviour
       end
     else
       let ts := ts_to_float8 timestamp in
       let next := PrimFloat.add ts float8_1E_06 in
       match ts_of_float8 (if negb (PrimFloat.eqb next ts) then next
                           else nextafter ts DBL_MAX) with
       | Some r => Ok r
       | None => Err ERR_undefined_behaviour
       end, s').
Proof.
  unfold next_timestamp. simpl.
  unfold mbind, M_bind, bind, get_state, lookup_integer_datetimes, modify_state. simpl.
  destruct (integer_datetimes_set s) eqn:Eset; simpl.
  - destruct (integer_datetimes s); simpl.
    + by destruct (ts_to_int64 timestamp).
    + destruct (negb _); by destruct (ts_of_float8 _).
  - destruct (bool_decide _); simpl.
    + by destruct (ts_to_int64 timestamp).
    + destruct (negb _); by destruct (ts_of_float8 _).
Qed.

End NextTimestamp.

Lemma wrap_int64_small z : INT64_MIN <= z <= INT64_MAX → wrap_int64 z = z.
Proof.
  unfold wrap_int64, INT64_MIN, INT64_MAX. intros Hz.
  rewrite Z.mod_small; lia.
Qed.

(** C6 (as amended).  The successor used under adjustment.  With integer
    timestamps it is the timestamp plus one microsecond, computed in 64 bits:
    for every timestamp below the largest one that is [t + 1], which is
    strictly greater than [t] and the least such timestamp.  With [double]
    timestamps it is [t + 1E-06] when that differs from [t] and
    [nextafter(t, DBL_MAX)] otherwise: for every [t] below [DBL_MAX], minus
    infinity included, it is strictly greater than [t], and where the sum
    is again [t] no timestamp lies between [t] and the result.  The
    representation is looked up when the flag [integer_datetimes_set] is
    false, which sets the flag; with the flag set the call leaves the state
    as it is. *)
Theorem next_timestamp_successor :
  (∀ (t : Z) (s : State Z),
     datetimes_cache_ok s →
     next_timestamp t s = (Ok (wrap_int64 (t + 1)), set_integer_datetimes true true s) ∧
     (INT64_MIN <= t < INT64_MAX →
      wrap_int64 (t + 1) = t + 1 ∧
      timestamp_cmp_internal t (wrap_int64 (t + 1)) = Lt ∧
      ∀ u : Z, timestamp_cmp_internal t u = Lt →
               timestamp_cmp_internal u (wrap_int64 (t + 1)) ≠ Lt)) ∧
  (∀ (t : float8) (s : State float8),
     let next := PrimFloat.add t float8_1E_06 in
     let r := if negb (PrimFloat.eqb next t) then next else nextafter t DBL_MAX in
     datetimes_cache_ok s →
     next_timestamp t s = (Ok r, set_integer_datetimes false true s) ∧
     (PrimFloat.ltb t DBL_MAX = true →
      timestamp_cmp_internal t r = Lt ∧
      (PrimFloat.eqb next t = true →
       ∀ u : float8, timestamp_cmp_internal t u = Lt →
                     timestamp_cmp_internal u r ≠ Lt))) ∧
  (∀ (T : Type) (rep : TimestampRep T) (t : T) (s : State T),
     (integer_datetimes_set s = true → (next_timestamp t s).2 = s) ∧
     (integer_datetimes_set s = false →
      (next_timestamp t s).2 =
        set_integer_datetimes (bool_decide (integer_datetimes_option = "on")) true s)).
Proof.
  split; [|split].
  - intros t s Hok. split.
    + rewrite next_timestamp_unfold. simpl.
      destruct (integer_datetimes_set s) eqn:Eset.
      * pose proof (Hok Eset) as Hi. simpl in Hi. rewrite Hi. simpl. f_equal.
        destruct s; simpl in *; by subst.
      * done.
    + intros Ht.
      assert (wrap_int64 (t + 1) = t + 1) as Hw
        by (apply wrap_int64_small; unfold INT64_MIN, INT64_MAX in *; lia).
      change (timestamp_cmp_internal (T:=Z)) with Z.compare.
      split; [done|]. split; [rewrite Hw; apply Z.compare_lt_iff; lia|].
      intros u Hu Hlt. rewrite Hw in Hlt.
      rewrite Z.compare_lt_iff in Hu. rewrite Z.compare_lt_iff in Hlt. lia.
  - intros t s next r Hok. split.
    + rewrite next_timestamp_unfold. simpl. fold next. fold r.
      destruct (integer_datetimes_set s) eqn:Eset.
      * pose proof (Hok Eset) as Hi. simpl in Hi. rewrite Hi. simpl. f_equal.
        destruct s; simpl in *; by subst.
      * done.
    + intros Ht. split; [apply (float8_successor_greater t Ht)|].
      intros Heq u. unfold r. rewrite Heq. simpl.
      by apply float8_nextafter_cmp_least.
  - intros T rep t s. rewrite next_timestamp_unfold. simpl.
    split; by intros ->.
Qed.

Lemma next_timestamp_successor_witness :
  datetimes_cache_ok (initial_state (T:=Z)) ∧
  INT64_MIN <= 41 < INT64_MAX ∧
  next_timestamp 41 (initial_state (T:=Z)) =
    (Ok 42, set_integer_datetimes true true initial_state) ∧
  datetimes_cache_ok (initial_state (T:=float8)) ∧
  PrimFloat.ltb 1e17%float DBL_MAX = true ∧
  PrimFloat.eqb (PrimFloat.add 1e17%float float8_1E_06) 1e17%float = true ∧
  timestamp_cmp_internal (T:=float8) 1e17%float (nextafter 1e17%float DBL_MAX) = Lt ∧
  ∀ u : float8, timestamp_cmp_internal 1e17%float u = Lt →
                timestamp_cmp_internal u (nextafter 1e17%float DBL_MAX) ≠ Lt.
Proof.
  assert (datetimes_cache_ok (initial_state (T:=Z))) as Hok by (intros ?; done).
  assert (datetimes_cache_ok (initial_state (T:=float8))) as Hokf by (intros ?; done).
  split; [exact Hok|]. split; [by vm_compute|].
  split; [exact (proj1 (proj1 next_timestamp_successor 41 initial_state Hok))|].
  split; [exact Hokf|]. split; [reflexivity|]. split; [reflexivity|].
  destruct (proj2 (proj1 (proj2 next_timestamp_successor) 1e17%float initial_state Hokf)
              eq_refl) as [Hlt Hleast].
  split; [exact Hlt|]. exact (Hleast eq_refl).
Defined.

(** C6 as stated does not hold: at the largest timestamp (the value that
    stands for 'infinity') the integer successor wraps around to the
    smallest one; the floating-point successor of [DBL_MAX] is [DBL_MAX]
    itself, and that of plus infinity is [DBL_MAX]; none is greater than the
    argument. *)
Lemma next_timestamp_not_greater_at_maximum :
  (next_timestamp (T:=Z) INT64_MAX initial_state).1 = Ok INT64_MIN ∧
  timestamp_cmp_internal (T:=Z) INT64_MAX INT64_MIN = Gt ∧
  (next_timestamp (T:=float8) DBL_MAX initial_state).1 = Ok DBL_MAX ∧
  timestamp_cmp_internal (T:=float8) DBL_MAX DBL_MAX = Eq ∧
  (next_timestamp (T:=float8) infinity initial_state).1 = Ok DBL_MAX ∧
  timestamp_cmp_internal (T:=float8) infinity DBL_MAX = Gt.
Proof. repeat split; by vm_compute. Qed.
(** ** Reading the stored period, and the validation of the call *)

Section PeriodAndValidation.
Context {T : Type} `{!TimestampRep T}.
Implicit Types (s : State T) (h : Host T).

(** C8.  Reading the system period of the old row, where the period column
    holds NULL or a range: the read raises an error exactly when the value
    is NULL, the range is empty, or the range has a finite upper bound; in
    the remaining case, a non-empty range without upper bound, it returns
    the lower bound as stored and the infinite upper bound.  The state is
    not changed. *)
Theorem deserialize_system_period_errors :
  ∀ (tuple : HeapTupleData T) (relation : RelationData) (period_attnum : Z)
    (period_attname : string) (typcache : TypeCacheEntry) s,
    let stored := SPI_getbinval tuple (RelationGetDescr relation) period_attnum in
    (∀ d, stored = Some d → ∃ r, d = DatumRange r) →
    ((∃ e, (deserialize_system_period tuple relation period_attnum period_attname
              typcache s).1 = Err e) ↔
     (stored = None ∨ stored = Some (DatumRange RangeEmpty) ∨
      ∃ lb ub, stored = Some (DatumRange (RangeValue lb (Some ub))))) ∧
    (stored = None →
     deserialize_system_period tuple relation period_attnum period_attname typcache s =
       (Err (ERR_period_must_not_be_null period_attname
               (RelationGetRelationName relation)), s)) ∧
    (∀ r, stored = Some (DatumRange r) →
          (r = RangeEmpty ∨ ∃ lb ub, r = RangeValue lb (Some ub)) →
     deserialize_system_period tuple relation period_attnum period_attname typcache s =
       (Err (ERR_period_contains_invalid_value period_attname
               (RelationGetRelationName relation)), s)) ∧
    (∀ lb, stored = Some (DatumRange (RangeValue lb None)) →
     deserialize_system_period tuple relation period_attnum period_attname typcache s =
       (Ok (match lb with
            | None => mkRangeBound (ts_of_int64 0) true false true
            | Some (v, incl) => mkRangeBound v false incl true
            end,
            mkRangeBound (ts_of_int64 0) true false false), s)).
Proof.
  intros tuple relation period_attnum period_attname typcache s stored Htyped.
  unfold deserialize_system_period. fold stored.
  destruct stored as [d|] eqn:Est.
  - destruct (Htyped d eq_refl) as [r ->].
    destruct r as [|lb [[ubv ubi]|]]; simpl.
    + repeat split; try done.
      * intros _. right. by left.
      * by eexists.
    + split; [|repeat split; try done].
      * split; [intros _; right; right; by eexists _, _ | by eexists].
    + split; [|repeat split; try done].
      * split.
        -- intros [e He]. by destruct lb as [[? ?]|].
        -- intros [?|[?|(? & ? & ?)]]; done.
      * intros r Hr [->|(? & ? & ->)]; done.
      * intros lb' Hlb. simplify_eq. by destruct lb' as [[? ?]|].
  - repeat split; try done.
    + intros _. by left.
    + by eexists.
Qed.

End PeriodAndValidation.

Lemma deserialize_system_period_errors_witness :
  let tuple := mkHeapTuple (T:=Z) 7 [Some (DatumInt 1);
                 Some (DatumRange (RangeValue (Some (100, true)) None))] in
  let relation := mkRelation 1000 "r" "public"
                    [mkAttr "id" 23 0 (-1) false 1;
                     mkAttr "valid_time" 3910 0 (-1) false 2] in
  (∀ d, SPI_getbinval tuple (RelationGetDescr relation) 2 = Some d →
        ∃ r, d = DatumRange r) ∧
  deserialize_system_period tuple relation 2 "valid_time"
      (mkTypeCacheEntry 3910 TIMESTAMPTZOID) initial_state =
    (Ok (mkRangeBound 100 false true true, mkRangeBound 0 true false false),
     initial_state).
Proof.
  intros tuple relation.
  assert (∀ d, SPI_getbinval tuple (RelationGetDescr relation) 2 = Some d →
               ∃ r, d = DatumRange r) as Htyped.
  { intros d Hd. vm_compute in Hd. simplify_eq. by eexists. }
  split; [exact Htyped|].
  exact (proj2 (proj2 (proj2 (deserialize_system_period_errors tuple relation 2
           "valid_time" (mkTypeCacheEntry 3910 TIMESTAMPTZOID) initial_state Htyped)))
           (Some (100, true)) eq_refl).
Defined.

(** ** Running the monad *)

Section MonadRun.
Context {T : Type} `{!TimestampRep T}.
Implicit Types (s : State T) (h : Host T) (e : VersioningHashEntry).

Lemma run_bind {A B} (m : M T A) (k : A → M T B) s :
  (m ≫= k) s = match m s with
               | (Ok a, s') => k a s'
               | (Err err, s') => (Err err, s')
               end.
Proof. done. Qed.

Lemma run_bind_ok {A B} (m : M T A) (k : A → M T B) s a s' :
  m s = (Ok a, s') → (m ≫= k) s = k a s'.
Proof. intros Hm. by rewrite run_bind, Hm. Qed.

Lemma run_bind_err {A B} (m : M T A) (k : A → M T B) s err s' :
  m s = (Err err, s') → (m ≫= k) s = (Err err, s').
Proof. intros Hm. by rewrite run_bind, Hm. Qed.

Lemma entry_at_with_entry k e s : entry_at k (with_entry k e s) = Some e.
Proof. unfold entry_at, with_entry. simpl. apply lookup_insert_eq. Qed.

Lemma entry_at_with_entry_ne k k' e s :
  k ≠ k' → entry_at k' (with_entry k e s) = entry_at k' s.
Proof.
  intros Hk. unfold entry_at, with_entry. simpl. rewrite lookup_insert_ne by done.
  by destruct (versioning_cache s).
Qed.

Lemma with_entry_with_entry k e1 e2 s :
  with_entry k e2 (with_entry k e1 s) = with_entry k e2 s.
Proof. unfold with_entry. simpl. unfold set_versioning_cache. simpl. by rewrite insert_insert_eq. Qed.

Lemma with_entry_set_spi_plans k e x s :
  with_entry k e (set_spi_plans x s) = set_spi_plans x (with_entry k e s).
Proof. done. Qed.

Lemma with_entry_set_heap_rows k e x s :
  with_entry k e (set_heap_rows x s) = set_heap_rows x (with_entry k e s).
Proof. done. Qed.

Lemma with_entry_id k e s : entry_at k s = Some e → with_entry k e s = s.
Proof.
  unfold entry_at, with_entry. destruct s as [? ? ? [cache|] ? ? ?]; simpl; [|done].
  intros Hk. unfold set_versioning_cache. simpl. by rewrite insert_id.
Qed.

Lemma read_entry_run k e s : entry_at k s = Some e → read_entry k s = (Ok e, s).
Proof.
  unfold entry_at, read_entry. intros Hk. rewrite run_bind. simpl.
  destruct (versioning_cache s) as [cache|]; [|done]. simpl in *.
  rewrite run_bind. simpl. by rewrite Hk.
Qed.

Lemma write_entry_run k f e s :
  entry_at k s = Some e → write_entry k f s = (Ok tt, with_entry k (f e) s).
Proof.
  unfold entry_at, write_entry, with_entry. intros Hk. rewrite run_bind. simpl.
  destruct (versioning_cache s) as [cache|]; [|done]. simpl in *.
  rewrite run_bind. simpl. rewrite run_bind. simpl. by rewrite Hk.
Qed.

(** Lookup creates a blank entry where there is none. *)
Lemma lookup_versioning_hash_entry_run k s :
  lookup_versioning_hash_entry k s =
    match entry_at k s with
    | Some _ => (Ok (k, true), s)
    | None => (Ok (k, false), with_entry k (blank_entry k) s)
    end.
Proof.
  unfold lookup_versioning_hash_entry, entry_at.
  destruct s as [cs idt idts [cache|] plans nots rows]; simpl.
  - rewrite run_bind. simpl. rewrite run_bind. simpl. rewrite run_bind. simpl.
    rewrite run_bind. simpl.
    destruct (cache !! k) as [e|] eqn:Ek; [done|].
    rewrite run_bind. simpl.
    erewrite run_bind_ok; [|apply write_entry_run, entry_at_with_entry].
    simpl. unfold with_entry. simpl. unfold set_versioning_cache. simpl.
    by rewrite insert_insert_eq.
  - rewrite run_bind. simpl. rewrite run_bind. simpl. rewrite run_bind. simpl.
    rewrite run_bind. simpl. rewrite lookup_empty. rewrite run_bind. simpl.
    erewrite run_bind_ok; [|apply write_entry_run; apply lookup_insert_eq].
    simpl. unfold with_entry. simpl. unfold set_versioning_cache. simpl.
    by rewrite insert_insert_eq.
Qed.

End MonadRun.

#[local] Arguments with_entry : simpl never.
#[local] Arguments entry_at : simpl never.
#[local] Arguments invalidated : simpl never.
#[local] Arguments set_spi_plans : simpl never.
#[local] Arguments set_heap_rows : simpl never.
#[local] Arguments write_entry : simpl never.
#[local] Arguments read_entry : simpl never.
#[local] Arguments insert_plan_for : simpl never.
#[local] Arguments attnums_size : simpl never.
#[local] Arguments SPI_fnumber : simpl never.
#[local] Arguments inserted_values : simpl never.

(** One step of a run: unfold the binds and reduce. *)
Ltac mrun :=
  repeat (progress (unfold mbind, M_bind, bind, mret, M_ret, ret, ereport_ERROR; simpl)).

Section CacheBlocks.
Context {T : Type} `{!TimestampRep T}.
Implicit Types (s : State T) (h : Host T) (e : VersioningHashEntry).

Lemma invalidate_cached_data_run h k e s :
  entry_at k s = Some e →
  invalidate_cached_data h k e s =
    match insert_history_plan e with
    | Some p =>
        if host_SPI_freeplan h =? 0
        then (Ok tt, with_entry k (set_insert_history_plan None (invalidated e))
                       (set_spi_plans (delete p (spi_plans s)) s))
        else (Err (ERR_SPI_freeplan_returned (host_SPI_freeplan h)),
              with_entry k (invalidated e) s)
    | None => (Ok tt, with_entry k (invalidated e) s)
    end.
Proof.
  intros Hk. unfold invalidate_cached_data.
  erewrite run_bind_ok; [|by apply write_entry_run].
  erewrite run_bind_ok; [|apply write_entry_run, entry_at_with_entry].
  rewrite with_entry_with_entry.
  erewrite run_bind_ok; [|apply write_entry_run, entry_at_with_entry].
  rewrite with_entry_with_entry.
  erewrite run_bind_ok; [|apply write_entry_run, entry_at_with_entry].
  rewrite with_entry_with_entry.
  change (set_attnums None (set_history_tupdesc None (set_tupdesc None (set_natts (-1) e))))
    with (invalidated e).
  destruct (insert_history_plan e) as [p|] eqn:Ep; [|done].
  unfold SPI_freeplan. rewrite run_bind.
  destruct (Z.eqb_spec (host_SPI_freeplan h) 0) as [E|E].
  - rewrite run_bind. simpl.
    erewrite write_entry_run; [|apply entry_at_with_entry].
    by rewrite with_entry_set_spi_plans, with_entry_with_entry.
  - simpl. by destruct (Z.eqb_spec (host_SPI_freeplan h) 0).
Qed.

(** On an entry whose descriptors are present unless it is marked invalid,
    the validity check of the code is the condition of the specification. *)
Lemma cached_data_is_stale_run e hrel td htd s :
  (natts e ≠ -1 → is_Some (tupdesc e) ∧ is_Some (history_tupdesc e)) →
  cached_data_is_stale e hrel td htd s = (Ok (needs_rebuild e hrel td htd), s).
Proof.
  intros Hdesc. unfold cached_data_is_stale, needs_rebuild, equalTupleDescs.
  destruct (Z.eqb_spec (natts e) (-1)) as [E|E].
  - by rewrite bool_decide_eq_true_2.
  - rewrite (bool_decide_eq_false_2 _ E). simpl.
    destruct (Hdesc E) as [[ctd Hctd] [chtd Hchtd]].
    unfold RelationGetRelid.
    destruct (Z.eqb_spec (rd_id hrel) (history_relid e)) as [E2|E2]; simpl.
    + rewrite bool_decide_eq_true_2 by done. simpl.
      rewrite Hctd, Hchtd. rewrite run_bind. simpl.
      destruct (decide (td = ctd)) as [->|Hne].
      * rewrite !bool_decide_eq_true_2 by done. simpl. rewrite run_bind. simpl.
        destruct (decide (htd = chtd)) as [->|Hne'].
        -- by rewrite !bool_decide_eq_true_2.
        -- rewrite !bool_decide_eq_false_2; [done| |done]. congruence.
      * rewrite bool_decide_eq_false_2 by done. simpl.
        rewrite bool_decide_eq_false_2; [done|]. congruence.
    + rewrite bool_decide_eq_false_2 by done. done.
Qed.

Lemma check_cached_data_run h k rel hrel e s :
  entry_at k s = Some e →
  (natts e ≠ -1 → is_Some (tupdesc e) ∧ is_Some (history_tupdesc e)) →
  check_cached_data h k rel hrel s =
    if needs_rebuild e hrel (RelationGetDescr rel) (RelationGetDescr hrel)
    then match invalidate_cached_data h k e s with
         | (Ok _, s') => (Ok false, s')
         | (Err err, s') => (Err err, s')
         end
    else (Ok true, s).
Proof.
  intros Hk Hdesc. unfold check_cached_data.
  erewrite run_bind_ok; [|by apply read_entry_run].
  erewrite run_bind_ok; [|by apply cached_data_is_stale_run].
  destruct (needs_rebuild _ _ _ _); [|done].
  rewrite run_bind. by destruct (invalidate_cached_data h k e s) as [[[]|] ?].
Qed.

(** The rebuild, on an entry that holds no plan. *)
Lemma fill_versioning_hash_entry_run h k rel hrel pname e s :
  entry_at k s = Some e →
  fill_versioning_hash_entry h k rel hrel (RelationGetDescr rel) pname s =
    if SPI_fnumber (RelationGetDescr hrel) pname <? 0 then
      (Err (ERR_history_lacks_period_column (RelationGetRelationName hrel) pname), s)
    else
      match fill_common_attributes (RelationGetDescr rel) (RelationGetDescr hrel) rel hrel
              (attnums_size (RelationGetDescr rel) (RelationGetDescr hrel)) ([], [], []) with
      | Err err => (Err err, s)
      | Ok (a, ha, cols) =>
          if Z.of_nat (length a) =? 0 then (Ok tt, with_entry k (set_natts 0 e) s)
          else if negb (host_SPI_prepare h =? 0) then
            (Err (ERR_SPI_prepare_returned (host_SPI_prepare h)), s)
          else
            let p := fresh (dom (spi_plans s)) in
            let s1 := set_spi_plans (<[p := insert_plan_for hrel cols ha]> (spi_plans s)) s in
            if negb (host_SPI_keepplan h =? 0) then
              (Err (ERR_SPI_keepplan_returned (host_SPI_keepplan h)), s1)
            else
              (Ok tt, with_entry k
                        (mkVersioningHashEntry (relid e) (RelationGetRelid hrel)
                           (Some (RelationGetDescr rel)) (Some (RelationGetDescr hrel))
                           (Z.of_nat (length a)) (Some a) (Some p)) s1)
      end.
Proof.
  intros Hk. unfold fill_versioning_hash_entry.
  destruct (SPI_fnumber (RelationGetDescr hrel) pname <? 0); [done|].
  rewrite run_bind. unfold lift_res.
  fold (attnums_size (RelationGetDescr rel) (RelationGetDescr hrel)).
  destruct (fill_common_attributes _ _ _ _ _ _) as [[[a ha] cols]|err]; [|done].
  destruct (Z.eqb_spec (Z.of_nat (length a)) 0) as [E|E].
  - rewrite run_bind. simpl. rewrite E. by apply write_entry_run.
  - unfold SPI_prepare, SPI_keepplan, get_state, put_state.
    destruct (Z.eqb_spec (host_SPI_prepare h) 0) as [E1|E1]; [|done].
    fold (insert_plan_for hrel cols ha).
    set (s1 := set_spi_plans (<[fresh (dom (spi_plans s)) := _]> (spi_plans s)) s).
    assert (entry_at k s1 = Some e) as Hk1 by done.
    mrun. change (set_spi_plans _ s) with s1.
    destruct (Z.eqb_spec (host_SPI_keepplan h) 0) as [E2|E2]; [|done]. mrun.
    rewrite (write_entry_run k _ e) by done. mrun.
    repeat (erewrite write_entry_run by apply entry_at_with_entry;
            rewrite with_entry_with_entry; mrun).
    done.
Qed.

Lemma execute_history_plan_run h k tuple td e s :
  entry_at k s = Some e →
  execute_history_plan h k tuple td s =
    if natts e =? 0 then (Ok tt, s)
    else match attnums e with
         | None => (Err ERR_undefined_behaviour, s)
         | Some a =>
             if Z.of_nat (length a) <? natts e then (Err ERR_undefined_behaviour, s)
             else match insert_history_plan e with
                  | None => (Err (ERR_SPI_execp_returned (-6)), s)
                  | Some p =>
                      match spi_plans s !! p with
                      | None => (Err ERR_undefined_behaviour, s)
                      | Some pl =>
                          if host_SPI_execp h =? SPI_OK_INSERT then
                            (Ok tt,
                             set_heap_rows
                               (<[plan_relid pl :=
                                    default [] (heap_rows s !! plan_relid pl) ++
                                    [mkHeapTuple (host_xid h)
                                       (inserted_values (plan_columns pl)
                                          (map (SPI_getbinval tuple td)
                                             (take (Z.to_nat (natts e)) a))
                                          (plan_tupdesc pl))]]> (heap_rows s)) s)
                          else (Err (ERR_SPI_execp_returned (host_SPI_execp h)), s)
                      end
                  end
         end.
Proof.
  intros Hk. unfold execute_history_plan.
  erewrite run_bind_ok; [|by apply read_entry_run].
  destruct (natts e =? 0); [done|]. simpl.
  destruct (attnums e) as [a|]; [|done]. rewrite run_bind. simpl.
  destruct (Z.of_nat (length a) <? natts e); [done|]. rewrite run_bind. simpl.
  rewrite run_bind. unfold SPI_execp.
  destruct (insert_history_plan e) as [p|]; [|done].
  rewrite run_bind. simpl. destruct (spi_plans s !! p) as [pl|]; [|done].
  rewrite run_bind. simpl.
  destruct (Z.eqb_spec (host_SPI_execp h) SPI_OK_INSERT) as [E|E].
  - rewrite run_bind. simpl. done.
  - simpl. by destruct (Z.eqb_spec (host_SPI_execp h) SPI_OK_INSERT).
Qed.

End CacheBlocks.

Section CommonAttributes.
Context {T : Type} `{!TimestampRep T}.

(** The relations are read by the loop only for its error messages. *)
Lemma fill_common_attributes_relations attrs : ∀ htd r1 r2 r3 r4 n acc res,
  fill_common_attributes (T:=T) attrs htd r1 r2 n acc = Ok res →
  fill_common_attributes (T:=T) attrs htd r3 r4 n acc = Ok res.
Proof.
  induction attrs as [|attr attrs IH]; intros htd r1 r2 r3 r4 n acc res; simpl; [done|].
  destruct (attisdropped attr); [by apply IH|].
  destruct (SPI_fnumber htd (attname attr) <? 0); [by apply IH|].
  destruct (TupleDescAttr htd _) as [hattr|]; [|done].
  unfold check_attr_type. destruct (_ || _); [done|].
  destruct acc as [[a ha] cols]. destruct (n <=? _); [done|]. by apply IH.
Qed.

Lemma fill_common_attributes_grows attrs : ∀ htd r1 r2 n a ha cols a' ha' cols',
  fill_common_attributes (T:=T) attrs htd r1 r2 n (a, ha, cols) = Ok (a', ha', cols') →
  (length a ≤ length a')%nat.
Proof.
  induction attrs as [|attr attrs IH]; intros htd r1 r2 n a ha cols a' ha' cols'; simpl.
  - intros. by simplify_eq.
  - destruct (attisdropped attr); [by apply IH|].
    destruct (SPI_fnumber htd (attname attr) <? 0); [by apply IH|].
    destruct (TupleDescAttr htd _) as [hattr|]; [|done].
    destruct (check_attr_type _ _ _ _) as [[]|]; [|done].
    destruct (n <=? _); [done|]. intros Hr. apply IH in Hr.
    rewrite length_app in Hr. simpl in Hr. lia.
Qed.

(** A live column that the history relation has by name is among the common
    columns. *)
Lemma fill_common_attributes_nonempty attrs : ∀ htd r1 r2 n acc a' ha' cols' attr,
  attr ∈ attrs → attisdropped attr = false →
  0 <= SPI_fnumber htd (attname attr) →
  fill_common_attributes (T:=T) attrs htd r1 r2 n acc = Ok (a', ha', cols') →
  a' ≠ [].
Proof.
  induction attrs as [|attr0 attrs IH]; intros htd r1 r2 n acc a' ha' cols' attr Hin Hlive Hh;
    simpl.
  - by apply elem_of_nil in Hin.
  - apply elem_of_cons in Hin as [<-|Hin].
    + rewrite Hlive. destruct (Z.ltb_spec (SPI_fnumber htd (attname attr)) 0); [lia|].
      destruct (TupleDescAttr htd _) as [hattr|]; [|done].
      destruct (check_attr_type _ _ _ _) as [[]|]; [|done].
      destruct acc as [[a ha] cols]. destruct (n <=? _); [done|].
      intros Hr. apply fill_common_attributes_grows in Hr.
      rewrite length_app in Hr. simpl in Hr. intros ->. simpl in Hr. lia.
    + destruct (attisdropped attr0); [by eapply IH|].
      destruct (SPI_fnumber htd (attname attr0) <? 0); [by eapply IH|].
      destruct (TupleDescAttr htd _) as [hattr|]; [|done].
      destruct (check_attr_type _ _ _ _) as [[]|]; [|done].
      destruct acc as [[a ha] cols]. destruct (n <=? _); [done|]. by eapply IH.
Qed.

Lemma SPI_fnumber_from_live td : ∀ res fname n,
  SPI_fnumber_from res td fname = Some n →
  ∃ attr, attr ∈ td ∧ attname attr = fname ∧ attisdropped attr = false ∧
          TupleDescAttr td (n - res - 1) = Some attr ∧ res < n.
Proof.
  induction td as [|attr0 td IH]; intros res fname n; simpl; [done|].
  destruct (bool_decide (attname attr0 = fname) && negb (attisdropped attr0)) eqn:E.
  - intros. simplify_eq. apply andb_true_iff in E as [E1 E2].
    apply bool_decide_eq_true_1 in E1. apply negb_true_iff in E2.
    exists attr0. split; [set_solver|]. split; [done|]. split; [done|].
    split; [|lia]. unfold TupleDescAttr.
    replace (res + 1 - res - 1) with 0 by lia. done.
  - intros Hr. destruct (IH _ _ _ Hr) as (attr & Hin & Hn & Hl & Hat & Hlt).
    exists attr. split; [set_solver|]. split; [done|]. split; [done|].
    split; [|lia]. unfold TupleDescAttr in *.
    destruct (Z.ltb_spec (n - (res + 1) - 1) 0); [done|].
    destruct (Z.ltb_spec (n - res - 1) 0); [lia|].
    replace (Z.to_nat (n - res - 1)) with (S (Z.to_nat (n - (res + 1) - 1))) by lia.
    done.
Qed.

(** A positive result of [SPI_fnumber] is the position of a live column of
    that name. *)
Lemma SPI_fnumber_positive td fname :
  0 < SPI_fnumber td fname →
  ∃ attr, attr ∈ td ∧ attname attr = fname ∧ attisdropped attr = false ∧
          TupleDescAttr td (SPI_fnumber td fname - 1) = Some attr.
Proof.
  unfold SPI_fnumber. destruct (SPI_fnumber_from 0 td fname) as [n|] eqn:E.
  - intros _. destruct (SPI_fnumber_from_live _ _ _ _ E) as (attr & ? & ? & ? & Hat & ?).
    exists attr. replace (n - 0 - 1) with (n - 1) in Hat by lia. done.
  - unfold SystemAttributeByName, SPI_ERROR_NOATTRIBUTE.
    repeat case_bool_decide; lia.
Qed.

Lemma schemas_fit_nonempty rel hrel pname a ha cols :
  schemas_fit T rel hrel pname a ha cols → a ≠ [].
Proof.
  intros (Hp & Hh & Hfill).
  destruct (SPI_fnumber_positive _ _ Hp) as (attr & Hin & Hn & Hl & _).
  eapply fill_common_attributes_nonempty; [exact Hin|exact Hl| |exact Hfill].
  by rewrite Hn.
Qed.

End CommonAttributes.

Section CacheInvariant.
Context {T : Type} `{!TimestampRep T}.
Implicit Types (s : State T) (h : Host T) (e : VersioningHashEntry).

Lemma entry_at_with_entry_cases k k' e s :
  entry_at k' (with_entry k e s) = if decide (k = k') then Some e else entry_at k' s.
Proof.
  case_decide as Hk.
  - subst. apply entry_at_with_entry.
  - by apply entry_at_with_entry_ne.
Qed.

Lemma spi_plans_with_entry k e s : spi_plans (with_entry k e s) = spi_plans s.
Proof. done. Qed.

Lemma spi_plans_set_spi_plans x s : spi_plans (set_spi_plans x s) = x.
Proof. done. Qed.

Lemma entry_at_set_spi_plans k x s : entry_at k (set_spi_plans x s) = entry_at k s.
Proof. done. Qed.

Lemma entry_valid_plans s s' e :
  (∀ p, insert_history_plan e = Some p → spi_plans s' !! p = spi_plans s !! p) →
  entry_valid s e → entry_valid s' e.
Proof.
  intros Hp (td & htd & a & ha & cols & p & pl & r1 & r2 & ? & ? & ? & ? & ? & Hplan & Hpl & ?).
  exists td, htd, a, ha, cols, p, pl, r1, r2. repeat (split; [done|]).
  split; [|done]. by rewrite Hp.
Qed.

Lemma cache_inv_initial : cache_inv (initial_state (T:=T)).
Proof. repeat split; intros; done. Qed.

(** Replacing an entry by an invalid one that keeps or drops its plan. *)
Lemma cache_inv_with_invalid k e' s :
  cache_inv s → natts e' = -1 →
  (∀ p, insert_history_plan e' = Some p →
        ∃ e, entry_at k s = Some e ∧ insert_history_plan e = Some p) →
  cache_inv (with_entry k e' s).
Proof.
  intros (Hv & Ha & Hi) Hn Hp. split; [|split].
  - intros k' e0. rewrite entry_at_with_entry_cases. case_decide; intros ? Hne; simplify_eq.
    eapply entry_valid_plans; [|by eapply Hv]. done.
  - intros k' e0 p. rewrite entry_at_with_entry_cases. case_decide; intros ? Hpl; simplify_eq.
    + destruct (Hp _ Hpl) as (e & He & Hep). by eapply Ha.
    + by eapply Ha.
  - intros k1 k2 e1 e2 p. rewrite !entry_at_with_entry_cases.
    repeat case_decide; intros ? ? Hp1 Hp2; simplify_eq; try done.
    + destruct (Hp _ Hp1) as (e & He & Hep). by eapply Hi.
    + destruct (Hp _ Hp2) as (e & He & Hep). by eapply Hi.
    + by eapply Hi.
Qed.

(** Freeing the plan of an entry that is marked invalid without a plan. *)
Lemma cache_inv_free_plan k e e' p s :
  cache_inv s → entry_at k s = Some e → insert_history_plan e = Some p →
  natts e' = -1 → insert_history_plan e' = None →
  cache_inv (with_entry k e' (set_spi_plans (delete p (spi_plans s)) s)).
Proof.
  intros (Hv & Ha & Hi) He Hep Hn Hp'. split; [|split].
  - intros k' e0. rewrite entry_at_with_entry_cases. case_decide as Hk; intros He0 Hne;
      simplify_eq.
    rewrite entry_at_set_spi_plans in He0.
    eapply entry_valid_plans; [|by eapply Hv].
    intros p0 Hp0. rewrite ?spi_plans_with_entry, ?spi_plans_set_spi_plans. apply lookup_delete_ne. intros ->.
    apply Hk. by eapply Hi.
  - intros k' e0 p0. rewrite entry_at_with_entry_cases. case_decide as Hk; intros He0 Hp0;
      simplify_eq.
    rewrite entry_at_set_spi_plans in He0.
    rewrite ?spi_plans_with_entry, ?spi_plans_set_spi_plans. rewrite lookup_delete_ne; [by eapply Ha|].
    intros ->. apply Hk. by eapply Hi.
  - intros k1 k2 e1 e2 p0. rewrite !entry_at_with_entry_cases.
    repeat case_decide; intros ? ? Hp1 Hp2; simplify_eq; try done.
    by eapply (Hi k1 k2).
Qed.

(** Saving a new plan. *)
Lemma cache_inv_alloc pl s :
  cache_inv s →
  cache_inv (set_spi_plans (<[fresh (dom (spi_plans s)) := pl]> (spi_plans s)) s).
Proof.
  intros (Hv & Ha & Hi).
  assert (∀ k e p, entry_at k s = Some e → insert_history_plan e = Some p →
                   p ≠ fresh (dom (spi_plans s))) as Hfresh.
  { intros k e p He Hp ->. apply (is_fresh (dom (spi_plans s))).
    apply elem_of_dom. by eapply Ha. }
  split; [|split].
  - intros k e He Hne. eapply entry_valid_plans; [|by eapply Hv].
    intros p Hp. rewrite ?spi_plans_set_spi_plans. apply lookup_insert_ne. intros <-. by eapply Hfresh.
  - intros k e p He Hp. rewrite ?spi_plans_set_spi_plans. rewrite lookup_insert_ne; [by eapply Ha|].
    intros <-. by eapply Hfresh.
  - exact Hi.
Qed.

(** Completing the rebuild of an entry. *)
Lemma cache_inv_rebuilt k e s hrel td a ha cols r1 r2 :
  cache_inv s → entry_at k s = Some e →
  fill_common_attributes (T:=T) td (RelationGetDescr hrel) r1 r2
    (attnums_size td (RelationGetDescr hrel)) ([], [], []) = Ok (a, ha, cols) →
  a ≠ [] →
  let p := fresh (dom (spi_plans s)) in
  cache_inv (with_entry k
               (mkVersioningHashEntry (relid e) (RelationGetRelid hrel) (Some td)
                  (Some (RelationGetDescr hrel)) (Z.of_nat (length a)) (Some a) (Some p))
               (set_spi_plans (<[p := insert_plan_for hrel cols ha]> (spi_plans s)) s)).
Proof.
  intros Hinv He Hfill Hne p. subst p. set (p := fresh (dom (spi_plans s))).
  pose proof (cache_inv_alloc (insert_plan_for hrel cols ha) s Hinv) as (Hv & Ha & Hi).
  fold p in Hv, Ha, Hi.
  destruct Hinv as (_ & Ha0 & _).
  assert (∀ k e p0, entry_at k s = Some e → insert_history_plan e = Some p0 → p0 ≠ p)
    as Hfresh.
  { intros k0 e0 p0 He0 Hp0 ->. apply (is_fresh (dom (spi_plans s))).
    apply elem_of_dom. by eapply Ha0. }
  split; [|split].
  - intros k' e0. rewrite entry_at_with_entry_cases. case_decide as Hk; intros He0 Hn0;
      simplify_eq.
    + exists td, (RelationGetDescr hrel), a, ha, cols, p, (insert_plan_for hrel cols ha), r1, r2.
      simpl. repeat (split; [done|]).
      split; [rewrite ?spi_plans_with_entry, ?spi_plans_set_spi_plans; apply lookup_insert_eq|done].
    + eapply entry_valid_plans; [|by eapply Hv]. done.
  - intros k' e0 p0. rewrite entry_at_with_entry_cases. case_decide as Hk; intros He0 Hp0;
      simplify_eq; simpl in *; simplify_eq.
    + rewrite ?spi_plans_with_entry, ?spi_plans_set_spi_plans, lookup_insert_eq. by eexists.
    + by eapply Ha.
  - intros k1 k2 e1 e2 p0. rewrite !entry_at_with_entry_cases.
    repeat case_decide; intros He1 He2 Hp1 Hp2; simplify_eq; simpl in *;
      simplify_eq; try done.
    + exfalso. by eapply (Hfresh k2 e2).
    + exfalso. by eapply (Hfresh k1 e1).
    + by eapply (Hi k1 k2).
Qed.

Lemma cache_inv_set_heap_rows x s : cache_inv s → cache_inv (set_heap_rows x s).
Proof. done. Qed.

End CacheInvariant.

Section InsertHistoryRow.
Context {T : Type} `{!TimestampRep T}.
Implicit Types (s : State T) (h : Host T) (e : VersioningHashEntry).

(** [insert_history_row] by the results of its blocks. *)
Lemma insert_history_row_unfold h tuple rel hname pname s :
  insert_history_row h tuple rel hname pname s =
    match host_relations h !! hname with
    | None => (Err (ERR_host_relation_does_not_exist hname), s)
    | Some hrel =>
        let k := RelationGetRelid rel in
        let td := RelationGetDescr rel in
        match (match entry_at k s with
               | Some _ => check_cached_data h k rel hrel s
               | None => (Ok false, with_entry k (blank_entry k) s)
               end) with
        | (Err err, sA) => (Err err, sA)
        | (Ok found, sA) =>
            if negb (host_SPI_connect h =? SPI_OK_CONNECT) then
              (Err (ERR_SPI_connect_returned (host_SPI_connect h)), sA)
            else
              match (if negb found
                     then fill_versioning_hash_entry h k rel hrel td pname sA
                     else (Ok tt, sA)) with
              | (Err err, sB) => (Err err, sB)
              | (Ok _, sB) =>
                  match execute_history_plan h k tuple td sB with
                  | (Err err, sC) => (Err err, sC)
                  | (Ok _, sC) =>
                      if negb (host_SPI_finish h =? SPI_OK_FINISH) then
                        (Err (ERR_SPI_finish_returned (host_SPI_finish h)), sC)
                      else (Ok tt, sC)
                  end
              end
        end
    end.
Proof.
  unfold insert_history_row, heap_openrv.
  destruct (host_relations h !! hname) as [hrel|]; [|done].
  rewrite run_bind. simpl. rewrite run_bind, lookup_versioning_hash_entry_run.
  assert (∀ (found : bool) sA,
    ((SPI_connect h ≫= λ r,
       (if negb (r =? SPI_OK_CONNECT)
        then ereport_ERROR (ERR_SPI_connect_returned r) else mret tt) ≫= λ _,
       (if negb found
        then fill_versioning_hash_entry h (RelationGetRelid rel) rel hrel
               (RelationGetDescr rel) pname
        else mret tt) ≫= λ _,
       execute_history_plan h (RelationGetRelid rel) tuple (RelationGetDescr rel) ≫= λ _,
       SPI_finish h ≫= λ r0,
       if negb (r0 =? SPI_OK_FINISH)
       then ereport_ERROR (ERR_SPI_finish_returned r0) else mret tt) sA) =
    (if negb (host_SPI_connect h =? SPI_OK_CONNECT) then
       (Err (ERR_SPI_connect_returned (host_SPI_connect h)), sA)
     else
       match (if negb found
              then fill_versioning_hash_entry h (RelationGetRelid rel) rel hrel
                     (RelationGetDescr rel) pname sA
              else (Ok tt, sA)) with
       | (Err err, sB) => (Err err, sB)
       | (Ok _, sB) =>
           match execute_history_plan h (RelationGetRelid rel) tuple
                   (RelationGetDescr rel) sB with
           | (Err err, sC) => (Err err, sC)
           | (Ok _, sC) =>
               if negb (host_SPI_finish h =? SPI_OK_FINISH) then
                 (Err (ERR_SPI_finish_returned (host_SPI_finish h)), sC)
               else (Ok tt, sC)
           end
       end)) as Htail.
  { intros found sA. unfold SPI_connect, SPI_finish. rewrite run_bind. simpl.
    destruct (negb (host_SPI_connect h =? SPI_OK_CONNECT)); [done|].
    rewrite run_bind. simpl. rewrite run_bind.
    destruct found; simpl.
    - rewrite run_bind.
      destruct (execute_history_plan _ _ _ _ sA) as [[[]|?] sC]; [|done].
      rewrite run_bind. simpl. by destruct (negb _).
    - destruct (fill_versioning_hash_entry _ _ _ _ _ _ sA) as [[[]|?] sB]; [|done].
      rewrite run_bind.
      destruct (execute_history_plan _ _ _ _ sB) as [[[]|?] sC]; [|done].
      rewrite run_bind. simpl. by destruct (negb _). }
  destruct (entry_at (RelationGetRelid rel) s) as [e|] eqn:Ek; simpl.
  - rewrite run_bind.
    destruct (check_cached_data _ _ _ _ s) as [[found|err] sA]; [|done].
    apply Htail.
  - rewrite run_bind. simpl. apply (Htail false).
Qed.

End InsertHistoryRow.

Section Archival.
Context {T : Type} `{!TimestampRep T}.
Implicit Types (s : State T) (h : Host T) (e : VersioningHashEntry).

Lemma needs_rebuild_rebuilt k hrel td a p :
  needs_rebuild (rebuilt_entry k hrel td a p) hrel td (RelationGetDescr hrel) = false.
Proof.
  unfold needs_rebuild, rebuilt_entry. simpl.
  rewrite bool_decide_eq_false_2 by lia.
  by rewrite !bool_decide_eq_true_2.
Qed.

(** A rebuild followed by the execution of the new plan, where the server
    and the schemas allow it. *)
Lemma rebuild_and_execute h tuple rel hrel hname pname a ha cols e0 sA :
  let k := RelationGetRelid rel in
  let td := RelationGetDescr rel in
  entry_at k sA = Some e0 → cache_inv sA →
  host_ready h hname hrel → schemas_fit T rel hrel pname a ha cols →
  ∃ sB p,
    fill_versioning_hash_entry h k rel hrel td pname sA = (Ok tt, sB) ∧
    entry_at k sB = Some (rebuilt_entry (relid e0) hrel td a p) ∧
    spi_plans sA !! p = None ∧
    spi_plans sB = <[p := insert_plan_for hrel cols ha]> (spi_plans sA) ∧
    ∃ sC,
      execute_history_plan h k tuple td sB = (Ok tt, sC) ∧ cache_inv sC ∧
      entry_at k sC = Some (rebuilt_entry (relid e0) hrel td a p) ∧
      spi_plans sC = spi_plans sB ∧
      heap_rows sC =
        <[RelationGetRelid hrel :=
            default [] (heap_rows sA !! RelationGetRelid hrel) ++
            [archived_row h tuple rel hrel a cols]]> (heap_rows sA) ∧
      same_session sA sC.
Proof.
  intros k td Hk Hinv (Hrel & Hconn & Hprep & Hkeep & Hfree & Hexec & Hfin) Hfit.
  pose proof (schemas_fit_nonempty _ _ _ _ _ _ Hfit) as Hne.
  destruct Hfit as (Hp & Hh & Hfill). fold td in Hfill.
  set (p := fresh (dom (spi_plans sA))).
  set (s1 := set_spi_plans (<[p := insert_plan_for hrel cols ha]> (spi_plans sA)) sA).
  exists (with_entry k (rebuilt_entry (relid e0) hrel td a p) s1), p.
  assert (Z.of_nat (length a) ≠ 0) as Hlen by (destruct a; simpl; [done|lia]).
  split; [|split; [|split; [|split]]].
  - unfold td. rewrite (fill_versioning_hash_entry_run h k rel hrel pname e0 sA Hk).
    destruct (Z.ltb_spec (SPI_fnumber (RelationGetDescr hrel) pname) 0); [lia|].
    fold td. rewrite Hfill.
    destruct (Z.eqb_spec (Z.of_nat (length a)) 0); [done|].
    rewrite Hprep, Hkeep. simpl. done.
  - apply entry_at_with_entry.
  - apply not_elem_of_dom. apply is_fresh.
  - done.
  - exists (set_heap_rows
              (<[RelationGetRelid hrel :=
                   default [] (heap_rows sA !! RelationGetRelid hrel) ++
                   [archived_row h tuple rel hrel a cols]]> (heap_rows sA))
              (with_entry k (rebuilt_entry (relid e0) hrel td a p) s1)).
    split; [|split; [|split; [|split; [|split]]]].
    + rewrite (execute_history_plan_run h k tuple td _ _ (entry_at_with_entry _ _ _)).
      simpl. destruct (Z.eqb_spec (Z.of_nat (length a)) 0); [done|].
      destruct (Z.ltb_spec (Z.of_nat (length a)) (Z.of_nat (length a))); [lia|].
      rewrite ?spi_plans_with_entry, ?spi_plans_set_spi_plans.
      unfold s1. rewrite ?spi_plans_with_entry, ?spi_plans_set_spi_plans.
      rewrite lookup_insert_eq. rewrite Hexec. simpl.
      unfold archived_row. by rewrite Nat2Z.id, firstn_all.
    + apply cache_inv_set_heap_rows.
      by eapply cache_inv_rebuilt.
    + apply entry_at_with_entry.
    + done.
    + done.
    + done.
Qed.

Lemma invalidated_fields e :
  natts (invalidated e) = -1 ∧ insert_history_plan (invalidated e) = insert_history_plan e ∧
  relid (invalidated e) = relid e.
Proof. done. Qed.

(** Archiving a row: where the server and the schemas allow it, the history
    relation gains exactly one row, built from the tuple's values in the
    common columns; the cache entry is valid for the live schemas
    afterwards; nothing else changes. *)
Lemma insert_history_row_archives h tuple rel hrel hname pname a ha cols s :
  cache_inv s → host_ready h hname hrel → schemas_fit T rel hrel pname a ha cols →
  ∃ s' e',
    insert_history_row h tuple rel hname pname s = (Ok tt, s') ∧ cache_inv s' ∧
    entry_at (RelationGetRelid rel) s' = Some e' ∧
    needs_rebuild e' hrel (RelationGetDescr rel) (RelationGetDescr hrel) = false ∧
    heap_rows s' =
      <[RelationGetRelid hrel :=
          default [] (heap_rows s !! RelationGetRelid hrel) ++
          [archived_row h tuple rel hrel a cols]]> (heap_rows s) ∧
    same_session s s'.
Proof.
  intros Hinv Hready Hfit.
  pose proof Hready as (Hrel & Hconn & Hprep & Hkeep & Hfree & Hexec & Hfin).
  rewrite insert_history_row_unfold, Hrel. cbv zeta.
  set (k := RelationGetRelid rel). set (td := RelationGetDescr rel).
  assert (∀ e0 sA, entry_at k sA = Some e0 → cache_inv sA →
            heap_rows sA = heap_rows s → same_session s sA →
            ∃ s' e',
              (if negb (host_SPI_connect h =? SPI_OK_CONNECT)
               then (Err (ERR_SPI_connect_returned (host_SPI_connect h)), sA)
               else
                 match fill_versioning_hash_entry h k rel hrel td pname sA with
                 | (Err err, sB) => (Err err, sB)
                 | (Ok _, sB) =>
                     match execute_history_plan h k tuple td sB with
                     | (Err err, sC) => (Err err, sC)
                     | (Ok _, sC) =>
                         if negb (host_SPI_finish h =? SPI_OK_FINISH)
                         then (Err (ERR_SPI_finish_returned (host_SPI_finish h)), sC)
                         else (Ok tt, sC)
                     end
                 end) = (Ok tt, s') ∧ cache_inv s' ∧
              entry_at k s' = Some e' ∧
              needs_rebuild e' hrel td (RelationGetDescr hrel) = false ∧
              heap_rows s' =
                <[RelationGetRelid hrel :=
                    default [] (heap_rows s !! RelationGetRelid hrel) ++
                    [archived_row h tuple rel hrel a cols]]> (heap_rows s) ∧
              same_session s s') as Hrebuild.
  { intros e0 sA HkA HinvA Hrows (Hs1 & Hs2 & Hs3 & Hs4).
    destruct (rebuild_and_execute h tuple rel hrel hname pname a ha cols e0 sA
                HkA HinvA Hready Hfit)
      as (sB & p & Hf & _ & _ & _ & sC & Hx & HinvC & HkC & _ & HrowsC & Hc1 & Hc2 & Hc3 & Hc4).
    fold k td in Hf, Hx, HkC. rewrite Hconn. simpl. rewrite Hf, Hx, Hfin. simpl. exists sC, (rebuilt_entry (relid e0) hrel td a p).
    split; [done|]. split; [done|]. split; [done|].
    split; [apply needs_rebuild_rebuilt|]. split; [by rewrite HrowsC, Hrows|].
    repeat split; congruence. }
  destruct (entry_at k s) as [e|] eqn:Ek.
  - assert (natts e ≠ -1 → is_Some (tupdesc e) ∧ is_Some (history_tupdesc e)) as Hdesc.
    { intros Hn. destruct Hinv as (Hv & _).
      destruct (Hv k e Ek Hn) as (? & ? & ? & ? & ? & ? & ? & ? & ? & -> & -> & _). eauto. }
    rewrite (check_cached_data_run h k rel hrel e s Ek Hdesc). fold td.
    destruct (needs_rebuild e hrel td (RelationGetDescr hrel)) eqn:Estale.
    + rewrite (invalidate_cached_data_run h k e s Ek).
      destruct (insert_history_plan e) as [p|] eqn:Ep.
      * rewrite Hfree. simpl.
        apply (Hrebuild (set_insert_history_plan None (invalidated e))).
        -- apply entry_at_with_entry.
        -- by eapply cache_inv_free_plan.
        -- done.
        -- done.
      * simpl. apply (Hrebuild (invalidated e)).
        -- apply entry_at_with_entry.
        -- apply cache_inv_with_invalid; [done|done|].
           intros p. by rewrite (proj1 (proj2 (invalidated_fields e))), Ep.
        -- done.
        -- done.
    + (* the cached plan is used *)
      rewrite Hconn. simpl.
      unfold needs_rebuild in Estale.
      apply orb_false_iff in Estale as [Estale Eh].
      apply orb_false_iff in Estale as [Estale Et].
      apply orb_false_iff in Estale as [En Er].
      apply bool_decide_eq_false_1 in En.
      apply negb_false_iff, bool_decide_eq_true_1 in Er, Et, Eh.
      pose proof Hinv as (Hv & _).
      destruct (Hv k e Ek En)
        as (td0 & htd0 & a0 & ha0 & cols0 & p & pl & r1 & r2 & Htd & Hhtd & Ha & Hn &
            Hne & Hp & Hpl & Hcols & Hrelid & Hptd & Hfill0).
      assert (td0 = td) as -> by congruence.
      assert (htd0 = RelationGetDescr hrel) as -> by congruence.
      destruct Hfit as (_ & _ & Hfill).
      apply (fill_common_attributes_relations _ _ _ _ rel hrel) in Hfill0.
      unfold td in Hfill0. rewrite Hfill in Hfill0.
      assert (a0 = a) as -> by congruence. assert (cols0 = cols) as -> by congruence.
      rewrite (execute_history_plan_run h k tuple td e s Ek).
      rewrite Hn, Ha, Hp, Hpl, Hexec.
      destruct (Z.eqb_spec (Z.of_nat (length a)) 0) as [E0|E0];
        [destruct a; simpl in *; [done|lia]|].
      destruct (Z.ltb_spec (Z.of_nat (length a)) (Z.of_nat (length a))); [lia|].
      simpl. rewrite Hfin. simpl.
      eexists _, e. split; [reflexivity|].
      split; [by apply cache_inv_set_heap_rows|]. split; [done|].
      split.
      { unfold needs_rebuild. rewrite (bool_decide_eq_false_2 _ En).
        by rewrite !bool_decide_eq_true_2. }
      split; [|done].
      rewrite Hrelid, Er, Hcols, Hptd, Nat2Z.id, firstn_all. done.
  - apply (Hrebuild (blank_entry k)).
    + apply entry_at_with_entry.
    + apply cache_inv_with_invalid; [done|done|]. done.
    + done.
    + done.
Qed.

End Archival.

Section CachePolicy.
Context {T : Type} `{!TimestampRep T}.
Implicit Types (s : State T) (h : Host T) (e : VersioningHashEntry).

Lemma insert_history_row_tail h tuple rel hname pname s :
  insert_history_row h tuple rel hname pname s =
    match host_relations h !! hname with
    | None => (Err (ERR_host_relation_does_not_exist hname), s)
    | Some hrel =>
        match (match entry_at (RelationGetRelid rel) s with
               | Some _ => check_cached_data h (RelationGetRelid rel) rel hrel s
               | None => (Ok false, with_entry (RelationGetRelid rel)
                                      (blank_entry (RelationGetRelid rel)) s)
               end) with
        | (Err err, sA) => (Err err, sA)
        | (Ok found, sA) => history_row_tail h tuple rel hrel pname found sA
        end
    end.
Proof. apply insert_history_row_unfold. Qed.

Lemma same_session_refl s : same_session s s.
Proof. done. Qed.

(** The outcomes of a rebuild from an entry that is marked invalid. *)
Lemma rebuild_outcome h tuple rel hrel pname e0 sA :
  let k := RelationGetRelid rel in
  let td := RelationGetDescr rel in
  let htd := RelationGetDescr hrel in
  let r := (history_row_tail h tuple rel hrel pname false sA).1 in
  let s' := (history_row_tail h tuple rel hrel pname false sA).2 in
  entry_at k sA = Some e0 → natts e0 = -1 → cache_inv sA →
  0 < SPI_fnumber td pname →
  cache_inv s' ∧ same_session sA s' ∧
  ((entry_at k s' = Some e0 ∧ ∃ err, r = Err err) ∨
   (∃ a ha cols p,
      entry_at k s' = Some (rebuilt_entry (relid e0) hrel td a p) ∧
      fill_common_attributes (T:=T) td htd rel hrel (attnums_size td htd) ([], [], [])
        = Ok (a, ha, cols) ∧
      spi_plans sA !! p = None ∧
      spi_plans s' = <[p := insert_plan_for hrel cols ha]> (spi_plans sA))) ∧
  (host_SPI_connect h = SPI_OK_CONNECT → SPI_fnumber htd pname < 0 →
   r = Err (ERR_history_lacks_period_column (RelationGetRelationName hrel) pname) ∧
   s' = sA) ∧
  (host_SPI_connect h = SPI_OK_CONNECT → 0 <= SPI_fnumber htd pname →
   ∀ err, fill_common_attributes (T:=T) td htd rel hrel (attnums_size td htd) ([], [], [])
            = Err err →
          r = Err err ∧ s' = sA).
Proof.
  intros k td htd r s' Hk Hn Hinv Hp. subst r s'. unfold history_row_tail.
  fold k td.
  destruct (Z.eqb_spec (host_SPI_connect h) SPI_OK_CONNECT) as [Hc|Hc]; simpl.
  2: { split; [done|]. split; [done|]. split; [left; eauto|]. split; intros; done. }
  unfold td. rewrite (fill_versioning_hash_entry_run h k rel hrel pname e0 sA Hk).
  fold td htd.
  destruct (Z.ltb_spec (SPI_fnumber htd pname) 0) as [Hh|Hh]; simpl.
  { split; [done|]. split; [done|]. split; [left; eauto|].
    split; [done|]. intros; lia. }
  destruct (fill_common_attributes (T:=T) td htd rel hrel (attnums_size td htd) ([], [], []))
    as [[[a ha] cols]|err] eqn:Hfill; simpl.
  2: { split; [done|]. split; [done|]. split; [left; eauto|].
       split; [intros; lia|]. intros _ _ err' Herr. by simplify_eq. }
  assert (a ≠ []) as Hne.
  { destruct (SPI_fnumber_positive _ _ Hp) as (attr & Hin & Hname & Hl & _).
    eapply fill_common_attributes_nonempty; [exact Hin|exact Hl| |exact Hfill].
    by rewrite Hname. }
  destruct (Z.eqb_spec (Z.of_nat (length a)) 0) as [E0|E0];
    [destruct a; simpl in *; [done|lia]|].
  destruct (Z.eqb_spec (host_SPI_prepare h) 0) as [Hprep|Hprep]; simpl.
  2: { split; [done|]. split; [done|]. split; [left; eauto|].
       split; [intros; lia|]. intros; done. }
  set (p := fresh (dom (spi_plans sA))).
  set (s1 := set_spi_plans (<[p := insert_plan_for hrel cols ha]> (spi_plans sA)) sA).
  destruct (Z.eqb_spec (host_SPI_keepplan h) 0) as [Hkeep|Hkeep]; simpl.
  2: { split; [by apply cache_inv_alloc|]. split; [done|]. split; [left; eauto|].
       split; [intros; lia|]. intros; done. }
  assert (cache_inv (with_entry k (rebuilt_entry (relid e0) hrel td a p) s1)) as Hinv1
    by (by eapply cache_inv_rebuilt).
  assert (spi_plans sA !! p = None) as Hfresh
    by (apply not_elem_of_dom, is_fresh).
  fold (rebuilt_entry (relid e0) hrel td a p).
  rewrite (execute_history_plan_run h k tuple td _ _ (entry_at_with_entry _ _ _)).
  simpl. destruct (Z.eqb_spec (Z.of_nat (length a)) 0); [done|].
  destruct (Z.ltb_spec (Z.of_nat (length a)) (Z.of_nat (length a))); [lia|].
  rewrite ?spi_plans_with_entry. unfold s1 at 1. rewrite ?spi_plans_set_spi_plans.
  rewrite lookup_insert_eq.
  destruct (Z.eqb_spec (host_SPI_execp h) SPI_OK_INSERT) as [Hx|Hx]; simpl.
  - destruct (negb (host_SPI_finish h =? SPI_OK_FINISH)); simpl.
    + split; [by apply cache_inv_set_heap_rows|]. split; [done|].
      split; [right; exists a, ha, cols, p; split; [apply entry_at_with_entry|done]|].
      split; [intros; lia|]. intros; done.
    + split; [by apply cache_inv_set_heap_rows|]. split; [done|].
      split; [right; exists a, ha, cols, p; split; [apply entry_at_with_entry|done]|].
      split; [intros; lia|]. intros; done.
  - split; [done|]. split; [done|].
    split; [right; exists a, ha, cols, p; split; [apply entry_at_with_entry|done]|].
    split; [intros; lia|]. intros; done.
Qed.

End CachePolicy.

Section CachePolicyClaim.
Context {T : Type} `{!TimestampRep T}.
Implicit Types (s : State T) (h : Host T) (e : VersioningHashEntry).

Lemma needs_rebuild_invalid e hrel td htd :
  natts e = -1 → needs_rebuild e hrel td htd = true.
Proof. intros Hn. unfold needs_rebuild. by rewrite bool_decide_eq_true_2. Qed.

Lemma cache_policy_outcome h tuple rel hrel hname pname s :
  let k := RelationGetRelid rel in
  let td := RelationGetDescr rel in
  let htd := RelationGetDescr hrel in
  let r := (insert_history_row h tuple rel hname pname s).1 in
  let s' := (insert_history_row h tuple rel hname pname s).2 in
  cache_inv s → host_relations h !! hname = Some hrel →
  0 < SPI_fnumber td pname →
  cache_inv s' ∧ same_session s s' ∧
  (rebuild_due k hrel td htd s = false →
   versioning_cache s' = versioning_cache s ∧ spi_plans s' = spi_plans s) ∧
  (rebuild_due k hrel td htd s = true → discarded_or_rebuilt h rel hrel r s s') ∧
  (rebuild_due k hrel td htd s = true →
   host_SPI_connect h = SPI_OK_CONNECT → host_SPI_freeplan h = 0 →
   (SPI_fnumber htd pname < 0 ∨
    ∃ err, fill_common_attributes (T:=T) td htd rel hrel (attnums_size td htd) ([], [], [])
             = Err err) →
   (∃ e', entry_at k s' = Some e' ∧ natts e' = -1) ∧
   r = if SPI_fnumber htd pname <? 0
       then Err (ERR_history_lacks_period_column (RelationGetRelationName hrel) pname)
       else match fill_common_attributes (T:=T) td htd rel hrel
                    (attnums_size td htd) ([], [], []) with
            | Err err => Err err
            | Ok _ => Ok tt
            end).
Proof.
  intros k td htd r s' Hinv Hrel Hp. subst r s'.
  rewrite insert_history_row_tail, Hrel. fold k td.
  (* the rebuild from an invalid entry [e0] in a state [sA] *)
  assert (∀ e0 sA,
    entry_at k sA = Some e0 → natts e0 = -1 → tupdesc e0 = None →
    history_tupdesc e0 = None → attnums e0 = None →
    insert_history_plan e0 = None →
    cache_inv sA → same_session s sA →
    (∀ e p0, entry_at k s = Some e → insert_history_plan e = Some p0 →
             spi_plans sA !! p0 = None) →
    (∀ p0, spi_plans s !! p0 = None → spi_plans sA !! p0 = None) →
    let r := (history_row_tail h tuple rel hrel pname false sA).1 in
    let s' := (history_row_tail h tuple rel hrel pname false sA).2 in
    cache_inv s' ∧ same_session s s' ∧ discarded_or_rebuilt h rel hrel r s s' ∧
    (host_SPI_connect h = SPI_OK_CONNECT → host_SPI_freeplan h = 0 →
     (SPI_fnumber htd pname < 0 ∨
      ∃ err, fill_common_attributes (T:=T) td htd rel hrel (attnums_size td htd)
               ([], [], []) = Err err) →
     (∃ e', entry_at k s' = Some e' ∧ natts e' = -1) ∧
     r = if SPI_fnumber htd pname <? 0
         then Err (ERR_history_lacks_period_column (RelationGetRelationName hrel) pname)
         else match fill_common_attributes (T:=T) td htd rel hrel
                      (attnums_size td htd) ([], [], []) with
              | Err err => Err err
              | Ok _ => Ok tt
              end)) as Hrebuild.
  { intros e0 sA HkA Hn Htd Hhtd Hat Hplan HinvA Hsess Hfreed Hnone.
    destruct (rebuild_outcome h tuple rel hrel pname e0 sA HkA Hn HinvA Hp)
      as (Hinv' & Hsess' & Hcase & Hlack & Hmis).
    fold k td htd in Hinv', Hsess', Hcase, Hlack, Hmis.
    cbv zeta. split; [done|]. split.
    { destruct Hsess as (? & ? & ? & ?), Hsess' as (? & ? & ? & ?).
      repeat split; congruence. }
    split.
    - destruct Hcase as [(He' & err & Herr)|(a & ha & cols & p & He' & Hfill & Hfresh & Hplans)].
      + exists e0. split; [done|]. left. repeat (split; [done|]). by exists err.
      + exists (rebuilt_entry (relid e0) hrel td a p). split; [done|]. right.
        split; [apply needs_rebuild_rebuilt|].
        exists a, ha, cols, p. repeat (split; [done|]).
        split; [by rewrite Hplans, lookup_insert_eq|].
        intros e p0 He Hp0 Hne. rewrite Hplans, lookup_insert_ne by done.
        by eapply Hfreed.
    - intros Hc Hf Herr.
      destruct (Z.ltb_spec (SPI_fnumber htd pname) 0) as [Hh|Hh].
      + destruct (Hlack Hc Hh) as (-> & ->). split; [by exists e0|done].
      + destruct Herr as [?|(err & Herr)]; [lia|].
        destruct (Hmis Hc Hh err Herr) as (-> & ->). rewrite Herr.
        split; [by exists e0|done]. }
  unfold rebuild_due.
  destruct (entry_at k s) as [e|] eqn:Ek.
  - assert (natts e ≠ -1 → is_Some (tupdesc e) ∧ is_Some (history_tupdesc e)) as Hdesc.
    { intros Hn. destruct Hinv as (Hv & _).
      destruct (Hv k e Ek Hn) as (? & ? & ? & ? & ? & ? & ? & ? & ? & -> & -> & _). eauto. }
    rewrite (check_cached_data_run h k rel hrel e s Ek Hdesc). fold td htd.
    destruct (needs_rebuild e hrel td htd) eqn:Estale.
    + rewrite (invalidate_cached_data_run h k e s Ek).
      destruct (insert_history_plan e) as [p|] eqn:Ep.
      * destruct (Z.eqb_spec (host_SPI_freeplan h) 0) as [Hf|Hf]; simpl.
        -- set (e0 := set_insert_history_plan None (invalidated e)).
           set (sA := with_entry k e0 (set_spi_plans (delete p (spi_plans s)) s)).
           assert (entry_at k sA = Some e0) as HA1 by apply entry_at_with_entry.
           assert (cache_inv sA) as HA2 by (by eapply cache_inv_free_plan).
           assert (∀ e1 p0, Some e = Some e1 → insert_history_plan e1 = Some p0 →
                            spi_plans sA !! p0 = None) as HA3.
           { intros e1 p0 He1 Hp0. simplify_eq. unfold sA.
             rewrite ?spi_plans_with_entry, ?spi_plans_set_spi_plans.
             apply lookup_delete_eq. }
           assert (∀ p0, spi_plans s !! p0 = None → spi_plans sA !! p0 = None) as HA4.
           { intros p0 Hp0. unfold sA.
             rewrite ?spi_plans_with_entry, ?spi_plans_set_spi_plans.
             apply lookup_delete_None. by right. }
           destruct (Hrebuild e0 sA HA1 eq_refl eq_refl eq_refl eq_refl eq_refl HA2
                       (same_session_refl s) HA3 HA4) as (H1 & H2 & H3 & H4).
           split; [done|]. split; [done|]. split; [done|]. split; [done|].
           intros _ Hc Hf' Herr. by apply H4.
        -- split.
           { apply cache_inv_with_invalid; [done|done|].
             intros p0 Hp0. exists e. split; [done|].
             by rewrite (proj1 (proj2 (invalidated_fields e))) in Hp0. }
           split; [done|]. split; [done|]. split.
           { intros _. exists (invalidated e). split; [apply entry_at_with_entry|].
             left. repeat (split; [done|]).
             by exists (ERR_SPI_freeplan_returned (host_SPI_freeplan h)). }
           intros _ _ Hf'. done.
      * simpl. set (sA := with_entry k (invalidated e) s).
        assert (entry_at k sA = Some (invalidated e)) as HA1 by apply entry_at_with_entry.
        assert (cache_inv sA) as HA2.
        { apply cache_inv_with_invalid; [done|done|].
          intros p. by rewrite (proj1 (proj2 (invalidated_fields e))), Ep. }
        assert (∀ e1 p0, Some e = Some e1 → insert_history_plan e1 = Some p0 →
                         spi_plans sA !! p0 = None) as HA3.
        { intros e1 p0 He1 Hp0. simplify_eq. }
        assert (∀ p0, spi_plans s !! p0 = None → spi_plans sA !! p0 = None) as HA4 by done.
        destruct (Hrebuild (invalidated e) sA HA1 eq_refl eq_refl eq_refl eq_refl Ep HA2
                    (same_session_refl s) HA3 HA4) as (H1 & H2 & H3 & H4).
        split; [done|]. split; [done|]. split; [done|]. split; [done|].
        intros _ Hc Hf' Herr. by apply H4.
    + (* the cached entry is used *)
      unfold history_row_tail. fold k td.
      destruct (negb (host_SPI_connect h =? SPI_OK_CONNECT)); simpl.
      { split; [done|]. split; [done|]. split; [done|]. split; intros; done. }
      rewrite (execute_history_plan_run h k tuple td e s Ek).
      destruct (natts e =? 0); simpl.
      { destruct (negb (host_SPI_finish h =? SPI_OK_FINISH)); simpl;
          (split; [done|]; split; [done|]; split; [done|]; split; intros; done). }
      destruct (attnums e) as [a|]; simpl;
        [|split; [done|]; split; [done|]; split; [done|]; split; intros; done].
      destruct (Z.of_nat (length a) <? natts e); simpl;
        [split; [done|]; split; [done|]; split; [done|]; split; intros; done|].
      destruct (insert_history_plan e) as [p|]; simpl;
        [|split; [done|]; split; [done|]; split; [done|]; split; intros; done].
      destruct (spi_plans s !! p) as [pl|]; simpl;
        [|split; [done|]; split; [done|]; split; [done|]; split; intros; done].
      destruct (host_SPI_execp h =? SPI_OK_INSERT); simpl;
        [|split; [done|]; split; [done|]; split; [done|]; split; intros; done].
      destruct (negb (host_SPI_finish h =? SPI_OK_FINISH)); simpl;
        (split; [by apply cache_inv_set_heap_rows|]; split; [done|]; split; [done|];
         split; intros; done).
  - set (sA := with_entry k (blank_entry k) s).
    assert (entry_at k sA = Some (blank_entry k)) as HA1 by apply entry_at_with_entry.
    assert (cache_inv sA) as HA2 by (apply cache_inv_with_invalid; done).
    assert (∀ (e1 : VersioningHashEntry) p0,
              None = Some e1 → insert_history_plan e1 = Some p0 →
              spi_plans sA !! p0 = None) as HA3.
    { intros e1 p0 He1 Hp0. simplify_eq. }
    assert (∀ p0, spi_plans s !! p0 = None → spi_plans sA !! p0 = None) as HA4 by done.
    destruct (Hrebuild (blank_entry k) sA HA1 eq_refl eq_refl eq_refl eq_refl eq_refl HA2
                (same_session_refl s) HA3 HA4) as (H1 & H2 & H3 & H4).
    split; [done|]. split; [done|]. split; [done|]. split; [done|].
    intros _ Hc Hf' Herr. by apply H4.
Qed.

End CachePolicyClaim.

Section CacheClaim.
Context {T : Type} `{!TimestampRep T}.
Implicit Types (s : State T) (h : Host T) (e : VersioningHashEntry).

(** C5.  The metadata cache entry of a versioned relation, in a call of
    insert_history_row that finds the history relation, from a state that
    satisfies the invariant of the cache.  The invariant holds again
    afterwards, whatever the outcome.  The entry is rebuilt exactly when
    the specification says so: when it is not due (present, not marked
    invalid, cached history relation and both cached descriptors equal to
    the live ones) the cache and the saved plans are left as they are and
    the cached plan is used; when it is due (missing, marked invalid, or
    one of these differs) the entry is first marked invalid with its
    descriptors, column mapping and plan discarded, and afterwards it is
    either still invalid, the call having failed, or a complete entry for
    the live schemas with a newly prepared plan.  If the history relation
    lacks the period column, or a common column has another type there, the
    call fails with that error and the entry stays invalid.  An entry that is
    marked invalid is due again at the next call, and that call rebuilds it
    whenever the server and the schemas then allow it. *)
Theorem metadata_cache_rebuild :
  ∀ h (tuple : HeapTupleData T) rel hrel hname pname s,
    let k := RelationGetRelid rel in
    let td := RelationGetDescr rel in
    let htd := RelationGetDescr hrel in
    let r := (insert_history_row h tuple rel hname pname s).1 in
    let s' := (insert_history_row h tuple rel hname pname s).2 in
    cache_inv s → host_relations h !! hname = Some hrel →
    0 < SPI_fnumber td pname →
    cache_inv s' ∧
    (rebuild_due k hrel td htd s = false →
     versioning_cache s' = versioning_cache s ∧ spi_plans s' = spi_plans s) ∧
    (rebuild_due k hrel td htd s = true → discarded_or_rebuilt h rel hrel r s s') ∧
    (rebuild_due k hrel td htd s = true →
     host_SPI_connect h = SPI_OK_CONNECT → host_SPI_freeplan h = 0 →
     (SPI_fnumber htd pname < 0 ∨
      ∃ err, fill_common_attributes (T:=T) td htd rel hrel (attnums_size td htd)
               ([], [], []) = Err err) →
     (∃ e', entry_at k s' = Some e' ∧ natts e' = -1) ∧
     r = if SPI_fnumber htd pname <? 0
         then Err (ERR_history_lacks_period_column (RelationGetRelationName hrel) pname)
         else match fill_common_attributes (T:=T) td htd rel hrel
                      (attnums_size td htd) ([], [], []) with
              | Err err => Err err
              | Ok _ => Ok tt
              end) ∧
    (∀ e hrel2 td2 htd2, natts e = -1 → needs_rebuild e hrel2 td2 htd2 = true) ∧
    (∀ h2 (tuple2 : HeapTupleData T) hrel2 a ha cols,
       host_ready h2 hname hrel2 → schemas_fit T rel hrel2 pname a ha cols →
       ∃ s'' e'',
         insert_history_row h2 tuple2 rel hname pname s' = (Ok tt, s'') ∧
         entry_at k s'' = Some e'' ∧
         needs_rebuild e'' hrel2 td (RelationGetDescr hrel2) = false).
Proof.
  intros h tuple rel hrel hname pname s k td htd r s' Hinv Hrel Hp.
  destruct (cache_policy_outcome h tuple rel hrel hname pname s Hinv Hrel Hp)
    as (Hinv' & _ & Hkeep & Hdue & Herr).
  fold k td htd r s' in Hinv', Hkeep, Hdue, Herr.
  split; [done|]. split; [done|]. split; [done|]. split; [done|].
  split; [intros; by apply needs_rebuild_invalid|].
  intros h2 tuple2 hrel2 a ha cols Hready Hfit.
  destruct (insert_history_row_archives h2 tuple2 rel hrel2 hname pname a ha cols s'
              Hinv' Hready Hfit) as (s'' & e'' & Hrun & _ & He'' & Hvalid & _).
  by exists s'', e''.
Qed.

End CacheClaim.

(** The first archival on the sample installation. *)
Lemma metadata_cache_rebuild_witness :
  let tuple := mkHeapTuple 7 (sample_row 1 "a" (Some (RangeValue (Some (100, true))
                                                       (Some (200, false))))) in
  let s' := (insert_history_row (sample_host 11 200) tuple sample_relation
               "r_hist" "valid_time" initial_state).2 in
  cache_inv (initial_state (T:=Z)) ∧
  host_relations (sample_host 11 200) !! "r_hist" = Some sample_history ∧
  0 < SPI_fnumber (RelationGetDescr sample_relation) "valid_time" ∧
  cache_inv s'.
Proof.
  intros tuple s'.
  assert (0 < SPI_fnumber (RelationGetDescr sample_relation) "valid_time") as Hp
    by (by vm_compute).
  split; [apply cache_inv_initial|]. split; [reflexivity|]. split; [exact Hp|].
  exact (proj1 (metadata_cache_rebuild (sample_host 11 200) tuple sample_relation
                  sample_history "r_hist" "valid_time" initial_state
                  cache_inv_initial eq_refl Hp)).
Defined.

Section TriggerPaths.
Context {T : Type} `{!TimestampRep T}.
Implicit Types (s : State T) (h : Host T) (e : VersioningHashEntry).

Lemma period_column_in_range h rel pname n typcache :
  period_column_ok h rel pname n typcache →
  0 < n ∧ n <= tupdesc_natts (RelationGetDescr rel).
Proof.
  intros (_ & Hn & attr & ty & Hattr & _). split; [done|].
  unfold TupleDescAttr in Hattr. destruct (n - 1 <? 0); [done|].
  apply lookup_lt_Some in Hattr. unfold tupdesc_natts. lia.
Qed.

Lemma modify_tuple_run rel tuple n range s :
  0 < n → n <= tupdesc_natts (RelationGetDescr rel) →
  modify_tuple rel tuple n range s =
    (Ok (with_period (RelationGetDescr rel) n range tuple), s).
Proof.
  intros H1 H2. unfold modify_tuple, heap_modify_tuple_by_cols.
  destruct (Z.leb_spec n 0); [lia|].
  destruct (Z.ltb_spec (tupdesc_natts (RelationGetDescr rel)) n); [lia|]. done.
Qed.

(** The tuple with the period set agrees with the tuple on every other
    column and holds the range in the period column. *)
Lemma with_period_other td n range (tuple : HeapTupleData T) j :
  0 < n → 0 < j → j ≠ n →
  SPI_getbinval (with_period td n range tuple) td j = SPI_getbinval tuple td j.
Proof.
  intros Hn Hj Hne. unfold SPI_getbinval, with_period. simpl.
  destruct (Z.ltb_spec (tupdesc_natts td) j) as [|Hle]; [done|].
  destruct (Z.eqb_spec j 0); [lia|].
  destruct (Z.leb_spec j FirstLowInvalidHeapAttributeNumber);
    [unfold FirstLowInvalidHeapAttributeNumber in *; lia|].
  destruct (Z.ltb_spec j 0); [lia|]. simpl.
  rewrite list_lookup_insert_ne by lia.
  unfold tupdesc_natts in Hle.
  destruct (decide (Z.to_nat (j - 1) < length (t_values tuple))%nat) as [Hlt|Hge].
  - rewrite lookup_resize by lia. done.
  - rewrite lookup_resize_new by lia.
    by rewrite (lookup_ge_None_2 (t_values tuple)) by lia.
Qed.

Lemma with_period_period td n range (tuple : HeapTupleData T) :
  0 < n → n <= tupdesc_natts td →
  SPI_getbinval (with_period td n range tuple) td n = Some (DatumRange range).
Proof.
  intros H1 H2. unfold SPI_getbinval, with_period. simpl.
  destruct (Z.ltb_spec (tupdesc_natts td) n); [lia|].
  destruct (Z.eqb_spec n 0); [lia|].
  destruct (Z.leb_spec n FirstLowInvalidHeapAttributeNumber);
    [unfold FirstLowInvalidHeapAttributeNumber in *; lia|].
  destruct (Z.ltb_spec n 0); [lia|]. simpl.
  unfold tupdesc_natts in H2.
  rewrite list_lookup_insert_eq; [done|]. rewrite length_resize. lia.
Qed.

(** [make_range] of a stored lower bound and a closing bound above it, and
    of a finite inclusive lower bound without upper bound. *)
Lemma make_range_closed lb u (b : bool) :
  lower_bound_below lb u →
  make_range (stored_lower_bound lb) (mkRangeBound u false false b) false =
    Some (RangeValue lb (Some (u, false))).
Proof.
  unfold make_range, range_serialize, range_cmp_bound_values, timestamp_cmp.
  destruct lb as [[v incl]|]; simpl; [|done].
  intros ->. simpl. done.
Qed.

Lemma make_range_open v junk (b1 : bool) :
  make_range (mkRangeBound v false true b1) (mkRangeBound junk true false false) false =
    Some (RangeValue (Some (v, true)) None).
Proof. done. Qed.

Lemma get_system_time_M_run h s now :
  system_time_is h s now → get_system_time_M h s = (Ok now, s).
Proof.
  unfold system_time_is, get_system_time_M. intros Hnow.
  rewrite run_bind. simpl. by rewrite Hnow.
Qed.

(** The checks of the trigger function pass and it dispatches on the
    operation. *)
Lemma versioning_dispatch h (trigdata : TriggerData T) pname hname adj n typcache s :
  TRIGGER_FIRED_BEFORE (tg_event trigdata) = true →
  TRIGGER_FIRED_FOR_ROW (tg_event trigdata) = true →
  TRIGGER_FIRED_BY_INSERT (tg_event trigdata)
    || TRIGGER_FIRED_BY_UPDATE (tg_event trigdata)
    || TRIGGER_FIRED_BY_DELETE (tg_event trigdata) = true →
  tg_trigger trigdata = mkTrigger 3 [pname; hname; adj] →
  period_column_ok h (tg_relation trigdata) pname n typcache →
  versioning h (TriggerDataNode trigdata) s =
    if TRIGGER_FIRED_BY_INSERT (tg_event trigdata) then
      versioning_insert h trigdata typcache n s
    else if TRIGGER_FIRED_BY_UPDATE (tg_event trigdata) then
      versioning_update h trigdata typcache n pname hname adj s
    else versioning_delete h trigdata typcache n pname hname adj s.
Proof.
  intros Hb Hr Hop Htrig Hcol. unfold versioning. rewrite Hb, Hr. simpl.
  replace (negb (TRIGGER_FIRED_BY_INSERT (tg_event trigdata))
           && negb (TRIGGER_FIRED_BY_UPDATE (tg_event trigdata))
           && negb (TRIGGER_FIRED_BY_DELETE (tg_event trigdata))) with false
    by (by destruct (TRIGGER_FIRED_BY_INSERT _), (TRIGGER_FIRED_BY_UPDATE _),
                    (TRIGGER_FIRED_BY_DELETE _)).
  rewrite Htrig. simpl. rewrite run_bind. simpl.
  pose proof Hcol as (Hn & Hpos & attr & ty & Hattr & Hdims & Hty & Htt & Helem & Htc).
  rewrite Hn. destruct (Z.eqb_spec n SPI_ERROR_NOATTRIBUTE) as [E|_];
    [unfold SPI_ERROR_NOATTRIBUTE in E; lia|].
  rewrite Hattr. rewrite run_bind. simpl.
  assert (attisdropped attr = false) as ->.
  { rewrite <- Hn in Hpos. destruct (SPI_fnumber_positive _ _ Hpos) as (attr' & _ & _ & Hl & Hat).
    rewrite Hn in Hat. by simplify_eq. }
  rewrite Hdims. simpl. rewrite run_bind.
  unfold get_period_typcache. rewrite Hty, Htt. simpl. rewrite Helem. simpl.
  rewrite <- Htc.
  destruct (TRIGGER_FIRED_BY_INSERT _); [done|].
  rewrite run_bind. simpl. rewrite run_bind. simpl.
  by destruct (TRIGGER_FIRED_BY_UPDATE _).
Qed.

Lemma versioning_insert_run h (trigdata : TriggerData T) typcache n tuple now s :
  tg_trigtuple trigdata = Some tuple → system_time_is h s now →
  0 < n → n <= tupdesc_natts (RelationGetDescr (tg_relation trigdata)) →
  versioning_insert h trigdata typcache n s =
    (Ok (Some (with_period (RelationGetDescr (tg_relation trigdata)) n
                 (RangeValue (Some (now, true)) None) tuple)), s).
Proof.
  intros Htup Hnow H1 H2. unfold versioning_insert.
  erewrite run_bind_ok; [|by apply get_system_time_M_run].
  unfold make_range_M. rewrite make_range_open. rewrite run_bind. simpl.
  rewrite Htup. rewrite run_bind. simpl. rewrite run_bind.
  rewrite modify_tuple_run by done. done.
Qed.

(** The skip of rows modified in the current transaction. *)
Lemma versioning_update_skip h (trigdata : TriggerData T) typcache n pname hname adj tuple s :
  tg_trigtuple trigdata = Some tuple →
  modified_in_current_transaction h tuple = true →
  versioning_update h trigdata typcache n pname hname adj s =
    (Ok (tg_newtuple trigdata), s).
Proof.
  intros Htup Hmod. unfold versioning_update. rewrite Htup, run_bind. simpl.
  by rewrite Hmod.
Qed.

Lemma versioning_delete_skip h (trigdata : TriggerData T) typcache n pname hname adj tuple s :
  tg_trigtuple trigdata = Some tuple →
  modified_in_current_transaction h tuple = true →
  versioning_delete h trigdata typcache n pname hname adj s = (Ok (Some tuple), s).
Proof.
  intros Htup Hmod. unfold versioning_delete. rewrite Htup, run_bind. simpl.
  by rewrite Hmod.
Qed.

End TriggerPaths.

Section ArchivalPath.
Context {T : Type} `{!TimestampRep T}.
Implicit Types (s : State T) (h : Host T) (e : VersioningHashEntry).

Lemma deserialize_system_period_run (tuple : HeapTupleData T) rel n pname typcache lb s :
  SPI_getbinval tuple (RelationGetDescr rel) n = Some (DatumRange (RangeValue lb None)) →
  deserialize_system_period tuple rel n pname typcache s =
    (Ok (stored_lower_bound lb, mkRangeBound (ts_of_int64 0) true false false), s).
Proof.
  intros Hst. unfold deserialize_system_period. rewrite Hst. rewrite run_bind. simpl.
  by destruct lb as [[? ?]|].
Qed.

(** The comparison that [adjust_system_period] makes. *)
Lemma range_cmp_bounds_closing (lb : option (T * bool)) u :
  range_cmp_bounds (stored_lower_bound lb) (closing_bound u) =
    match lb with
    | None => -1
    | Some (v, _) => match timestamp_cmp_internal v u with Lt => -1 | _ => 1 end
    end.
Proof.
  unfold range_cmp_bounds, timestamp_cmp. destruct lb as [[v incl]|]; simpl; [|done].
  destruct (timestamp_cmp_internal v u); simpl; try done. by destruct incl.
Qed.

Lemma adjust_system_period_no_conflict typcache lb u adj rel s :
  lower_bound_below lb u →
  adjust_system_period typcache (stored_lower_bound lb) (closing_bound u) adj rel s =
    (Ok (closing_bound u), s).
Proof.
  intros Hlt. unfold adjust_system_period. rewrite range_cmp_bounds_closing.
  destruct lb as [[v incl]|]; simpl in *; [by rewrite Hlt|done].
Qed.

(** On a conflict: the error when adjust is false, and the warning followed
    by the successor of the lower bound when it is true. *)
Lemma adjust_system_period_conflict typcache v incl u adj rel s :
  timestamp_cmp_internal v u ≠ Lt →
  adjust_system_period typcache (stored_lower_bound (Some (v, incl))) (closing_bound u)
      adj rel s =
    if bool_decide (folded adj = folded "true") then
      match next_timestamp v
              (set_notices (notices s ++
                 [WARNING_system_period_adjusted (RelationGetRelationName rel)]) s) with
      | (Ok next_ts, s') => (Ok (closing_bound next_ts), s')
      | (Err err, s') => (Err err, s')
      end
    else if bool_decide (folded adj = folded "false") then
      (Err (ERR_period_conflict (RelationGetRelationName rel) (Some v) u), s)
    else (Err (ERR_invalid_adjust_value adj), s).
Proof.
  intros Hge. unfold adjust_system_period. rewrite range_cmp_bounds_closing.
  assert ((0 <=? match timestamp_cmp_internal v u with Lt => -1 | _ => 1 end) = true) as ->
    by (by destruct (timestamp_cmp_internal v u)).
  rewrite run_bind, parse_adjust_argument_spec.
  case_bool_decide; simpl.
  - rewrite run_bind. simpl. rewrite run_bind. simpl. rewrite run_bind.
    by destruct (next_timestamp v _) as [[?|?] ?].
  - by case_bool_decide.
Qed.

(** The archival path of an update, after the adjustment left the closing
    bound [u] above the stored lower bound. *)
Lemma versioning_update_archival h (trigdata : TriggerData T) typcache n pname hname adj
    old new lb now u s s1 :
  let rel := tg_relation trigdata in
  let td := RelationGetDescr rel in
  tg_trigtuple trigdata = Some old → tg_newtuple trigdata = Some new →
  modified_in_current_transaction h old = false →
  SPI_getbinval old td n = Some (DatumRange (RangeValue lb None)) →
  system_time_is h s now → 0 < n → n <= tupdesc_natts td →
  adjust_system_period typcache (stored_lower_bound lb) (closing_bound now) adj rel s =
    (Ok (closing_bound u), s1) →
  lower_bound_below lb u →
  versioning_update h trigdata typcache n pname hname adj s =
    match insert_history_row h (with_period td n (RangeValue lb (Some (u, false))) old)
            rel hname pname s1 with
    | (Ok _, s2) => (Ok (Some (with_period td n (RangeValue (Some (u, true)) None) new)), s2)
    | (Err err, s2) => (Err err, s2)
    end.
Proof.
  intros rel td Hold Hnew Hmod Hst Hnow H1 H2 Hadj Hlt.
  unfold versioning_update. rewrite Hold, run_bind. simpl. rewrite Hmod.
  fold rel. rewrite run_bind.
  rewrite (deserialize_system_period_run old rel n pname typcache lb s Hst).
  erewrite run_bind_ok; [|by apply get_system_time_M_run].
  change (mkRangeBound now false false
            (lower (mkRangeBound (ts_of_int64 0) true false false)))
    with (closing_bound now).
  rewrite (run_bind_ok _ _ _ _ _ Hadj), run_bind. unfold make_range_M at 1.
  unfold closing_bound at 1. rewrite (make_range_closed lb u false Hlt).
  simpl. rewrite run_bind.
  rewrite modify_tuple_run by done. fold td. rewrite run_bind.
  destruct (insert_history_row _ _ _ _ _ s1) as [[[]|err] s2]; [|done].
  rewrite run_bind. simpl. rewrite Hnew. rewrite run_bind. simpl. rewrite run_bind.
  rewrite modify_tuple_run by done. done.
Qed.

(** The archival path of a delete. *)
Lemma versioning_delete_archival h (trigdata : TriggerData T) typcache n pname hname adj
    old lb now u s s1 :
  let rel := tg_relation trigdata in
  let td := RelationGetDescr rel in
  tg_trigtuple trigdata = Some old →
  modified_in_current_transaction h old = false →
  SPI_getbinval old td n = Some (DatumRange (RangeValue lb None)) →
  system_time_is h s now → 0 < n → n <= tupdesc_natts td →
  adjust_system_period typcache (stored_lower_bound lb) (closing_bound now) adj rel s =
    (Ok (closing_bound u), s1) →
  lower_bound_below lb u →
  versioning_delete h trigdata typcache n pname hname adj s =
    match insert_history_row h (with_period td n (RangeValue lb (Some (u, false))) old)
            rel hname pname s1 with
    | (Ok _, s2) => (Ok (Some old), s2)
    | (Err err, s2) => (Err err, s2)
    end.
Proof.
  intros rel td Hold Hmod Hst Hnow H1 H2 Hadj Hlt.
  unfold versioning_delete. rewrite Hold, run_bind. simpl. rewrite Hmod.
  fold rel. rewrite run_bind.
  rewrite (deserialize_system_period_run old rel n pname typcache lb s Hst).
  erewrite run_bind_ok; [|by apply get_system_time_M_run].
  change (mkRangeBound now false false
            (lower (mkRangeBound (ts_of_int64 0) true false false)))
    with (closing_bound now).
  rewrite (run_bind_ok _ _ _ _ _ Hadj), run_bind. unfold make_range_M at 1.
  unfold closing_bound at 1. rewrite (make_range_closed lb u false Hlt).
  simpl. rewrite run_bind.
  rewrite modify_tuple_run by done. fold td. rewrite run_bind.
  by destruct (insert_history_row _ _ _ _ _ s1) as [[[]|err] s2].
Qed.

(** A failure of the adjustment stops the update and the delete there. *)
Lemma versioning_update_adjust_error h (trigdata : TriggerData T) typcache n pname hname adj
    old lb now err s s1 :
  let rel := tg_relation trigdata in
  let td := RelationGetDescr rel in
  tg_trigtuple trigdata = Some old →
  modified_in_current_transaction h old = false →
  SPI_getbinval old td n = Some (DatumRange (RangeValue lb None)) →
  system_time_is h s now →
  adjust_system_period typcache (stored_lower_bound lb) (closing_bound now) adj rel s =
    (Err err, s1) →
  (versioning_update h trigdata typcache n pname hname adj s = (Err err, s1)) ∧
  versioning_delete h trigdata typcache n pname hname adj s = (Err err, s1).
Proof.
  intros rel td Hold Hmod Hst Hnow Hadj.
  unfold versioning_update, versioning_delete. rewrite Hold, !run_bind. simpl. rewrite Hmod.
  fold rel. rewrite !run_bind.
  rewrite (deserialize_system_period_run old rel n pname typcache lb s Hst).
  rewrite !run_bind.
  rewrite (get_system_time_M_run h s now Hnow).
  change (mkRangeBound now false false
            (lower (mkRangeBound (ts_of_int64 0) true false false)))
    with (closing_bound now).
  rewrite !run_bind, Hadj. done.
Qed.

End ArchivalPath.

Section Operations.
Context {T : Type} `{!TimestampRep T}.
Implicit Types (s : State T) (h : Host T) (e : VersioningHashEntry).

Lemma cache_inv_ext s s' :
  versioning_cache s' = versioning_cache s → spi_plans s' = spi_plans s →
  cache_inv s → cache_inv s'.
Proof.
  intros Hc Hp (H1 & H2 & H3).
  assert (∀ k, entry_at k s' = entry_at k s) as Hk
    by (intros k; unfold entry_at; by rewrite Hc).
  split; [|split].
  - intros k e He Hn. rewrite Hk in He.
    destruct (H1 k e He Hn) as (td & htd & a & ha & cols & p & pl & r1 & r2 & Hv).
    exists td, htd, a, ha, cols, p, pl, r1, r2. by rewrite Hp.
  - intros k e p He. rewrite Hk in He. rewrite Hp. by apply (H2 k).
  - intros k1 k2 e1 e2 p. rewrite !Hk. apply H3.
Qed.

Lemma cache_inv_after_adjustment rel s : cache_inv s → cache_inv (after_adjustment rel s).
Proof.
  apply cache_inv_ext; unfold after_adjustment; simpl;
    by destruct (integer_datetimes_set s), s.
Qed.

Lemma fired_by_insert op (trigdata : TriggerData T) pname hname adj :
  fired_before_row op trigdata pname hname adj →
  TRIGGER_FIRED_BY_INSERT (tg_event trigdata) = bool_decide (op = TRIGGER_EVENT_INSERT) ∧
  TRIGGER_FIRED_BY_UPDATE (tg_event trigdata) = bool_decide (op = TRIGGER_EVENT_UPDATE) ∧
  TRIGGER_FIRED_BY_DELETE (tg_event trigdata) = bool_decide (op = TRIGGER_EVENT_DELETE).
Proof.
  intros (_ & _ & Hop & _).
  unfold TRIGGER_FIRED_BY_INSERT, TRIGGER_FIRED_BY_UPDATE, TRIGGER_FIRED_BY_DELETE.
  rewrite Hop. repeat split; case_bool_decide; lia.
Qed.

(** An INSERT sets the period of the new row to [now, ). *)
Lemma versioning_on_insert h (trigdata : TriggerData T) pname hname adj n typcache
    tuple now s :
  fired_before_row TRIGGER_EVENT_INSERT trigdata pname hname adj →
  period_column_ok h (tg_relation trigdata) pname n typcache →
  tg_trigtuple trigdata = Some tuple → system_time_is h s now →
  versioning h (TriggerDataNode trigdata) s =
    (Ok (Some (with_period (RelationGetDescr (tg_relation trigdata)) n
                 (RangeValue (Some (now, true)) None) tuple)), s).
Proof.
  intros Hf Hcol Htup Hnow.
  pose proof (fired_by_insert _ _ _ _ _ Hf) as (Hi & Hu & Hd).
  pose proof Hf as (Hb & Hr & _ & Htrig).
  rewrite (versioning_dispatch h trigdata pname hname adj n typcache s Hb Hr)
    by (by rewrite ?Hi, ?Hu, ?Hd).
  rewrite Hi. simpl.
  pose proof (period_column_in_range _ _ _ _ _ Hcol) as [? ?].
  by apply versioning_insert_run.
Qed.

(** An UPDATE or DELETE of a row that the current transaction modified
    returns at once. *)
Lemma versioning_on_update_skip h (trigdata : TriggerData T) pname hname adj n typcache
    old s :
  fired_before_row TRIGGER_EVENT_UPDATE trigdata pname hname adj →
  period_column_ok h (tg_relation trigdata) pname n typcache →
  tg_trigtuple trigdata = Some old → modified_in_current_transaction h old = true →
  versioning h (TriggerDataNode trigdata) s = (Ok (tg_newtuple trigdata), s).
Proof.
  intros Hf Hcol Htup Hmod.
  pose proof (fired_by_insert _ _ _ _ _ Hf) as (Hi & Hu & Hd).
  pose proof Hf as (Hb & Hr & _ & Htrig).
  rewrite (versioning_dispatch h trigdata pname hname adj n typcache s Hb Hr)
    by (by rewrite ?Hi, ?Hu, ?Hd).
  rewrite Hi, Hu. simpl. by eapply versioning_update_skip.
Qed.

Lemma versioning_on_delete_skip h (trigdata : TriggerData T) pname hname adj n typcache
    old s :
  fired_before_row TRIGGER_EVENT_DELETE trigdata pname hname adj →
  period_column_ok h (tg_relation trigdata) pname n typcache →
  tg_trigtuple trigdata = Some old → modified_in_current_transaction h old = true →
  versioning h (TriggerDataNode trigdata) s = (Ok (Some old), s).
Proof.
  intros Hf Hcol Htup Hmod.
  pose proof (fired_by_insert _ _ _ _ _ Hf) as (Hi & Hu & Hd).
  pose proof Hf as (Hb & Hr & _ & Htrig).
  rewrite (versioning_dispatch h trigdata pname hname adj n typcache s Hb Hr)
    by (by rewrite ?Hi, ?Hu, ?Hd).
  rewrite Hi, Hu. simpl. by eapply versioning_delete_skip.
Qed.

(** An UPDATE whose closing bound, after the adjustment, is [u]: the old
    row is archived with the period up to [u] and the new row starts at
    [u]. *)
Lemma versioning_on_update h (trigdata : TriggerData T) pname hname adj n typcache
    hrel a ha cols old new lb now u s s1 :
  let rel := tg_relation trigdata in
  let td := RelationGetDescr rel in
  fired_before_row TRIGGER_EVENT_UPDATE trigdata pname hname adj →
  period_column_ok h rel pname n typcache →
  tg_trigtuple trigdata = Some old → tg_newtuple trigdata = Some new →
  modified_in_current_transaction h old = false →
  stores_period td n old lb → system_time_is h s now →
  adjust_system_period typcache (stored_lower_bound lb) (closing_bound now) adj rel s =
    (Ok (closing_bound u), s1) →
  lower_bound_below lb u →
  cache_inv s1 → host_ready h hname hrel → schemas_fit T rel hrel pname a ha cols →
  ∃ s',
    versioning h (TriggerDataNode trigdata) s =
      (Ok (Some (with_period td n (RangeValue (Some (u, true)) None) new)), s') ∧
    cache_inv s' ∧
    heap_rows s' =
      history_with h (with_period td n (RangeValue lb (Some (u, false))) old)
        rel hrel a cols s1 ∧
    same_session s1 s'.
Proof.
  intros rel td Hf Hcol Hold Hnew Hmod Hst Hnow Hadj Hlt Hinv Hready Hfit.
  pose proof (fired_by_insert _ _ _ _ _ Hf) as (Hi & Hu & Hd).
  pose proof Hf as (Hb & Hr & _ & Htrig).
  rewrite (versioning_dispatch h trigdata pname hname adj n typcache s Hb Hr)
    by (by rewrite ?Hi, ?Hu, ?Hd).
  rewrite Hi, Hu. simpl.
  pose proof (period_column_in_range _ _ _ _ _ Hcol) as [? ?].
  rewrite (versioning_update_archival h trigdata typcache n pname hname adj
             old new lb now u s s1) by done.
  destruct (insert_history_row_archives h
              (with_period td n (RangeValue lb (Some (u, false))) old)
              rel hrel hname pname a ha cols s1 Hinv Hready Hfit)
    as (s' & e' & Hrun & Hinv' & _ & _ & Hrows & Hsess).
  exists s'. fold rel td. by rewrite Hrun.
Qed.

(** A DELETE whose closing bound, after the adjustment, is [u]: the row is
    archived with the period up to [u] and the deletion proceeds. *)
Lemma versioning_on_delete h (trigdata : TriggerData T) pname hname adj n typcache
    hrel a ha cols old lb now u s s1 :
  let rel := tg_relation trigdata in
  let td := RelationGetDescr rel in
  fired_before_row TRIGGER_EVENT_DELETE trigdata pname hname adj →
  period_column_ok h rel pname n typcache →
  tg_trigtuple trigdata = Some old →
  modified_in_current_transaction h old = false →
  stores_period td n old lb → system_time_is h s now →
  adjust_system_period typcache (stored_lower_bound lb) (closing_bound now) adj rel s =
    (Ok (closing_bound u), s1) →
  lower_bound_below lb u →
  cache_inv s1 → host_ready h hname hrel → schemas_fit T rel hrel pname a ha cols →
  ∃ s',
    versioning h (TriggerDataNode trigdata) s = (Ok (Some old), s') ∧
    cache_inv s' ∧
    heap_rows s' =
      history_with h (with_period td n (RangeValue lb (Some (u, false))) old)
        rel hrel a cols s1 ∧
    same_session s1 s'.
Proof.
  intros rel td Hf Hcol Hold Hmod Hst Hnow Hadj Hlt Hinv Hready Hfit.
  pose proof (fired_by_insert _ _ _ _ _ Hf) as (Hi & Hu & Hd).
  pose proof Hf as (Hb & Hr & _ & Htrig).
  rewrite (versioning_dispatch h trigdata pname hname adj n typcache s Hb Hr)
    by (by rewrite ?Hi, ?Hu, ?Hd).
  rewrite Hi, Hu. simpl.
  pose proof (period_column_in_range _ _ _ _ _ Hcol) as [? ?].
  rewrite (versioning_delete_archival h trigdata typcache n pname hname adj
             old lb now u s s1) by done.
  destruct (insert_history_row_archives h
              (with_period td n (RangeValue lb (Some (u, false))) old)
              rel hrel hname pname a ha cols s1 Hinv Hready Hfit)
    as (s' & e' & Hrun & Hinv' & _ & _ & Hrows & Hsess).
  exists s'. fold rel td. by rewrite Hrun.
Qed.

(** An UPDATE or DELETE at which the adjustment fails, fails with its error. *)
Lemma versioning_on_adjust_error op h (trigdata : TriggerData T) pname hname adj n typcache
    old lb now err s s1 :
  let rel := tg_relation trigdata in
  let td := RelationGetDescr rel in
  op = TRIGGER_EVENT_UPDATE ∨ op = TRIGGER_EVENT_DELETE →
  fired_before_row op trigdata pname hname adj →
  period_column_ok h rel pname n typcache →
  tg_trigtuple trigdata = Some old →
  modified_in_current_transaction h old = false →
  stores_period td n old lb → system_time_is h s now →
  adjust_system_period typcache (stored_lower_bound lb) (closing_bound now) adj rel s =
    (Err err, s1) →
  versioning h (TriggerDataNode trigdata) s = (Err err, s1).
Proof.
  intros rel td Hop Hf Hcol Hold Hmod Hst Hnow Hadj.
  pose proof (fired_by_insert _ _ _ _ _ Hf) as (Hi & Hu & Hd).
  pose proof Hf as (Hb & Hr & _ & Htrig).
  rewrite (versioning_dispatch h trigdata pname hname adj n typcache s Hb Hr)
    by (rewrite ?Hi, ?Hu, ?Hd; by destruct Hop as [-> | ->]).
  rewrite Hi, Hu.
  destruct (versioning_update_adjust_error h trigdata typcache n pname hname adj
              old lb now err s s1 Hold Hmod Hst Hnow Hadj) as [HU HD].
  by destruct Hop as [-> | ->].
Qed.

End Operations.

#[local] Arguments versioning : simpl never.

Section SampleInstallation.
Implicit Types (s : State Z) (period : RangeType Z).

Lemma sample_host_ready xid now :
  host_ready (sample_host xid now) "r_hist" sample_history.
Proof. by repeat split. Qed.

Lemma sample_schemas_fit :
  schemas_fit Z sample_relation sample_history "valid_time"
    [1; 2; 3] [1; 2; 3] ["id"; "data"; "valid_time"].
Proof. by repeat split. Qed.

Lemma sample_period_column xid now :
  period_column_ok (sample_host xid now) sample_relation "valid_time" 3
    (mkTypeCacheEntry 3910 TIMESTAMPTZOID).
Proof.
  split; [done|]. split; [done|].
  by exists (mkAttr "valid_time" 3910 0 (-1) false 3), (mkType TYPTYPE_RANGE TIMESTAMPTZOID).
Qed.

Lemma sample_system_time xid now s :
  st_contexts s = PG_init → system_time_is (sample_host xid now) s now.
Proof. unfold system_time_is. by intros ->. Qed.

Lemma sample_fired op adj (tuple newtuple : option (HeapTupleData Z)) :
  0 <= op <= 3 →
  fired_before_row op
    (mkTriggerData (before_row op) sample_relation tuple newtuple (sample_trigger adj))
    "valid_time" "r_hist" adj.
Proof.
  intros Hop.
  assert (op = 0 ∨ op = 1 ∨ op = 2 ∨ op = 3) as [-> | [-> | [-> | ->]]] by lia;
    by repeat split.
Qed.

Lemma sample_with_period period xmin id data old :
  with_period sample_desc 3 period (mkHeapTuple xmin (sample_row id data old)) =
    mkHeapTuple InvalidTransactionId (sample_row id data (Some period)).
Proof. done. Qed.

Lemma sample_archived_row xid now xmin id data period :
  archived_row (sample_host xid now) (mkHeapTuple xmin (sample_row id data (Some period)))
    sample_relation sample_history [1; 2; 3] ["id"; "data"; "valid_time"] =
  mkHeapTuple xid (sample_row id data (Some period)).
Proof. done. Qed.

Lemma sample_stores_period xmin id data lb :
  stores_period sample_desc 3 (mkHeapTuple xmin (sample_row id data (Some (RangeValue lb None))))
    lb.
Proof. done. Qed.

Lemma sample_modified xid now xmin vs :
  modified_in_current_transaction (sample_host xid now) (mkHeapTuple xmin vs) =
    bool_decide (xmin = xid).
Proof.
  unfold modified_in_current_transaction, TransactionIdIsCurrentTransactionId. simpl.
  apply bool_decide_ext. by rewrite list_elem_of_singleton.
Qed.

Lemma sample_rows_after_archive xid now tuple s s' :
  heap_rows s' =
    history_with (sample_host xid now) tuple sample_relation sample_history
      [1; 2; 3] ["id"; "data"; "valid_time"] s →
  table_rows sample_relation s' = table_rows sample_relation s ∧
  table_rows sample_history s' =
    table_rows sample_history s ++
    [archived_row (sample_host xid now) tuple sample_relation sample_history
       [1; 2; 3] ["id"; "data"; "valid_time"]].
Proof.
  intros Hrows. unfold table_rows. rewrite Hrows. unfold history_with. split.
  - by rewrite lookup_insert_ne.
  - by rewrite lookup_insert_eq.
Qed.

Lemma sample_table_rows_set rel rows s :
  table_rows rel (set_table_rows rel rows s) = rows ∧
  (∀ rel', RelationGetRelid rel' ≠ RelationGetRelid rel →
           table_rows rel' (set_table_rows rel rows s) = table_rows rel' s).
Proof.
  unfold table_rows, set_table_rows. destruct s; simpl. split.
  - by rewrite lookup_insert_eq.
  - intros rel' Hne. by rewrite lookup_insert_ne.
Qed.

(** INSERT on the sample installation. *)
Lemma sample_exec_insert xid now adj id data s :
  st_contexts s = PG_init →
  exec_insert (sample_host xid now) sample_relation (sample_trigger adj)
      (sample_row id data None) s =
    (Ok tt,
     set_table_rows sample_relation
       (table_rows sample_relation s ++
        [mkHeapTuple xid (sample_row id data (Some (RangeValue (Some (now, true)) None)))])
       s).
Proof.
  intros Hctx. unfold exec_insert.
  erewrite run_bind_ok;
    [|by eapply (versioning_on_insert _ _ "valid_time" "r_hist" adj);
         [apply (sample_fired TRIGGER_EVENT_INSERT)
         |apply sample_period_column|done|apply sample_system_time]].
  done.
Qed.

(** UPDATE of the data column of a row that an earlier transaction wrote,
    at a system time above the start of its period. *)
Lemma sample_exec_update xid now adj i xmin id data data' lo s :
  cache_inv s → st_contexts s = PG_init →
  table_rows sample_relation s !! i =
    Some (mkHeapTuple xmin (sample_row id data (Some (RangeValue (Some (lo, true)) None)))) →
  xmin ≠ xid → lo < now →
  ∃ s',
    exec_update (sample_host xid now) sample_relation (sample_trigger adj) i
      [(1%nat, Some (DatumText data'))] s = (Ok tt, s') ∧
    cache_inv s' ∧ st_contexts s' = PG_init ∧
    table_rows sample_relation s' =
      <[i := mkHeapTuple xid (sample_row id data'
                                (Some (RangeValue (Some (now, true)) None)))]>
        (table_rows sample_relation s) ∧
    table_rows sample_history s' =
      table_rows sample_history s ++
      [mkHeapTuple xid (sample_row id data
                          (Some (RangeValue (Some (lo, true)) (Some (now, false)))))].
Proof.
  intros Hinv Hctx Hrow Hx Hlt. unfold exec_update.
  rewrite run_bind. simpl. rewrite Hrow. rewrite run_bind. simpl.
  set (old := mkHeapTuple xmin _). set (new := mkHeapTuple InvalidTransactionId _).
  set (trigdata := mkTriggerData _ _ _ _ _).
  destruct (versioning_on_update (sample_host xid now) trigdata "valid_time" "r_hist" adj
              3 (mkTypeCacheEntry 3910 TIMESTAMPTZOID) sample_history
              [1; 2; 3] [1; 2; 3] ["id"; "data"; "valid_time"]
              old new (Some (lo, true)) now now s s)
    as (s' & Hrun & Hinv' & Hrows & Hsess).
  { by apply (sample_fired TRIGGER_EVENT_UPDATE). }
  { apply sample_period_column. }
  { done. } { done. }
  { unfold old. rewrite sample_modified. by case_bool_decide. }
  { apply sample_stores_period. }
  { by apply sample_system_time. }
  { apply adjust_system_period_no_conflict. simpl. by apply Z.compare_lt_iff. }
  { simpl. by apply Z.compare_lt_iff. }
  { done. } { apply sample_host_ready. } { apply sample_schemas_fit. }
  rewrite run_bind, Hrun.
  apply sample_rows_after_archive in Hrows as [Hlive Hhist].
  set (rows := <[i := mkHeapTuple xid (sample_row id data'
                                         (Some (RangeValue (Some (now, true)) None)))]>
                 (table_rows sample_relation s')).
  exists (set_table_rows sample_relation rows s'). split; [done|].
  destruct (sample_table_rows_set sample_relation rows s') as [Hset Hother].
  split; [by apply cache_inv_set_heap_rows|].
  split; [destruct Hsess as (Hc & _); simpl; destruct s'; simpl in *; congruence|].
  split.
  - rewrite Hset. unfold rows. by rewrite Hlive.
  - rewrite Hother by done. by rewrite Hhist.
Qed.

(** DELETE of a row that an earlier transaction wrote, at a system time
    above the start of its period. *)
Lemma sample_exec_delete xid now adj i xmin id data lo s :
  cache_inv s → st_contexts s = PG_init →
  table_rows sample_relation s !! i =
    Some (mkHeapTuple xmin (sample_row id data (Some (RangeValue (Some (lo, true)) None)))) →
  xmin ≠ xid → lo < now →
  ∃ s',
    exec_delete (sample_host xid now) sample_relation (sample_trigger adj) i s =
      (Ok tt, s') ∧
    cache_inv s' ∧ st_contexts s' = PG_init ∧
    table_rows sample_relation s' = delete i (table_rows sample_relation s) ∧
    table_rows sample_history s' =
      table_rows sample_history s ++
      [mkHeapTuple xid (sample_row id data
                          (Some (RangeValue (Some (lo, true)) (Some (now, false)))))].
Proof.
  intros Hinv Hctx Hrow Hx Hlt. unfold exec_delete.
  rewrite run_bind. simpl. rewrite Hrow. rewrite run_bind. simpl.
  set (old := mkHeapTuple xmin _).
  set (trigdata := mkTriggerData _ _ _ _ _).
  destruct (versioning_on_delete (sample_host xid now) trigdata "valid_time" "r_hist" adj
              3 (mkTypeCacheEntry 3910 TIMESTAMPTZOID) sample_history
              [1; 2; 3] [1; 2; 3] ["id"; "data"; "valid_time"]
              old (Some (lo, true)) now now s s)
    as (s' & Hrun & Hinv' & Hrows & Hsess).
  { by apply (sample_fired TRIGGER_EVENT_DELETE). }
  { apply sample_period_column. }
  { done. }
  { unfold old. rewrite sample_modified. by case_bool_decide. }
  { apply sample_stores_period. }
  { by apply sample_system_time. }
  { apply adjust_system_period_no_conflict. simpl. by apply Z.compare_lt_iff. }
  { simpl. by apply Z.compare_lt_iff. }
  { done. } { apply sample_host_ready. } { apply sample_schemas_fit. }
  rewrite run_bind, Hrun.
  apply sample_rows_after_archive in Hrows as [Hlive Hhist].
  set (rows := delete i (table_rows sample_relation s')).
  exists (set_table_rows sample_relation rows s'). split; [done|].
  destruct (sample_table_rows_set sample_relation rows s') as [Hset Hother].
  split; [by apply cache_inv_set_heap_rows|].
  split; [destruct Hsess as (Hc & _); simpl; destruct s'; simpl in *; congruence|].
  split.
  - rewrite Hset. unfold rows. by rewrite Hlive.
  - rewrite Hother by done. by rewrite Hhist.
Qed.

(** UPDATE of a row that the current transaction wrote. *)
Lemma sample_exec_update_skip xid now adj i old assignments s :
  table_rows sample_relation s !! i = Some old → t_xmin old = xid →
  exec_update (sample_host xid now) sample_relation (sample_trigger adj) i assignments s =
    (Ok tt,
     set_table_rows sample_relation
       (<[i := mkHeapTuple xid
                 (foldl (λ vs a, <[a.1 := a.2]> vs) (t_values old) assignments)]>
          (table_rows sample_relation s))
       s).
Proof.
  intros Hrow Hx. unfold exec_update.
  rewrite run_bind. simpl. rewrite Hrow. rewrite run_bind. simpl.
  erewrite run_bind_ok;
    [|eapply (versioning_on_update_skip _ _ "valid_time" "r_hist" adj);
         [by apply (sample_fired TRIGGER_EVENT_UPDATE)
         |apply sample_period_column|done
         |destruct old; rewrite sample_modified; by case_bool_decide]].
  done.
Qed.

(** Assignments to other columns leave a column as it is. *)
Lemma foldl_insert_other {A} (assignments : list (nat * A)) : ∀ (vs : list A) j,
  Forall (λ a, a.1 ≠ j) assignments →
  foldl (λ vs a, <[a.1 := a.2]> vs) vs assignments !! j = vs !! j.
Proof.
  induction assignments as [|a assignments IH]; intros vs j Hall; simpl; [done|].
  apply Forall_cons in Hall as [Ha Hall].
  rewrite IH by done. by apply list_lookup_insert_ne.
Qed.

End SampleInstallation.

(** C1.  The trigger keeps the system period: for a row that the current
    transaction has not modified and a system time [now] above the start of
    the stored period, an INSERT sets the period of the new row to [now, );
    an UPDATE adds exactly one row to the history relation, the archive of
    the old row with the period [old_lower, now), and returns the new row
    with the period [now, ); a DELETE adds the same history row and returns
    the old row, so that the deletion proceeds.  On the sample installation,
    inserting (1, 'a') at [t0], updating it to (1, 'b') at [t1 > t0] and
    deleting it at [t2 > t1], each in a transaction of its own, leaves the
    history rows (1, 'a', [t0, t1)) and (1, 'b', [t1, t2)) and no live row. *)
Theorem system_period_maintenance :
  (∀ (T : Type) (rep : TimestampRep T) (h : Host T) (trigdata : TriggerData T)
     pname hname adj n typcache tuple now s,
     fired_before_row TRIGGER_EVENT_INSERT trigdata pname hname adj →
     period_column_ok h (tg_relation trigdata) pname n typcache →
     tg_trigtuple trigdata = Some tuple → system_time_is h s now →
     versioning h (TriggerDataNode trigdata) s =
       (Ok (Some (with_period (RelationGetDescr (tg_relation trigdata)) n
                    (RangeValue (Some (now, true)) None) tuple)), s)) ∧
  (∀ (T : Type) (rep : TimestampRep T) (h : Host T) (trigdata : TriggerData T)
     pname hname adj n typcache hrel a ha cols old new lb now s,
     let rel := tg_relation trigdata in
     let td := RelationGetDescr rel in
     fired_before_row TRIGGER_EVENT_UPDATE trigdata pname hname adj →
     period_column_ok h rel pname n typcache →
     tg_trigtuple trigdata = Some old → tg_newtuple trigdata = Some new →
     modified_in_current_transaction h old = false →
     stores_period td n old lb → system_time_is h s now →
     lower_bound_below lb now →
     cache_inv s → host_ready h hname hrel → schemas_fit T rel hrel pname a ha cols →
     ∃ s',
       versioning h (TriggerDataNode trigdata) s =
         (Ok (Some (with_period td n (RangeValue (Some (now, true)) None) new)), s') ∧
       heap_rows s' =
         history_with h (with_period td n (RangeValue lb (Some (now, false))) old)
           rel hrel a cols s ∧
       cache_inv s' ∧ same_session s s') ∧
  (∀ (T : Type) (rep : TimestampRep T) (h : Host T) (trigdata : TriggerData T)
     pname hname adj n typcache hrel a ha cols old lb now s,
     let rel := tg_relation trigdata in
     let td := RelationGetDescr rel in
     fired_before_row TRIGGER_EVENT_DELETE trigdata pname hname adj →
     period_column_ok h rel pname n typcache →
     tg_trigtuple trigdata = Some old →
     modified_in_current_transaction h old = false →
     stores_period td n old lb → system_time_is h s now →
     lower_bound_below lb now →
     cache_inv s → host_ready h hname hrel → schemas_fit T rel hrel pname a ha cols →
     ∃ s',
       versioning h (TriggerDataNode trigdata) s = (Ok (Some old), s') ∧
       heap_rows s' =
         history_with h (with_period td n (RangeValue lb (Some (now, false))) old)
           rel hrel a cols s ∧
       cache_inv s' ∧ same_session s s') ∧
  (∀ (x0 x1 x2 : TransactionId) (t0 t1 t2 : Z) adj,
     x0 ≠ x1 → x1 ≠ x2 → t0 < t1 → t1 < t2 →
     ∃ s1 s2 s3,
       exec_insert (sample_host x0 t0) sample_relation (sample_trigger adj)
         (sample_row 1 "a" None) initial_state = (Ok tt, s1) ∧
       table_rows sample_relation s1 =
         [mkHeapTuple x0 (sample_row 1 "a" (Some (RangeValue (Some (t0, true)) None)))] ∧
       table_rows sample_history s1 = [] ∧
       exec_update (sample_host x1 t1) sample_relation (sample_trigger adj) 0
         [(1%nat, Some (DatumText "b"))] s1 = (Ok tt, s2) ∧
       table_rows sample_relation s2 =
         [mkHeapTuple x1 (sample_row 1 "b" (Some (RangeValue (Some (t1, true)) None)))] ∧
       table_rows sample_history s2 =
         [mkHeapTuple x1 (sample_row 1 "a"
                            (Some (RangeValue (Some (t0, true)) (Some (t1, false)))))] ∧
       exec_delete (sample_host x2 t2) sample_relation (sample_trigger adj) 0 s2 =
         (Ok tt, s3) ∧
       table_rows sample_relation s3 = [] ∧
       table_rows sample_history s3 =
         [mkHeapTuple x1 (sample_row 1 "a"
                            (Some (RangeValue (Some (t0, true)) (Some (t1, false)))));
          mkHeapTuple x2 (sample_row 1 "b"
                            (Some (RangeValue (Some (t1, true)) (Some (t2, false)))))]).
Proof.
  split; [|split; [|split]].
  - intros T rep h trigdata pname hname adj n typcache tuple now s.
    apply versioning_on_insert.
  - intros T rep h trigdata pname hname adj n typcache hrel a ha cols old new lb now s
      rel td Hf Hcol Hold Hnew Hmod Hst Hnow Hlt Hinv Hready Hfit.
    destruct (versioning_on_update h trigdata pname hname adj n typcache hrel a ha cols
                old new lb now now s s Hf Hcol Hold Hnew Hmod Hst Hnow
                (adjust_system_period_no_conflict _ _ _ _ _ _ Hlt) Hlt Hinv Hready Hfit)
      as (s' & Hrun & Hinv' & Hrows & Hsess).
    by exists s'.
  - intros T rep h trigdata pname hname adj n typcache hrel a ha cols old lb now s
      rel td Hf Hcol Hold Hmod Hst Hnow Hlt Hinv Hready Hfit.
    destruct (versioning_on_delete h trigdata pname hname adj n typcache hrel a ha cols
                old lb now now s s Hf Hcol Hold Hmod Hst Hnow
                (adjust_system_period_no_conflict _ _ _ _ _ _ Hlt) Hlt Hinv Hready Hfit)
      as (s' & Hrun & Hinv' & Hrows & Hsess).
    by exists s'.
  - intros x0 x1 x2 t0 t1 t2 adj Hx01 Hx12 Ht01 Ht12.
    pose proof (sample_exec_insert x0 t0 adj 1 "a" initial_state eq_refl) as Hins.
    set (s1 := set_table_rows sample_relation _ initial_state) in Hins.
    assert (table_rows sample_relation s1 =
              [mkHeapTuple x0 (sample_row 1 "a" (Some (RangeValue (Some (t0, true)) None)))])
      as Hlive1 by done.
    assert (table_rows sample_history s1 = []) as Hhist1 by done.
    destruct (sample_exec_update x1 t1 adj 0 x0 1 "a" "b" t0 s1)
      as (s2 & Hupd & Hinv2 & Hctx2 & Hlive2 & Hhist2);
      [by apply cache_inv_set_heap_rows, cache_inv_initial|done|by rewrite Hlive1|done|done|].
    rewrite Hlive1 in Hlive2. rewrite Hhist1 in Hhist2. simpl in Hlive2, Hhist2.
    destruct (sample_exec_delete x2 t2 adj 0 x1 1 "b" t1 s2)
      as (s3 & Hdel & Hinv3 & Hctx3 & Hlive3 & Hhist3);
      [done|done|by rewrite Hlive2|done|done|].
    rewrite Hlive2 in Hlive3. rewrite Hhist2 in Hhist3. simpl in Hlive3, Hhist3.
    by exists s1, s2, s3.
Qed.

Lemma system_period_maintenance_witness :
  let h := sample_host 11 200 in
  let old := mkHeapTuple 10 (sample_row 1 "a" (Some (RangeValue (Some (100, true)) None))) in
  let new := mkHeapTuple 0 (sample_row 1 "b" (Some (RangeValue (Some (100, true)) None))) in
  let trigdata := mkTriggerData (before_row TRIGGER_EVENT_UPDATE) sample_relation
                    (Some old) (Some new) (sample_trigger "false") in
  (∃ s',
     versioning h (TriggerDataNode trigdata) initial_state =
       (Ok (Some (mkHeapTuple 0
                    (sample_row 1 "b" (Some (RangeValue (Some (200, true)) None))))), s') ∧
     heap_rows s' =
       {[ 1001 := [mkHeapTuple 11
                     (sample_row 1 "a"
                        (Some (RangeValue (Some (100, true)) (Some (200, false)))))] ]}) ∧
  ∃ s3,
    (exec_insert (sample_host 10 100) sample_relation (sample_trigger "false")
       (sample_row 1 "a" None);;
     exec_update (sample_host 11 200) sample_relation (sample_trigger "false") 0
       [(1%nat, Some (DatumText "b"))];;
     exec_delete (sample_host 12 300) sample_relation (sample_trigger "false") 0)
      initial_state = (Ok tt, s3) ∧
    table_rows sample_relation s3 = [] ∧
    table_rows sample_history s3 =
      [mkHeapTuple 11 (sample_row 1 "a"
                         (Some (RangeValue (Some (100, true)) (Some (200, false)))));
       mkHeapTuple 12 (sample_row 1 "b"
                         (Some (RangeValue (Some (200, true)) (Some (300, false)))))].
Proof.
  intros h old new trigdata.
  destruct system_period_maintenance as (_ & Hupdate & _ & Hscenario). split.
  - destruct (Hupdate Z _ h trigdata "valid_time" "r_hist" "false" 3
                (mkTypeCacheEntry 3910 TIMESTAMPTZOID) sample_history
                [1; 2; 3] [1; 2; 3] ["id"; "data"; "valid_time"]
                old new (Some (100, true)) 200 initial_state)
      as (s' & Hrun & Hrows & _).
    + by apply (sample_fired TRIGGER_EVENT_UPDATE).
    + apply sample_period_column.
    + reflexivity.
    + reflexivity.
    + reflexivity.
    + reflexivity.
    + reflexivity.
    + reflexivity.
    + apply cache_inv_initial.
    + apply sample_host_ready.
    + apply sample_schemas_fit.
    + exists s'. split; [exact Hrun|]. rewrite Hrows. reflexivity.
  - destruct (Hscenario 10 11 12 100 200 300 "false")
      as (s1 & s2 & s3 & Hins & _ & _ & Hupd & _ & _ & Hdel & Hlive & Hhist);
      [lia|lia|lia|lia|].
    exists s3. split; [|by split].
    rewrite run_bind, Hins, run_bind, Hupd. exact Hdel.
Defined.

Section SameTransaction.
Context {T : Type} `{!TimestampRep T}.
Implicit Types (s : State T) (h : Host T).

(** A user column is read from [t_values] alone. *)
Lemma SPI_getbinval_values (t1 t2 : HeapTupleData T) td n :
  0 < n → t_values t1 !! Z.to_nat (n - 1) = t_values t2 !! Z.to_nat (n - 1) →
  SPI_getbinval t1 td n = SPI_getbinval t2 td n.
Proof.
  intros Hn Heq. unfold SPI_getbinval.
  destruct (Z.ltb_spec n 0); [lia|]. by rewrite Heq.
Qed.

Lemma foldl_insert_length {A} (assignments : list (nat * A)) : ∀ (vs : list A),
  length (foldl (λ vs a, <[a.1 := a.2]> vs) vs assignments) = length vs.
Proof.
  induction assignments as [|a assignments IH]; intros vs; simpl; [done|].
  by rewrite IH, length_insert.
Qed.

Lemma table_rows_set_table_rows rel rows s :
  table_rows rel (set_table_rows rel rows s) = rows ∧
  ∀ k, k ≠ RelationGetRelid rel →
       heap_rows (set_table_rows rel rows s) !! k = heap_rows s !! k.
Proof.
  unfold table_rows, set_table_rows. destruct s; simpl. split.
  - by rewrite lookup_insert_eq.
  - intros k Hne. by rewrite lookup_insert_ne.
Qed.

(** INSERT and then UPDATE of the new row in the same transaction: the
    UPDATE stores the proposed row as it is. *)
Lemma insert_then_update h h' rel pname hname adj n typcache values assignments now s :
  let td := RelationGetDescr rel in
  let trigger := mkTrigger 3 [pname; hname; adj] in
  let inserted :=
    with_period td n (RangeValue (Some (now, true)) None)
      (mkHeapTuple InvalidTransactionId values) in
  let final :=
    mkHeapTuple (host_xid h')
      (foldl (λ vs a, <[a.1 := a.2]> vs) (t_values inserted) assignments) in
  period_column_ok h rel pname n typcache →
  period_column_ok h' rel pname n typcache →
  system_time_is h s now →
  TransactionIdIsCurrentTransactionId h' (host_xid h) = true →
  ∃ s1 s2,
    exec_insert h rel trigger values s = (Ok tt, s1) ∧
    exec_update h' rel trigger (length (table_rows rel s)) assignments s1 = (Ok tt, s2) ∧
    (∀ k, k ≠ RelationGetRelid rel → heap_rows s2 !! k = heap_rows s !! k) ∧
    table_rows rel s2 = table_rows rel s ++ [final] ∧
    notices s2 = notices s.
Proof.
  intros td trigger inserted final Hcol Hcol' Hnow Hcur.
  assert (∀ op (tuple newtuple : option (HeapTupleData T)),
            op = TRIGGER_EVENT_INSERT ∨ op = TRIGGER_EVENT_UPDATE →
            fired_before_row op (mkTriggerData (before_row op) rel tuple newtuple trigger)
              pname hname adj) as Hfired.
  { intros op tuple newtuple [-> | ->]; by repeat split. }
  set (stored := mkHeapTuple (host_xid h) (t_values inserted)).
  set (s1 := set_table_rows rel (table_rows rel s ++ [stored]) s).
  set (s2 := set_table_rows rel
               (<[length (table_rows rel s) := final]> (table_rows rel s1)) s1).
  pose proof (table_rows_set_table_rows rel (table_rows rel s ++ [stored]) s)
    as [Hrows1 Hother1]. fold s1 in Hrows1, Hother1.
  pose proof (table_rows_set_table_rows rel
                (<[length (table_rows rel s) := final]> (table_rows rel s1)) s1)
    as [Hrows2 Hother2]. fold s2 in Hrows2, Hother2.
  exists s1, s2. split; [|split; [|split; [|split]]].
  - unfold exec_insert.
    erewrite run_bind_ok;
      [|by eapply (versioning_on_insert h _ pname hname adj n typcache);
          [apply Hfired; by left|exact Hcol|done|done]].
    done.
  - unfold exec_update. rewrite run_bind. simpl.
    rewrite Hrows1, lookup_app_r, Nat.sub_diag by done. simpl.
    rewrite run_bind. simpl.
    erewrite run_bind_ok;
      [|by eapply (versioning_on_update_skip h' _ pname hname adj n typcache);
          [apply Hfired; by right|exact Hcol'|done|done]].
    done.
  - intros k Hk. by rewrite Hother2, Hother1.
  - rewrite Hrows2, Hrows1.
    rewrite insert_app_r_alt, Nat.sub_diag by done. done.
  - by destruct s.
Qed.

End SameTransaction.

(** C4 (as amended).  An UPDATE or DELETE of a row that the current
    transaction created or modified skips the archival and leaves the period
    alone: the trigger returns the row image it was given, the proposed row
    for an UPDATE and the old row for a DELETE, and the state is as before,
    so no history row was added.  Hence a row inserted at the system time
    [now] and updated in the same transaction leaves every other relation
    as it was, and the stored row is the proposed row of the UPDATE: its
    period is what the UPDATE assigned to the period column, and starts at
    [now] when the UPDATE assigned nothing to that column. *)
Theorem same_transaction_skip :
  (∀ (T : Type) (rep : TimestampRep T) (h : Host T) (trigdata : TriggerData T)
     pname hname adj n typcache old s,
     fired_before_row TRIGGER_EVENT_UPDATE trigdata pname hname adj →
     period_column_ok h (tg_relation trigdata) pname n typcache →
     tg_trigtuple trigdata = Some old → modified_in_current_transaction h old = true →
     versioning h (TriggerDataNode trigdata) s = (Ok (tg_newtuple trigdata), s)) ∧
  (∀ (T : Type) (rep : TimestampRep T) (h : Host T) (trigdata : TriggerData T)
     pname hname adj n typcache old s,
     fired_before_row TRIGGER_EVENT_DELETE trigdata pname hname adj →
     period_column_ok h (tg_relation trigdata) pname n typcache →
     tg_trigtuple trigdata = Some old → modified_in_current_transaction h old = true →
     versioning h (TriggerDataNode trigdata) s = (Ok (Some old), s)) ∧
  (∀ (T : Type) (rep : TimestampRep T) (h h' : Host T) rel pname hname adj n typcache
     values assignments now s,
     let td := RelationGetDescr rel in
     let trigger := mkTrigger 3 [pname; hname; adj] in
     period_column_ok h rel pname n typcache →
     period_column_ok h' rel pname n typcache →
     system_time_is h s now →
     TransactionIdIsCurrentTransactionId h' (host_xid h) = true →
     ∃ s1 s2 row,
       exec_insert h rel trigger values s = (Ok tt, s1) ∧
       exec_update h' rel trigger (length (table_rows rel s)) assignments s1
         = (Ok tt, s2) ∧
       (∀ k, k ≠ RelationGetRelid rel → heap_rows s2 !! k = heap_rows s !! k) ∧
       notices s2 = notices s ∧
       table_rows rel s2 = table_rows rel s ++ [row] ∧
       (Forall (λ a : nat * option (Datum T), a.1 ≠ Z.to_nat (n - 1)) assignments →
        SPI_getbinval row td n =
          Some (DatumRange (RangeValue (Some (now, true)) None))) ∧
       (∀ pre post value,
          assignments = pre ++ (Z.to_nat (n - 1), value) :: post →
          Forall (λ a : nat * option (Datum T), a.1 ≠ Z.to_nat (n - 1)) post →
          SPI_getbinval row td n = value)).
Proof.
  split; [|split].
  - intros T rep h trigdata pname hname adj n typcache old s.
    apply versioning_on_update_skip.
  - intros T rep h trigdata pname hname adj n typcache old s.
    apply versioning_on_delete_skip.
  - intros T rep h h' rel pname hname adj n typcache values assignments now s td trigger
      Hcol Hcol' Hnow Hcur.
    destruct (insert_then_update h h' rel pname hname adj n typcache values assignments
                now s Hcol Hcol' Hnow Hcur) as (s1 & s2 & Hins & Hupd & Hother & Hrows & Hnot).
    pose proof (period_column_in_range _ _ _ _ _ Hcol) as [Hn Hle].
    set (inserted := with_period td n (RangeValue (Some (now, true)) None)
                       (mkHeapTuple InvalidTransactionId values)) in *.
    exists s1, s2,
      (mkHeapTuple (host_xid h')
         (foldl (λ vs a, <[a.1 := a.2]> vs) (t_values inserted) assignments)).
    split; [done|]. split; [done|]. split; [done|]. split; [done|]. split; [done|].
    split.
    + intros Hall.
      rewrite <- (with_period_period td n (RangeValue (Some (now, true)) None)
                    (mkHeapTuple InvalidTransactionId values) Hn Hle).
      apply SPI_getbinval_values; [done|]. simpl. by apply foldl_insert_other.
    + intros pre post value -> Hpost. fold td in Hle.
      unfold SPI_getbinval.
      destruct (Z.ltb_spec (tupdesc_natts td) n); [lia|].
      destruct (Z.eqb_spec n 0); [lia|].
      destruct (Z.leb_spec n FirstLowInvalidHeapAttributeNumber);
        [unfold FirstLowInvalidHeapAttributeNumber in *; lia|].
      destruct (Z.ltb_spec n 0); [lia|]. simpl.
      rewrite foldl_app. simpl. rewrite foldl_insert_other by done.
      rewrite list_lookup_insert_eq; [done|].
      rewrite foldl_insert_length. unfold inserted, with_period. simpl.
      rewrite length_insert, length_resize. unfold tupdesc_natts in Hle. lia.
Qed.

Lemma same_transaction_skip_witness :
  let h := sample_host 10 100 in
  let old := mkHeapTuple 10 (sample_row 1 "a" (Some (RangeValue (Some (100, true)) None))) in
  let new := mkHeapTuple 0 (sample_row 1 "b" (Some (RangeValue (Some (100, true)) None))) in
  versioning h
    (TriggerDataNode (mkTriggerData (before_row TRIGGER_EVENT_UPDATE) sample_relation
                        (Some old) (Some new) (sample_trigger "false")))
    initial_state = (Ok (Some new), initial_state) ∧
  versioning h
    (TriggerDataNode (mkTriggerData (before_row TRIGGER_EVENT_DELETE) sample_relation
                        (Some old) None (sample_trigger "false")))
    initial_state = (Ok (Some old), initial_state) ∧
  ∃ s2 row,
    (exec_insert h sample_relation (sample_trigger "false") (sample_row 1 "a" None);;
     exec_update h sample_relation (sample_trigger "false") 0
       [(1%nat, Some (DatumText "b"))]) initial_state = (Ok tt, s2) ∧
    table_rows sample_history s2 = [] ∧ table_rows sample_relation s2 = [row] ∧
    SPI_getbinval row sample_desc 3 = Some (DatumRange (RangeValue (Some (100, true)) None)).
Proof.
  intros h old new.
  destruct same_transaction_skip as (Hupdate & Hdelete & Hscenario).
  split; [|split].
  - exact (Hupdate Z _ h
             (mkTriggerData (before_row TRIGGER_EVENT_UPDATE) sample_relation
                (Some old) (Some new) (sample_trigger "false"))
             "valid_time" "r_hist" "false" 3
             (mkTypeCacheEntry 3910 TIMESTAMPTZOID) old initial_state
             (sample_fired TRIGGER_EVENT_UPDATE "false" (Some old) (Some new)
                ltac:(done))
             (sample_period_column 10 100) eq_refl eq_refl).
  - exact (Hdelete Z _ h
             (mkTriggerData (before_row TRIGGER_EVENT_DELETE) sample_relation
                (Some old) None (sample_trigger "false"))
             "valid_time" "r_hist" "false" 3
             (mkTypeCacheEntry 3910 TIMESTAMPTZOID) old initial_state
             (sample_fired TRIGGER_EVENT_DELETE "false" (Some old) None
                ltac:(done))
             (sample_period_column 10 100) eq_refl eq_refl).
  - destruct (Hscenario Z _ h h sample_relation "valid_time" "r_hist" "false" 3
                (mkTypeCacheEntry 3910 TIMESTAMPTZOID) (sample_row 1 "a" None)
                [(1%nat, Some (DatumText "b"))] 100 initial_state
                (sample_period_column 10 100) (sample_period_column 10 100)
                eq_refl eq_refl)
      as (s1 & s2 & row & Hins & Hupd & Hother & Hnot & Hrows & Hperiod & _).
    exists s2, row. split; [|split; [|split]].
    + rewrite (run_bind_ok _ _ _ _ _ Hins). exact Hupd.
    + unfold table_rows. change (RelationGetRelid sample_history) with 1001.
      by rewrite (Hother 1001).
    + exact Hrows.
    + apply Hperiod. repeat constructor. simpl. lia.
Defined.

(** C4, where the claim fails: an UPDATE in the transaction of the INSERT
    that assigns the period column.  The trigger hands the proposed row
    through, so the stored period starts at the assigned 999, not at the
    system time 100 of the INSERT. *)
Lemma period_assigned_in_same_transaction :
  let h := sample_host 10 100 in
  let run := (exec_insert h sample_relation (sample_trigger "false")
                (sample_row 1 "a" None);;
              exec_update h sample_relation (sample_trigger "false") 0
                [(2%nat, Some (DatumRange (RangeValue (Some (999, true)) None)))])
               initial_state in
  run.1 = Ok tt ∧
  table_rows sample_history run.2 = [] ∧
  table_rows sample_relation run.2 =
    [mkHeapTuple 10 (sample_row 1 "a" (Some (RangeValue (Some (999, true)) None)))].
Proof. by vm_compute. Qed.

(** C10.  The history tuple of the archival path of UPDATE and DELETE is the
    old row with the period column, and nothing else, replaced: it is handed
    to [insert_history_row], whose row is the one added to the history
    relation; its period column holds [old_lower, u), where [u] is the
    closing bound after the adjustment, and every other column reads as in
    the old row. *)
Theorem history_tuple_frame :
  ∀ (T : Type) (rep : TimestampRep T) (h : Host T) (trigdata : TriggerData T)
    op pname hname adj n typcache old lb now u s s1,
    let rel := tg_relation trigdata in
    let td := RelationGetDescr rel in
    let history_tuple := with_period td n (RangeValue lb (Some (u, false))) old in
    (op = TRIGGER_EVENT_UPDATE ∧ is_Some (tg_newtuple trigdata))
      ∨ op = TRIGGER_EVENT_DELETE →
    fired_before_row op trigdata pname hname adj →
    period_column_ok h rel pname n typcache →
    tg_trigtuple trigdata = Some old →
    modified_in_current_transaction h old = false →
    stores_period td n old lb → system_time_is h s now →
    adjust_system_period typcache (stored_lower_bound lb) (closing_bound now) adj rel s =
      (Ok (closing_bound u), s1) →
    lower_bound_below lb u →
    (∃ result,
       versioning h (TriggerDataNode trigdata) s =
         match insert_history_row h history_tuple rel hname pname s1 with
         | (Ok _, s2) => (Ok (Some result), s2)
         | (Err err, s2) => (Err err, s2)
         end) ∧
    (∀ hrel a ha cols,
       cache_inv s1 → host_ready h hname hrel → schemas_fit T rel hrel pname a ha cols →
       ∃ result s',
         versioning h (TriggerDataNode trigdata) s = (Ok result, s') ∧
         heap_rows s' = history_with h history_tuple rel hrel a cols s1) ∧
    SPI_getbinval history_tuple td n = Some (DatumRange (RangeValue lb (Some (u, false)))) ∧
    (∀ j, 0 < j → j ≠ n →
          SPI_getbinval history_tuple td j = SPI_getbinval old td j) ∧
    length (t_values history_tuple) = length td.
Proof.
  intros T rep h trigdata op pname hname adj n typcache old lb now u s s1 rel td
    history_tuple Hop Hf Hcol Hold Hmod Hst Hnow Hadj Hlt.
  pose proof (period_column_in_range _ _ _ _ _ Hcol) as [Hn1 Hn2].
  pose proof (fired_by_insert _ _ _ _ _ Hf) as (Hi & Hu & Hd).
  pose proof Hf as (Hb & Hr & _ & Htrig).
  split; [|split; [|split; [|split]]].
  - rewrite (versioning_dispatch h trigdata pname hname adj n typcache s Hb Hr)
      by (rewrite ?Hi, ?Hu, ?Hd; by destruct Hop as [[-> _] | ->]).
    rewrite Hi, Hu. destruct Hop as [[-> [new Hnew]] | ->]; simpl.
    + exists (with_period td n (RangeValue (Some (u, true)) None) new).
      by apply (versioning_update_archival h trigdata typcache n pname hname adj
                  old new lb now u s s1).
    + exists old.
      by apply (versioning_delete_archival h trigdata typcache n pname hname adj
                  old lb now u s s1).
  - intros hrel a ha cols Hinv Hready Hfit. destruct Hop as [[-> [new Hnew]] | ->].
    + destruct (versioning_on_update h trigdata pname hname adj n typcache hrel a ha cols
                  old new lb now u s s1)
        as (s' & Hrun & _ & Hrows & _); try done.
      by eexists _, s'.
    + destruct (versioning_on_delete h trigdata pname hname adj n typcache hrel a ha cols
                  old lb now u s s1)
        as (s' & Hrun & _ & Hrows & _); try done.
      by eexists _, s'.
  - by apply with_period_period.
  - intros j Hj Hne. by apply with_period_other.
  - unfold history_tuple, with_period. simpl.
    by rewrite length_insert, length_resize.
Qed.

Lemma history_tuple_frame_witness :
  let old := mkHeapTuple 10 (sample_row 1 "a" (Some (RangeValue (Some (100, true)) None))) in
  let new := mkHeapTuple 0 (sample_row 1 "b" (Some (RangeValue (Some (100, true)) None))) in
  let history_tuple :=
    with_period sample_desc 3 (RangeValue (Some (100, true)) (Some (200, false))) old in
  SPI_getbinval history_tuple sample_desc 3 =
    Some (DatumRange (RangeValue (Some (100, true)) (Some (200, false)))) ∧
  (∀ j, 0 < j → j ≠ 3 →
        SPI_getbinval history_tuple sample_desc j = SPI_getbinval old sample_desc j) ∧
  length (t_values history_tuple) = length sample_desc.
Proof.
  intros old new history_tuple.
  exact (proj2 (proj2
    (history_tuple_frame Z _ (sample_host 11 200)
       (mkTriggerData (before_row TRIGGER_EVENT_UPDATE) sample_relation
          (Some old) (Some new) (sample_trigger "false"))
       TRIGGER_EVENT_UPDATE "valid_time" "r_hist" "false" 3
       (mkTypeCacheEntry 3910 TIMESTAMPTZOID) old (Some (100, true)) 200 200
       initial_state initial_state
       (or_introl (conj eq_refl (ex_intro _ new eq_refl)))
       (sample_fired TRIGGER_EVENT_UPDATE "false" (Some old) (Some new) ltac:(done))
       (sample_period_column 11 200) eq_refl eq_refl eq_refl eq_refl eq_refl eq_refl))).
Defined.

Lemma folded_false_not_true adj : folded adj = folded "false" → folded adj ≠ folded "true".
Proof. intros ->. by vm_compute. Qed.

Section Adjustment.
Context {T : Type} `{!TimestampRep T}.
Implicit Types (s : State T) (h : Host T).

Lemma after_adjustment_session (rel : RelationData) s :
  heap_rows (after_adjustment rel s) = heap_rows s ∧
  st_contexts (after_adjustment rel s) = st_contexts s ∧
  notices (after_adjustment rel s) =
    notices s ++ [WARNING_system_period_adjusted (RelationGetRelationName rel)].
Proof. unfold after_adjustment. simpl. by destruct (integer_datetimes_set s), s. Qed.

Lemma after_adjustment_integer_datetimes (rel : RelationData) s :
  datetimes_cache_ok s →
  integer_datetimes (after_adjustment rel s) =
    bool_decide (integer_datetimes_option = "on").
Proof.
  intros Hok. unfold after_adjustment. simpl.
  destruct (integer_datetimes_set s) eqn:Eset; [|done].
  pose proof (Hok Eset) as Hi. by destruct s.
Qed.

(** The archival after an adjustment that has moved the closing bound to
    [u], above the start [v] of the stored period. *)
Lemma versioning_adjusted h (trigdata : TriggerData T) op pname hname adj n typcache
    hrel a ha cols old v incl now u s :
  let rel := tg_relation trigdata in
  let td := RelationGetDescr rel in
  (op = TRIGGER_EVENT_UPDATE ∧ is_Some (tg_newtuple trigdata))
    ∨ op = TRIGGER_EVENT_DELETE →
  fired_before_row op trigdata pname hname adj →
  period_column_ok h rel pname n typcache →
  tg_trigtuple trigdata = Some old →
  modified_in_current_transaction h old = false →
  stores_period td n old (Some (v, incl)) → system_time_is h s now →
  adjust_system_period typcache (stored_lower_bound (Some (v, incl))) (closing_bound now)
      adj rel s = (Ok (closing_bound u), after_adjustment rel s) →
  timestamp_cmp_internal v u = Lt →
  cache_inv s → host_ready h hname hrel → schemas_fit T rel hrel pname a ha cols →
  ∃ s',
    versioning h (TriggerDataNode trigdata) s =
      (Ok (if bool_decide (op = TRIGGER_EVENT_UPDATE)
           then with_period td n (RangeValue (Some (u, true)) None)
                  <$> tg_newtuple trigdata
           else Some old), s') ∧
    notices s' =
      notices s ++ [WARNING_system_period_adjusted (RelationGetRelationName rel)] ∧
    heap_rows s' =
      history_with h
        (with_period td n (RangeValue (Some (v, incl)) (Some (u, false))) old)
        rel hrel a cols s ∧
    cache_inv s'.
Proof.
  intros rel td Hop Hf Hcol Hold Hmod Hst Hnow Hrun Hlt Hinv Hready Hfit.
  pose proof (after_adjustment_session rel s) as (Hrows0 & _ & Hnot0).
  assert (∃ s',
            versioning h (TriggerDataNode trigdata) s =
              (Ok (if bool_decide (op = TRIGGER_EVENT_UPDATE)
                   then with_period td n (RangeValue (Some (u, true)) None)
                          <$> tg_newtuple trigdata
                   else Some old), s') ∧
            cache_inv s' ∧
            heap_rows s' =
              history_with h
                (with_period td n (RangeValue (Some (v, incl)) (Some (u, false))) old)
                rel hrel a cols (after_adjustment rel s) ∧
            same_session (after_adjustment rel s) s') as (s' & Hv' & Hinv' & Hrows & Hsess).
  { destruct Hop as [[-> [new Hnew]] | ->].
    - rewrite Hnew. simpl.
      apply (versioning_on_update h trigdata pname hname adj n typcache hrel a ha cols
               old new (Some (v, incl)) now u s (after_adjustment rel s));
        try done.
      by apply cache_inv_after_adjustment.
    - simpl.
      apply (versioning_on_delete h trigdata pname hname adj n typcache hrel a ha cols
               old (Some (v, incl)) now u s (after_adjustment rel s));
        try done.
      by apply cache_inv_after_adjustment. }
  exists s'. split; [done|].
  split; [destruct Hsess as (_ & Hn & _); by rewrite Hn|].
  split; [rewrite Hrows; unfold history_with; by rewrite Hrows0|done].
Qed.

End Adjustment.

(** Adjustment with integer timestamps: the closing bound becomes the
    stored lower bound plus one microsecond. *)
Lemma adjust_system_period_int64 typcache (v : Z) incl u adj rel (s : State Z) :
  u <= v → folded adj = folded "true" → datetimes_cache_ok s →
  INT64_MIN <= v < INT64_MAX →
  adjust_system_period typcache (stored_lower_bound (Some (v, incl))) (closing_bound u)
      adj rel s =
    (Ok (closing_bound (v + 1)), after_adjustment rel s).
Proof.
  intros Hle Hadj Hok Hv.
  rewrite adjust_system_period_conflict
    by (simpl; rewrite Z.compare_lt_iff; lia).
  rewrite bool_decide_eq_true_2 by done.
  rewrite next_timestamp_unfold. cbv zeta. fold (after_adjustment rel s).
  rewrite (after_adjustment_integer_datetimes rel s Hok).
  simpl. rewrite wrap_int64_small by lia. done.
Qed.

(** Adjustment with [double] timestamps: the closing bound becomes the
    successor that [next_timestamp] computes for a [double]. *)
Lemma adjust_system_period_float8 typcache (v : float8) incl u adj rel (s : State float8) :
  timestamp_cmp_internal v u ≠ Lt → folded adj = folded "true" → datetimes_cache_ok s →
  adjust_system_period typcache (stored_lower_bound (Some (v, incl))) (closing_bound u)
      adj rel s =
    (Ok (closing_bound
           (if negb (PrimFloat.eqb (PrimFloat.add v float8_1E_06) v)
            then PrimFloat.add v float8_1E_06 else nextafter v DBL_MAX)),
     after_adjustment rel s).
Proof.
  intros Hge Hadj Hok.
  rewrite adjust_system_period_conflict by done.
  rewrite bool_decide_eq_true_2 by done.
  rewrite next_timestamp_unfold. cbv zeta. fold (after_adjustment rel s).
  rewrite (after_adjustment_integer_datetimes rel s Hok).
  simpl. by destruct (negb _).
Qed.




Section Validation.
Context {T : Type} `{!TimestampRep T}.
Implicit Types (s : State T) (h : Host T).

(** C9 (as amended).  The trigger function checks the call before anything
    else: a call that does not come from the trigger manager, that is not
    BEFORE ROW, that is not for INSERT, UPDATE or DELETE, or that has a
    number of arguments other than three fails with the corresponding error
    and leaves the state as it is, so a call that returns a tuple has passed
    all four checks.  The adjust argument is not examined then: it is parsed
    by adjust_system_period, only when the closing bound does not lie above
    the stored lower bound; there "true" and "false" in any letter case are
    accepted and any other value fails with the error for an invalid adjust
    value, and otherwise the argument is not read at all.  So an INSERT,
    and an UPDATE or DELETE of a row whose period starts before the system
    time, run to their end whatever the adjust argument is, and an UPDATE or
    DELETE fails for an invalid adjust argument exactly on a conflict. *)
Theorem versioning_validation :
  (∀ h s, versioning h NoContext s = (Err ERR_not_called_by_trigger_manager, s) ∧
          versioning h OtherNode s = (Err ERR_not_called_by_trigger_manager, s)) ∧
  (∀ h (trigdata : TriggerData T) s,
     TRIGGER_FIRED_BEFORE (tg_event trigdata)
       && TRIGGER_FIRED_FOR_ROW (tg_event trigdata) = false →
     versioning h (TriggerDataNode trigdata) s = (Err ERR_must_be_fired_before_row, s)) ∧
  (∀ h (trigdata : TriggerData T) s,
     TRIGGER_FIRED_BEFORE (tg_event trigdata)
       && TRIGGER_FIRED_FOR_ROW (tg_event trigdata) = true →
     TRIGGER_FIRED_BY_INSERT (tg_event trigdata)
       || TRIGGER_FIRED_BY_UPDATE (tg_event trigdata)
       || TRIGGER_FIRED_BY_DELETE (tg_event trigdata) = false →
     versioning h (TriggerDataNode trigdata) s =
       (Err ERR_must_be_fired_for_insert_update_delete, s)) ∧
  (∀ h (trigdata : TriggerData T) s,
     TRIGGER_FIRED_BEFORE (tg_event trigdata)
       && TRIGGER_FIRED_FOR_ROW (tg_event trigdata) = true →
     TRIGGER_FIRED_BY_INSERT (tg_event trigdata)
       || TRIGGER_FIRED_BY_UPDATE (tg_event trigdata)
       || TRIGGER_FIRED_BY_DELETE (tg_event trigdata) = true →
     tgnargs (tg_trigger trigdata) ≠ 3 →
     versioning h (TriggerDataNode trigdata) s =
       (Err (ERR_wrong_number_of_parameters (tgnargs (tg_trigger trigdata))), s)) ∧
  (∀ h context s t,
     (versioning h context s).1 = Ok t →
     ∃ trigdata, context = TriggerDataNode trigdata ∧
       TRIGGER_FIRED_BEFORE (tg_event trigdata) = true ∧
       TRIGGER_FIRED_FOR_ROW (tg_event trigdata) = true ∧
       TRIGGER_FIRED_BY_INSERT (tg_event trigdata)
         || TRIGGER_FIRED_BY_UPDATE (tg_event trigdata)
         || TRIGGER_FIRED_BY_DELETE (tg_event trigdata) = true ∧
       tgnargs (tg_trigger trigdata) = 3) ∧
  (∀ arg s,
     parse_adjust_argument arg s =
       (if bool_decide (folded arg = folded "true") then Ok true
        else if bool_decide (folded arg = folded "false") then Ok false
        else Err (ERR_invalid_adjust_value arg), s)) ∧
  (∀ typcache (lo up : RangeBound T) arg relation s,
     range_cmp_bounds lo up < 0 →
     adjust_system_period typcache lo up arg relation s = (Ok up, s)) ∧
  (∀ typcache (lo up : RangeBound T) arg relation s,
     0 <= range_cmp_bounds lo up →
     folded arg ≠ folded "true" → folded arg ≠ folded "false" →
     adjust_system_period typcache lo up arg relation s =
       (Err (ERR_invalid_adjust_value arg), s)) ∧
  (∀ h (trigdata : TriggerData T) pname hname adj n typcache tuple now s,
     fired_before_row TRIGGER_EVENT_INSERT trigdata pname hname adj →
     period_column_ok h (tg_relation trigdata) pname n typcache →
     tg_trigtuple trigdata = Some tuple → system_time_is h s now →
     versioning h (TriggerDataNode trigdata) s =
       (Ok (Some (with_period (RelationGetDescr (tg_relation trigdata)) n
                    (RangeValue (Some (now, true)) None) tuple)), s)) ∧
  (∀ h (trigdata : TriggerData T) op pname hname adj n typcache hrel a ha cols
     old lb now s,
     let rel := tg_relation trigdata in
     let td := RelationGetDescr rel in
     (op = TRIGGER_EVENT_UPDATE ∧ is_Some (tg_newtuple trigdata))
       ∨ op = TRIGGER_EVENT_DELETE →
     fired_before_row op trigdata pname hname adj →
     period_column_ok h rel pname n typcache →
     tg_trigtuple trigdata = Some old →
     modified_in_current_transaction h old = false →
     stores_period td n old lb → system_time_is h s now →
     lower_bound_below lb now →
     cache_inv s → host_ready h hname hrel → schemas_fit T rel hrel pname a ha cols →
     ∃ s',
       versioning h (TriggerDataNode trigdata) s =
         (Ok (if bool_decide (op = TRIGGER_EVENT_UPDATE)
              then with_period td n (RangeValue (Some (now, true)) None)
                     <$> tg_newtuple trigdata
              else Some old), s') ∧
       heap_rows s' =
         history_with h (with_period td n (RangeValue lb (Some (now, false))) old)
           rel hrel a cols s ∧
       notices s' = notices s) ∧
  (∀ h (trigdata : TriggerData T) op pname hname adj n typcache old v incl now s,
     let rel := tg_relation trigdata in
     let td := RelationGetDescr rel in
     op = TRIGGER_EVENT_UPDATE ∨ op = TRIGGER_EVENT_DELETE →
     fired_before_row op trigdata pname hname adj →
     period_column_ok h rel pname n typcache →
     tg_trigtuple trigdata = Some old →
     modified_in_current_transaction h old = false →
     stores_period td n old (Some (v, incl)) → system_time_is h s now →
     timestamp_cmp_internal v now ≠ Lt →
     folded adj ≠ folded "true" → folded adj ≠ folded "false" →
     versioning h (TriggerDataNode trigdata) s =
       (Err (ERR_invalid_adjust_value adj), s)).
Proof.
  split; [done|].
  split; [|split; [|split; [|split; [|split; [|split; [|split; [|split; [|split]]]]]]]].
  - intros h td s Hev. unfold versioning.
    apply andb_false_iff in Hev as [->| ->]; simpl; [done|].
    by rewrite orb_true_r.
  - intros h td s Hev Hop. unfold versioning.
    apply andb_true_iff in Hev as [-> ->].
    apply orb_false_iff in Hop as [Hop ->]. apply orb_false_iff in Hop as [-> ->].
    done.
  - intros h td s Hev Hop Hn. unfold versioning.
    apply andb_true_iff in Hev as [-> ->]. simpl.
    replace (negb (TRIGGER_FIRED_BY_INSERT (tg_event td))
             && negb (TRIGGER_FIRED_BY_UPDATE (tg_event td))
             && negb (TRIGGER_FIRED_BY_DELETE (tg_event td))) with false
      by (by destruct (TRIGGER_FIRED_BY_INSERT _), (TRIGGER_FIRED_BY_UPDATE _),
                      (TRIGGER_FIRED_BY_DELETE _)).
    by destruct (Z.eqb_spec (tgnargs (tg_trigger td)) 3).
  - intros h context s t Hr. destruct context as [|td|]; try done.
    exists td. split; [done|]. unfold versioning in Hr.
    destruct (TRIGGER_FIRED_BEFORE _); [|done].
    destruct (TRIGGER_FIRED_FOR_ROW _); [|done]. simpl in Hr.
    destruct (TRIGGER_FIRED_BY_INSERT _), (TRIGGER_FIRED_BY_UPDATE _),
             (TRIGGER_FIRED_BY_DELETE _); simpl in Hr; try done;
      by destruct (Z.eqb_spec (tgnargs (tg_trigger td)) 3).
  - apply parse_adjust_argument_spec.
  - intros typcache lo up arg relation s Hlt. unfold adjust_system_period.
    by destruct (Z.leb_spec 0 (range_cmp_bounds lo up)); [lia|].
  - intros typcache lo up arg relation s Hge Ht Hf. unfold adjust_system_period.
    destruct (Z.leb_spec 0 (range_cmp_bounds lo up)); [|lia].
    unfold mbind, M_bind, bind. rewrite parse_adjust_argument_spec.
    by rewrite !bool_decide_eq_false_2.
  - intros h trigdata pname hname adj n typcache tuple now s.
    apply versioning_on_insert.
  - intros h trigdata op pname hname adj n typcache hrel a ha cols old lb now s rel td
      Hop Hf Hcol Hold Hmod Hst Hnow Hlt Hinv Hready Hfit.
    pose proof (adjust_system_period_no_conflict typcache lb now adj rel s Hlt) as Hadj.
    destruct Hop as [[-> [new Hnew]] | ->].
    + destruct (versioning_on_update h trigdata pname hname adj n typcache hrel a ha cols
                  old new lb now now s s Hf Hcol Hold Hnew Hmod Hst Hnow Hadj Hlt
                  Hinv Hready Hfit) as (s' & Hrun & _ & Hrows & Hsess).
      exists s'. rewrite Hnew. split; [done|]. split; [done|].
      by destruct Hsess as (_ & Hn & _).
    + destruct (versioning_on_delete h trigdata pname hname adj n typcache hrel a ha cols
                  old lb now now s s Hf Hcol Hold Hmod Hst Hnow Hadj Hlt
                  Hinv Hready Hfit) as (s' & Hrun & _ & Hrows & Hsess).
      exists s'. split; [done|]. split; [done|].
      by destruct Hsess as (_ & Hn & _).
  - intros h trigdata op pname hname adj n typcache old v incl now s rel td
      Hop Hf Hcol Hold Hmod Hst Hnow Hge Ht Hfalse.
    apply (versioning_on_adjust_error op h trigdata pname hname adj n typcache
             old (Some (v, incl)) now); try done.
    rewrite adjust_system_period_conflict by done.
    by rewrite !bool_decide_eq_false_2.
Qed.

End Validation.

(** A call for a statement-level trigger, and an UPDATE without a conflict
    by a trigger whose adjust argument is neither "true" nor "false". *)
Lemma versioning_validation_witness :
  let trigdata := mkTriggerData (T:=Z) (Z.lor TRIGGER_EVENT_UPDATE TRIGGER_EVENT_BEFORE)
                    (mkRelation 1000 "r" "public" []) None None
                    (mkTrigger 3 ["valid_time"; "r_hist"; "TRUE"]) in
  let h := sample_host 11 200 in
  let old := mkHeapTuple 10 (sample_row 1 "a" (Some (RangeValue (Some (100, true)) None))) in
  let new := mkHeapTuple 0 (sample_row 1 "b" (Some (RangeValue (Some (100, true)) None))) in
  TRIGGER_FIRED_BEFORE (tg_event trigdata)
    && TRIGGER_FIRED_FOR_ROW (tg_event trigdata) = false ∧
  (∀ h s, versioning h (TriggerDataNode trigdata) s = (Err ERR_must_be_fired_before_row, s)) ∧
  ∃ s',
    versioning h
      (TriggerDataNode (mkTriggerData (before_row TRIGGER_EVENT_UPDATE) sample_relation
                          (Some old) (Some new) (sample_trigger "maybe")))
      initial_state =
      (Ok (Some (mkHeapTuple 0
                   (sample_row 1 "b" (Some (RangeValue (Some (200, true)) None))))), s') ∧
    heap_rows s' =
      {[ 1001 := [mkHeapTuple 11
                    (sample_row 1 "a"
                       (Some (RangeValue (Some (100, true)) (Some (200, false)))))] ]}.
Proof.
  intros trigdata h old new.
  assert (TRIGGER_FIRED_BEFORE (tg_event trigdata)
            && TRIGGER_FIRED_FOR_ROW (tg_event trigdata) = false) as Hev by reflexivity.
  split; [exact Hev|]. split.
  - intros h0 s. exact (proj1 (proj2 (versioning_validation (T:=Z))) h0 trigdata s Hev).
  - destruct (versioning_validation (T:=Z)) as (_ & _ & _ & _ & _ & _ & _ & _ & _ & Hrun & _).
    destruct (Hrun h
                (mkTriggerData (before_row TRIGGER_EVENT_UPDATE) sample_relation
                   (Some old) (Some new) (sample_trigger "maybe"))
                TRIGGER_EVENT_UPDATE "valid_time" "r_hist" "maybe" 3
                (mkTypeCacheEntry 3910 TIMESTAMPTZOID) sample_history
                [1; 2; 3] [1; 2; 3] ["id"; "data"; "valid_time"]
                old (Some (100, true)) 200 initial_state)
      as (s' & Hs' & Hrows & _).
    + left. split; [reflexivity|]. by exists new.
    + by apply (sample_fired TRIGGER_EVENT_UPDATE).
    + apply sample_period_column.
    + reflexivity.
    + reflexivity.
    + reflexivity.
    + reflexivity.
    + reflexivity.
    + apply cache_inv_initial.
    + apply sample_host_ready.
    + apply sample_schemas_fit.
    + exists s'. split; [exact Hs'|]. rewrite Hrows. reflexivity.
Defined.

(** C9, where the claim fails: an INSERT by a trigger whose adjust argument
    is neither "true" nor "false" passes the checks and sets the period. *)
Lemma invalid_adjust_value_accepted_on_insert :
  let run := versioning (sample_host 10 100)
               (TriggerDataNode
                  (mkTriggerData (before_row TRIGGER_EVENT_INSERT) sample_relation
                     (Some (mkHeapTuple 0 (sample_row 1 "a" None))) None
                     (sample_trigger "maybe")))
               initial_state in
  run = (Ok (Some (mkHeapTuple 0
                     (sample_row 1 "a" (Some (RangeValue (Some (100, true)) None))))),
         initial_state) ∧
  parse_adjust_argument "maybe" (initial_state (T:=Z)) =
    (Err (ERR_invalid_adjust_value "maybe"), initial_state).
Proof. by vm_compute. Qed.
(* ===================================================================== *)
(** * Further properties of the stack of temporal contexts *)

Section TemporalContextStack.
Context {T : Type} `{!TimestampRep T}.
Implicit Types (st : ContextStore T) (c : TemporalContext T).
Implicit Types (es : list (TemporalContext T)) (sp : SpecContexts T).

(** The contexts above the root are tagged with open levels, in nesting
    order, at most one per level. *)
Lemma Rep_sublist chain es lv r :
  Rep chain es lv r →
  ∃ es' root, es = es' ++ [root] ∧ subid root = InvalidSubTransactionId ∧
              sublist (map subid es') chain.
Proof.
  induction 1 as [c Hc|s chain c es lv r _ IH Hs Hn H0|s chain c es lv r _ IH Hn H0].
  - exists [], c. by repeat split.
  - destruct IH as (es' & root & -> & Hroot & Hsub).
    exists (c :: es'), root. repeat split; [done|]. simpl. rewrite Hs.
    by apply sublist_skip.
  - destruct IH as (es' & root & Hes & Hroot & Hsub).
    exists es', root. repeat split; [done..|]. by apply sublist_cons.
Qed.

Lemma Rep_between_transactions es lv r :
  Rep [] es lv r → ∃ root, es = [root] ∧ subid root = InvalidSubTransactionId.
Proof. inversion 1; subst. by eexists. Qed.

(** [get_system_time] on a stack that represents [sp]. *)
Lemma get_system_time_visible chain st sp xact_start cur :
  store_inv chain st sp →
  get_system_time xact_start cur st = Some (default xact_start (spec_visible sp)).
Proof.
  intros Hinv.
  destruct (store_inv_visible chain st sp cur Hinv) as (ctx & c & Hget & Hc & Hview).
  unfold get_system_time. rewrite Hget. simpl. rewrite Hc. simpl.
  rewrite <- Hview. unfold context_view. by destruct (system_time_mode c).
Qed.

Lemma spec_run_app sp (tr1 tr2 : list (TxEvent T)) :
  spec_run sp (tr1 ++ tr2) = spec_run (spec_run sp tr1) tr2.
Proof. apply foldl_app. Qed.

Lemma tm_run_app (tr1 tr2 : list (TxEvent T)) chain chain' :
  tm_run chain (tr1 ++ tr2) = Some chain' →
  ∃ chain1, tm_run chain tr1 = Some chain1 ∧ tm_run chain1 tr2 = Some chain'.
Proof.
  revert chain. induction tr1 as [|ev tr1 IH]; intros chain Hrun; simpl in *.
  - by exists chain.
  - destruct (tm_step chain ev) as [chain0|]; [|done]. simpl in *. by apply IH.
Qed.

(** The levels of the specification follow the chain. *)
Lemma store_inv_levels chain st sp :
  store_inv chain st sp → length (spec_levels sp) = length chain.
Proof.
  intros (es & _ & HR). induction HR; simpl; by f_equal.
Qed.

(** Only a commit of the transaction changes the root setting. *)
Lemma spec_root_step sp (ev : TxEvent T) :
  ev ≠ EvCommit → spec_root (spec_step sp ev) = spec_root sp.
Proof.
  intros Hev. destruct ev, sp as [root [|v [|v' lv]]]; simpl; congruence.
Qed.

Lemma spec_root_run (tr : list (TxEvent T)) : ∀ sp,
  Forall (λ ev, ev ≠ EvCommit) tr → spec_root (spec_run sp tr) = spec_root sp.
Proof.
  induction tr as [|ev tr IH]; intros sp Hall; simpl; [done|].
  apply Forall_cons in Hall as [Hev Hall].
  change (spec_run sp (ev :: tr)) with (spec_run (spec_step sp ev) tr).
  rewrite IH by done. by apply spec_root_step.
Qed.

End TemporalContextStack.

Section TemporalContextUse.
Context {T : Type} `{!TimestampRep T}.
Implicit Types (st : ContextStore T) (c : TemporalContext T).

Lemma code_run_app (tr1 tr2 : list (TxEvent T)) : ∀ chain st,
  code_run chain (tr1 ++ tr2) st =
    code_run chain tr1 st ≫= λ '(chain1, st1), code_run chain1 tr2 st1.
Proof.
  induction tr1 as [|ev tr1 IH]; intros chain st; simpl; [done|].
  destruct (code_step chain ev st) as [st'|]; [|done]. simpl.
  destruct (tm_step chain ev) as [chain'|]; [|done]. simpl. apply IH.
Qed.

(** The callbacks ignore the events of PREPARE TRANSACTION. *)
Lemma prepare_transaction_id st : prepare_transaction st = Some st.
Proof. done. Qed.

(** A set at the top level of a transaction leaves two contexts: the one
    of the transaction, above the root. *)
Lemma stack_after_set (tr : list (TxEvent T)) arg cur :
  tm_run [] (tr ++ [EvSetSystemTime arg]) = Some [cur] →
  ∃ st c root,
    code_run [] (tr ++ [EvSetSystemTime arg]) PG_init = Some ([cur], st) ∧
    stack_holds st [c; root] ∧ subid c = cur ∧
    subid root = InvalidSubTransactionId.
Proof.
  intros Htm.
  destruct (tm_run_app _ _ _ _ Htm) as (chain1 & Htm1 & Htm2).
  assert (chain1 = [cur]) as ->.
  { simpl in Htm2. destruct chain1 as [|x chain1]; [done|]. simpl in Htm2.
    by simplify_eq. }
  destruct (store_inv_run tr [] [cur] PG_init spec_init store_inv_init Htm1)
    as (st0 & Hrun0 & es0 & Hst0 & HR).
  rewrite code_run_app, Hrun0. simpl.
  inversion HR as [|s chain c es lv r HR' Hc Hn H0|s chain c es lv r HR' Hn H0]; subst.
  - apply Rep_between_transactions in HR' as (root & -> & Hroot).
    destruct (set_system_time_own st0 c [root] arg (subid c) Hst0 eq_refl)
      as (st & -> & Hst).
    exists st, (apply_set arg c), root. simpl.
    split; [done|]. split; [done|]. split; [by destruct arg|done].
  - apply Rep_between_transactions in HR' as (root & Heq & Hroot). simplify_eq.
    destruct (set_system_time_push st0 root [] arg cur Hst0 ltac:(congruence))
      as (st & -> & Hst).
    exists st, (apply_set arg (set_subid cur root)), root. simpl.
    split; [done|]. split; [done|]. split; [by destruct arg|done].
Qed.



End TemporalContextUse.


(* ===================================================================== *)
(** * What every invocation keeps *)

Section KeepsRules.
Context {T : Type} `{!TimestampRep T}.
Implicit Types (s : State T) (h : Host T) (R : State T → State T → Prop).

#[export] Instance session_frame_preorder : PreOrder (session_frame (T:=T)).
Proof.
  split.
  - intros s. by repeat split.
  - intros s1 s2 s3 (Hc1 & Hn1 & Hr1 & Hd1) (Hc2 & Hn2 & Hr2 & Hd2).
    split; [congruence|]. split; [by trans (notices s2)|].
    split; [intros k; by trans (default [] (heap_rows s2 !! k))|].
    intros Hd. apply Hd2, Hd1, Hd.
Qed.

#[export] Instance cache_untouched_preorder : PreOrder (cache_untouched (T:=T)).
Proof.
  split.
  - by intros s.
  - intros s1 s2 s3 [? ?] [? ?]. split; congruence.
Qed.

#[export] Instance cache_kept_preorder : PreOrder (cache_kept (T:=T)).
Proof. split; unfold cache_kept; [by intros s|intros s1 s2 s3; auto]. Qed.

#[export] Instance trigger_footprint_preorder : PreOrder (trigger_footprint (T:=T)).
Proof.
  split.
  - intros s. split; reflexivity.
  - intros s1 s2 s3 [? ?] [? ?]. split; [by trans s2|by trans s2].
Qed.

Lemma keeps_run {A} R (m : M T A) : (∀ s, R s (m s).2) → keeps R m.
Proof. intros Hm s. by right. Qed.

Lemma keeps_ret {A} R `{!Reflexive R} (a : A) : keeps R (mret a).
Proof. intros s. by right. Qed.

Lemma keeps_err {A} R `{!Reflexive R} err : keeps R (ereport_ERROR (A:=A) err).
Proof. intros s. by right. Qed.

Lemma keeps_defined {A} R `{!Reflexive R} (o : option A) : keeps R (defined o).
Proof. intros s. destruct o; by right. Qed.

Lemma keeps_lift_res {A} R `{!Reflexive R} (r : Res T A) : keeps R (lift_res r).
Proof. intros s. by right. Qed.

Lemma keeps_bind {A B} R `{!Transitive R} (m : M T A) (k : A → M T B) :
  keeps R m → (∀ a, keeps R (k a)) → keeps R (m ≫= k).
Proof.
  intros Hm Hk s. rewrite run_bind.
  destruct (Hm s) as [Hub|HR]; destruct (m s) as [[a|err] s1]; simpl in *; try done.
  - left. by simplify_eq.
  - destruct (Hk a s1) as [Hub|HR']; [by left|right]. by trans s1.
  - by right.
Qed.

Lemma keeps_mono {A} R R' (m : M T A) :
  (∀ s s', R s s' → R' s s') → keeps R m → keeps R' m.
Proof. intros HRR Hm s. destruct (Hm s); [by left|right; auto]. Qed.

Lemma keeps_and {A} R R' (m : M T A) :
  keeps R m → keeps R' m → keeps (λ s s', R s s' ∧ R' s s') m.
Proof.
  intros Hm Hm' s. destruct (Hm s); [by left|]. destruct (Hm' s); [by left|by right].
Qed.

(** Changes of fields that the frame does not mention. *)
Lemma session_frame_fields s s' :
  st_contexts s' = st_contexts s → notices s' = notices s →
  heap_rows s' = heap_rows s → integer_datetimes s' = integer_datetimes s →
  integer_datetimes_set s' = integer_datetimes_set s →
  session_frame s s'.
Proof.
  intros Hc Hn Hr Hi His. split; [done|]. rewrite Hn, Hr. split; [done|]. split; [done|].
  unfold datetimes_cache_ok. by rewrite Hi, His.
Qed.

Lemma cache_untouched_kept s s' : cache_untouched s s' → cache_kept s s'.
Proof. intros [Hc Hp] Hinv. by apply (cache_inv_ext s). Qed.

End KeepsRules.

(** The rules for sequencing and branching. *)
Ltac keeps_go :=
  repeat first
    [ progress intros
    | assumption
    | apply keeps_ret; apply _
    | apply keeps_err; apply _
    | apply keeps_defined; apply _
    | apply keeps_lift_res; apply _
    | solve [auto with keeps]
    | apply keeps_bind; [apply _| |]
    | match goal with
      | |- keeps _ (if ?b then _ else _) => destruct b
      | |- keeps _ (match ?x with _ => _ end) => destruct x
      end ].

Create HintDb keeps.

Ltac run_prim :=
  apply keeps_run; intros s;
  unfold mbind, M_bind, bind, get_state, put_state, modify_state, defined,
    mret, M_ret, ret, ereport_ERROR, lift_res;
  repeat case_match; simplify_eq/=.

Section KeepsFrame.
Context {T : Type} `{!TimestampRep T}.
Implicit Types (s : State T) (h : Host T).

Lemma frame_set_versioning_cache x s : session_frame s (set_versioning_cache x s).
Proof. by apply session_frame_fields. Qed.

Lemma frame_set_spi_plans x s : session_frame s (set_spi_plans x s).
Proof. by apply session_frame_fields. Qed.

Lemma frame_read_entry k : keeps session_frame (read_entry (T:=T) k).
Proof. unfold read_entry. run_prim; reflexivity. Qed.

Lemma frame_write_entry k f : keeps session_frame (write_entry (T:=T) k f).
Proof.
  unfold write_entry. run_prim; try reflexivity. apply frame_set_versioning_cache.
Qed.

Lemma frame_heap_openrv h name : keeps session_frame (heap_openrv h name).
Proof. unfold heap_openrv. run_prim; reflexivity. Qed.

Lemma frame_SPI_connect h : keeps session_frame (SPI_connect h).
Proof. unfold SPI_connect. run_prim; reflexivity. Qed.

Lemma frame_SPI_finish h : keeps session_frame (SPI_finish h).
Proof. unfold SPI_finish. run_prim; reflexivity. Qed.

Lemma frame_SPI_prepare h plan : keeps session_frame (SPI_prepare h plan).
Proof.
  unfold SPI_prepare. run_prim; try reflexivity. apply frame_set_spi_plans.
Qed.

Lemma frame_SPI_keepplan h p : keeps session_frame (SPI_keepplan h p).
Proof. unfold SPI_keepplan. run_prim; reflexivity. Qed.

Lemma frame_SPI_freeplan h p : keeps session_frame (SPI_freeplan h p).
Proof.
  unfold SPI_freeplan. run_prim; try reflexivity. apply frame_set_spi_plans.
Qed.

Lemma frame_SPI_execp h plan values : keeps session_frame (SPI_execp h plan values).
Proof.
  unfold SPI_execp. run_prim; try reflexivity.
  split; [done|]. split; [done|]. split; [|done].
  intros k. unfold set_heap_rows. simpl.
  match goal with
  | |- context [<[?key := _]> _] => destruct (decide (k = key)) as [->|Hne]
  end.
  - rewrite lookup_insert_eq. simpl. by apply prefix_app_r.
  - by rewrite lookup_insert_ne.
Qed.

End KeepsFrame.

#[export] Hint Resolve frame_read_entry frame_write_entry frame_heap_openrv
  frame_SPI_connect frame_SPI_finish frame_SPI_prepare frame_SPI_keepplan
  frame_SPI_freeplan frame_SPI_execp : keeps.

Section KeepsFrameCache.
Context {T : Type} `{!TimestampRep T}.
Implicit Types (s : State T) (h : Host T).

Lemma frame_lookup_versioning_hash_entry k :
  keeps session_frame (lookup_versioning_hash_entry (T:=T) k).
Proof.
  apply keeps_run. intros s. rewrite lookup_versioning_hash_entry_run.
  destruct (entry_at k s); [reflexivity|]. apply frame_set_versioning_cache.
Qed.

Lemma frame_cached_data_is_stale e hrel td htd :
  keeps session_frame (cached_data_is_stale (T:=T) e hrel td htd).
Proof. unfold cached_data_is_stale. keeps_go. Qed.

Lemma frame_invalidate_cached_data h k e :
  keeps session_frame (invalidate_cached_data h k e).
Proof. unfold invalidate_cached_data. keeps_go. Qed.

Lemma frame_check_cached_data h k rel hrel :
  keeps session_frame (check_cached_data h k rel hrel).
Proof.
  unfold check_cached_data.
  pose proof frame_cached_data_is_stale. pose proof frame_invalidate_cached_data.
  keeps_go.
Qed.

Lemma frame_fill_versioning_hash_entry h k rel hrel td pname :
  keeps session_frame (fill_versioning_hash_entry h k rel hrel td pname).
Proof. unfold fill_versioning_hash_entry. keeps_go. Qed.

Lemma frame_execute_history_plan h k tuple td :
  keeps session_frame (execute_history_plan h k tuple td).
Proof. unfold execute_history_plan. keeps_go. Qed.

Lemma frame_insert_history_row h tuple rel hname pname :
  keeps session_frame (insert_history_row h tuple rel hname pname).
Proof.
  unfold insert_history_row.
  pose proof frame_lookup_versioning_hash_entry. pose proof frame_check_cached_data.
  pose proof frame_fill_versioning_hash_entry. pose proof frame_execute_history_plan.
  keeps_go.
Qed.

End KeepsFrameCache.

#[export] Hint Resolve frame_insert_history_row : keeps.

Section OutsideArchival.
Context {T : Type} `{!TimestampRep T}.
Implicit Types (s : State T) (h : Host T).

#[export] Instance outside_archival_preorder : PreOrder (outside_archival (T:=T)).
Proof.
  split.
  - intros s. by repeat split.
  - intros s1 s2 s3 (Hf1 & Hc1 & Hr1) (Hf2 & Hc2 & Hr2).
    split; [by trans s2|]. split; [by trans s2|]. congruence.
Qed.

Lemma keeps_bind_defined {A B} (R : State T → State T → Prop) `{!PreOrder R}
    (o : option A) (k : A → M T B) :
  (∀ a, o = Some a → keeps R (k a)) → keeps R (defined o ≫= k).
Proof.
  intros Hk. destruct o as [a|].
  - intros s. rewrite run_bind. simpl. by apply Hk.
  - intros s. by left.
Qed.

Lemma outside_get_system_time_M h : keeps outside_archival (get_system_time_M h).
Proof. unfold get_system_time_M. run_prim; reflexivity. Qed.

Lemma outside_parse_adjust_argument arg :
  keeps outside_archival (parse_adjust_argument (T:=T) arg).
Proof. unfold parse_adjust_argument. keeps_go. Qed.

Lemma outside_ereport_WARNING n : keeps outside_archival (ereport_WARNING (T:=T) n).
Proof.
  apply keeps_run. intros s. split; [|done].
  split; [done|]. split; [by apply prefix_app_r|]. by split.
Qed.

Lemma outside_next_timestamp (t : T) : keeps outside_archival (next_timestamp t).
Proof.
  apply keeps_run. intros s. rewrite next_timestamp_unfold. cbv zeta. simpl.
  destruct (integer_datetimes_set s) eqn:Eset; [reflexivity|].
  split; [|done]. split; [done|]. split; [done|]. split; [done|]. by intros _ _.
Qed.

Lemma outside_adjust_system_period typcache (lo up : RangeBound T) arg rel :
  keeps outside_archival (adjust_system_period typcache lo up arg rel).
Proof.
  unfold adjust_system_period.
  pose proof outside_parse_adjust_argument. pose proof outside_ereport_WARNING.
  pose proof outside_next_timestamp.
  keeps_go.
Qed.

Lemma outside_modify_tuple rel (tuple : HeapTupleData T) n range :
  keeps outside_archival (modify_tuple rel tuple n range).
Proof. unfold modify_tuple. keeps_go. Qed.

Lemma outside_make_range_M (lo up : RangeBound T) empty :
  keeps outside_archival (make_range_M lo up empty).
Proof. unfold make_range_M. keeps_go. Qed.

Lemma outside_deserialize_system_period (tuple : HeapTupleData T) rel n pname typcache :
  keeps outside_archival (deserialize_system_period tuple rel n pname typcache).
Proof. unfold deserialize_system_period, DatumGetRangeTypeP. keeps_go. Qed.

Lemma outside_get_period_typcache h attr rel :
  keeps outside_archival (get_period_typcache h attr rel).
Proof. unfold get_period_typcache. keeps_go. Qed.

End OutsideArchival.

(** An invocation of the trigger function, for a relation between states
    that the code outside the archival keeps. *)
Section Invocation.
Context {T : Type} `{!TimestampRep T}.
Variable R : State T → State T → Prop.
Context `{!PreOrder R}.
Hypothesis R_outside : ∀ s s' : State T, outside_archival s s' → R s s'.
Implicit Types (s : State T) (h : Host T).

Lemma keeps_outside {A} (m : M T A) : keeps outside_archival m → keeps R m.
Proof. by apply keeps_mono. Qed.

Lemma invocation_insert h trigdata typcache n :
  keeps R (versioning_insert h trigdata typcache n).
Proof.
  unfold versioning_insert.
  pose proof (λ h, keeps_outside _ (outside_get_system_time_M h)).
  pose proof (λ lo up e, keeps_outside _ (outside_make_range_M lo up e)).
  pose proof (λ rel tuple n r, keeps_outside _ (outside_modify_tuple rel tuple n r)).
  keeps_go.
Qed.

Lemma invocation_update h trigdata typcache n pname hname adj :
  (∀ tuple, keeps R (insert_history_row h tuple (tg_relation trigdata) hname pname)) →
  keeps R (versioning_update h trigdata typcache n pname hname adj).
Proof.
  intros Harch. unfold versioning_update.
  pose proof (λ h, keeps_outside _ (outside_get_system_time_M h)).
  pose proof (λ lo up e, keeps_outside _ (outside_make_range_M lo up e)).
  pose proof (λ rel tuple n r, keeps_outside _ (outside_modify_tuple rel tuple n r)).
  pose proof (λ tuple rel n pname tc,
                keeps_outside _ (outside_deserialize_system_period tuple rel n pname tc)).
  pose proof (λ tc lo up arg rel,
                keeps_outside _ (outside_adjust_system_period tc lo up arg rel)).
  keeps_go.
Qed.

Lemma invocation_delete h trigdata typcache n pname hname adj :
  (∀ tuple, keeps R (insert_history_row h tuple (tg_relation trigdata) hname pname)) →
  keeps R (versioning_delete h trigdata typcache n pname hname adj).
Proof.
  intros Harch. unfold versioning_delete.
  pose proof (λ h, keeps_outside _ (outside_get_system_time_M h)).
  pose proof (λ lo up e, keeps_outside _ (outside_make_range_M lo up e)).
  pose proof (λ rel tuple n r, keeps_outside _ (outside_modify_tuple rel tuple n r)).
  pose proof (λ tuple rel n pname tc,
                keeps_outside _ (outside_deserialize_system_period tuple rel n pname tc)).
  pose proof (λ tc lo up arg rel,
                keeps_outside _ (outside_adjust_system_period tc lo up arg rel)).
  keeps_go.
Qed.

(** The archival is reached with the second argument of the trigger as the
    name of the history relation and with a period column that is a column
    of the relation. *)
Lemma invocation_versioning h context :
  (∀ trigdata tuple pname hname,
     context = TriggerDataNode trigdata →
     tgargs (tg_trigger trigdata) !! 1%nat = Some hname →
     0 < SPI_fnumber (RelationGetDescr (tg_relation trigdata)) pname →
     keeps R (insert_history_row h tuple (tg_relation trigdata) hname pname)) →
  keeps R (versioning h context).
Proof.
  intros Harch.
  unfold versioning. destruct context as [|trigdata|]; [keeps_go| |keeps_go].
  destruct (_ || _); [keeps_go|]. destruct (_ && _); [keeps_go|].
  destruct (negb _); [keeps_go|]. cbv zeta.
  apply keeps_bind_defined; [apply _|]. intros pname _.
  destruct (_ =? SPI_ERROR_NOATTRIBUTE); [keeps_go|].
  apply keeps_bind_defined; [apply _|]. intros attr Hattr.
  assert (0 < SPI_fnumber (RelationGetDescr (tg_relation trigdata)) pname) as Hpos.
  { unfold TupleDescAttr in Hattr.
    destruct (Z.ltb_spec (SPI_fnumber (RelationGetDescr (tg_relation trigdata)) pname - 1) 0);
      [done|lia]. }
  destruct (attisdropped attr); [keeps_go|]. destruct (negb _); [keeps_go|].
  apply keeps_bind; [apply _|apply keeps_outside, outside_get_period_typcache|].
  intros typcache.
  destruct (TRIGGER_FIRED_BY_INSERT _); [apply invocation_insert|].
  apply keeps_bind_defined; [apply _|]. intros hname Hhname.
  apply keeps_bind_defined; [apply _|]. intros adj _.
  destruct (TRIGGER_FIRED_BY_UPDATE _).
  - apply invocation_update. intros tuple. by apply Harch.
  - apply invocation_delete. intros tuple. by apply Harch.
Qed.

End Invocation.

Section ArchivalTarget.
Context {T : Type} `{!TimestampRep T}.
Implicit Types (s : State T) (h : Host T) (e : VersioningHashEntry).

(** [execute_history_plan] with an entry whose plan inserts into
    [target]. *)
Lemma execute_history_plan_target h k tuple td e s target :
  entry_at k s = Some e →
  (natts e ≠ 0 → ∀ p pl, insert_history_plan e = Some p → spi_plans s !! p = Some pl →
                         plan_relid pl = target) →
  ∀ j, j ≠ target →
       heap_rows (execute_history_plan h k tuple td s).2 !! j = heap_rows s !! j.
Proof.
  intros Hk Hplan j Hj. rewrite (execute_history_plan_run h k tuple td e s Hk).
  destruct (Z.eqb_spec (natts e) 0) as [|Hn]; [done|].
  destruct (attnums e) as [a|]; [|done].
  destruct (_ <? _); [done|].
  destruct (insert_history_plan e) as [p|] eqn:Hp; [|done].
  destruct (spi_plans s !! p) as [pl|] eqn:Hpl; [|done].
  destruct (_ =? SPI_OK_INSERT); [|done].
  simpl. change (heap_rows (set_heap_rows ?x s)) with x.
  rewrite lookup_insert_ne; [done|]. rewrite (Hplan Hn p pl eq_refl Hpl). done.
Qed.

(** [fill_versioning_hash_entry] writes no row, and the plan that it saves
    inserts into the history relation at hand. *)
Lemma fill_versioning_hash_entry_target h rel hrel pname e0 sA :
  let k := RelationGetRelid rel in
  let run := fill_versioning_hash_entry h k rel hrel (RelationGetDescr rel) pname sA in
  entry_at k sA = Some e0 →
  heap_rows run.2 = heap_rows sA ∧
  (∀ u, run.1 = Ok u →
     ∃ eB, entry_at k run.2 = Some eB ∧
           (natts eB ≠ 0 → ∀ p pl, insert_history_plan eB = Some p →
                                   spi_plans run.2 !! p = Some pl →
                                   plan_relid pl = RelationGetRelid hrel)).
Proof.
  intros k run Hk. unfold run.
  rewrite (fill_versioning_hash_entry_run h k rel hrel pname e0 sA Hk).
  destruct (_ <? 0); [done|].
  destruct (fill_common_attributes _ _ _ _ _ _) as [[[a ha] cols]|err]; [|done].
  destruct (Z.eqb_spec (Z.of_nat (length a)) 0) as [E0|E0].
  { simpl. split; [done|]. intros _ _. exists (set_natts 0 e0).
    split; [apply entry_at_with_entry|]. by intros []. }
  destruct (negb (host_SPI_prepare h =? 0)); [done|]. cbv zeta.
  destruct (negb (host_SPI_keepplan h =? 0)); [done|].
  simpl. split; [done|]. intros _ _. eexists. split; [apply entry_at_with_entry|].
  simpl. intros _ p pl Hp Hpl. simplify_eq.
  rewrite lookup_insert_eq in Hpl. by simplify_eq.
Qed.

(** The archival writes to the history relation that the server finds under
    the given name and to no other relation, whatever its outcome. *)
Lemma insert_history_row_target h tuple rel hrel hname pname s :
  cache_inv s → host_relations h !! hname = Some hrel →
  ∀ j, j ≠ RelationGetRelid hrel →
       heap_rows (insert_history_row h tuple rel hname pname s).2 !! j = heap_rows s !! j.
Proof.
  intros Hinv Hrel j Hj. rewrite insert_history_row_tail, Hrel.
  set (k := RelationGetRelid rel).
  (* after the check, with the entry [eA] in the state [sA] *)
  assert (∀ found eA sA,
            entry_at k sA = Some eA →
            (found = true → natts eA ≠ 0 →
             ∀ p pl, insert_history_plan eA = Some p → spi_plans sA !! p = Some pl →
                     plan_relid pl = RelationGetRelid hrel) →
            heap_rows (history_row_tail h tuple rel hrel pname found sA).2 !! j
              = heap_rows sA !! j) as Htail.
  { intros found eA sA HkA Hplan. unfold history_row_tail. fold k.
    destruct (negb (host_SPI_connect h =? SPI_OK_CONNECT)); [done|].
    assert (∃ r sB eB,
              (if negb found
               then fill_versioning_hash_entry h k rel hrel (RelationGetDescr rel) pname sA
               else (Ok tt, sA)) = (r, sB) ∧
              heap_rows sB = heap_rows sA ∧
              (∀ u, r = Ok u →
                    entry_at k sB = Some eB ∧
                    (natts eB ≠ 0 →
                     ∀ p pl, insert_history_plan eB = Some p → spi_plans sB !! p = Some pl →
                             plan_relid pl = RelationGetRelid hrel)))
      as (r & sB & eB & -> & HrowsB & HB).
    { destruct found; simpl.
      - exists (Ok tt), sA, eA. split; [done|]. split; [done|]. intros _ _. split; [done|].
        by apply Hplan.
      - destruct (fill_versioning_hash_entry_target h rel hrel pname eA sA HkA)
          as [Hrows Hentry]. fold k in Hrows, Hentry.
        destruct (fill_versioning_hash_entry h k rel hrel _ pname sA) as [r sB] eqn:Efill.
        simpl in *. destruct r as [u|err].
        + destruct (Hentry u eq_refl) as (eB & HeB & HplanB).
          exists (Ok u), sB, eB. split; [done|]. split; [done|]. by intros _ _.
        + exists (Err err), sB, eA. split; [done|]. split; [done|]. by intros. }
    destruct r as [u|err]; [|simpl; by rewrite HrowsB].
    destruct (HB u eq_refl) as [HeB HplanB].
    pose proof (execute_history_plan_target h k tuple (RelationGetDescr rel) eB sB
                  (RelationGetRelid hrel) HeB HplanB j Hj) as Hexec.
    destruct (execute_history_plan h k tuple _ sB) as [[[]|err] sC]; simpl in *.
    - destruct (negb (host_SPI_finish h =? SPI_OK_FINISH)); simpl;
        by rewrite Hexec, HrowsB.
    - by rewrite Hexec, HrowsB. }
  destruct (entry_at k s) as [e|] eqn:Ek.
  - assert (natts e ≠ -1 → entry_valid s e) as Hvalid
      by (intros Hn; destruct Hinv as (Hv & _); by apply (Hv k)).
    assert (natts e ≠ -1 → is_Some (tupdesc e) ∧ is_Some (history_tupdesc e)) as Hdesc.
    { intros Hn.
      destruct (Hvalid Hn) as (? & ? & ? & ? & ? & ? & ? & ? & ? & -> & -> & _). eauto. }
    rewrite (check_cached_data_run h k rel hrel e s Ek Hdesc).
    destruct (needs_rebuild e hrel _ _) eqn:Eneed.
    + rewrite (invalidate_cached_data_run h k e s Ek).
      destruct (insert_history_plan e) as [p|].
      * destruct (host_SPI_freeplan h =? 0).
        -- erewrite Htail; [done|apply entry_at_with_entry|done].
        -- done.
      * erewrite Htail; [done|apply entry_at_with_entry|done].
    + apply (Htail true e s Ek). intros _ Hn0 p pl Hp Hpl.
      unfold needs_rebuild in Eneed.
      apply orb_false_iff in Eneed as [Eneed _].
      apply orb_false_iff in Eneed as [Eneed _].
      apply orb_false_iff in Eneed as [En Ehrel].
      apply bool_decide_eq_false_1 in En.
      apply negb_false_iff, bool_decide_eq_true_1 in Ehrel.
      destruct (Hvalid En)
        as (? & ? & ? & ? & ? & p' & pl' & ? & ? & _ & _ & _ & _ & _ & Hp' & Hpl' & _ & Hrelid & _).
      assert (p' = p) as -> by congruence. assert (pl' = pl) as -> by congruence.
      congruence.
  - erewrite Htail; [done|apply entry_at_with_entry|done].
Qed.

End ArchivalTarget.

(* ===================================================================== *)
(** * Further properties of the trigger function *)

Section TriggerInvariants.
Context {T : Type} `{!TimestampRep T}.
Implicit Types (s : State T) (h : Host T).

#[export] Instance writes_only_to_preorder target : PreOrder (writes_only_to (T:=T) target).
Proof.
  split.
  - by intros s Hinv.
  - intros s1 s2 s3 H12 H23 Hinv. destruct (H12 Hinv) as [Hinv2 Hr2].
    destruct (H23 Hinv2) as [Hinv3 Hr3]. split; [done|].
    intros k Hk. by rewrite Hr3, Hr2.
Qed.

#[export] Instance rows_unchanged_preorder : PreOrder (rows_unchanged (T:=T)).
Proof.
  split; [by intros s|]. intros s1 s2 s3. unfold rows_unchanged. congruence.
Qed.

(** The archival keeps the invariant of the cache, whatever its outcome. *)
Lemma footprint_insert_history_row h tuple rel hname pname :
  0 < SPI_fnumber (RelationGetDescr rel) pname →
  keeps trigger_footprint (insert_history_row h tuple rel hname pname).
Proof.
  intros Hpos. apply keeps_and; [apply frame_insert_history_row|].
  apply keeps_run. intros s Hinv.
  destruct (host_relations h !! hname) as [hrel|] eqn:Hrel.
  - by destruct (cache_policy_outcome h tuple rel hrel hname pname s Hinv Hrel Hpos).
  - by rewrite insert_history_row_unfold, Hrel.
Qed.

Lemma footprint_versioning h context : keeps trigger_footprint (versioning h context).
Proof.
  apply invocation_versioning; [apply _| |].
  - intros s s' (Hf & Hc & _). split; [done|]. by apply cache_untouched_kept.
  - intros trigdata tuple pname hname _ _ Hpos. by apply footprint_insert_history_row.
Qed.

(** The invariant of the metadata cache under every invocation.  It holds
    when the library has been loaded, and every call of the trigger
    function, whatever it is called with and whether it returns a tuple or
    fails, either runs into undefined behaviour of the C code or leaves a
    cache that satisfies the invariant again: entries not marked invalid are
    complete, every entry's plan is a saved plan, and no two entries share a
    plan. *)
Theorem versioning_keeps_cache_invariant :
  cache_inv (initial_state (T:=T)) ∧
  ∀ h (context : CallContext T) s,
    cache_inv s →
    (versioning h context s).1 = Err ERR_undefined_behaviour ∨
    cache_inv (versioning h context s).2.
Proof.
  split; [apply cache_inv_initial|].
  intros h context s Hinv.
  destruct (footprint_versioning h context s) as [Hub|[_ Hkept]]; [by left|right].
  by apply Hkept.
Qed.

(** What the trigger function never touches.  Every call, whatever it is
    called with and whatever it returns, unless it runs into undefined
    behaviour of the C code: leaves the stack of temporal contexts as it is;
    only adds notices, at the end; only adds rows, at the end of a relation,
    and never changes or removes one; and keeps the cached value of
    integer_datetimes right. *)
Theorem versioning_session_frame :
  ∀ h (context : CallContext T) s,
    let s' := (versioning h context s).2 in
    (versioning h context s).1 = Err ERR_undefined_behaviour ∨
    (st_contexts s' = st_contexts s ∧
     notices s `prefix_of` notices s' ∧
     (∀ k, default [] (heap_rows s !! k) `prefix_of` default [] (heap_rows s' !! k)) ∧
     (datetimes_cache_ok s → datetimes_cache_ok s')).
Proof.
  intros h context s s'.
  destruct (footprint_versioning h context s) as [Hub|[Hframe _]]; [by left|by right].
Qed.

(** Where the trigger function writes.  From a cache that satisfies its
    invariant, a call for a trigger whose second argument is [hname],
    unless it runs into undefined behaviour of the C code, leaves the rows of
    every relation as they are, except those of the relation that the server
    finds under the name [hname] at that time; a plan cached for another
    history relation is not used.  When the server finds no relation of
    that name no row is written at all. *)
Theorem versioning_writes_only_history :
  ∀ h (trigdata : TriggerData T) hname s,
    let run := versioning h (TriggerDataNode trigdata) s in
    tgargs (tg_trigger trigdata) !! 1%nat = Some hname →
    cache_inv s →
    run.1 = Err ERR_undefined_behaviour ∨
    match host_relations h !! hname with
    | Some hrel => ∀ k, k ≠ RelationGetRelid hrel → heap_rows run.2 !! k = heap_rows s !! k
    | None => heap_rows run.2 = heap_rows s
    end.
Proof.
  intros h trigdata hname s run Hhname Hinv. unfold run.
  destruct (host_relations h !! hname) as [hrel|] eqn:Hrel.
  - assert (keeps (writes_only_to (RelationGetRelid hrel))
              (versioning h (TriggerDataNode trigdata))) as Hkeeps.
    { apply invocation_versioning; [apply _| |].
      - intros s0 s' (_ & Hc & Hr) Hinv0.
        split; [by apply (cache_untouched_kept s0)|]. intros k _. by rewrite Hr.
      - intros trigdata' tuple pname hname' Hctx Hh Hpos. simplify_eq.
        apply keeps_run. intros s0 Hinv0. split.
        + by destruct (cache_policy_outcome h tuple _ hrel _ pname s0 Hinv0 Hrel Hpos).
        + by apply insert_history_row_target. }
    destruct (Hkeeps s) as [Hub|Hw]; [by left|right]. by apply Hw.
  - assert (keeps rows_unchanged (versioning h (TriggerDataNode trigdata))) as Hkeeps.
    { apply invocation_versioning; [apply _| |].
      - by intros s0 s' (_ & _ & Hr).
      - intros trigdata' tuple pname hname' Hctx Hh Hpos. simplify_eq.
        apply keeps_run. intros s0. by rewrite insert_history_row_unfold, Hrel. }
    destruct (Hkeeps s) as [Hub|Hw]; [by left|by right].
Qed.

End TriggerInvariants.

Lemma versioning_keeps_cache_invariant_witness :
  let old := mkHeapTuple 10 (sample_row 1 "a" (Some (RangeValue (Some (100, true)) None))) in
  let new := mkHeapTuple 0 (sample_row 1 "b" (Some (RangeValue (Some (100, true)) None))) in
  let run := versioning (sample_host 11 200)
               (TriggerDataNode
                  (mkTriggerData (before_row TRIGGER_EVENT_UPDATE) sample_relation
                     (Some old) (Some new) (sample_trigger "false")))
               initial_state in
  cache_inv (initial_state (T:=Z)) ∧ is_Some (versioning_cache run.2) ∧ cache_inv run.2.
Proof.
  intros old new run.
  destruct (versioning_keeps_cache_invariant (T:=Z)) as [Hinit Hstep].
  split; [exact Hinit|]. split; [vm_compute; by eexists|].
  destruct (Hstep (sample_host 11 200)
              (TriggerDataNode
                 (mkTriggerData (before_row TRIGGER_EVENT_UPDATE) sample_relation
                    (Some old) (Some new) (sample_trigger "false")))
              initial_state Hinit) as [Hub|Hinv].
  - vm_compute in Hub. discriminate Hub.
  - exact Hinv.
Defined.

Lemma versioning_writes_only_history_witness :
  let old := mkHeapTuple 10 (sample_row 1 "a" (Some (RangeValue (Some (100, true)) None))) in
  let trigdata := mkTriggerData (before_row TRIGGER_EVENT_DELETE) sample_relation
                    (Some old) None (sample_trigger "false") in
  let run := versioning (sample_host 11 200) (TriggerDataNode trigdata) initial_state in
  run.1 = Ok (Some old) ∧ is_Some (heap_rows run.2 !! 1001) ∧
  ∀ k, k ≠ 1001 → heap_rows run.2 !! k = None.
Proof.
  intros old trigdata run.
  split; [by vm_compute|]. split; [vm_compute; by eexists|].
  destruct (versioning_writes_only_history (sample_host 11 200) trigdata "r_hist"
              initial_state eq_refl cache_inv_initial) as [Hub|Hrows].
  - vm_compute in Hub. discriminate Hub.
  - exact Hrows.
Defined.

Section PeriodColumnChecks.
Context {T : Type} `{!TimestampRep T}.
Implicit Types (s : State T) (h : Host T).

Lemma SPI_fnumber_from_dropped td : ∀ res fname,
  (∀ attr, attr ∈ td → attname attr = fname → attisdropped attr = true) →
  SPI_fnumber_from res td fname = None.
Proof.
  induction td as [|attr0 td IH]; intros res fname Hall; simpl; [done|].
  destruct (bool_decide (attname attr0 = fname) && negb (attisdropped attr0)) eqn:E.
  - apply andb_true_iff in E as [E1 E2].
    apply bool_decide_eq_true_1 in E1. apply negb_true_iff in E2.
    rewrite (Hall attr0) in E2; [done|set_solver|done].
  - apply IH. intros attr Hin. apply Hall. set_solver.
Qed.

Lemma SPI_fnumber_no_attribute td fname :
  (∀ attr, attr ∈ td → attname attr = fname → attisdropped attr = true) →
  SystemAttributeByName fname = None →
  SPI_fnumber td fname = SPI_ERROR_NOATTRIBUTE.
Proof.
  intros Hall Hsys. unfold SPI_fnumber.
  by rewrite (SPI_fnumber_from_dropped td 0 fname Hall), Hsys.
Qed.

(** The checks of the period column.  A call BEFORE ROW for INSERT, UPDATE
    or DELETE with three arguments fails, with the state as it was and
    before the operation is looked at, when the first argument is neither
    the name of a live column of the relation nor the name of a system
    column (a dropped column counts as missing), when the column of that
    name is an array, when its type is unknown to the type cache, when its
    type is not a range type, and when it is a range over another type than
    timestamp with time zone.  For the name of a system column (ctid, xmin,
    cmin, xmax, cmax, tableoid) that no live column carries there is no
    error: [SPI_fnumber] returns the negative number of the system column,
    which is not [SPI_ERROR_NOATTRIBUTE], and the code reads the attribute
    array of the descriptor below its first element, which is undefined
    behaviour in C. *)
Theorem period_column_checks :
  ∀ h (trigdata : TriggerData T) op pname hname adj s,
    let rel := tg_relation trigdata in
    let td := RelationGetDescr rel in
    let run := versioning h (TriggerDataNode trigdata) s in
    op = TRIGGER_EVENT_INSERT ∨ op = TRIGGER_EVENT_UPDATE ∨ op = TRIGGER_EVENT_DELETE →
    fired_before_row op trigdata pname hname adj →
    ((∀ attr, attr ∈ td → attname attr = pname → attisdropped attr = true) →
     SystemAttributeByName pname = None →
     run = (Err (ERR_column_does_not_exist pname (RelationGetRelationName rel)), s)) ∧
    (∀ attno,
       (∀ attr, attr ∈ td → attname attr = pname → attisdropped attr = true) →
       SystemAttributeByName pname = Some attno →
       SPI_fnumber td pname = attno ∧ attno < 0 ∧
       run = (Err ERR_undefined_behaviour, s)) ∧
    (∀ attr,
       0 < SPI_fnumber td pname →
       TupleDescAttr td (SPI_fnumber td pname - 1) = Some attr →
       (attndims attr ≠ 0 →
        run = (Err (ERR_period_is_an_array pname (RelationGetRelationName rel)), s)) ∧
       (attndims attr = 0 → host_types h !! atttypid attr = None →
        run = (Err (ERR_cache_lookup_failed_for_type (atttypid attr)), s)) ∧
       (∀ type,
          attndims attr = 0 → host_types h !! atttypid attr = Some type →
          (typtype type ≠ TYPTYPE_RANGE →
           run = (Err (ERR_period_is_not_a_range (attname attr)
                         (RelationGetRelationName rel) (atttypid attr)), s)) ∧
          (typtype type = TYPTYPE_RANGE → rngelemtype type ≠ TIMESTAMPTZOID →
           run = (Err (ERR_period_is_not_a_timestamptz_range (attname attr)
                         (RelationGetRelationName rel) (rngelemtype type)), s)))).
Proof.
  intros h trigdata op pname hname adj s rel td run Hop Hf.
  pose proof (fired_by_insert _ _ _ _ _ Hf) as (Hi & Hu & Hd).
  pose proof Hf as (Hb & Hr & _ & Htrig).
  assert (run =
            (let n := SPI_fnumber td pname in
             if n =? SPI_ERROR_NOATTRIBUTE then
               ereport_ERROR (ERR_column_does_not_exist pname (RelationGetRelationName rel))
             else
               period_attr ← defined (TupleDescAttr td (n - 1));
               if attisdropped period_attr then
                 ereport_ERROR (ERR_column_does_not_exist pname
                                  (RelationGetRelationName rel))
               else if negb (attndims period_attr =? 0) then
                 ereport_ERROR (ERR_period_is_an_array pname (RelationGetRelationName rel))
               else
                 typcache ← get_period_typcache h period_attr rel;
                 if TRIGGER_FIRED_BY_INSERT (tg_event trigdata) then
                   versioning_insert h trigdata typcache n
                 else if TRIGGER_FIRED_BY_UPDATE (tg_event trigdata) then
                   versioning_update h trigdata typcache n pname hname adj
                 else versioning_delete h trigdata typcache n pname hname adj) s) as ->.
  { unfold run, versioning. rewrite Hb, Hr. simpl.
    replace (negb (TRIGGER_FIRED_BY_INSERT (tg_event trigdata))
             && negb (TRIGGER_FIRED_BY_UPDATE (tg_event trigdata))
             && negb (TRIGGER_FIRED_BY_DELETE (tg_event trigdata))) with false
      by (rewrite Hi, Hu, Hd; by destruct Hop as [-> | [-> | ->]]).
    rewrite Htrig. simpl. rewrite run_bind. simpl.
    fold rel. fold td.
    destruct (_ =? SPI_ERROR_NOATTRIBUTE); [done|].
    rewrite !run_bind. destruct (defined _ s) as [[attr|err] s1]; [|done].
    destruct (attisdropped attr); [done|]. destruct (negb _); [done|].
    rewrite !run_bind. destruct (get_period_typcache _ _ _ s1) as [[tc|err] s2]; [|done].
    destruct (TRIGGER_FIRED_BY_INSERT _); [done|].
    rewrite run_bind. simpl. rewrite run_bind. simpl. done. }
  cbv zeta. split; [|split].
  - intros Hall Hsys. rewrite (SPI_fnumber_no_attribute td pname Hall Hsys). done.
  - intros attno Hall Hsys.
    assert (SPI_fnumber td pname = attno) as Hn
      by (unfold SPI_fnumber; by rewrite (SPI_fnumber_from_dropped td 0 pname Hall), Hsys).
    assert (-6 <= attno < 0) as Hneg.
    { unfold SystemAttributeByName in Hsys.
      repeat (case_bool_decide; [injection Hsys as <-; lia|]). done. }
    split; [done|]. split; [lia|]. rewrite Hn.
    destruct (Z.eqb_spec attno SPI_ERROR_NOATTRIBUTE) as [E|_];
      [unfold SPI_ERROR_NOATTRIBUTE in E; lia|].
    rewrite run_bind. unfold TupleDescAttr.
    by destruct (Z.ltb_spec (attno - 1) 0); [|lia].
  - intros attr Hpos Hattr.
    destruct (Z.eqb_spec (SPI_fnumber td pname) SPI_ERROR_NOATTRIBUTE) as [E|_];
      [unfold SPI_ERROR_NOATTRIBUTE in E; lia|].
    rewrite run_bind, Hattr. simpl.
    assert (attisdropped attr = false) as ->.
    { destruct (SPI_fnumber_positive _ _ Hpos) as (attr' & _ & _ & Hl & Hat).
      by simplify_eq. }
    split; [|split].
    + intros Hdims. by destruct (Z.eqb_spec (attndims attr) 0).
    + intros -> Hty. simpl. rewrite run_bind. unfold get_period_typcache.
      by rewrite Hty.
    + intros type -> Hty. simpl. rewrite run_bind. unfold get_period_typcache.
      rewrite Hty. split.
      * intros Hnr. by rewrite bool_decide_eq_false_2.
      * intros Hrange Helem. rewrite bool_decide_eq_true_2 by done. simpl.
        by destruct (Z.eqb_spec (rngelemtype type) TIMESTAMPTZOID).
Qed.

End PeriodColumnChecks.

Section StoredPeriodChecks.
Context {T : Type} `{!TimestampRep T}.
Implicit Types (s : State T) (h : Host T).

(** Rows without an open period.  An UPDATE or DELETE of a row that the
    current transaction has not modified fails, before the system time and
    the adjust argument are read and with the state as it was, so without a
    history row, when the period of the row is NULL, and when it is the
    empty range or a range with an upper bound. *)
Theorem closed_period_rejected :
  ∀ h (trigdata : TriggerData T) op pname hname adj n typcache old s,
    let rel := tg_relation trigdata in
    let td := RelationGetDescr rel in
    let run := versioning h (TriggerDataNode trigdata) s in
    op = TRIGGER_EVENT_UPDATE ∨ op = TRIGGER_EVENT_DELETE →
    fired_before_row op trigdata pname hname adj →
    period_column_ok h rel pname n typcache →
    tg_trigtuple trigdata = Some old →
    modified_in_current_transaction h old = false →
    (SPI_getbinval old td n = None →
     run = (Err (ERR_period_must_not_be_null pname (RelationGetRelationName rel)), s)) ∧
    (SPI_getbinval old td n = Some (DatumRange RangeEmpty) →
     run = (Err (ERR_period_contains_invalid_value pname (RelationGetRelationName rel)),
            s)) ∧
    (∀ lb ub, SPI_getbinval old td n = Some (DatumRange (RangeValue lb (Some ub))) →
     run = (Err (ERR_period_contains_invalid_value pname (RelationGetRelationName rel)),
            s)).
Proof.
  intros h trigdata op pname hname adj n typcache old s rel td run Hop Hf Hcol Hold Hmod.
  pose proof (fired_by_insert _ _ _ _ _ Hf) as (Hi & Hu & Hd).
  pose proof Hf as (Hb & Hr & _ & Htrig).
  assert (∀ err,
            deserialize_system_period old rel n pname typcache s = (Err err, s) →
            run = (Err err, s)) as Hrun.
  { intros err Hdes. unfold run.
    rewrite (versioning_dispatch h trigdata pname hname adj n typcache s Hb Hr)
      by (rewrite ?Hi, ?Hu, ?Hd; by destruct Hop as [-> | ->]).
    rewrite Hi, Hu.
    destruct Hop as [-> | ->]; simpl;
      unfold versioning_update, versioning_delete;
      rewrite Hold, run_bind; simpl; rewrite Hmod; fold rel;
      by rewrite run_bind, Hdes. }
  split; [|split].
  - intros Hst. apply Hrun. unfold deserialize_system_period. fold td. by rewrite Hst.
  - intros Hst. apply Hrun. unfold deserialize_system_period. fold td. by rewrite Hst.
  - intros lb ub Hst. apply Hrun. unfold deserialize_system_period. fold td.
    rewrite Hst. simpl. by destruct ub as [? ?], lb as [[? ?]|].
Qed.

End StoredPeriodChecks.

Lemma period_column_checks_witness :
  let rel := mkRelation 1000 "r" "public"
               [mkAttr "id" 23 0 (-1) false 1; mkAttr "valid_time" 3910 1 (-1) false 2;
                mkAttr "gone" 3910 0 (-1) true 3] in
  let call pname :=
    TriggerDataNode
      (mkTriggerData (before_row TRIGGER_EVENT_INSERT) rel
         (Some (mkHeapTuple 0 (sample_row 1 "a" None))) None
         (mkTrigger 3 [pname; "r_hist"; "true"])) in
  versioning (sample_host 10 100) (call "gone") initial_state =
    (Err (ERR_column_does_not_exist "gone" "r"), initial_state) ∧
  (SPI_fnumber (RelationGetDescr rel) "xmin" = -2 ∧ -2 < 0 ∧
   versioning (sample_host 10 100) (call "xmin") initial_state =
     (Err ERR_undefined_behaviour, initial_state)) ∧
  versioning (sample_host 10 100) (call "valid_time") initial_state =
    (Err (ERR_period_is_an_array "valid_time" "r"), initial_state).
Proof.
  intros rel call.
  assert (∀ pname, pname = "gone" ∨ pname = "xmin" →
            ∀ attr, attr ∈ RelationGetDescr rel → attname attr = pname →
                    attisdropped attr = true) as Hgone.
  { intros pname Hp attr Hin Hname. simpl in Hin.
    repeat (apply elem_of_cons in Hin as [->|Hin];
            [by destruct Hp as [-> | ->]; simpl in *|]).
    by apply elem_of_nil in Hin. }
  split; [|split].
  - apply (proj1 (period_column_checks (sample_host 10 100)
                    (mkTriggerData (before_row TRIGGER_EVENT_INSERT) rel
                       (Some (mkHeapTuple 0 (sample_row 1 "a" None))) None
                       (mkTrigger 3 ["gone"; "r_hist"; "true"]))
                    TRIGGER_EVENT_INSERT "gone" "r_hist" "true" initial_state
                    (or_introl eq_refl) ltac:(by repeat split))).
    + apply Hgone. by left.
    + reflexivity.
  - apply (proj1 (proj2 (period_column_checks (sample_host 10 100)
                    (mkTriggerData (before_row TRIGGER_EVENT_INSERT) rel
                       (Some (mkHeapTuple 0 (sample_row 1 "a" None))) None
                       (mkTrigger 3 ["xmin"; "r_hist"; "true"]))
                    TRIGGER_EVENT_INSERT "xmin" "r_hist" "true" initial_state
                    (or_introl eq_refl) ltac:(by repeat split))) (-2)).
    + apply Hgone. by right.
    + reflexivity.
  - apply (proj2 (proj2 (period_column_checks (sample_host 10 100)
                    (mkTriggerData (before_row TRIGGER_EVENT_INSERT) rel
                       (Some (mkHeapTuple 0 (sample_row 1 "a" None))) None
                       (mkTrigger 3 ["valid_time"; "r_hist"; "true"]))
                    TRIGGER_EVENT_INSERT "valid_time" "r_hist" "true" initial_state
                    (or_introl eq_refl) ltac:(by repeat split)))
             (mkAttr "valid_time" 3910 1 (-1) false 2)).
    + reflexivity.
    + reflexivity.
    + simpl. lia.
Defined.

Lemma closed_period_rejected_witness :
  let old := mkHeapTuple 10
               (sample_row 1 "a" (Some (RangeValue (Some (100, true)) (Some (150, false))))) in
  versioning (sample_host 11 200)
    (TriggerDataNode
       (mkTriggerData (before_row TRIGGER_EVENT_DELETE) sample_relation
          (Some old) None (sample_trigger "true")))
    initial_state =
  (Err (ERR_period_contains_invalid_value "valid_time" "r"), initial_state).
Proof.
  intros old.
  apply (proj2 (proj2
    (closed_period_rejected (sample_host 11 200)
       (mkTriggerData (before_row TRIGGER_EVENT_DELETE) sample_relation
          (Some old) None (sample_trigger "true"))
       TRIGGER_EVENT_DELETE "valid_time" "r_hist" "true" 3
       (mkTypeCacheEntry 3910 TIMESTAMPTZOID) old initial_state
       (or_intror eq_refl)
       (sample_fired TRIGGER_EVENT_DELETE "true" (Some old) None ltac:(done))
       (sample_period_column 11 200) eq_refl eq_refl))
    (Some (100, true)) (150, false)).
  reflexivity.
Defined.
(* ===================================================================== *)
(** * The column mapping of the history relation *)

Section ColumnMapping.
Context {T : Type} `{!TimestampRep T}.
Implicit Types (td htd : TupleDesc) (attr hattr : FormData_pg_attribute).

Lemma SPI_fnumber_nonneg td fname : 0 <= SPI_fnumber td fname → 0 < SPI_fnumber td fname.
Proof.
  unfold SPI_fnumber. destruct (SPI_fnumber_from 0 td fname) as [n|] eqn:E.
  - intros _. destruct (SPI_fnumber_from_live _ _ _ _ E) as (_ & _ & _ & _ & _ & ?). lia.
  - unfold SystemAttributeByName, SPI_ERROR_NOATTRIBUTE. repeat case_bool_decide; lia.
Qed.

Lemma TupleDescAttr_Some td i attr :
  TupleDescAttr td i = Some attr → 0 <= i ∧ td !! Z.to_nat i = Some attr.
Proof. unfold TupleDescAttr. destruct (Z.ltb_spec i 0); [done|]. by split. Qed.

(** A common column has a live namesake in the history relation. *)
Lemma common_column_namesake td htd attr :
  attr ∈ common_columns td htd →
  attr ∈ td ∧ attisdropped attr = false ∧ 0 < SPI_fnumber htd (attname attr) ∧
  ∃ hattr, history_column htd attr = Some hattr ∧ hattr ∈ htd ∧
           attname hattr = attname attr ∧ attisdropped hattr = false.
Proof.
  unfold common_columns. rewrite list_elem_of_filter. intros [[Hlive Hh] Hin].
  apply SPI_fnumber_nonneg in Hh.
  destruct (SPI_fnumber_positive _ _ Hh) as (hattr & Hhin & Hname & Hhl & Hat).
  repeat split; try done. by exists hattr.
Qed.

Lemma check_attr_type_same attr hattr rel hrel :
  same_attr_type attr hattr → check_attr_type (T:=T) attr hattr rel hrel = Ok tt.
Proof.
  intros (H1 & H2 & H3). unfold check_attr_type. by rewrite H1, H2, H3, !Z.eqb_refl.
Qed.

Lemma check_attr_type_differs attr hattr rel hrel :
  ¬ same_attr_type attr hattr →
  check_attr_type (T:=T) attr hattr rel hrel =
    Err (ERR_column_type_mismatch attr hattr (RelationGetRelationName rel)
           (RelationGetRelationName hrel)).
Proof.
  intros Hne. unfold check_attr_type.
  destruct (Z.eqb_spec (atttypid attr) (atttypid hattr)); [|done].
  destruct (Z.eqb_spec (attndims attr) (attndims hattr)); [|done].
  destruct (Z.eqb_spec (atttypmod attr) (atttypmod hattr)); [|done].
  by destruct Hne.
Qed.

Lemma common_columns_cons attr td htd :
  common_columns (attr :: td) htd =
    if attisdropped attr then common_columns td htd
    else if SPI_fnumber htd (attname attr) <? 0 then common_columns td htd
    else attr :: common_columns td htd.
Proof.
  unfold common_columns. rewrite filter_cons.
  destruct (attisdropped attr) eqn:Ed.
  - rewrite decide_False; [done|]. by intros [? _].
  - destruct (Z.ltb_spec (SPI_fnumber htd (attname attr)) 0).
    + rewrite decide_False; [done|]. intros [_ ?]. lia.
    + by rewrite decide_True.
Qed.

(** The loop of [fill_versioning_hash_entry], when the arrays are large
    enough for the common columns. *)
Lemma fill_common_attributes_loop attrs : ∀ htd rel hrel size a ha cols,
  let cs := common_columns attrs htd in
  let fits attr := ∃ hattr, history_column htd attr = Some hattr ∧ same_attr_type attr hattr in
  Z.of_nat (length a + length cs) <= size →
  (Forall fits cs →
   fill_common_attributes (T:=T) attrs htd rel hrel size (a, ha, cols) =
     Ok (a ++ map attnum cs,
         ha ++ map (λ attr, SPI_fnumber htd (attname attr)) cs,
         cols ++ map attname cs)) ∧
  (∀ pre attr post hattr,
     cs = pre ++ attr :: post → Forall fits pre →
     history_column htd attr = Some hattr → ¬ same_attr_type attr hattr →
     fill_common_attributes (T:=T) attrs htd rel hrel size (a, ha, cols) =
       Err (ERR_column_type_mismatch attr hattr (RelationGetRelationName rel)
              (RelationGetRelationName hrel))).
Proof.
  induction attrs as [|attr0 attrs IH]; intros htd rel hrel size a ha cols cs fits Hsize.
  - split.
    + intros _. simpl. by rewrite !app_nil_r.
    + intros pre attr post hattr Hcs. by destruct pre.
  - subst cs. rewrite common_columns_cons in *. simpl.
    destruct (attisdropped attr0); [by apply IH|].
    destruct (SPI_fnumber htd (attname attr0) <? 0); [by apply IH|].
    simpl in Hsize.
    destruct (IH htd rel hrel size (a ++ [attnum attr0])
                (ha ++ [SPI_fnumber htd (attname attr0)]) (cols ++ [attname attr0]))
      as [IHok IHerr].
    { rewrite length_app. simpl. lia. }
    split.
    + intros Hall. apply Forall_cons in Hall as [(hattr & Hh & Hsame) Hall].
      unfold history_column in Hh. rewrite Hh.
      rewrite check_attr_type_same by done.
      destruct (Z.leb_spec size (Z.of_nat (length a))); [lia|].
      rewrite IHok by done. simpl. by rewrite <- !app_assoc.
    + intros pre attr post hattr Hcs Hpre Hh Hne.
      destruct pre as [|p pre]; simpl in Hcs; simplify_eq.
      * unfold history_column in Hh. rewrite Hh.
        by rewrite check_attr_type_differs.
      * apply Forall_cons in Hpre as [(hattr0 & Hh0 & Hsame) Hpre].
        unfold history_column in Hh0. rewrite Hh0.
        rewrite check_attr_type_same by done.
        destruct (Z.leb_spec size (Z.of_nat (length a))); [lia|].
        by eapply IHerr.
Qed.

End ColumnMapping.

Section ColumnMappingBounds.
Context {T : Type} `{!TimestampRep T}.
Implicit Types (td htd : TupleDesc) (attr hattr : FormData_pg_attribute).

#[export] Instance same_attr_type_dec attr hattr : Decision (same_attr_type attr hattr).
Proof. unfold same_attr_type. apply _. Defined.

Lemma common_columns_sublist (td : list FormData_pg_attribute) htd :
  sublist (common_columns td htd) (live_columns td).
Proof.
  induction td as [|attr td IH]; [done|].
  rewrite common_columns_cons. unfold live_columns. rewrite filter_cons.
  destruct (attisdropped attr) eqn:Ed; simpl; [done|].
  destruct (_ <? 0); [by apply sublist_cons|by apply sublist_skip].
Qed.

(** The names of distinct columns lead to distinct columns of the history
    relation, so the common columns are not more than its columns. *)
Lemma common_columns_length (td : list FormData_pg_attribute) htd :
  NoDup (attname <$> live_columns td) →
  (length (common_columns td htd) ≤ length td)%nat ∧
  (length (common_columns td htd) ≤ length htd)%nat.
Proof.
  intros Hnd. split; [apply length_filter|].
  set (cs := common_columns td htd).
  assert (NoDup (attname <$> cs)) as Hnames.
  { pose proof (fmap_sublist attname _ _ (common_columns_sublist td htd)) as Hsub.
    exact (sublist_NoDup _ _ Hnd Hsub). }
  assert (NoDup (SPI_fnumber htd <$> (attname <$> cs))) as Hnums.
  { apply NoDup_fmap_2_strong; [|done].
    intros n1 n2 Hn1 Hn2 Heq.
    apply list_elem_of_fmap in Hn1 as (a1 & -> & Ha1).
    apply list_elem_of_fmap in Hn2 as (a2 & -> & Ha2).
    destruct (common_column_namesake _ _ _ Ha1) as (_ & _ & _ & h1 & Hh1 & _ & Hname1 & _).
    destruct (common_column_namesake _ _ _ Ha2) as (_ & _ & _ & h2 & Hh2 & _ & Hname2 & _).
    unfold history_column in *. rewrite Heq in Hh1. congruence. }
  assert (SPI_fnumber htd <$> (attname <$> cs) ⊆+ seqZ 1 (Z.of_nat (length htd))) as Hsub.
  { apply NoDup_submseteq; [done|]. intros x Hx.
    apply list_elem_of_fmap in Hx as (n & -> & Hn).
    apply list_elem_of_fmap in Hn as (a & -> & Ha).
    destruct (common_column_namesake _ _ _ Ha) as (_ & _ & Hpos & h & Hh & _).
    apply TupleDescAttr_Some in Hh as [_ Hh]. apply lookup_lt_Some in Hh.
    apply elem_of_seqZ. lia. }
  apply submseteq_length in Hsub. rewrite !length_fmap, length_seqZ in Hsub. lia.
Qed.

(** Either every common column fits its namesake, or there is a first one
    that does not. *)
Lemma common_columns_fit_or_differ (td : list FormData_pg_attribute) htd :
  let fits attr := ∃ hattr, history_column htd attr = Some hattr ∧ same_attr_type attr hattr in
  Forall fits (common_columns td htd) ∨
  ∃ pre attr post hattr,
    common_columns td htd = pre ++ attr :: post ∧ Forall fits pre ∧
    history_column htd attr = Some hattr ∧ ¬ same_attr_type attr hattr.
Proof.
  intros fits.
  assert (∀ cs, Forall (λ attr, attr ∈ common_columns td htd) cs →
            Forall fits cs ∨
            ∃ pre attr post hattr,
              cs = pre ++ attr :: post ∧ Forall fits pre ∧
              history_column htd attr = Some hattr ∧ ¬ same_attr_type attr hattr) as Hcs.
  { induction cs as [|attr cs IH]; intros Hall; [by left|].
    apply Forall_cons in Hall as [Hin Hall].
    destruct (common_column_namesake _ _ _ Hin) as (_ & _ & _ & hattr & Hh & _).
    destruct (decide (same_attr_type attr hattr)) as [Hsame|Hne].
    - destruct (IH Hall) as [Hfit|(pre & attr' & post & hattr' & -> & Hpre & Hh' & Hne)].
      + left. constructor; [by exists hattr|done].
      + right. exists (attr :: pre), attr', post, hattr'. repeat split; try done.
        constructor; [by exists hattr|done].
    - right. by exists [], attr, cs, hattr. }
  apply Hcs. by apply Forall_forall.
Qed.

(** The loop from the empty arrays, for columns that fit. *)
Lemma fill_common_attributes_fit rel hrel :
  let td := RelationGetDescr rel in
  let htd := RelationGetDescr hrel in
  let cs := common_columns td htd in
  NoDup (attname <$> live_columns td) →
  Forall (λ attr, ∃ hattr, history_column htd attr = Some hattr ∧
                           same_attr_type attr hattr) cs →
  fill_common_attributes (T:=T) td htd rel hrel (attnums_size td htd) ([], [], []) =
    Ok (attnum <$> cs, (λ attr, SPI_fnumber htd (attname attr)) <$> cs, attname <$> cs).
Proof.
  intros td htd cs Hnd Hfit.
  destruct (common_columns_length td htd Hnd) as [Hl1 Hl2].
  destruct (fill_common_attributes_loop (T:=T) td htd rel hrel (attnums_size td htd) [] [] [])
    as [Hok _]; [|by apply Hok].
  unfold attnums_size, tupdesc_natts. simpl. lia.
Qed.

(** The loop stays inside the arrays and the descriptor. *)
Lemma fill_common_attributes_in_bounds rel hrel :
  let td := RelationGetDescr rel in
  let htd := RelationGetDescr hrel in
  NoDup (attname <$> live_columns td) →
  fill_common_attributes (T:=T) td htd rel hrel (attnums_size td htd) ([], [], [])
    ≠ Err ERR_undefined_behaviour.
Proof.
  intros td htd Hnd.
  destruct (common_columns_length td htd Hnd) as [Hl1 Hl2].
  destruct (fill_common_attributes_loop (T:=T) td htd rel hrel (attnums_size td htd) [] [] [])
    as [Hok Herr]; [unfold attnums_size, tupdesc_natts; simpl; lia|].
  destruct (common_columns_fit_or_differ td htd)
    as [Hfit|(pre & attr & post & hattr & Hcs & Hpre & Hh & Hne)].
  - by rewrite (Hok Hfit).
  - by rewrite (Herr pre attr post hattr Hcs Hpre Hh Hne).
Qed.

(** The column mapping that [fill_versioning_hash_entry] computes.  For a
    versioned relation whose live columns have distinct names: the arrays
    allocated for Min(natts, history natts) entries suffice for the common
    columns; when every common column has the type, dimensions and type
    modifier of its namesake in the history relation, the loop yields the
    attribute numbers of the common columns, the numbers of their namesakes
    and their names, in the order of the versioned relation; otherwise it
    fails with the type mismatch of the first column that differs; and it
    never leaves the arrays or the descriptor. *)
Theorem common_columns_mapping :
  ∀ rel hrel,
    let td := RelationGetDescr rel in
    let htd := RelationGetDescr hrel in
    let cs := common_columns td htd in
    let fits attr :=
      ∃ hattr, history_column htd attr = Some hattr ∧ same_attr_type attr hattr in
    let run := fill_common_attributes (T:=T) td htd rel hrel (attnums_size td htd)
                 ([], [], []) in
    NoDup (attname <$> live_columns td) →
    Z.of_nat (length cs) <= attnums_size td htd ∧
    (Forall fits cs →
     run = Ok (attnum <$> cs, (λ attr, SPI_fnumber htd (attname attr)) <$> cs,
               attname <$> cs)) ∧
    (∀ pre attr post hattr,
       cs = pre ++ attr :: post → Forall fits pre →
       history_column htd attr = Some hattr → ¬ same_attr_type attr hattr →
       run = Err (ERR_column_type_mismatch attr hattr (RelationGetRelationName rel)
                    (RelationGetRelationName hrel))) ∧
    run ≠ Err ERR_undefined_behaviour.
Proof.
  intros rel hrel td htd cs fits run Hnd.
  destruct (common_columns_length td htd Hnd) as [Hl1 Hl2].
  assert (Z.of_nat (length cs) <= attnums_size td htd) as Hsize.
  { unfold attnums_size, tupdesc_natts. fold cs in Hl1, Hl2. lia. }
  destruct (fill_common_attributes_loop (T:=T) td htd rel hrel (attnums_size td htd) [] [] [])
    as [Hok Herr]; [done|].
  split; [done|]. split; [done|]. split; [done|].
  destruct (common_columns_fit_or_differ td htd)
    as [Hfit|(pre & attr & post & hattr & Hcs & Hpre & Hh & Hne)].
  - unfold run. by rewrite (Hok Hfit).
  - unfold run. by rewrite (Herr pre attr post hattr Hcs Hpre Hh Hne).
Qed.

End ColumnMappingBounds.

Lemma common_columns_mapping_witness :
  let rel := mkRelation 1000 "r" "public"
               [mkAttr "id" 23 0 (-1) false 1; mkAttr "old" 25 0 (-1) true 2;
                mkAttr "note" 25 0 (-1) false 3; mkAttr "valid_time" 3910 0 (-1) false 4] in
  let hrel := mkRelation 1001 "r_hist" "public"
                [mkAttr "valid_time" 3910 0 (-1) false 1; mkAttr "id" 23 0 (-1) false 2;
                 mkAttr "archived_by" 25 0 (-1) false 3] in
  fill_common_attributes (T:=Z) (RelationGetDescr rel) (RelationGetDescr hrel) rel hrel
      (attnums_size (RelationGetDescr rel) (RelationGetDescr hrel)) ([], [], []) =
    Ok ([1; 4], [2; 1], ["id"; "valid_time"]).
Proof.
  intros rel hrel.
  assert (NoDup (attname <$> live_columns (RelationGetDescr rel))) as Hnd
    by (apply (bool_decide_unpack _); by vm_compute).
  apply (proj1 (proj2 (common_columns_mapping (T:=Z) rel hrel Hnd))).
  vm_compute. repeat constructor; eexists; (split; [reflexivity|by repeat split]).
Defined.

Section HistoryRowContents.
Context {T : Type} `{!TimestampRep T}.
Implicit Types (td htd : TupleDesc) (attr hattr : FormData_pg_attribute).
Implicit Types (s : State T) (h : Host T).

Lemma SPI_fnumber_from_found td : ∀ res attr,
  attr ∈ td → attisdropped attr = false →
  is_Some (SPI_fnumber_from res td (attname attr)).
Proof.
  induction td as [|attr0 td IH]; intros res attr Hin Hlive.
  - by apply elem_of_nil in Hin.
  - simpl. destruct (_ && _) eqn:E; [done|].
    apply elem_of_cons in Hin as [->|Hin]; [|by apply IH].
    rewrite bool_decide_eq_true_2, Hlive in E by done. done.
Qed.

(** The name of a live column is found. *)
Lemma SPI_fnumber_live td attr :
  attr ∈ td → attisdropped attr = false → 0 < SPI_fnumber td (attname attr).
Proof.
  intros Hin Hlive. unfold SPI_fnumber.
  destruct (SPI_fnumber_from_found td 0 attr Hin Hlive) as [n Hn]. rewrite Hn.
  destruct (SPI_fnumber_from_live _ _ _ _ Hn) as (_ & _ & _ & _ & _ & ?). lia.
Qed.

Lemma NoDup_fmap_eq {A B} (f : A → B) (l : list A) x y :
  NoDup (f <$> l) → x ∈ l → y ∈ l → f x = f y → x = y.
Proof.
  induction l as [|a l IH]; intros Hnd Hx Hy Heq; [by apply elem_of_nil in Hx|].
  rewrite fmap_cons in Hnd. apply NoDup_cons in Hnd as [Hnotin Hnd].
  apply elem_of_cons in Hx as [->|Hx]; apply elem_of_cons in Hy as [->|Hy]; try done.
  - destruct Hnotin. rewrite Heq. by apply list_elem_of_fmap_2.
  - destruct Hnotin. rewrite <- Heq. by apply list_elem_of_fmap_2.
  - by apply IH.
Qed.

Lemma common_columns_elem (td : list FormData_pg_attribute) htd attr :
  attr ∈ common_columns td htd ↔
  attr ∈ td ∧ attisdropped attr = false ∧ 0 <= SPI_fnumber htd (attname attr).
Proof.
  unfold common_columns. rewrite list_elem_of_filter.
  split; [by intros [[? ?] ?]|by intros (? & ? & ?)].
Qed.

(** The value that the INSERT of the history row stores in a column of the
    history relation. *)
Lemma inserted_value_of_column (tuple : HeapTupleData T) td htd hattr :
  let cs := common_columns td htd in
  NoDup (attname <$> live_columns td) → attnums_in_order td →
  hattr ∈ htd → attisdropped hattr = false →
  match list_find (λ c, c = attname hattr) (attname <$> cs) with
  | Some (i, _) => mjoin ((SPI_getbinval tuple td <$> (attnum <$> cs)) !! i)
  | None => None
  end =
  if 0 <? SPI_fnumber td (attname hattr)
  then SPI_getbinval tuple td (SPI_fnumber td (attname hattr))
  else None.
Proof.
  intros cs Hnd Hord Hhin Hhlive.
  pose proof (SPI_fnumber_live htd hattr Hhin Hhlive) as Hhpos.
  assert (∀ attr, attr ∈ cs → attr ∈ live_columns td) as Hcs_live.
  { intros attr Hin. apply common_columns_elem in Hin as (? & ? & ?).
    unfold live_columns. by apply list_elem_of_filter. }
  destruct (list_find _ _) as [[i c]|] eqn:Efind.
  - apply list_find_Some in Efind as (Hi & -> & _).
    apply list_lookup_fmap_Some in Hi as (attr & Hname & Hi).
    pose proof (list_elem_of_lookup_2 _ _ _ Hi) as Hin.
    pose proof Hin as Hin'. apply common_columns_elem in Hin' as (Htd & Hlive & _).
    pose proof (SPI_fnumber_live td attr Htd Hlive) as Hpos.
    rewrite Hname.
    destruct (Z.ltb_spec 0 (SPI_fnumber td (attname attr))); [|lia].
    rewrite !list_lookup_fmap, Hi. simpl. f_equal.
    destruct (SPI_fnumber_positive _ _ Hpos) as (attr' & Hin2 & Hname2 & Hlive2 & Hat).
    assert (attr' = attr) as ->.
    { apply (NoDup_fmap_eq attname (live_columns td)); try done.
      - unfold live_columns. by apply list_elem_of_filter.
      - by apply Hcs_live. }
    apply TupleDescAttr_Some in Hat as [Hge Hat].
    rewrite (Hord _ _ Hat). lia.
  - apply list_find_None in Efind.
    destruct (Z.ltb_spec 0 (SPI_fnumber td (attname hattr))) as [Hpos|]; [|done].
    destruct (SPI_fnumber_positive _ _ Hpos) as (attr & Hin & Hname & Hlive & _).
    assert (attr ∈ cs) as Hcs
      by (apply common_columns_elem; rewrite Hname; repeat split; [done..|lia]).
    rewrite Forall_forall in Efind. destruct (Efind (attname attr)); [|done].
    by apply list_elem_of_fmap_2.
Qed.

(** What a history row holds.  For a versioned relation whose live columns
    have distinct names and are numbered in order, and whose common columns
    have the types of their namesakes: the archival adds one row to the
    history relation, and nothing else to any relation, in which every live
    column of the history relation holds the value that the archived tuple
    has in the live column of the same name, and NULL when the versioned
    relation has no such column. *)
Theorem history_row_contents :
  ∀ h (tuple : HeapTupleData T) rel hrel hname pname s,
    let td := RelationGetDescr rel in
    let htd := RelationGetDescr hrel in
    NoDup (attname <$> live_columns td) → attnums_in_order td →
    Forall (λ attr, ∃ hattr, history_column htd attr = Some hattr ∧
                             same_attr_type attr hattr) (common_columns td htd) →
    0 < SPI_fnumber td pname → 0 <= SPI_fnumber htd pname →
    cache_inv s → host_ready h hname hrel →
    ∃ s',
      insert_history_row h tuple rel hname pname s = (Ok tt, s') ∧
      heap_rows s' =
        <[RelationGetRelid hrel :=
            default [] (heap_rows s !! RelationGetRelid hrel) ++
            [mkHeapTuple (host_xid h)
               ((λ hattr,
                   if attisdropped hattr then None
                   else if 0 <? SPI_fnumber td (attname hattr)
                        then SPI_getbinval tuple td (SPI_fnumber td (attname hattr))
                        else None) <$> htd)]]> (heap_rows s).
Proof.
  intros h tuple rel hrel hname pname s td htd Hnd Hord Hfit Hp Hhp Hinv Hready.
  pose proof (fill_common_attributes_fit (T:=T) rel hrel Hnd Hfit) as Hok.
  destruct (insert_history_row_archives h tuple rel hrel hname pname _ _ _ s Hinv Hready
              (conj Hp (conj Hhp Hok)))
    as (s' & e' & Hrun & _ & _ & _ & Hrows & _).
  exists s'. split; [done|]. rewrite Hrows.
  match goal with
  | |- <[_ := _ ++ [?a]]> _ = <[_ := _ ++ [?b]]> _ => assert (a = b) as Hab; [|by rewrite Hab]
  end.
  unfold archived_row. f_equal. unfold inserted_values.
  apply list_eq. intros j. rewrite !list_lookup_fmap. subst td htd.
  match goal with |- _ <$> ?o = _ => destruct o as [hattr|] eqn:Hj end; simpl; [|done].
  f_equal.
  destruct (attisdropped hattr) eqn:Ed; [done|].
  apply (inserted_value_of_column tuple (RelationGetDescr rel) (RelationGetDescr hrel)
           hattr); try done.
  by eapply list_elem_of_lookup_2.
Qed.

End HistoryRowContents.

Lemma history_row_contents_witness :
  let rel := mkRelation 1000 "r" "public"
               [mkAttr "id" 23 0 (-1) false 1; mkAttr "old" 25 0 (-1) true 2;
                mkAttr "note" 25 0 (-1) false 3; mkAttr "valid_time" 3910 0 (-1) false 4] in
  let hrel := mkRelation 1001 "r_hist" "public"
                [mkAttr "valid_time" 3910 0 (-1) false 1; mkAttr "id" 23 0 (-1) false 2;
                 mkAttr "archived_by" 25 0 (-1) false 3] in
  let h := mkHost TopSubTransactionId 11 [11] 200 {[ "r_hist" := hrel ]}
             {[ 3910 := mkType TYPTYPE_RANGE TIMESTAMPTZOID ]}
             SPI_OK_CONNECT 0 0 0 SPI_OK_INSERT SPI_OK_FINISH in
  let period := DatumRange (RangeValue (Some (100, true)) (Some (200, false))) in
  let tuple := mkHeapTuple 0 [Some (DatumInt 1); None; Some (DatumText "n"); Some period] in
  ∃ s',
    insert_history_row h tuple rel "r_hist" "valid_time" initial_state = (Ok tt, s') ∧
    heap_rows s' = {[ 1001 := [mkHeapTuple 11 [Some period; Some (DatumInt 1); None]] ]}.
Proof.
  intros rel hrel h period tuple.
  destruct (history_row_contents h tuple rel hrel "r_hist" "valid_time" initial_state)
    as (s' & Hrun & Hrows).
  - apply (bool_decide_unpack _). by vm_compute.
  - intros [|[|[|[|i]]]] attr Hi; simpl in Hi; by simplify_eq.
  - vm_compute. repeat constructor; eexists; (split; [reflexivity|by repeat split]).
  - reflexivity.
  - by vm_compute.
  - apply cache_inv_initial.
  - by repeat split.
  - exists s'. split; [exact Hrun|]. rewrite Hrows. reflexivity.
Defined.

Section SystemTimeAndTrigger.
Context {T : Type} `{!TimestampRep T}.
Implicit Types (s : State T) (h : Host T) (st : ContextStore T).

Lemma code_run_tm_run (tr : list (TxEvent T)) : ∀ chain chain' st st',
  code_run chain tr st = Some (chain', st') → tm_run chain tr = Some chain'.
Proof.
  induction tr as [|ev tr IH]; intros chain chain' st st' Hrun; simpl in *.
  - by simplify_eq.
  - destruct (code_step chain ev st) as [st1|]; [|done]. simpl in Hrun.
    destruct (tm_step chain ev) as [chain1|]; [|done]. simpl in *. by eapply IH.
Qed.


(** The metadata cache as a table.  A lookup of a relation without an entry
    creates the table if there is none and adds an entry that is zero-filled
    and marked invalid, leaving the other entries, the saved plans and the
    rest of the state as they are; a lookup of a relation with an entry
    reports it as found and changes nothing; so a second lookup finds what
    the first one created. *)
Theorem versioning_cache_lookup :
  ∀ (k : Oid) s,
    (∀ e, entry_at k s = Some e →
          lookup_versioning_hash_entry k s = (Ok (k, true), s)) ∧
    (entry_at k s = None →
     ∃ s',
       lookup_versioning_hash_entry k s = (Ok (k, false), s') ∧
       entry_at k s' = Some (mkVersioningHashEntry k 0 None None (-1) None None) ∧
       (∀ k', k' ≠ k → entry_at k' s' = entry_at k' s) ∧
       s' = set_versioning_cache (versioning_cache s') s ∧
       lookup_versioning_hash_entry k s' = (Ok (k, true), s')).
Proof.
  intros k s. split.
  - intros e He. by rewrite lookup_versioning_hash_entry_run, He.
  - intros Hnone. exists (with_entry k (blank_entry k) s).
    rewrite !lookup_versioning_hash_entry_run, Hnone, entry_at_with_entry.
    split; [done|]. split; [done|].
    split; [intros k' Hk; by apply entry_at_with_entry_ne|]. by split.
Qed.

End SystemTimeAndTrigger.


Lemma versioning_cache_lookup_witness :
  ∃ s',
    lookup_versioning_hash_entry 1000 (initial_state (T:=Z)) = (Ok (1000, false), s') ∧
    lookup_versioning_hash_entry 1000 s' = (Ok (1000, true), s').
Proof.
  destruct (proj2 (versioning_cache_lookup (T:=Z) 1000 initial_state) eq_refl)
    as (s' & Hrun & _ & _ & _ & Hagain).
  by exists s'.
Defined.
(* ===================================================================== *)
(** * Absence of undefined behaviour *)

Section ArchivalDefined.
Context {T : Type} `{!TimestampRep T}.
Implicit Types (s : State T) (h : Host T) (e : VersioningHashEntry).

(** An entry that can be executed: the column mapping and its plan are
    there. *)
Lemma execute_history_plan_defined h k tuple td e s :
  entry_at k s = Some e →
  (natts e ≠ 0 →
   ∃ a p pl, attnums e = Some a ∧ natts e = Z.of_nat (length a) ∧
             insert_history_plan e = Some p ∧ spi_plans s !! p = Some pl) →
  (execute_history_plan h k tuple td s).1 ≠ Err ERR_undefined_behaviour.
Proof.
  intros Hk Hplan. rewrite (execute_history_plan_run h k tuple td e s Hk).
  destruct (Z.eqb_spec (natts e) 0) as [|Hn]; [done|].
  destruct (Hplan Hn) as (a & p & pl & -> & -> & -> & ->).
  destruct (Z.ltb_spec (Z.of_nat (length a)) (Z.of_nat (length a))); [lia|].
  by destruct (_ =? SPI_OK_INSERT).
Qed.

Lemma fill_versioning_hash_entry_defined h rel hrel pname e0 sA :
  let k := RelationGetRelid rel in
  let run := fill_versioning_hash_entry h k rel hrel (RelationGetDescr rel) pname sA in
  entry_at k sA = Some e0 →
  NoDup (attname <$> live_columns (RelationGetDescr rel)) →
  run.1 ≠ Err ERR_undefined_behaviour ∧
  (∀ u, run.1 = Ok u →
     ∃ eB, entry_at k run.2 = Some eB ∧
           (natts eB ≠ 0 →
            ∃ a p pl, attnums eB = Some a ∧ natts eB = Z.of_nat (length a) ∧
                      insert_history_plan eB = Some p ∧ spi_plans run.2 !! p = Some pl)).
Proof.
  intros k run Hk Hnd. unfold run.
  rewrite (fill_versioning_hash_entry_run h k rel hrel pname e0 sA Hk).
  destruct (_ <? 0); [done|].
  pose proof (fill_common_attributes_in_bounds (T:=T) rel hrel Hnd) as Hdef.
  destruct (fill_common_attributes _ _ _ _ _ _) as [[[a ha] cols]|err];
    [|split; [intros E; apply Hdef; simpl in E; by simplify_eq|done]].
  destruct (Z.eqb_spec (Z.of_nat (length a)) 0) as [E0|E0].
  { simpl. split; [done|]. intros _ _. exists (set_natts 0 e0).
    split; [apply entry_at_with_entry|]. by intros []. }
  destruct (negb (host_SPI_prepare h =? 0)); [done|]. cbv zeta.
  destruct (negb (host_SPI_keepplan h =? 0)); [done|].
  simpl. split; [done|]. intros _ _. eexists. split; [apply entry_at_with_entry|].
  simpl. intros _. eexists a, _, _. repeat split. apply lookup_insert_eq.
Qed.

(** The archival does not run into undefined behaviour: not into a NULL
    descriptor, a missing column mapping, an index outside the arrays, or a
    plan that was freed. *)
Lemma insert_history_row_defined h tuple rel hname pname s :
  cache_inv s → NoDup (attname <$> live_columns (RelationGetDescr rel)) →
  (insert_history_row h tuple rel hname pname s).1 ≠ Err ERR_undefined_behaviour.
Proof.
  intros Hinv Hnd. rewrite insert_history_row_tail.
  destruct (host_relations h !! hname) as [hrel|]; [|done].
  set (k := RelationGetRelid rel).
  assert (∀ found eA sA,
            entry_at k sA = Some eA →
            (found = true → natts eA ≠ 0 →
             ∃ a p pl, attnums eA = Some a ∧ natts eA = Z.of_nat (length a) ∧
                       insert_history_plan eA = Some p ∧ spi_plans sA !! p = Some pl) →
            (history_row_tail h tuple rel hrel pname found sA).1
              ≠ Err ERR_undefined_behaviour) as Htail.
  { intros found eA sA HkA Hplan. unfold history_row_tail. fold k.
    destruct (negb (host_SPI_connect h =? SPI_OK_CONNECT)); [done|].
    assert (∃ r sB eB,
              (if negb found
               then fill_versioning_hash_entry h k rel hrel (RelationGetDescr rel) pname sA
               else (Ok tt, sA)) = (r, sB) ∧
              r ≠ Err ERR_undefined_behaviour ∧
              (∀ u, r = Ok u →
                    entry_at k sB = Some eB ∧
                    (natts eB ≠ 0 →
                     ∃ a p pl, attnums eB = Some a ∧ natts eB = Z.of_nat (length a) ∧
                               insert_history_plan eB = Some p ∧
                               spi_plans sB !! p = Some pl)))
      as (r & sB & eB & -> & HrB & HB).
    { destruct found; simpl.
      - exists (Ok tt), sA, eA. split; [done|]. split; [done|]. intros _ _. split; [done|].
        by apply Hplan.
      - destruct (fill_versioning_hash_entry_defined h rel hrel pname eA sA HkA Hnd)
          as [Hdef Hentry]. fold k in Hdef, Hentry.
        destruct (fill_versioning_hash_entry h k rel hrel _ pname sA) as [r sB] eqn:Efill.
        simpl in *. destruct r as [u|err].
        + destruct (Hentry u eq_refl) as (eB & HeB & HplanB).
          exists (Ok u), sB, eB. split; [done|]. split; [done|]. by intros _ _.
        + exists (Err err), sB, eA. split; [done|]. split; [done|]. by intros. }
    destruct r as [u|err]; [|simpl; congruence].
    destruct (HB u eq_refl) as [HeB HplanB].
    pose proof (execute_history_plan_defined h k tuple (RelationGetDescr rel) eB sB
                  HeB HplanB) as Hexec.
    destruct (execute_history_plan h k tuple _ sB) as [[[]|err] sC]; simpl in *.
    - by destruct (negb (host_SPI_finish h =? SPI_OK_FINISH)).
    - congruence. }
  destruct (entry_at k s) as [e|] eqn:Ek.
  - assert (natts e ≠ -1 → entry_valid s e) as Hvalid
      by (intros Hn; destruct Hinv as (Hv & _); by apply (Hv k)).
    assert (natts e ≠ -1 → is_Some (tupdesc e) ∧ is_Some (history_tupdesc e)) as Hdesc.
    { intros Hn.
      destruct (Hvalid Hn) as (? & ? & ? & ? & ? & ? & ? & ? & ? & -> & -> & _). eauto. }
    rewrite (check_cached_data_run h k rel hrel e s Ek Hdesc).
    destruct (needs_rebuild e hrel _ _) eqn:Eneed.
    + rewrite (invalidate_cached_data_run h k e s Ek).
      destruct (insert_history_plan e) as [p|].
      * destruct (host_SPI_freeplan h =? 0); [|done].
        eapply Htail; [apply entry_at_with_entry|done].
      * eapply Htail; [apply entry_at_with_entry|done].
    + apply (Htail true e s Ek). intros _ Hn0.
      unfold needs_rebuild in Eneed.
      apply orb_false_iff in Eneed as [Eneed _].
      apply orb_false_iff in Eneed as [Eneed _].
      apply orb_false_iff in Eneed as [En _].
      apply bool_decide_eq_false_1 in En.
      destruct (Hvalid En)
        as (? & ? & a & ? & ? & p & pl & ? & ? & _ & _ & Ha & Hna & _ & Hp & Hpl & _).
      by exists a, p, pl.
  - eapply Htail; [apply entry_at_with_entry|done].
Qed.

End ArchivalDefined.

Section RunsDefined.
Context {T : Type} `{!TimestampRep T}.
Implicit Types (s : State T) (h : Host T) (P : State T → Prop).

Lemma runs_defined_ret {A} P (a : A) : runs_defined P (mret a).
Proof. by intros s HP. Qed.

Lemma runs_defined_err {A} P err :
  err ≠ ERR_undefined_behaviour → runs_defined P (ereport_ERROR (A:=A) err).
Proof. intros Herr s HP. split; [|done]. simpl. congruence. Qed.

Lemma runs_defined_defined {A} P (o : option A) : is_Some o → runs_defined P (defined o).
Proof. intros [a ->] s HP. done. Qed.

Lemma runs_defined_bind {A B} P (m : M T A) (k : A → M T B) :
  runs_defined P m → (∀ a, runs_defined P (k a)) → runs_defined P (m ≫= k).
Proof.
  intros Hm Hk s HP. rewrite run_bind. destruct (Hm s HP) as [Hdef HP1].
  destruct (m s) as [[a|err] s1]; simpl in *.
  - by apply Hk.
  - split; [congruence|done].
Qed.

Lemma runs_defined_bind_defined {A B} P (o : option A) (k : A → M T B) a :
  o = Some a → runs_defined P (k a) → runs_defined P (defined o ≫= k).
Proof. intros -> Hk s HP. rewrite run_bind. simpl. by apply Hk. Qed.

(** The state of a session stays one under the code outside the
    archival. *)
Lemma session_ok_outside s s' : session_ok s → outside_archival s s' → session_ok s'.
Proof.
  intros (Hinv & Hdt & tr & chain & Hrun) ((Hc & _ & _ & Hd) & Hcache & _).
  split; [by apply (cache_untouched_kept s)|]. split; [by apply Hd|].
  exists tr, chain. by rewrite Hc.
Qed.

Lemma runs_defined_outside {A} (m : M T A) :
  keeps outside_archival m →
  (∀ s, session_ok s → (m s).1 ≠ Err ERR_undefined_behaviour) →
  runs_defined session_ok m.
Proof.
  intros Hkeeps Hdef s HP. split; [by apply Hdef|].
  destruct (Hkeeps s) as [Hub|Hout]; [by destruct (Hdef s HP)|].
  by apply (session_ok_outside s).
Qed.

Lemma session_ok_system_time h s :
  session_ok s →
  is_Some (get_system_time (host_xact_start h) (host_subid h) (st_contexts s)).
Proof.
  intros (_ & _ & tr & chain & Hrun).
  pose proof (code_run_tm_run _ _ _ _ _ Hrun) as Htm.
  destruct (store_inv_run tr [] _ PG_init spec_init store_inv_init Htm)
    as (st0 & Hrun0 & Hinv).
  assert (st0 = st_contexts s) as -> by congruence.
  by rewrite (get_system_time_visible _ _ _ (host_xact_start h) (host_subid h) Hinv).
Qed.

Lemma defined_get_system_time_M h : runs_defined session_ok (get_system_time_M h).
Proof.
  apply runs_defined_outside; [apply outside_get_system_time_M|].
  intros s HP. unfold get_system_time_M. rewrite run_bind. simpl.
  by destruct (session_ok_system_time h s HP) as [now ->].
Qed.

Lemma defined_make_range_M (lo up : RangeBound T) empty :
  runs_defined session_ok (make_range_M lo up empty).
Proof.
  apply runs_defined_outside; [apply outside_make_range_M|].
  intros s _. unfold make_range_M. by destruct (make_range lo up empty).
Qed.

Lemma defined_modify_tuple rel (tuple : HeapTupleData T) n range :
  runs_defined session_ok (modify_tuple rel tuple n range).
Proof.
  apply runs_defined_outside; [apply outside_modify_tuple|].
  intros s _. unfold modify_tuple. by destruct (heap_modify_tuple_by_cols _ _ _ _).
Qed.

Lemma defined_deserialize_system_period (tuple : HeapTupleData T) rel n pname typcache :
  (∀ d, SPI_getbinval tuple (RelationGetDescr rel) n = Some d → ∃ r, d = DatumRange r) →
  runs_defined session_ok (deserialize_system_period tuple rel n pname typcache).
Proof.
  intros Htyped. apply runs_defined_outside; [apply outside_deserialize_system_period|].
  intros s _. unfold deserialize_system_period.
  destruct (SPI_getbinval _ _ _) as [d|]; [|done].
  destruct (Htyped d eq_refl) as [r ->]. rewrite run_bind. simpl.
  destruct (range_deserialize r) as [[lo up] empty]. by destruct (_ || _).
Qed.

Lemma defined_get_period_typcache h attr rel :
  runs_defined session_ok (get_period_typcache h attr rel).
Proof.
  apply runs_defined_outside; [apply outside_get_period_typcache|].
  intros s _. unfold get_period_typcache.
  destruct (host_types h !! _); [|done]. destruct (negb _); [done|].
  by destruct (negb _).
Qed.

Lemma defined_parse_adjust_argument arg :
  runs_defined session_ok (parse_adjust_argument (T:=T) arg).
Proof.
  apply runs_defined_outside; [apply outside_parse_adjust_argument|].
  intros s _. unfold parse_adjust_argument. destruct (_ =? 0); [done|].
  by destruct (_ =? 0).
Qed.

Lemma defined_ereport_WARNING n : runs_defined session_ok (ereport_WARNING (T:=T) n).
Proof. apply runs_defined_outside; [apply outside_ereport_WARNING|done]. Qed.

(** The archival, for a relation whose live columns have distinct names and
    a period column that is one of them. *)
Lemma defined_insert_history_row h tuple rel hname pname :
  NoDup (attname <$> live_columns (RelationGetDescr rel)) →
  0 < SPI_fnumber (RelationGetDescr rel) pname →
  runs_defined session_ok (insert_history_row h tuple rel hname pname).
Proof.
  intros Hnd Hpos s HP. pose proof HP as (Hinv & Hdt & tr & chain & Hrun).
  pose proof (insert_history_row_defined h tuple rel hname pname s Hinv Hnd) as Hdef.
  split; [done|].
  destruct (footprint_insert_history_row h tuple rel hname pname Hpos s)
    as [Hub|[(Hc & _ & _ & Hd) Hkept]]; [done|].
  split; [by apply Hkept|]. split; [by apply Hd|]. exists tr, chain. by rewrite Hc.
Qed.

End RunsDefined.

Ltac runs_go :=
  repeat first
    [ progress intros
    | assumption
    | apply runs_defined_ret
    | apply runs_defined_err; discriminate
    | apply runs_defined_defined; solve [eauto]
    | solve [auto]
    | apply runs_defined_bind
    | match goal with
      | |- runs_defined _ (if ?b then _ else _) => destruct b
      | |- runs_defined _ (match ?x with _ => _ end) => destruct x
      end ].

Section InvocationDefined.
Implicit Types (s : State Z) (h : Host Z).

(** With integer timestamps the successor is always defined. *)
Lemma defined_next_timestamp (t : Z) : runs_defined session_ok (next_timestamp t).
Proof.
  apply runs_defined_outside; [apply outside_next_timestamp|].
  intros s (_ & Hdt & _). rewrite next_timestamp_unfold. cbv zeta. simpl.
  destruct (integer_datetimes_set s) eqn:Eset; [|done].
  pose proof (Hdt Eset) as Hi. simpl in Hi. by rewrite Hi.
Qed.

Lemma defined_adjust_system_period typcache (lo up : RangeBound Z) arg rel :
  runs_defined session_ok (adjust_system_period typcache lo up arg rel).
Proof.
  unfold adjust_system_period.
  pose proof (defined_parse_adjust_argument (T:=Z)).
  pose proof (defined_ereport_WARNING (T:=Z)).
  pose proof defined_next_timestamp.
  runs_go.
Qed.

Lemma defined_versioning_insert h (trigdata : TriggerData Z) typcache n :
  is_Some (tg_trigtuple trigdata) →
  runs_defined session_ok (versioning_insert h trigdata typcache n).
Proof.
  intros Htup. unfold versioning_insert.
  pose proof (defined_get_system_time_M (T:=Z)).
  pose proof (defined_make_range_M (T:=Z)).
  pose proof (defined_modify_tuple (T:=Z)).
  runs_go.
Qed.

Lemma defined_versioning_update h (trigdata : TriggerData Z) typcache pname hname adj :
  let td := RelationGetDescr (tg_relation trigdata) in
  is_Some (tg_trigtuple trigdata) → is_Some (tg_newtuple trigdata) →
  period_value_typed trigdata pname →
  NoDup (attname <$> live_columns td) → 0 < SPI_fnumber td pname →
  runs_defined session_ok
    (versioning_update h trigdata typcache (SPI_fnumber td pname) pname hname adj).
Proof.
  intros td [old Hold] Hnew Htyped Hnd Hpos. unfold versioning_update.
  pose proof (defined_get_system_time_M (T:=Z)).
  pose proof (defined_make_range_M (T:=Z)).
  pose proof (defined_modify_tuple (T:=Z)).
  pose proof defined_adjust_system_period.
  pose proof (λ tuple, defined_insert_history_row h tuple _ hname _ Hnd Hpos).
  eapply runs_defined_bind_defined; [exact Hold|].
  destruct (modified_in_current_transaction h old); [runs_go|].
  apply runs_defined_bind.
  { apply defined_deserialize_system_period. intros d. by apply Htyped. }
  runs_go.
Qed.

Lemma defined_versioning_delete h (trigdata : TriggerData Z) typcache pname hname adj :
  let td := RelationGetDescr (tg_relation trigdata) in
  is_Some (tg_trigtuple trigdata) →
  period_value_typed trigdata pname →
  NoDup (attname <$> live_columns td) → 0 < SPI_fnumber td pname →
  runs_defined session_ok
    (versioning_delete h trigdata typcache (SPI_fnumber td pname) pname hname adj).
Proof.
  intros td [old Hold] Htyped Hnd Hpos. unfold versioning_delete.
  pose proof (defined_get_system_time_M (T:=Z)).
  pose proof (defined_make_range_M (T:=Z)).
  pose proof (defined_modify_tuple (T:=Z)).
  pose proof defined_adjust_system_period.
  pose proof (λ tuple, defined_insert_history_row h tuple _ hname _ Hnd Hpos).
  eapply runs_defined_bind_defined; [exact Hold|].
  destruct (modified_in_current_transaction h old); [runs_go|].
  apply runs_defined_bind.
  { apply defined_deserialize_system_period. intros d. by apply Htyped. }
  runs_go.
Qed.

(** No undefined behaviour.  With integer timestamps, in a session whose
    cache satisfies its invariant and whose stack of temporal contexts the
    callbacks have built, a call that the trigger manager makes, for a
    relation whose live columns have distinct names, with a first argument
    that is not the name of a system column and a row whose period column
    holds NULL or a range, does not run into undefined behaviour of the C
    code: no NULL pointer or missing argument is read, no array is left, no
    freed plan is executed.  The call ends in a state of the same kind. *)
Theorem versioning_runs_defined :
  ∀ h (trigdata : TriggerData Z) s,
    let td := RelationGetDescr (tg_relation trigdata) in
    let run := versioning h (TriggerDataNode trigdata) s in
    session_ok s → well_formed_call trigdata →
    NoDup (attname <$> live_columns td) →
    (∀ pname, tgargs (tg_trigger trigdata) !! 0%nat = Some pname →
              SystemAttributeByName pname = None ∧ period_value_typed trigdata pname) →
    run.1 ≠ Err ERR_undefined_behaviour ∧ session_ok run.2.
Proof.
  intros h trigdata s td run Hok (Hnargs & Htup & Hnew) Hnd Hperiod.
  revert s Hok run. change (runs_defined session_ok (versioning h (TriggerDataNode trigdata))).
  unfold versioning.
  destruct (_ || _); [runs_go|]. destruct (_ && _); [runs_go|].
  destruct (Z.eqb_spec (tgnargs (tg_trigger trigdata)) 3) as [H3|]; [|runs_go].
  simpl. rewrite H3 in Hnargs.
  destruct (tgargs (tg_trigger trigdata)) as [|pname [|hname [|adj [|? ?]]]] eqn:Hargs;
    simpl in Hnargs; try lia.
  destruct (Hperiod pname eq_refl) as [Hsys Htyped].
  eapply runs_defined_bind_defined; [reflexivity|]. fold td.
  destruct (Z.eqb_spec (SPI_fnumber td pname) SPI_ERROR_NOATTRIBUTE) as [|Hfound];
    [runs_go|].
  assert (0 < SPI_fnumber td pname) as Hpos.
  { revert Hfound. unfold SPI_fnumber. rewrite Hsys.
    destruct (SPI_fnumber_from 0 td pname) as [n|] eqn:E; [|done].
    intros _. destruct (SPI_fnumber_from_live _ _ _ _ E) as (_ & _ & _ & _ & _ & ?). lia. }
  destruct (SPI_fnumber_positive _ _ Hpos) as (attr & _ & _ & _ & Hattr).
  eapply runs_defined_bind_defined; [exact Hattr|].
  destruct (attisdropped attr); [runs_go|]. destruct (negb _); [runs_go|].
  apply runs_defined_bind; [apply defined_get_period_typcache|]. intros typcache.
  destruct (TRIGGER_FIRED_BY_INSERT _); [by apply defined_versioning_insert|].
  eapply runs_defined_bind_defined; [reflexivity|].
  eapply runs_defined_bind_defined; [reflexivity|].
  destruct (TRIGGER_FIRED_BY_UPDATE _) eqn:Eupd.
  - apply defined_versioning_update; try done. by apply Hnew.
  - by apply defined_versioning_delete.
Qed.

End InvocationDefined.

Lemma versioning_runs_defined_witness :
  let old := mkHeapTuple 10 (sample_row 1 "a" (Some (RangeValue (Some (100, true)) None))) in
  let new := mkHeapTuple 0 (sample_row 1 "b" (Some (RangeValue (Some (100, true)) None))) in
  let trigdata := mkTriggerData (before_row TRIGGER_EVENT_UPDATE) sample_relation
                    (Some old) (Some new) (sample_trigger "false") in
  let run := versioning (sample_host 11 200) (TriggerDataNode trigdata) initial_state in
  session_ok (initial_state (T:=Z)) ∧
  run.1 ≠ Err ERR_undefined_behaviour ∧ session_ok run.2.
Proof.
  intros old new trigdata run.
  assert (session_ok (initial_state (T:=Z))) as Hok.
  { split; [apply cache_inv_initial|]. split; [intros Hset; discriminate Hset|].
    by exists [], []. }
  split; [exact Hok|].
  apply (versioning_runs_defined (sample_host 11 200) trigdata initial_state Hok).
  - split; [reflexivity|]. split; [by exists old|]. intros _. by exists new.
  - apply (bool_decide_unpack _). by vm_compute.
  - intros pname Hp. simpl in Hp. simplify_eq. split; [reflexivity|].
    intros tuple d Htup Hd. simpl in Htup. simplify_eq.
    vm_compute in Hd. simplify_eq. by eexists.
Defined.
(* ===================================================================== *)
(** * The timeline of a row *)

Section Timeline.
Implicit Types (s : State Z) (v u : Version) (us : list Version).

Lemma sample_updates_timeline adjust id us : ∀ v s,
  cache_inv s → st_contexts s = PG_init →
  table_rows sample_relation s = [version_row id v] →
  versions_in_order v us →
  ∃ s',
    sample_updates adjust us s = (Ok tt, s') ∧
    cache_inv s' ∧ st_contexts s' = PG_init ∧
    table_rows sample_relation s' = [version_row id (default v (last us))] ∧
    table_rows sample_history s' = table_rows sample_history s ++ version_history id v us.
Proof.
  induction us as [|u us IH]; intros v s Hinv Hctx Hlive Hord; simpl.
  - exists s. by rewrite app_nil_r.
  - destruct Hord as (Hx & Ht & Hord).
    destruct (sample_exec_update u.1.1 u.1.2 adjust 0 v.1.1 id v.2 u.2 v.1.2 s)
      as (s1 & Hupd & Hinv1 & Hctx1 & Hlive1 & Hhist1); try done.
    { by rewrite Hlive. }
    rewrite Hlive in Hlive1. simpl in Hlive1.
    destruct (IH u s1 Hinv1 Hctx1) as (s' & Hrun & Hinv' & Hctx' & Hlive' & Hhist');
      [by destruct u as [[? ?] ?]|done|].
    exists s'. rewrite run_bind. unfold sample_update. rewrite Hupd.
    split; [done|]. split; [done|]. split; [done|].
    split; [rewrite Hlive', last_cons; by destruct (last us)|].
    rewrite Hhist', Hhist1. by rewrite <- app_assoc.
Qed.

(** The timeline of a row.  On the sample installation, a row inserted and
    then updated any number of times, each time by another transaction than
    the time before and at a later system time, leaves one history row per
    update: the version that the update replaced, with the period from the
    system time at which it was written to the system time of the update.
    The periods follow one another without gap or overlap, and the live row
    carries the last version from the time of the last update on. *)
Theorem row_timeline :
  ∀ adjust id v us,
    versions_in_order v us →
    ∃ s',
      (exec_insert (sample_host v.1.1 v.1.2) sample_relation (sample_trigger adjust)
         (sample_row id v.2 None);;
       sample_updates adjust us) initial_state = (Ok tt, s') ∧
      table_rows sample_relation s' = [version_row id (default v (last us))] ∧
      table_rows sample_history s' = version_history id v us.
Proof.
  intros adjust id v us Hord.
  pose proof (sample_exec_insert v.1.1 v.1.2 adjust id v.2 initial_state eq_refl) as Hins.
  set (s1 := set_table_rows sample_relation _ initial_state) in Hins.
  destruct (sample_updates_timeline adjust id us v s1)
    as (s' & Hrun & _ & _ & Hlive & Hhist);
    [by apply cache_inv_set_heap_rows, cache_inv_initial|done|done|done|].
  exists s'. rewrite run_bind, Hins. by repeat split.
Qed.

End Timeline.

Lemma row_timeline_witness :
  ∃ s',
    (exec_insert (sample_host 10 100) sample_relation (sample_trigger "false")
       (sample_row 1 "a" None);;
     sample_updates "false" [(11, 200, "b"); (12, 300, "c")]) initial_state = (Ok tt, s') ∧
    table_rows sample_relation s' =
      [mkHeapTuple 12 (sample_row 1 "c" (Some (RangeValue (Some (300, true)) None)))] ∧
    table_rows sample_history s' =
      [mkHeapTuple 11 (sample_row 1 "a"
                         (Some (RangeValue (Some (100, true)) (Some (200, false)))));
       mkHeapTuple 12 (sample_row 1 "b"
                         (Some (RangeValue (Some (200, true)) (Some (300, false)))))].
Proof.
  apply (row_timeline "false" 1 (10, 100, "a") [(11, 200, "b"); (12, 300, "c")]).
  simpl. lia.
Defined.
